(* ===== verification/_CoqProject ===== *)
-Q . S2P
Prelude.v
JsNum.v
Decimal.v
Types.v
Levels.v
Rng.v
Step.v
Binary64.v
RngFacts.v
SpawnFacts.v
StepFacts.v
StepInv.v
Replayer.v
EngineProps.v
RuntimeTypes.v
Rewind.v
Chaos.v
Json.v
Validate.v
Tape.v
Persistence.v
JsMap.v
JsSort.v
Text.v
Paging.v
Base64.v
Logs.v
RunCode.v
Loop.v
ApiTypes.v
Apps.v
AppPages.v
ControlPlane.v
Dedupe.v
WorkflowsPage.v
StatePage.v
RecordDialog.v
Reveal.v
Konami.v
Telemetry.v
History.v
Prefs.v
DaprRef.v
Clock.v
DetailPage.v
PayloadCard.v
Validation.v
Cli.v
YamlEmit.v
ComponentBuilder.v
StoreDialog.v
ResiliencyBuilder.v
ResiliencyDialogs.v
ResiliencyPage.v
ResiliencyEdits.v
ResourcePages.v
Highlight.v
Montage.v
Display.v
Canvas.v
Sprites.v
Scene.v
SceneFacts.v
RuntimeProps.v
Game.v
GameFacts.v
GameInv.v
GamePlay.v
GameCrash.v
GameWatch.v
ReplayPage.v
Widgets.v
StorePanel.v
Shell.v
BuilderPage.v
Listings.v
WorkflowView.v
StateView.v
AppView.v
Routes.v
