(* ===== verification/Prelude.v ===== *)
(** * A verified model of the dev-dashboard web client

    The repository is the Dapr development dashboard: a Go server that serves a
    JSON API, and a React client under [src/web/src].  This library models the
    client: the replay game it hides, which is a deterministic engine with
    recorded histories (the same idea as a workflow engine's), and the logic
    behind its pages, builders and text utilities.  Paths below are relative to
    [src/web/src].

    ** The replay game ([pages/replay])

    The engine is a pure function: [step] takes a state, the player's commands
    and the inputs of a tick (random draws, pickups, answers of slow calls) and
    gives the next state with the events of the tick.  The runtime wraps it: a
    class holding the phase machine, the history recorded so far, a rewind
    buffer, a chaos scheduler that kills the process, a tape of every value
    taken from outside, and a save store.  After a crash the history is replayed
    and play goes on where it was.

    - [Types], [Levels]: [engine/types.ts], [engine/levels.ts].  The flat union
      of history events is split into inputs and outcomes.
    - [Rng], [Binary64], [RngFacts]: [engine/rng.ts], [engine/seed.ts],
      [engine/hash.ts]; what is needed of binary64 rounding; what the generator
      draws.
    - [Step], [SpawnFacts], [StepFacts], [StepInv], [EngineProps]:
      [engine/step.ts] and what every reachable state satisfies.
    - [Replayer]: [engine/replay.ts].
    - [RuntimeTypes], [Rewind], [Chaos], [Tape], [Validate], [Persistence],
      [RunCode], [Loop], [Montage], [RuntimeProps]: [runtime/types.ts],
      [rewind.ts], [chaos.ts], [tape.ts], [validate.ts], [persistence.ts],
      [share.ts], [loop.ts] with [keys.ts] and [daily.ts], [montage.ts].
    - [Game], [GameFacts], [GameInv], [GamePlay], [GameCrash], [GameWatch]:
      [runtime/game.ts]; every field of the class is a field of one record and
      every method a function on it, and the methods call the components above
      the way the class does.
    - [Display]: [render/interpolate.ts], [render/pose.ts], what is shown between
      two ticks.  [Canvas]: the calls a frame makes on its drawing context, and
      when a sequence of calls is in order; [Sprites]: [render/palette.ts],
      [shading.ts], [sprites.ts], [props.ts]; [Scene]: [render/background.ts],
      [render/canvas.ts]; [SceneFacts], on intervals of doubles: what
      the ground covers, and that the drawing loops end.
    - [ReplayPage]: [Replay.tsx] with [Overlay.tsx] and [HistoryPanel.tsx] as an
      event machine: keys, frames, the cards' buttons, and the encodings and
      decodings under way, which end in any order.

    What is shown: a history replayed from its start gives the state live play
    reached, event for event ([Replayer.replay_reproduces_live_play]), an
    accepted replay is a run of [step] ([replay_ok_is_a_run]), and the replay
    ends ([replay_terminates]).  Whatever keys are pressed and frames pass, the
    game holds a history that explains its state ([GamePlay], an invariant kept
    by every operation, and reachability); a crash is survived ([GameCrash]);
    watching a run writes nothing, and every save handed to the store can be
    loaded ([GameWatch]).  Counters stay in range, a
    pickup is collected once, the spawn loops end and the draws are exact
    ([EngineProps]).  A tape plays back what it recorded, a save check accepts
    exactly the well-formed saves, a shared code decodes to its tape and
    nothing else is accepted ([RuntimeProps], [RunCode]).  The montage shows states of the recorded runs and
    ends ([RuntimeProps]).  A frame's calls find what they use set in that frame
    and leave no trace, in a browser with the methods they call ([Scene]), the ground is
    drawn exactly beside the pits ([SceneFacts]).  On the page, the end card
    shows the code of its own run, and that code, pasted on any page, plays that
    run's tape back for as long as it is watched ([ReplayPage], on top of [RunCode] and [Game]).

    ** The dashboard

    - Lists: [Dedupe] ([lib/dedupeWorkflows.ts], [lib/dedupeStores.ts]), [Apps]
      (the labels and states of an application), [ApiTypes] ([types/api.ts],
      [types/workflow.ts]).
    - Pages: [Paging] (what the list pages share), [WorkflowsPage]
      ([pages/Workflows.tsx], [hooks/useWorkflows.ts]), [StatePage]
      ([pages/State.tsx], [hooks/useStateRecords.ts]), [DetailPage]
      ([pages/WorkflowDetail.tsx]), [Logs] ([pages/Logs.tsx],
      [hooks/useLogStream.ts], [lib/loglevel.ts], [lib/logtime.ts]), [StoreDialog]
      ([components/StateStoreConnectionDialog.tsx],
      [hooks/useComponentCatalog.ts]).  A page is the record of its React
      state; a handler or effect is a function on it, given what the queries
      show at that moment.
      [ResiliencyDialogs], [ResiliencyPage], [ResiliencyEdits]: the dialogs and
      the page of the resiliency builder ([pages/resiliency-builder]) as an
      event machine of what is clicked and typed; [RecordDialog]
      ([components/NewStateRecordDialog.tsx]); [ResourcePages]
      ([pages/HttpEndpoints.tsx], [pages/Resiliency.tsx]); [AppPages]
      ([pages/Applications.tsx], [pages/AppDetail.tsx], [hooks/useAppAction.ts],
      [lib/capabilities.ts]); [ControlPlane] ([pages/ControlPlane.tsx]);
      [PayloadCard] ([components/PayloadView.tsx], [hooks/useBinaryFile.ts]);
      [Cli] ([lib/cli.ts], [components/CliDrawer.tsx]).
      [StorePanel] ([components/StateStoreConnectionsPanel.tsx],
      [hooks/useStoreMutations.ts]); [BuilderPage] ([pages/component-builder]);
      [Listings] ([pages/Actors.tsx], [pages/Subscriptions.tsx] with
      [components/PublishMessageDialog.tsx] and [hooks/usePublishMessage.ts],
      [pages/ResourceList.tsx], [pages/ResourceDetail.tsx], the secret panels,
      [lib/api.ts], [hooks/useResources.ts], [lib/useDocumentTitle.ts],
      [hooks/useAppTelemetry.ts]); [Shell] ([App.tsx], [components/TopNav.tsx],
      [RefreshControl.tsx], [ThemeToggle.tsx], [ResourcesSidebar.tsx],
      [lib/share.ts], [lib/clipboard.ts]); [Routes] ([router.tsx], with the links
      of all pages); [WorkflowView], [StateView] and
      [AppView]: what the detail page, the state page and the application pages
      show, with their dialogs and the requests under way
      ([components/ConfirmRemoveDialog.tsx], [hooks/useWorkflowRemoval.ts]).
    - Hooks: [Reveal] ([hooks/useSecretReveal.ts]), [Konami]
      ([hooks/useKonami.ts]), [Telemetry] ([lib/telemetry.ts],
      [hooks/useDiscoveryTelemetry.ts]), [Prefs] ([lib/safeStorage.ts],
      [lib/refresh.tsx], [lib/prefs.ts], [lib/newsSeen.ts]), [Widgets]
      ([lib/toast.tsx], [hooks/useFollowScroll.ts], [hooks/useModalFocus.ts] with
      [components/Modal.tsx] and [ConfirmDialog.tsx]).
    - Histories: [History] ([lib/eventOrder.ts], [lib/pairing.ts]), [Clock]
      ([lib/wallclock.ts], [lib/uptime.ts], [lib/formatBytes.ts]), [DaprRef]
      ([lib/daprRef.ts], [lib/payloadContent.ts]), [Base64] ([lib/base64.ts]).
    - Builders: [Validation] ([lib/validation.ts]), [YamlEmit]
      ([lib/yaml-emit.ts]), [ComponentBuilder] and [ResiliencyBuilder] (the
      reducers, the step gates and the assembled documents).
    - Highlighting: [Highlight] ([lib/json-highlight.tsx],
      [lib/yaml-highlight.tsx], [lib/copy-links.tsx]).

    What is shown: removals and deletions touch only rows that were listed
    ([WorkflowsPage], [StatePage]); a log stream keeps the last lines of the
    log, and two streams merge in the order of their times ([Logs]); a revealed
    secret is hidden in time ([Reveal]); every telemetry call reaches the SDK
    in order ([Telemetry]); builders keep their references and required fields
    consistent ([ResiliencyBuilder], [ComponentBuilder], [StoreDialog]); the
    lists without duplicates agree with reference definitions ([Dedupe]);
    every record of the resiliency builder stays valid and is found in its
    document, a save writes one of them and reopening one changes nothing but a
    number left blank ([ResiliencyPage], [ResiliencyEdits]); what can be asked of an application, an instance's
    payload or a record's overwrite was offered for it ([AppPages],
    [PayloadCard], [RecordDialog]); a masked URL shows nothing of its password
    ([ResourcePages]); a component is previewed only when it is complete
    ([BuilderPage]); a message is published to, and a store disconnected from,
    what was listed and asked for ([Listings], [StorePanel]);
    a removal, a deletion or a cleared list was confirmed as it was asked for
    ([WorkflowView], [StateView], [AppView]); a chip of the timeline leads to its
    partner ([WorkflowView]) and a link to the page it names ([Routes]);
    a reload brings back what the shell shows ([Shell]); the focus stays in a
    dialog, a toast shows its last text in its time, a followed log stays at
    its end ([Widgets]); displayed histories are permutations in order with a
    matching of starts and completions ([History]); validators accept exactly the texts of a reference
    grammar ([Validation], [DaprRef]); highlighting loses no text
    ([Highlight]).  Where a theorem's condition is needed, an example shows
    what the code does without it.

    ** Foundations

    [JsNum], [Decimal] (numbers and their texts), [JsMap] ([Map] and objects in
    insertion order), [JsSort] ([Array.prototype.sort]), [Json] (decoded JSON
    values), [Text] (strings), and this file: notation, automation
    and the libraries.

    ** Conventions

    - A number the program only gives integer values is a [Z], with the
      language's conversions ([ToInt32], [ToUint32], [Math.floor]) written out;
      every other number is a binary64 float.
    - A [string] is a list of code units below 256, where a component looks only
      at ASCII; a [text] is a list of UTF-16 code units.
    - State is passed explicitly.  Mutable aliases become indices.  An absent
      optional field is [None].  A [useState] updater is a function of the old
      state; an effect is a function run when its dependencies change.
    - What is outside the source is a parameter, with its documented behaviour
      as laws where a theorem needs them: [Date.parse] and the clock, the
      grammar of JSON texts, the UTF-8 codec, deflate, [Number] of a text,
      Unicode lower case, the digest, the form a canvas gives a colour, the router's choice among routes, browser storage, the caching library's
      answers, the telemetry SDK.

    ** Fuel

    - [step]'s spawn loops run with as much fuel as there are pixels to catch up,
      and a gap is more than a pixel; [EngineProps.spawning_catches_up] says that
      they stop by their own test.
    - A replay runs to the history's last tick: one iteration per tick.
    - A montage runs the source's own number of ticks per frame; it ends within
      the ticks of its segments ([RuntimeProps.montage_shows_the_run]).
    - The tokenizers of [Highlight] have the length of their text; each round
      consumes some of it.
    - [nextName] tries one more name than there are
      ([ResiliencyBuilder.nextName_terminates_fresh]).
    - Racks, dashes of the ground and tiles of the background are drawn in at
      most [RACK_FUEL], [DASH_FUEL] and [TILE_FUEL] rounds;
      [SceneFacts.drawing_loops_end] says that the loops end before.
    - [GameCrash] counts the frames of the countdown and one per tick replayed.

    ** Not modelled

    - Rendering: JSX and styles. The pieces and classes a component shows are
      modelled, their elements are not.  Of a drawn frame the calls on the
      canvas are modelled, not the pixels.
    - The Go server ([cmd], [pkg]): discovery, lifecycle and store access are
      seen only through the API's answers.
    - Components that are markup only ([components/Logo.tsx], [Spinner.tsx],
      [StatusPill.tsx], [pages/Placeholder.tsx] and the like) and [main.tsx].
    - js-yaml, the caching library, the router and the RUM SDK, of which the
      source only makes calls.
    - Subscribers of the game ([subscribe]): they are counted, not called.
*)

From stdpp Require Export base tactics list option numbers strings gmap sorting.
From Stdlib Require Export ZArith Lia.

(** ** Scope and notation *)

Declare Scope js_scope.
Delimit Scope js_scope with js.

(** Maps and options are stdpp's; the nullish coalescing [a ?? b] of the
    source is [default b a]. *)

(** ** Automation *)

(** Splits every [if] on a boolean and every [match] the goal is stuck on. *)
Ltac break_match :=
  match goal with
  | |- context [ match ?x with _ => _ end ] => destruct x eqn:?
  end.

Ltac break_match_in H :=
  match type of H with
  | context [ match ?x with _ => _ end ] => destruct x eqn:?
  end.

(** Decides closed goals by evaluation. *)
Ltac eval_now := vm_compute; reflexivity.

Create HintDb js discriminated.
Create Rewrite HintDb js_rew.
Create Rewrite HintDb js_bool.
#[export] Hint Rewrite Z.ltb_lt Z.ltb_ge Z.leb_le Z.leb_gt Z.eqb_eq Z.eqb_neq
  andb_true_iff orb_false_iff negb_true_iff negb_false_iff : js_bool.

(** Turns boolean tests of the code into propositions, everywhere. *)
Ltac bool_to_prop := autorewrite with js_bool in *.

(** ** Lists *)

Section ListFacts.
Context {A : Type}.
Implicit Types l : list A.

Lemma Forall_filter_true (P : A -> Prop) (f : A -> bool) l :
  Forall P l -> Forall P (List.filter f l).
Proof. induction 1; simpl; [constructor|]. case_match; auto. Qed.

Lemma Forall_alter (P : A -> Prop) (f : A -> A) i l :
  Forall P l -> (forall x, P x -> P (f x)) -> Forall P (alter f i l).
Proof.
  intros Hl Hf. revert i. induction Hl; intros [|i]; simpl; constructor; auto.
  apply IHHl.
Qed.
End ListFacts.

Lemma alter_middle {A} (f : A -> A) (l1 l2 : list A) x :
  alter f (length l1) (l1 ++ x :: l2) = l1 ++ f x :: l2.
Proof. induction l1; simpl; [done|]. unfold alter in *. simpl. by rewrite IHl1. Qed.

Lemma lookup_split {A} (l : list A) i x :
  l !! i = Some x -> exists l1 l2, l = l1 ++ x :: l2 /\ length l1 = i.
Proof.
  intros H. exists (take i l), (drop (S i) l). split.
  - symmetry. by apply take_drop_middle.
  - apply lookup_lt_Some in H. rewrite length_take. lia.
Qed.

Lemma fold_left_inv {A B} (I : A -> Prop) (f : A -> B -> A) l : forall a,
  (forall a b, b ∈ l -> I a -> I (f a b)) -> I a -> I (fold_left f l a).
Proof.
  induction l as [|b l IH]; simpl; intros a Hf Ha; [done|].
  apply IH; [|apply Hf; [constructor|done]]. intros. apply Hf; [by constructor|done].
Qed.

Section MoreListFacts.
Context {A B : Type}.
Implicit Types l : list A.

Lemma list_filter_all (P : A -> Prop) `{forall x, Decision (P x)} l : Forall P l -> filter P l = l.
Proof. induction 1 as [|x l Hx Hl IH]; [done|]. rewrite filter_cons, decide_True by done. by f_equal. Qed.

Lemma sublist_fmap (f : A -> B) l l' : l `sublist_of` l' -> f <$> l `sublist_of` f <$> l'.
Proof. induction 1; cbn [fmap list_fmap]; by constructor. Qed.

Lemma find_app (f : A -> bool) l l' :
  List.find f (l ++ l') = match List.find f l with Some x => Some x | None => List.find f l' end.
Proof. induction l as [|x l IH]; [done|]. cbn. by destruct (f x). Qed.

Lemma Forall2_insert_r {C} (P : C -> A -> Prop) (ks : list C) l i k x :
  Forall2 P ks l -> ks !! i = Some k -> P k x -> Forall2 P ks (<[i := x]> l).
Proof.
  intros H. revert i. induction H as [|k' y ks l Hy H IH]; intros [|i] Hi Hx; cbn in *; [done|done|..].
  - injection Hi as ->. by constructor.
  - constructor; [done|]. by apply IH.
Qed.

Lemma Forall2_impl_in {C} (P Q : C -> A -> Prop) (ks : list C) l :
  Forall2 P ks l -> (forall k x, k ∈ ks -> P k x -> Q k x) -> Forall2 Q ks l.
Proof.
  induction 1 as [|k x ks l Hx H IH]; intros HQ; constructor; [apply HQ; [by left|done]|].
  apply IH. intros ????. apply HQ; [by right|done].
Qed.

Lemma concat_map_snoc (f : A -> list B) l x : concat (map f (l ++ [x])) = concat (map f l) ++ f x.
Proof. rewrite map_app, concat_app. cbn. by rewrite app_nil_r. Qed.
End MoreListFacts.
