(* ===== verification/JsNum.v ===== *)
(** * JavaScript numbers

    A JavaScript number is an IEEE-754 binary64 value: [num] is the kernel's
    primitive [float].  Quantities the program only ever gives integer values
    (ticks, ids, counters, uint32 states) are [Z]; the conversions below are
    the ones the language performs ([ToInt32], [ToUint32], [Math.floor],
    [Math.round]). *)

From Stdlib Require Export Floats.
From S2P Require Import Prelude.
#[local] Open Scope Z_scope.

Abbreviation num := float.

(** ** 32-bit integer operations *)

Definition W32 : Z := 4294967296.

(** [ToUint32] and [ToInt32] of an integer. *)
Definition to_u32 (z : Z) : Z := z mod W32.
Definition to_i32 (z : Z) : Z :=
  let u := to_u32 z in if u <? 2147483648 then u else u - W32.

(** [a >>> k], [a ^ b], [a | b], [a & b] and [Math.imul(a, b)]. *)
Definition ushr (a k : Z) : Z := Z.shiftr (to_u32 a) k.
Definition bxor (a b : Z) : Z := Z.lxor (to_i32 a) (to_i32 b).
Definition bor (a b : Z) : Z := Z.lor (to_i32 a) (to_i32 b).
Definition band (a b : Z) : Z := Z.land (to_i32 a) (to_i32 b).
Definition imul (a b : Z) : Z := to_i32 (a * b).

(** ** Conversions between integers and doubles *)

(** The double nearest to an integer. *)
Definition of_Z (z : Z) : num := SF2Prim (binary_normalize prec emax z 0 false).

(** [m * 2^e] rounded towards minus infinity, and towards zero. *)
Definition sf_floor (s : bool) (m : positive) (e : Z) : Z :=
  let v := if s then Zneg m else Zpos m in Z.shiftl v e.
Definition sf_trunc (s : bool) (m : positive) (e : Z) : Z :=
  let v := Z.shiftl (Zpos m) e in if s then - v else v.

(** The integer part of a finite double; [None] for NaN and the infinities. *)
Definition floor_Z (x : num) : option Z :=
  match Prim2SF x with
  | S754_zero _ => Some 0
  | S754_finite s m e => Some (sf_floor s m e)
  | _ => None
  end.
Definition trunc_Z (x : num) : option Z :=
  match Prim2SF x with
  | S754_zero _ => Some 0
  | S754_finite s m e => Some (sf_trunc s m e)
  | _ => None
  end.

(** [Math.floor]: NaN, infinities and signed zeros are kept. *)
Definition num_floor (x : num) : num :=
  match Prim2SF x with
  | S754_finite s m e => of_Z (sf_floor s m e)
  | _ => x
  end.

(** [Math.ceil(x)], with its negative zero for [-1 < x < 0]. *)
Definition num_ceil (x : num) : num :=
  (- num_floor (- x))%float.

(** The integer [Math.round] picks for a finite double: the nearest one, a tie
    going up.  [floor (x + 1/2)] is taken exactly, on the doubled mantissa. *)
Definition sf_round (s : bool) (m : positive) (e : Z) : Z :=
  let v := if s then Zneg m else Zpos m in
  if 0 <=? e then Z.shiftl v e
  else Z.shiftl (v + Z.shiftl 1 (- e - 1)) e.
Definition round_Z (x : num) : option Z :=
  match Prim2SF x with
  | S754_zero _ => Some 0
  | S754_finite s m e => Some (sf_round s m e)
  | _ => None
  end.

(** [Math.round]: a negative argument that rounds to zero gives [-0]. *)
Definition num_round (x : num) : num :=
  match Prim2SF x with
  | S754_finite s m e =>
      let z := sf_round s m e in
      if (z =? 0) && s then neg_zero else of_Z z
  | _ => x
  end.

(** [x | 0] and [x >>> 0]: NaN and the infinities give 0. *)
Definition num_to_i32 (x : num) : Z := to_i32 (default 0 (trunc_Z x)).
Definition num_to_u32 (x : num) : Z := to_u32 (default 0 (trunc_Z x)).

(** [Math.min] and [Math.max]: NaN is contagious, [-0 < +0]. *)
Definition is_neg_zero (x : num) : bool :=
  match Prim2SF x with S754_zero true => true | _ => false end.
Definition num_min (a b : num) : num :=
  if negb (a =? a)%float then a
  else if negb (b =? b)%float then b
  else if (a <? b)%float then a
  else if (b <? a)%float then b
  else if is_neg_zero b then b else a.
Definition num_max (a b : num) : num :=
  if negb (a =? a)%float then a
  else if negb (b =? b)%float then b
  else if (a <? b)%float then b
  else if (b <? a)%float then a
  else if is_neg_zero a then b else a.

(** [Number.isFinite]. *)
Definition is_finite (x : num) : bool :=
  match Prim2SF x with S754_zero _ | S754_finite _ _ _ => true | _ => false end.

(** ** Range facts of the 32-bit operations *)

Lemma to_u32_range z : 0 <= to_u32 z < W32.
Proof. apply Z.mod_pos_bound. reflexivity. Qed.

Lemma to_u32_id z : 0 <= z < W32 -> to_u32 z = z.
Proof. apply Z.mod_small. Qed.

Lemma to_i32_range z : - 2147483648 <= to_i32 z < 2147483648.
Proof.
  unfold to_i32. pose proof (to_u32_range z). unfold W32 in *.
  destruct (Z.ltb_spec (to_u32 z) 2147483648); lia.
Qed.

Lemma to_u32_i32 z : to_u32 (to_i32 z) = to_u32 z.
Proof.
  unfold to_i32. destruct (_ <? _); unfold to_u32, W32.
  - now rewrite Z.mod_mod.
  - rewrite <- (Z_mod_plus_full _ 1). rewrite Z.mul_1_l, Z.sub_add. now rewrite Z.mod_mod.
Qed.

Lemma ushr_range a k : 0 <= k -> 0 <= ushr a k <= to_u32 a.
Proof.
  intros Hk. unfold ushr. rewrite Z.shiftr_div_pow2 by done.
  pose proof (to_u32_range a). split.
  - apply Z.div_pos; [lia|]. now apply Z.pow_pos_nonneg.
  - apply Z.div_le_upper_bound; [now apply Z.pow_pos_nonneg|].
    assert (1 <= 2 ^ k) by (apply (Z.pow_le_mono_r 2 0 k); lia). nia.
Qed.

#[global] Arguments to_u32 : simpl never.
#[global] Arguments to_i32 : simpl never.
#[global] Arguments ushr : simpl never.
#[global] Arguments bxor : simpl never.
#[global] Arguments bor : simpl never.
#[global] Arguments band : simpl never.
#[global] Arguments imul : simpl never.
#[global] Arguments of_Z : simpl never.
#[global] Arguments num_floor : simpl never.
#[global] Arguments num_round : simpl never.
#[global] Arguments num_min : simpl never.
#[global] Arguments num_max : simpl never.
#[global] Arguments num_to_i32 : simpl never.
#[global] Arguments num_to_u32 : simpl never.
