(* ===== verification/Decimal.v ===== *)
(** * Numbers as text

    [String(n)] of integers, [padStart], [Number.prototype.toFixed] and the
    remainder of a positive double, all exact on the double's value. *)

From Stdlib Require Import Ascii.
From stdpp Require Export pretty.
From S2P Require Import Prelude JsNum.
#[local] Open Scope Z_scope.

(** The last [width] decimal digits. *)
Fixpoint padded (width : nat) (n : Z) : string :=
  match width with
  | O => EmptyString
  | S w => (padded w (n / 10) ++ String (ascii_of_N (Z.to_N (48 + n mod 10))) EmptyString)%string
  end.

(** [String(n).padStart(2, '0')] of a non-negative integer. *)
Definition pad2 (n : Z) : string := if n <? 10 then ("0" ++ pretty n)%string else pretty n.

(** The integer [toFixed(d)] prints the digits of: the nearest to [x * 10^d], a
    tie going up, for a finite [x >= 0]. *)
Definition fixed_Z (d : Z) (x : num) : Z :=
  match Prim2SF x with
  | S754_finite _ m e =>
      if 0 <=? e then Zpos m * 2 ^ e * 10 ^ d
      else (2 * Zpos m * 10 ^ d + 2 ^ (- e)) / 2 ^ (1 - e)
  | _ => 0
  end.
Definition toFixed (d : nat) (x : num) : string :=
  let n := fixed_Z (Z.of_nat d) x in
  match d with
  | O => pretty n
  | _ => (pretty (n / 10 ^ Z.of_nat d) ++ "." ++ padded d (n mod 10 ^ Z.of_nat d))%string
  end.

(** [x % k] of a finite [x >= 0] and a positive integer [k]: exact. *)
Definition num_rem (x : num) (k : Z) : num :=
  match Prim2SF x with
  | S754_finite _ m e =>
      if 0 <=? e then of_Z ((Zpos m * 2 ^ e) mod k)
      else SF2Prim (binary_normalize prec emax (Zpos m mod (k * 2 ^ (- e))) e false)
  | _ => x
  end.

Lemma string_app_assoc (a b c : string) : ((a ++ b) ++ c = a ++ (b ++ c))%string.
Proof. induction a as [|x a IH]; [reflexivity|]. exact (f_equal (String x) IH). Qed.
