(* ===== verification/Types.v ===== *)
(** * The replay engine's data model

    [src/web/src/pages/replay/engine/types.ts]: the view constants, entities,
    players, lanes, the game state and the history events. *)

From S2P Require Import Prelude JsNum.
#[local] Open Scope Z_scope.

(** ** View constants *)

Definition TICK_HZ : Z := 60.
Definition VIEW_W : num := 480%float.
Definition VIEW_H : num := 270%float.
Definition GROUND_Y : num := 230%float.
Definition PLAYER_X : num := 80%float.
Definition SPAWN_X : num := 490%float.

(** ** Enumerations *)

Inductive Level := L0 | L1 | L2 | L3 | L4 | L5.
Inductive PlayerInput := Jump | JumpEnd | SlideStart | SlideEnd.
Inductive InputKind := Press (k : PlayerInput) | ResumeInput | RetryInput.
Inductive EntityKind := Low | High | Coin | Orb | Crate | Tall | Falling | Pit | Fanout.
Inductive Status := Running | Failed | LevelDone | RetryNeeded.

#[export] Instance Level_eq_dec : EqDecision Level.
Proof. solve_decision. Defined.
#[export] Instance PlayerInput_eq_dec : EqDecision PlayerInput.
Proof. solve_decision. Defined.
#[export] Instance InputKind_eq_dec : EqDecision InputKind.
Proof. solve_decision. Defined.
#[export] Instance EntityKind_eq_dec : EqDecision EntityKind.
Proof. solve_decision. Defined.
#[export] Instance Status_eq_dec : EqDecision Status.
Proof. solve_decision. Defined.

Definition level_num (l : Level) : Z :=
  match l with L0 => 0 | L1 => 1 | L2 => 2 | L3 => 3 | L4 => 4 | L5 => 5 end.

(** ** Records *)

Record Entity := {
  e_id : Z;
  e_kind : EntityKind;
  e_x : num;
  e_y : num;
  e_w : num;
  e_h : num;
  e_taken : bool;
  e_vy : option num
}.

Record Player := {
  p_y : num;
  p_vy : num;
  p_sliding : bool;
  p_jumpHeld : bool;
  p_coyoteUntil : Z;
  p_jumpBufferUntil : Z
}.

Record Lane := {
  l_player : Player;
  l_entities : list Entity;
  l_nextSpawnAt : num;
  l_coins : Z
}.

Record StartInput := {
  s_level : Level;
  s_seed : Z;
  s_score : Z;
  s_elapsed : Z;
  s_distance : num;
  s_boss : bool;
  s_retries : Z;
  s_shield : Z
}.

Record Fan := {
  f_until : Z;
  f_lanes : list Lane
}.

Record GameState := {
  g_level : Level;
  g_tick : Z;
  g_elapsed : Z;
  g_rng : Z;
  g_score : Z;
  g_multiplier : Z;
  g_multUntil : Z;
  g_player : Player;
  g_scroll : num;
  g_distance : num;
  g_nextSpawnAt : num;
  g_nextId : Z;
  g_entities : list Entity;
  g_bossUntil : Z;
  g_retries : Z;
  g_shield : Z;
  g_graceUntil : Z;
  g_failedAt : Z;
  g_fan : option Fan;
  g_nextGateAt : num;
  g_status : Status
}.

(** ** History events

    The source's flat union [HistoryEvent] is split here the way its type
    operators split it: [InputEvent] (fed back to [step]) and [OutcomeEvent]
    (produced by [step]). *)

Inductive InputEvent :=
  | Input (tick : Z) (kind : PlayerInput)
  | OrchestratorStarted (tick : Z)
  | RetryAttempt (tick attempt failedAt : Z).

Inductive OutcomeEvent :=
  | ActivityCoinCollected (tick id hash : Z)
  | ActivityCrateCollected (tick id hash : Z) (result : num)
  | OrbTaken (tick id hash : Z)
  | CircuitBreakerTripped (tick id hash : Z)
  | BoostLost (tick id hash : Z)
  | FanOut (tick hash : Z)
  | FanIn (tick hash : Z) (results : list Z).

Inductive HistoryEvent :=
  | InE (e : InputEvent)
  | OutE (e : OutcomeEvent).

Definition input_tick (e : InputEvent) : Z :=
  match e with Input t _ | OrchestratorStarted t | RetryAttempt t _ _ => t end.
Definition outcome_tick (e : OutcomeEvent) : Z :=
  match e with
  | ActivityCoinCollected t _ _ | ActivityCrateCollected t _ _ _ | OrbTaken t _ _
  | CircuitBreakerTripped t _ _ | BoostLost t _ _ | FanOut t _ | FanIn t _ _ => t
  end.
Definition ev_tick (e : HistoryEvent) : Z :=
  match e with InE e => input_tick e | OutE e => outcome_tick e end.

Definition outcome_hash (e : OutcomeEvent) : Z :=
  match e with
  | ActivityCoinCollected _ _ h | ActivityCrateCollected _ _ h _ | OrbTaken _ _ h
  | CircuitBreakerTripped _ _ h | BoostLost _ _ h | FanOut _ h | FanIn _ h _ => h
  end.

(** [{ ...e, hash }]. *)
Definition with_hash (h : Z) (e : OutcomeEvent) : OutcomeEvent :=
  match e with
  | ActivityCoinCollected t i _ => ActivityCoinCollected t i h
  | ActivityCrateCollected t i _ r => ActivityCrateCollected t i h r
  | OrbTaken t i _ => OrbTaken t i h
  | CircuitBreakerTripped t i _ => CircuitBreakerTripped t i h
  | BoostLost t i _ => BoostLost t i h
  | FanOut t _ => FanOut t h
  | FanIn t _ r => FanIn t h r
  end.

(** [Ports]: the only way an outside value reaches the engine.  A call may
    change the outside world, whose state ([P]) it threads. *)
Record Ports (P : Type) := {
  impure : P -> num * P;
  crateValue : Z -> P -> num * P
}.
Arguments impure {P}.
Arguments crateValue {P}.

Lemma with_hash_tick h e : outcome_tick (with_hash h e) = outcome_tick e.
Proof. by destruct e. Qed.
Lemma with_hash_hash h e : outcome_hash (with_hash h e) = h.
Proof. by destruct e. Qed.
#[export] Hint Rewrite with_hash_tick with_hash_hash : js_rew.
