(* ===== verification/Levels.v ===== *)
(** * The level table

    [src/web/src/pages/replay/engine/levels.ts].  The tip texts of the cards
    are left out: nothing but the overlay reads them. *)

From S2P Require Import Prelude JsNum Types.
#[local] Open Scope Z_scope.
#[local] Open Scope js_scope.

Definition Weights : Type := list (EntityKind * num).

Record FanOutConfig := { everyPx : num; fan_ticks : Z }.

Record LevelConfig := {
  cfg_name : string;
  cfg_length : num;
  cfg_speed : num;
  cfg_ramp : num;
  cfg_maxSpeed : num;
  cfg_weights : Weights;
  cfg_bossWeights : Weights;
  cfg_laneWeights : Weights;
  cfg_durable : bool;
  cfg_chaosMeanTicks : option num;
  cfg_chaosFloorTicks : option num;
  cfg_firstCrashTicks : option (Z * Z);
  cfg_scriptedCrashAt : option Z;
  cfg_crashAfterPickup : option (list EntityKind);
  cfg_retries : Z;
  cfg_shieldEnabled : bool;
  cfg_fanOut : option FanOutConfig
}.

Definition LevelTable : Type := Level -> LevelConfig.

Definition CRASH_AFTER_PICKUP : Z * Z := (60, 300).

Definition BOSS : Weights := [(Low, 3%float); (High, 3%float)].
Definition LANES : Weights := [(Low, 2%float); (Pit, 2%float); (Coin, 4%float)].

Definition LEVELS : LevelTable := fun l =>
  match l with
  | L0 => {|
      cfg_name := "No Safety Net";
      cfg_length := infinity; cfg_speed := 3; cfg_ramp := 0; cfg_maxSpeed := 3;
      cfg_weights := [(Low, 2%float); (Coin, 3%float)]; cfg_bossWeights := BOSS; cfg_laneWeights := LANES;
      cfg_durable := false; cfg_chaosMeanTicks := None; cfg_chaosFloorTicks := None;
      cfg_firstCrashTicks := None; cfg_scriptedCrashAt := Some 900; cfg_crashAfterPickup := None;
      cfg_retries := 0; cfg_shieldEnabled := false; cfg_fanOut := None |}
  | L1 => {|
      cfg_name := "Replay";
      cfg_length := 6300; cfg_speed := 3.5; cfg_ramp := 0; cfg_maxSpeed := 3.5;
      cfg_weights := [(Low, 3%float); (High, 2%float); (Coin, 4%float); (Pit, 2%float)];
      cfg_bossWeights := BOSS; cfg_laneWeights := LANES;
      cfg_durable := true; cfg_chaosMeanTicks := Some 1200%float; cfg_chaosFloorTicks := None;
      cfg_firstCrashTicks := Some (480, 720); cfg_scriptedCrashAt := None; cfg_crashAfterPickup := None;
      cfg_retries := 3; cfg_shieldEnabled := true; cfg_fanOut := None |}
  | L2 => {|
      cfg_name := "Temptation";
      cfg_length := 8000; cfg_speed := 4; cfg_ramp := 0; cfg_maxSpeed := 4;
      cfg_weights := [(Low, 3%float); (High, 2%float); (Coin, 3%float); (Orb, 2%float);
                  (Pit, 1%float); (Falling, 2%float)];
      cfg_bossWeights := BOSS; cfg_laneWeights := LANES;
      cfg_durable := true; cfg_chaosMeanTicks := Some 1200%float; cfg_chaosFloorTicks := None;
      cfg_firstCrashTicks := None; cfg_scriptedCrashAt := None; cfg_crashAfterPickup := Some [Orb];
      cfg_retries := 3; cfg_shieldEnabled := true; cfg_fanOut := None |}
  | L3 => {|
      cfg_name := "Wrap It";
      cfg_length := 9000; cfg_speed := 4.5; cfg_ramp := 0; cfg_maxSpeed := 4.5;
      cfg_weights := [(Low, 2%float); (High, 2%float); (Coin, 3%float); (Orb, 1%float);
                  (Crate, 2%float); (Pit, 1%float); (Falling, 1%float); (Tall, 2%float)];
      cfg_bossWeights := BOSS; cfg_laneWeights := LANES;
      cfg_durable := true; cfg_chaosMeanTicks := Some 1200%float; cfg_chaosFloorTicks := None;
      cfg_firstCrashTicks := None; cfg_scriptedCrashAt := None; cfg_crashAfterPickup := Some [Orb; Crate];
      cfg_retries := 3; cfg_shieldEnabled := true; cfg_fanOut := None |}
  | L4 => {|
      cfg_name := "Fan Out";
      cfg_length := 9000; cfg_speed := 4.5; cfg_ramp := 0; cfg_maxSpeed := 4.5;
      cfg_weights := [(Low, 2%float); (High, 2%float); (Coin, 3%float); (Crate, 1%float);
                  (Pit, 2%float); (Falling, 1%float); (Tall, 1%float)];
      cfg_bossWeights := BOSS; cfg_laneWeights := LANES;
      cfg_durable := true; cfg_chaosMeanTicks := Some 1200%float; cfg_chaosFloorTicks := None;
      cfg_firstCrashTicks := None; cfg_scriptedCrashAt := None; cfg_crashAfterPickup := None;
      cfg_retries := 3; cfg_shieldEnabled := true;
      cfg_fanOut := Some {| everyPx := 2500; fan_ticks := 600 |} |}
  | L5 => {|
      cfg_name := "Production";
      cfg_length := infinity; cfg_speed := 5; cfg_ramp := 0.5; cfg_maxSpeed := 9;
      cfg_weights := [(Low, 2%float); (High, 2%float); (Coin, 3%float); (Orb, 1%float);
                  (Crate, 1%float); (Pit, 2%float); (Falling, 1%float); (Tall, 1%float)];
      cfg_bossWeights := BOSS; cfg_laneWeights := LANES;
      cfg_durable := true; cfg_chaosMeanTicks := Some 1200%float; cfg_chaosFloorTicks := Some 480%float;
      cfg_firstCrashTicks := None; cfg_scriptedCrashAt := None; cfg_crashAfterPickup := None;
      cfg_retries := 3; cfg_shieldEnabled := true;
      cfg_fanOut := Some {| everyPx := 4000; fan_ticks := 600 |} |}
  end.

(** [weights[k] ?? 0]: the entry of a key of a partial record. *)
Fixpoint weight_of (ws : Weights) (k : EntityKind) : num :=
  match ws with
  | [] => 0%float
  | (k', w) :: ws => if decide (k = k') then w else weight_of ws k
  end.

Definition speedAt (cfg : LevelConfig) (elapsed : Z) : num :=
  num_min cfg.(cfg_maxSpeed) (cfg.(cfg_speed) + cfg.(cfg_ramp) * (of_Z elapsed / 3600))%float.

Definition chaosMeanTicks (cfg : LevelConfig) (elapsed : Z) : option num :=
  match cfg.(cfg_chaosMeanTicks) with
  | None => None
  | Some mean =>
      match cfg.(cfg_chaosFloorTicks) with
      | None => Some mean
      | Some floor => Some (num_max floor (mean - of_Z elapsed / 10)%float)
      end
  end.
