(* ===== verification/Rng.v ===== *)
(** * Seeded randomness and the state hash

    [engine/rng.ts] (mulberry32), [engine/seed.ts] and [engine/hash.ts]
    (both FNV-1a), on 32-bit integers. *)

From S2P Require Import Prelude JsNum Types.
#[local] Open Scope Z_scope.
#[local] Open Scope js_scope.

(** ** mulberry32 *)

(** The uint32 that [nextRandom] scales to [0, 1). *)
Definition mulberry_out (state : Z) : Z :=
  let t := state in
  let t := imul (bxor t (ushr t 15)) (bor t 1) in
  let t := bxor t (t + imul (bxor t (ushr t 7)) (bor t 61)) in
  to_u32 (bxor t (ushr t 14)).

Definition nextRandom (s : Z) : Z * num :=
  let state := to_u32 (s + 0x6d2b79f5) in
  (state, of_Z (mulberry_out state) / 4294967296)%float.

(** Folds an outside value in [0, 1) into the generator state. *)
Definition mix (s : Z) (v : num) : Z :=
  to_u32 (bxor s (num_to_i32 (num_floor (v * 4294967296)%float))).

(** Derives a fresh seed for a continue-as-new segment. *)
Definition seedFrom (s : Z) : Z :=
  num_to_u32 (num_floor ((nextRandom s).2 * 4294967296)%float).

(** ** FNV-1a *)

Definition FNV_OFFSET : Z := 0x811c9dc5.

(** [h ^= b; h = Math.imul(h, 0x01000193)]. *)
Definition fnv_step (h b : Z) : Z := imul (bxor h b) 0x01000193.

(** The char codes of a string (dates and prefixes are ASCII). *)
Definition charCodes (s : string) : list Z :=
  map (fun c => Z.of_N (Ascii.N_of_ascii c)) (String.list_ascii_of_string s).

Definition seedForDate (date : string) : Z :=
  to_u32 (fold_left (fun h c => fnv_step h (band c 0xff)) (charCodes ("replay:" +:+ date)) FNV_OFFSET).

(** ** The state hash *)

Definition KIND (k : EntityKind) : Z :=
  match k with
  | Low => 1 | High => 2 | Coin => 3 | Orb => 4 | Crate => 5
  | Tall => 6 | Falling => 7 | Pit => 8 | Fanout => 9
  end.

Definition STATUS (s : Status) : Z :=
  match s with Running => 0 | Failed => 1 | LevelDone => 2 | RetryNeeded => 3 end.

(** An element of the serialisation: an integer-valued number or a double. *)
Inductive Part := PZ (z : Z) | PN (n : num).

(** Quantises a float so equal-by-simulation values hash identically. *)
Definition q (n : num) : Part := PN (num_round (n * 100)%float).

Definition bit (b : bool) : Part := PZ (if b then 1 else 0).

(** [p | 0]. *)
Definition part_i32 (p : Part) : Z :=
  match p with PZ z => to_i32 z | PN n => num_to_i32 n end.

Definition pushPlayer (p : Player) : list Part :=
  [q p.(p_y); q p.(p_vy); bit p.(p_sliding); bit p.(p_jumpHeld);
   PZ p.(p_coyoteUntil); PZ p.(p_jumpBufferUntil)].

Definition entityParts (e : Entity) : list Part :=
  [PZ e.(e_id); PZ (KIND e.(e_kind)); q e.(e_x); q e.(e_y); q (default 0%float e.(e_vy));
   bit e.(e_taken)].

Definition pushEntities (es : list Entity) : list Part :=
  PZ (Z.of_nat (length es)) :: concat (map entityParts es).

Definition laneParts (l : Lane) : list Part :=
  pushPlayer l.(l_player) ++ [q l.(l_nextSpawnAt); PZ l.(l_coins)] ++ pushEntities l.(l_entities).

Definition stateParts (s : GameState) : list Part :=
  [PZ (level_num s.(g_level)); PZ s.(g_tick); PZ s.(g_elapsed); PZ s.(g_rng);
   q (of_Z s.(g_score)); PZ s.(g_multiplier); PZ s.(g_multUntil)]
  ++ pushPlayer s.(g_player)
  ++ [q s.(g_scroll); q s.(g_distance); q s.(g_nextSpawnAt); PZ s.(g_nextId);
      PZ s.(g_bossUntil); PZ (STATUS s.(g_status)); PZ s.(g_retries); PZ s.(g_shield);
      PZ s.(g_graceUntil); PZ s.(g_failedAt); q s.(g_nextGateAt)]
  ++ pushEntities s.(g_entities)
  ++ match s.(g_fan) with
     | Some fan =>
         [PZ 1; PZ fan.(f_until); PZ (Z.of_nat (length fan.(f_lanes)))]
         ++ concat (map laneParts fan.(f_lanes))
     | None => [PZ 0]
     end.

(** The four bytes of an int32, least significant first. *)
Definition part_bytes (v : Z) : list Z :=
  map (fun i => band (ushr v (i * 8)) 0xff) [0; 1; 2; 3].

Definition fnv_part (h : Z) (p : Part) : Z :=
  fold_left fnv_step (part_bytes (part_i32 p)) h.

Definition hashState (s : GameState) : Z :=
  to_u32 (fold_left fnv_part (stateParts s) FNV_OFFSET).

(** ** Facts *)

Lemma nextRandom_state_range s : 0 <= (nextRandom s).1 < W32.
Proof. apply to_u32_range. Qed.

Lemma mix_range s v : 0 <= mix s v < W32.
Proof. apply to_u32_range. Qed.

Lemma seedFrom_range s : 0 <= seedFrom s < W32.
Proof. apply to_u32_range. Qed.

Lemma seedForDate_range d : 0 <= seedForDate d < W32.
Proof. apply to_u32_range. Qed.

Lemma hashState_range s : 0 <= hashState s < W32.
Proof. apply to_u32_range. Qed.

#[global] Arguments nextRandom : simpl never.
#[global] Arguments mix : simpl never.
#[global] Arguments seedFrom : simpl never.
#[global] Arguments seedForDate : simpl never.
#[global] Arguments hashState : simpl never.
