(* ===== verification/Step.v ===== *)
(** * One tick of the replay engine

    [engine/step.ts]: movement, spawning, collisions, the hit chain, pickups,
    fan-out and fan-in.  The source clones the state and mutates the clone;
    here the clone is the state passed from one operation to the next, and a
    mutable alias (a track's player, an entity of a track) is an index into
    it. *)

From S2P Require Import Prelude JsNum Types Levels Rng.
#[local] Open Scope Z_scope.
#[local] Open Scope js_scope.

(** ** Constants *)

Definition GRAVITY : num := 0.5%float.
Definition JUMP_VY : num := (-9)%float.
Definition PLAYER_W : num := 30%float.
Definition PLAYER_H : num := 16%float.
Definition SLIDE_H : num := 9%float.
Definition HAZARD_INSET_X : num := 3%float.
Definition BOOST_TICKS : Z := 10 * TICK_HZ.
Definition BOSS_TICKS : Z := 15 * TICK_HZ.
Definition SHIELD_FULL : Z := 10.
Definition GRACE_RESUME : Z := 60.
Definition GRACE_RETRY : Z := 60.
Definition GRACE_BOOST : Z := 60.
Definition GRACE_BARGE : Z := 30.
Definition FAN_LANES : nat := 2.
Definition MERGE_LANE : nat := 0.
Definition FAN_CLEAR_PX : num := 200%float.
Definition LANE_SCALE : num := 0.75%float.
Definition LANE_SPAWN_X : num := (VIEW_W / LANE_SCALE + 10)%float.
Definition GATE_W : num := 12%float.
Definition MIN_GAP : num := 150%float.
Definition GAP_RANGE : num := 130%float.
#[warnings="-inexact-float"]
Definition BOSS_GAP_SCALE : num := 0.8%float.
Definition FIRST_SPAWN_AT : num := 240%float.
Definition PIT_HIT_DEPTH : num := 14%float.
Definition FALL_LEAD_TICKS : num := 60%float.
Definition RACK_GRAVITY : num := 1%float.
Definition PIT_MIN_W : num := 30%float.
Definition PIT_RANGE_W : num := 30%float.
Definition COYOTE_TICKS : Z := 6.
Definition JUMP_BUFFER_TICKS : Z := 6.
Definition JUMP_CUT_VY : num := (-3)%float.

Definition isRack (k : EntityKind) : bool :=
  match k with Low | High | Tall | Falling => true | _ => false end.
Definition isHazard (k : EntityKind) : bool := isRack k || bool_decide (k = Pit).

Definition SIZE (k : EntityKind) : num * num :=
  match k with
  | Low => (14, 20) | High => (22, 30) | Coin => (10, 10) | Orb => (12, 12)
  | Crate => (14, 14) | Tall => (16, 44) | Falling => (18, 24)
  | Pit => (PIT_MIN_W, 0) | Fanout => (GATE_W, GROUND_Y)
  end%float.

Definition ORDER : list EntityKind := [Low; High; Coin; Orb; Crate; Tall; Falling; Pit].

(** ** States *)

Definition newPlayer : Player := {|
  p_y := GROUND_Y; p_vy := 0; p_sliding := false; p_jumpHeld := false;
  p_coyoteUntil := 0; p_jumpBufferUntil := 0 |}.

Definition firstGate (cfg : LevelConfig) (distance : num) : num :=
  match cfg.(cfg_fanOut) with
  | None => infinity
  | Some f => ((num_floor (distance / f.(everyPx)) + 1) * f.(everyPx))%float
  end.

Definition initialState (start : StartInput) (levels : LevelTable) : GameState := {|
  g_level := start.(s_level);
  g_tick := 0;
  g_elapsed := start.(s_elapsed);
  g_rng := to_u32 start.(s_seed);
  g_score := start.(s_score);
  g_multiplier := 1;
  g_multUntil := 0;
  g_player := newPlayer;
  g_scroll := 0;
  g_distance := start.(s_distance);
  g_nextSpawnAt := FIRST_SPAWN_AT;
  g_nextId := 1;
  g_entities := [];
  g_bossUntil := if start.(s_boss) then BOSS_TICKS else 0;
  g_status := Running;
  g_retries := start.(s_retries);
  g_shield := start.(s_shield);
  g_graceUntil := 0;
  g_failedAt := 0;
  g_fan := None;
  g_nextGateAt := firstGate (levels start.(s_level)) start.(s_distance) |}.

(** Snapshot input for a fresh history segment; a patch ([Partial<StartInput>])
    is a function applied to it. *)
Definition continueAsNew (s : GameState) (patch : StartInput -> StartInput) : StartInput :=
  patch {|
    s_level := s.(g_level); s_seed := seedFrom s.(g_rng); s_score := s.(g_score);
    s_elapsed := s.(g_elapsed); s_distance := (s.(g_distance) + s.(g_scroll))%float;
    s_boss := false; s_retries := s.(g_retries); s_shield := s.(g_shield) |}.

(** ** Spawning an entity *)

Fixpoint pick_kind (ws : Weights) (order : list EntityKind) (x : num) : EntityKind :=
  match order with
  | [] => Coin
  | k :: order =>
      let w := weight_of ws k in
      if (x <? w)%float then k else pick_kind ws order (x - w)%float
  end.

Definition total_weight (ws : Weights) : num :=
  fold_left (fun n k => n + weight_of ws k)%float ORDER 0%float.

Definition chooseKind (ws : Weights) (r : num) : EntityKind :=
  pick_kind ws ORDER (r * total_weight ws)%float.

Definition spawnY (kind : EntityKind) (r : num) : num :=
  match kind with
  | Low => GROUND_Y - 20
  | High => GROUND_Y - 42
  | Tall => GROUND_Y - 44
  | Falling => - (SIZE Falling).2
  | Pit => GROUND_Y
  | Coin | Orb => if r <? 0.5 then GROUND_Y - 24 else GROUND_Y - 70
  | _ => GROUND_Y - 60
  end%float.

Definition spawn (kind : EntityKind) (id : Z) (x yRoll : num) : Entity := {|
  e_id := id;
  e_kind := kind;
  e_x := x;
  e_y := spawnY kind yRoll;
  e_w := if decide (kind = Pit)
         then (PIT_MIN_W + num_floor (yRoll * (PIT_RANGE_W + 1)))%float
         else (SIZE kind).1;
  e_h := (SIZE kind).2;
  e_taken := false;
  e_vy := if decide (kind = Falling) then Some 0%float else None |}.

(** ** Movement *)

(** The pit under the player's foot centre, if any. *)
Definition overPit (es : list Entity) : option Entity :=
  let foot := (PLAYER_X + PLAYER_W / 2)%float in
  List.find (fun e => bool_decide (e.(e_kind) = Pit)
                      && (e.(e_x) <=? foot)%float && (foot <? e.(e_x) + e.(e_w))%float) es.

Definition launch (p : Player) : Player :=
  {| p with p_vy := JUMP_VY; p_sliding := false; p_coyoteUntil := 0; p_jumpBufferUntil := 0 |}.

Definition at_ground (p : Player) : bool := (p.(p_y) =? GROUND_Y)%float && (p.(p_vy) =? 0)%float.

(** One input of [movePlayer]'s loop; [support] is [standing || edge]. *)
Definition move_input (support : bool) (tick : Z) (p : Player) (i : InputKind) : Player :=
  match i with
  | Press Jump =>
      let p := {| p with p_jumpHeld := true |} in
      if support || (tick <? p.(p_coyoteUntil)) then launch p
      else {| p with p_jumpBufferUntil := tick + JUMP_BUFFER_TICKS |}
  | Press JumpEnd =>
      let p := {| p with p_jumpHeld := false |} in
      if (p.(p_vy) <? JUMP_CUT_VY)%float then {| p with p_vy := JUMP_CUT_VY |} else p
  | Press SlideStart => {| p with p_sliding := true |}
  | Press SlideEnd => {| p with p_sliding := false |}
  | ResumeInput | RetryInput => p
  end.

(** Inputs, gravity and landing for one hat. *)
Definition movePlayer (p : Player) (inputs : list InputKind) (tick : Z) (es : list Entity) : Player :=
  let pit := bool_decide (is_Some (overPit es)) in
  let atGround := at_ground p in
  let standing := atGround && negb pit in
  let edge := atGround && pit in
  let p := fold_left (move_input (standing || edge) tick) inputs p in
  let grounded := at_ground p in
  if grounded && negb pit then p
  else
    let p := if grounded then {| p with p_coyoteUntil := tick + COYOTE_TICKS |} else p in
    let before := p.(p_y) in
    let p := {| p with p_vy := (p.(p_vy) + GRAVITY)%float |} in
    let p := {| p with p_y := (p.(p_y) + p.(p_vy))%float |} in
    if (0 <=? p.(p_vy))%float && (before <=? GROUND_Y)%float && (GROUND_Y <=? p.(p_y))%float
       && negb (bool_decide (is_Some (overPit es)))
    then
      let p := {| p with p_y := GROUND_Y; p_vy := 0%float |} in
      if tick <? p.(p_jumpBufferUntil) then launch p else p
    else p.

Definition updateFalling (e : Entity) (speed : num) : Entity :=
  if negb (bool_decide (e.(e_kind) = Falling)) || (FALL_LEAD_TICKS * speed <? e.(e_x) - PLAYER_X)%float
  then e
  else
    let floor := (GROUND_Y - e.(e_h))%float in
    if (floor <=? e.(e_y))%float then e
    else
      let vy := (default 0 e.(e_vy) + RACK_GRAVITY)%float in
      let y := num_min floor (e.(e_y) + vy)%float in
      {| e with e_vy := Some (if (floor <=? y)%float then 0%float else vy); e_y := y |}.

#[global] Arguments overPit : simpl never.
#[global] Arguments movePlayer : simpl never.
#[global] Arguments updateFalling : simpl never.
#[global] Arguments chooseKind : simpl never.
#[global] Arguments spawn : simpl never.


(** ** Tracks: the main track, or one per lane during fan-out *)

Record Track := { t_player : Player; t_entities : list Entity }.

Definition main_track (s : GameState) : Track :=
  {| t_player := s.(g_player); t_entities := s.(g_entities) |}.
Definition lane_track (l : Lane) : Track :=
  {| t_player := l.(l_player); t_entities := l.(l_entities) |}.

Definition tracks (s : GameState) : list Track :=
  match s.(g_fan) with
  | Some fan => map lane_track fan.(f_lanes)
  | None => [main_track s]
  end.

Definition set_lane_track (l : Lane) (t : Track) : Lane :=
  {| l with l_player := t.(t_player); l_entities := t.(t_entities) |}.

(** Assigns through every alias [tracks(s)] returns. *)
Definition map_tracks (f : Track -> Track) (s : GameState) : GameState :=
  match s.(g_fan) with
  | Some fan =>
      let lanes := map (fun l => set_lane_track l (f (lane_track l))) fan.(f_lanes) in
      {| s with g_fan := Some {| fan with f_lanes := lanes |} |}
  | None =>
      let t := f (main_track s) in
      {| s with g_player := t.(t_player); g_entities := t.(t_entities) |}
  end.

(** Assigns through the [i]-th alias only. *)
Definition upd_track (i : nat) (f : Track -> Track) (s : GameState) : GameState :=
  match s.(g_fan) with
  | Some fan =>
      let lanes := alter (fun l => set_lane_track l (f (lane_track l))) i fan.(f_lanes) in
      {| s with g_fan := Some {| fan with f_lanes := lanes |} |}
  | None =>
      match i with
      | O => let t := f (main_track s) in
             {| s with g_player := t.(t_player); g_entities := t.(t_entities) |}
      | _ => s
      end
  end.

Definition upd_player (i : nat) (f : Player -> Player) : GameState -> GameState :=
  upd_track i (fun t => {| t with t_player := f t.(t_player) |}).

(** [e.taken = true] for the [j]-th entity of track [i]. *)
Definition set_taken (i j : nat) : GameState -> GameState :=
  upd_track i (fun t => {| t with t_entities := alter (fun e => {| e with e_taken := true |}) j t.(t_entities) |}).

(** [lane.coins += 1], when there are lanes. *)
Definition add_lane_coin (i : nat) (s : GameState) : GameState :=
  match s.(g_fan) with
  | Some fan =>
      let lanes := alter (fun l => {| l with l_coins := l.(l_coins) + 1 |}) i fan.(f_lanes) in
      {| s with g_fan := Some {| fan with f_lanes := lanes |} |}
  | None => s
  end.

(** The lane that becomes the main track at fan-in.  A fan always has
    [FAN_LANES] lanes, so the default is never used. *)
Definition merge_lane (fan : Fan) : Lane :=
  nth MERGE_LANE fan.(f_lanes)
    {| l_player := newPlayer; l_entities := []; l_nextSpawnAt := 0; l_coins := 0 |}.

(** The hat the player is steering. *)
Definition livePlayer (s : GameState) : Player :=
  match s.(g_fan) with
  | Some fan => (merge_lane fan).(l_player)
  | None => s.(g_player)
  end.

(** ** The hit chain *)

Definition bounce (p : Player) : Player := {| p with p_vy := JUMP_VY; p_sliding := false |}.

(** A hit on track [i]: by the [j]-th rack ([Some (j, id)]) or by a pit. *)
Inductive Hit := RackHit (j : nat) (id : Z) | PitHit.
Definition hit_id (h : Hit) : Z := match h with RackHit _ id => id | PitHit => 0 end.
Definition bounce_pit (i : nat) (h : Hit) (s : GameState) : GameState :=
  match h with PitHit => upd_player i bounce s | RackHit _ _ => s end.

Definition resolveHit (cfg : LevelConfig) (i : nat) (h : Hit) (s : GameState)
    : GameState * list OutcomeEvent :=
  let id := hit_id h in
  if s.(g_tick) <? s.(g_graceUntil) then (bounce_pit i h s, [])
  else if cfg.(cfg_shieldEnabled) && (SHIELD_FULL <=? s.(g_shield)) then
    let s := {| s with g_shield := 0; g_graceUntil := s.(g_tick) + GRACE_BARGE |} in
    let s := match h with
             | PitHit => upd_player i bounce s
             | RackHit j _ => set_taken i j s
             end in
    (s, [CircuitBreakerTripped s.(g_tick) id 0])
  else if 1 <? s.(g_multiplier) then
    let s := {| s with g_multiplier := 1; g_multUntil := s.(g_tick);
                       g_graceUntil := s.(g_tick) + GRACE_BOOST |} in
    let s := bounce_pit i h s in
    (s, [BoostLost s.(g_tick) id 0])
  else if 0 <? s.(g_retries) then
    ({| s with g_status := RetryNeeded; g_failedAt := s.(g_tick) |}, [])
  else ({| s with g_status := Failed |}, []).

Definition boost (s : GameState) : GameState :=
  {| s with g_multiplier := 3; g_multUntil := s.(g_tick) + BOOST_TICKS |}.

(** [s.score += s.multiplier]. *)
Definition add_score (s : GameState) : GameState :=
  {| s with g_score := s.(g_score) + s.(g_multiplier) |}.

(** What a coin does on track [i]: the score, its lane's count, the shield. *)
Definition collect_coin (cfg : LevelConfig) (i : nat) (s : GameState) : GameState :=
  let s := add_lane_coin i (add_score s) in
  if cfg.(cfg_shieldEnabled)
  then {| s with g_shield := Z.min SHIELD_FULL (s.(g_shield) + 1) |} else s.

(** [s.rng = mix(s.rng, v); boost(s)]. *)
Definition mix_and_boost (v : num) (s : GameState) : GameState :=
  boost {| s with g_rng := mix s.(g_rng) v |}.

(** ** Scrolling and spawning *)

Definition scrollEntity (speed : num) (e : Entity) : Entity :=
  updateFalling {| e with e_x := (e.(e_x) - speed)%float |} speed.

Definition scrollTrack (speed : num) (t : Track) : Track :=
  {| t with t_entities :=
       List.filter (fun e => 0 <? e.(e_x) + e.(e_w))%float (map (scrollEntity speed) t.(t_entities)) |}.

(** Three rolls from the level RNG: kind, y (or pit width) and gap. *)
Record Roll := { r_kind : num; r_y : num; r_gap : num }.
Definition roll (s : GameState) : Roll * GameState :=
  let kindRoll := nextRandom s.(g_rng) in
  let yRoll := nextRandom kindRoll.1 in
  let gapRoll := nextRandom yRoll.1 in
  ({| r_kind := kindRoll.2; r_y := yRoll.2; r_gap := gapRoll.2 |},
   {| s with g_rng := gapRoll.1 |}).

(** Enough iterations for the spawn loops, whose every turn moves the next spawn
    on by more than a pixel ([SpawnFacts.next_spawn_moves]): the whole
    pixels the scroll is ahead of the next spawn, and two. *)
Definition spawn_fuel (scroll next : num) : nat :=
  Z.to_nat (default 0 (floor_Z scroll) - default 0 (floor_Z next) + 2).

#[global] Arguments spawn_fuel : simpl never.

Definition has_gate (es : list Entity) : bool :=
  existsb (fun e => bool_decide (e.(e_kind) = Fanout)) es.

(** [while (s.scroll >= s.nextSpawnAt) { ... }] of [spawnMain]. *)
Fixpoint spawn_main_loop (fuel : nat) (ws : Weights) (boss : bool) (speed : num) (s : GameState) : GameState :=
  match fuel with
  | O => s
  | S fuel =>
      if (s.(g_nextSpawnAt) <=? s.(g_scroll))%float then
        let (r, s) := roll s in
        let e := spawn (chooseKind ws r.(r_kind)) s.(g_nextId) SPAWN_X r.(r_y) in
        let gap := ((MIN_GAP + r.(r_gap) * GAP_RANGE) * (if boss then BOSS_GAP_SCALE else 1)
                    * (speed / 4))%float in
        spawn_main_loop fuel ws boss speed
          {| s with g_entities := s.(g_entities) ++ [e];
                    g_nextId := s.(g_nextId) + 1;
                    g_nextSpawnAt := (s.(g_nextSpawnAt) + gap)%float |}
      else s
  end.

Definition spawnMain (cfg : LevelConfig) (speed : num) (s : GameState) : GameState :=
  let boss := 0 <? s.(g_bossUntil) in
  let at_ := (s.(g_distance) + s.(g_scroll))%float in
  if bool_decide (is_Some cfg.(cfg_fanOut)) && negb boss
     && (s.(g_nextGateAt) - FAN_CLEAR_PX <=? at_)%float
  then
    if (s.(g_nextGateAt) <=? at_)%float && negb (has_gate s.(g_entities)) then
      let gate := {| e_id := s.(g_nextId); e_kind := Fanout; e_x := SPAWN_X; e_y := 0;
                     e_w := GATE_W; e_h := GROUND_Y; e_taken := false; e_vy := None |} in
      {| s with g_entities := s.(g_entities) ++ [gate]; g_nextId := s.(g_nextId) + 1 |}
    else s
  else
    let ws := if boss then cfg.(cfg_bossWeights) else cfg.(cfg_weights) in
    spawn_main_loop (spawn_fuel s.(g_scroll) s.(g_nextSpawnAt)) ws boss speed s.

(** The loop of [spawnLanes] for one lane; ids and the RNG are the state's. *)
Fixpoint spawn_lane_loop (fuel : nat) (ws : Weights) (speed : num) (s : GameState) (lane : Lane)
    : GameState * Lane :=
  match fuel with
  | O => (s, lane)
  | S fuel =>
      if (lane.(l_nextSpawnAt) <=? s.(g_scroll))%float then
        let (r, s) := roll s in
        let e := spawn (chooseKind ws r.(r_kind)) s.(g_nextId) LANE_SPAWN_X r.(r_y) in
        let gap := ((MIN_GAP + r.(r_gap) * GAP_RANGE) * (speed / 4))%float in
        spawn_lane_loop fuel ws speed {| s with g_nextId := s.(g_nextId) + 1 |}
          {| lane with l_entities := lane.(l_entities) ++ [e];
                       l_nextSpawnAt := (lane.(l_nextSpawnAt) + gap)%float |}
      else (s, lane)
  end.

Fixpoint spawn_each_lane (ws : Weights) (speed : num) (s : GameState) (lanes : list Lane)
    : GameState * list Lane :=
  match lanes with
  | [] => (s, [])
  | lane :: lanes =>
      let (s, lane) := spawn_lane_loop (spawn_fuel s.(g_scroll) lane.(l_nextSpawnAt)) ws speed s lane in
      let (s, lanes) := spawn_each_lane ws speed s lanes in
      (s, lane :: lanes)
  end.

Definition spawnLanes (cfg : LevelConfig) (speed : num) (s : GameState) : GameState :=
  match s.(g_fan) with
  | None => s
  | Some fan =>
      if (of_Z (fan.(f_until) - s.(g_tick)) * speed <=? LANE_SPAWN_X - PLAYER_X + FAN_CLEAR_PX)%float
      then s
      else
        let (s, lanes) := spawn_each_lane cfg.(cfg_laneWeights) speed s fan.(f_lanes) in
        {| s with g_fan := Some {| fan with f_lanes := lanes |} |}
  end.

(** ** Fan-out and fan-in *)

Definition new_lane (s : GameState) : Lane := {|
  l_player := s.(g_player); l_entities := [];
  l_nextSpawnAt := (s.(g_scroll) + FAN_CLEAR_PX)%float; l_coins := 0 |}.

Definition enterGate (cfg : LevelConfig) (s : GameState) : GameState * list OutcomeEvent :=
  match List.find (fun e => bool_decide (e.(e_kind) = Fanout)) s.(g_entities), cfg.(cfg_fanOut) with
  | Some gate, Some fo =>
      if (PLAYER_X <? gate.(e_x))%float then (s, [])
      else
        ({| s with
            g_fan := Some {| f_until := s.(g_tick) + fo.(fan_ticks);
                             f_lanes := replicate FAN_LANES (new_lane s) |};
            g_entities := [] |},
         [FanOut s.(g_tick) 0])
  | _, _ => (s, [])
  end.

Definition fanIn (cfg : LevelConfig) (s : GameState) : GameState * list OutcomeEvent :=
  match s.(g_fan) with
  | None => (s, [])
  | Some fan =>
      let every := match cfg.(cfg_fanOut) with Some fo => fo.(everyPx) | None => infinity end in
      ({| s with
          g_player := (merge_lane fan).(l_player);
          g_entities := [];
          g_fan := None;
          g_nextGateAt := (s.(g_distance) + s.(g_scroll) + every)%float;
          g_nextSpawnAt := (s.(g_scroll) + FAN_CLEAR_PX)%float |},
       [FanIn s.(g_tick) 0 (map l_coins fan.(f_lanes))])
  end.

(** ** Collisions *)

Record Box := { b_x : num; b_y : num; b_w : num; b_h : num }.
Definition box_of (e : Entity) : Box :=
  {| b_x := e.(e_x); b_y := e.(e_y); b_w := e.(e_w); b_h := e.(e_h) |}.

Definition overlaps (a b : Box) : bool :=
  ((a.(b_x) <? b.(b_x) + b.(b_w)) && (b.(b_x) <? a.(b_x) + a.(b_w))
   && (a.(b_y) <? b.(b_y) + b.(b_h)) && (b.(b_y) <? a.(b_y) + a.(b_h)))%float.

Definition player_box (p : Player) : Box :=
  let height := if p.(p_sliding) && (GROUND_Y <=? p.(p_y))%float then SLIDE_H else PLAYER_H in
  {| b_x := PLAYER_X; b_y := (p.(p_y) - height)%float; b_w := PLAYER_W; b_h := height |}.
Definition hazard_box (b : Box) : Box :=
  {| b with b_x := (b.(b_x) + HAZARD_INSET_X)%float; b_w := (b.(b_w) - 2 * HAZARD_INSET_X)%float |}.

#[global] Arguments upd_track : simpl never.
#[global] Arguments map_tracks : simpl never.
#[global] Arguments set_taken : simpl never.
#[global] Arguments add_lane_coin : simpl never.
#[global] Arguments overlaps : simpl never.

Section WithPorts.
Context {P : Type} (ports : Ports P).

Definition pickup (cfg : LevelConfig) (i j : nat) (e : Entity) (s : GameState) (p : P)
    : GameState * list OutcomeEvent * P :=
  let s := set_taken i j s in
  match e.(e_kind) with
  | Coin => (collect_coin cfg i s, [ActivityCoinCollected s.(g_tick) e.(e_id) 0], p)
  | Orb =>
      let (v, p) := ports.(impure) p in
      (mix_and_boost v s, [OrbTaken s.(g_tick) e.(e_id) 0], p)
  | _ =>
      let (result, p) := ports.(crateValue) e.(e_id) p in
      (add_score (mix_and_boost result s), [ActivityCrateCollected s.(g_tick) e.(e_id) 0 result], p)
  end.

(** What [collide] threads through its loops. *)
Record Coll := { c_s : GameState; c_hit : bool; c_evs : list OutcomeEvent; c_p : P }.

(** One iteration over entity [j] of track [i]; [None] is the early return. *)
Definition collide_entity (cfg : LevelConfig) (i : nat) (box : Box) (c : Coll) (j : nat) (e : Entity)
    : option Coll :=
  let s := c.(c_s) in
  if negb (bool_decide (s.(g_status) = Running)) then None
  else if e.(e_taken) || bool_decide (e.(e_kind) = Pit) || bool_decide (e.(e_kind) = Fanout) then Some c
  else
    let rack := isRack e.(e_kind) in
    if negb (overlaps (if rack then hazard_box box else box) (box_of e)) then Some c
    else if rack then
      if c.(c_hit) then Some c
      else
        let (s, evs) := resolveHit cfg i (RackHit j e.(e_id)) s in
        Some {| c with c_s := s; c_hit := true; c_evs := c.(c_evs) ++ evs |}
    else
      let '(s, evs, p) := pickup cfg i j e s c.(c_p) in
      Some {| c with c_s := s; c_evs := c.(c_evs) ++ evs; c_p := p |}.

(** [for (const e of t.entities)]: [es] are the entities from index [j] on.
    An iteration changes no entity but its own, so [es] is the loop's own
    view of them. *)
Fixpoint collide_entities (cfg : LevelConfig) (i : nat) (box : Box) (j : nat) (es : list Entity) (c : Coll)
    : Coll :=
  match es with
  | [] => c
  | e :: es =>
      match collide_entity cfg i box c j e with
      | None => c
      | Some c => collide_entities cfg i box (S j) es c
      end
  end.

Definition collide_track (cfg : LevelConfig) (c : Coll) (it : nat * Track) : Coll :=
  let (i, t) := it in
  let p := t.(t_player) in
  let box := player_box p in
  let c :=
    if negb c.(c_hit) && (GROUND_Y + PIT_HIT_DEPTH <=? p.(p_y))%float then
      let (s, evs) := resolveHit cfg i PitHit c.(c_s) in
      {| c with c_s := s; c_hit := true; c_evs := c.(c_evs) ++ evs |}
    else c in
  collide_entities cfg i box 0 t.(t_entities) c.

Definition collide (cfg : LevelConfig) (s : GameState) (evs : list OutcomeEvent) (p : P) : Coll :=
  fold_left (collide_track cfg) (imap pair (tracks s))
    {| c_s := s; c_hit := false; c_evs := evs; c_p := p |}.

(** ** The tick *)

Definition apply_runtime_input (s : GameState) (i : InputKind) : GameState :=
  match i with
  | ResumeInput => {| s with g_graceUntil := Z.max s.(g_graceUntil) (s.(g_tick) + GRACE_RESUME) |}
  | RetryInput =>
      {| s with g_retries := Z.max 0 (s.(g_retries) - 1);
                g_graceUntil := Z.max s.(g_graceUntil) (s.(g_tick) + GRACE_RETRY) |}
  | Press _ => s
  end.

(** Boost expiry, runtime inputs and movement. *)
Definition step_inputs (inputs : list InputKind) (s : GameState) : GameState :=
  let s := if (1 <? s.(g_multiplier)) && (s.(g_multUntil) <=? s.(g_tick))
           then {| s with g_multiplier := 1 |} else s in
  let s := fold_left apply_runtime_input inputs s in
  map_tracks (fun t => {| t with t_player := movePlayer t.(t_player) inputs s.(g_tick) t.(t_entities) |}) s.

(** Scrolling, spawning and the fan-out gate. *)
Definition step_world (cfg : LevelConfig) (s : GameState) : GameState * list OutcomeEvent :=
  let speed := speedAt cfg s.(g_elapsed) in
  let s := {| s with g_scroll := (s.(g_scroll) + speed)%float |} in
  let s := map_tracks (scrollTrack speed) s in
  match s.(g_fan) with
  | Some _ => (spawnLanes cfg speed s, [])
  | None => enterGate cfg (spawnMain cfg speed s)
  end.

(** Fan-in, level end and the clock. *)
Definition step_finish (cfg : LevelConfig) (s : GameState) (evs : list OutcomeEvent)
    : GameState * list OutcomeEvent :=
  let merge := match s.(g_fan) with
               | Some fan => bool_decide (s.(g_status) = Running) && (fan.(f_until) <=? s.(g_tick) + 1)
               | None => false
               end in
  let (s, evs) := if merge then let (s, es) := fanIn cfg s in (s, evs ++ es) else (s, evs) in
  let s := if bool_decide (s.(g_status) = Running) && bool_decide (s.(g_fan) = None)
              && (cfg.(cfg_length) <=? s.(g_distance) + s.(g_scroll))%float
           then {| s with g_status := LevelDone |} else s in
  ({| s with g_tick := s.(g_tick) + 1; g_elapsed := s.(g_elapsed) + 1 |}, evs).

Record StepResult := { state : GameState; events : list OutcomeEvent; port : P }.

(** Advances exactly one 1/60 s tick. *)
Definition step (levels : LevelTable) (prev : GameState) (inputs : list InputKind) (p : P) : StepResult :=
  if negb (bool_decide (prev.(g_status) = Running)) then {| state := prev; events := []; port := p |}
  else
    let cfg := levels prev.(g_level) in
    let s := step_inputs inputs prev in
    let (s, evs) := step_world cfg s in
    let c := collide cfg s evs p in
    let (s, evs) := step_finish cfg c.(c_s) c.(c_evs) in
    {| state := s; events := map (with_hash (hashState s)) evs; port := c.(c_p) |}.
End WithPorts.

Arguments state {P}.
Arguments events {P}.
Arguments port {P}.
Arguments c_s {P}.
Arguments c_hit {P}.
Arguments c_evs {P}.
Arguments c_p {P}.
