(* ===== verification/Binary64.v ===== *)
(** * Facts of binary64 arithmetic

    Correct rounding, as far as the model needs it: which values integers have
    as doubles, what comparisons mean, and that the four operations are
    sandwiched by representable bounds. Values are integers, in units of
    [2^-4000], so that every product and quotient of doubles has one. *)

From S2P Require Import Prelude JsNum.
#[local] Open Scope Z_scope.

(** ** Values *)

Definition pw (e : Z) : Z := 2 ^ (e + 4000).

Definition sval (x : spec_float) : Z :=
  match x with
  | S754_finite s m e => let v := Zpos m * pw e in if s then - v else v
  | _ => 0
  end.
Definition val (x : num) : Z := sval (Prim2SF x).

(** [f * 2^ef] is a binary64 value, overflow apart. *)
Definition representable (f ef : Z) : Prop := 0 <= f < 2 ^ 53 /\ -1074 <= ef.

(** ** Powers and digits *)

Lemma pw_lt e : -4000 <= e < 1024 -> pw e < pw 1024.
Proof. intros H. unfold pw. apply Z.pow_lt_mono_r; lia. Qed.

Lemma pw_pos e : -4000 <= e -> 0 < pw e.
Proof. intros H. unfold pw. apply Z.pow_pos_nonneg; lia. Qed.

Lemma pw_add e k : -4000 <= e -> 0 <= k -> pw (e + k) = pw e * 2 ^ k.
Proof.
  intros H1 H2. unfold pw. rewrite <- Z.pow_add_r by lia. f_equal. lia.
Qed.

Lemma pw_le e e' : e <= e' -> pw e <= pw e'.
Proof. intros H. unfold pw. apply Z.pow_le_mono_r; lia. Qed.

Lemma digits2_bounds p : 2 ^ (Zpos (digits2_pos p) - 1) <= Zpos p < 2 ^ Zpos (digits2_pos p).
Proof.
  induction p as [p IH|p IH|]; simpl digits2_pos; [..|simpl; lia].
  all: rewrite Pos2Z.inj_succ; replace (Z.succ (Zpos (digits2_pos p)) - 1) with (Zpos (digits2_pos p)) by lia;
    rewrite Z.pow_succ_r by lia;
    assert (E : 2 ^ Zpos (digits2_pos p) = 2 * 2 ^ (Zpos (digits2_pos p) - 1))
      by (rewrite <- Z.pow_succ_r by lia; f_equal; lia); lia.
Qed.

Lemma digits2_le p d : 0 <= d -> Zpos p < 2 ^ d -> Zpos (digits2_pos p) <= d.
Proof.
  intros Hd H. pose proof (digits2_bounds p) as [H1 _].
  destruct (Z.le_gt_cases (Zpos (digits2_pos p)) d); [done|].
  assert (2 ^ d <= 2 ^ (Zpos (digits2_pos p) - 1)) by (apply Z.pow_le_mono_r; lia). lia.
Qed.

Lemma digits2_ge p d : 0 < d -> 2 ^ (d - 1) <= Zpos p -> d <= Zpos (digits2_pos p).
Proof.
  intros Hd H. pose proof (digits2_bounds p) as [_ H1].
  destruct (Z.le_gt_cases d (Zpos (digits2_pos p))); [done|].
  assert (2 ^ Zpos (digits2_pos p) <= 2 ^ (d - 1)) by (apply Z.pow_le_mono_r; lia). lia.
Qed.

(** ** Shifting right *)

Lemma iter_pos_Pos {A} (f : A -> A) n : forall x, SpecFloat.iter_pos f n x = Pos.iter f x n.
Proof.
  assert (E : forall n x, Pos.iter f (f x) n = f (Pos.iter f x n)) by (intros; apply Pos.iter_swap).
  induction n as [n IH|n IH|]; intros x; simpl; [..|done].
  - rewrite !IH. by rewrite !E.
  - by rewrite !IH.
Qed.

(** What a shift record says: the quotient, and whether the rest is zero. *)
Definition exact (r : shr_record) : bool := negb (r.(shr_r) || r.(shr_s)).

Lemma shr_1_spec r :
  0 <= r.(shr_m) ->
  let r' := shr_1 r in
  r'.(shr_m) = r.(shr_m) / 2
  /\ exact r' = exact r && (r.(shr_m) mod 2 =? 0).
Proof.
  destruct r as [m b s]. simpl. intros H. unfold exact.
  destruct m as [|[p|p|]|p]; simpl; [| | | |lia].
  - by destruct b, s.
  - rewrite <- (Z.div_unique (Zpos p~1) 2 (Zpos p) 1) by lia.
    rewrite <- (Z.mod_unique (Zpos p~1) 2 (Zpos p) 1) by lia. by destruct b, s.
  - rewrite <- (Z.div_unique (Zpos p~0) 2 (Zpos p) 0) by lia.
    rewrite <- (Z.mod_unique (Zpos p~0) 2 (Zpos p) 0) by lia. by destruct b, s.
  - by destruct b, s.
Qed.

Lemma shr_iter_spec r n :
  0 <= r.(shr_m) ->
  let r' := Pos.iter shr_1 r n in
  r'.(shr_m) = r.(shr_m) / 2 ^ Zpos n
  /\ exact r' = exact r && (r.(shr_m) mod 2 ^ Zpos n =? 0).
Proof.
  intros H. cbv zeta. induction n as [|n IH] using Pos.peano_ind; [apply shr_1_spec, H|].
  rewrite Pos.iter_succ. destruct IH as [IH1 IH2].
  assert (H0 : 0 <= shr_m (Pos.iter shr_1 r n)) by (rewrite IH1; apply Z.div_pos; lia).
  destruct (shr_1_spec _ H0) as [E1 E2].
  rewrite E1, E2, IH1, IH2, Pos2Z.inj_succ, Z.pow_succ_r by lia.
  set (p := 2 ^ Zpos n) in *. assert (Hp : 0 < p) by (apply Z.pow_pos_nonneg; lia).
  split; [by rewrite Zdiv_Zdiv, (Z.mul_comm p) by lia|].
  rewrite <- andb_assoc. f_equal.
  rewrite (Z.mul_comm 2 p), Z.rem_mul_r by lia.
  pose proof (Z.mod_pos_bound (shr_m r) p Hp). pose proof (Z.mod_pos_bound (shr_m r / p) 2 ltac:(lia)).
  destruct (Z.eqb_spec (shr_m r mod p) 0), (Z.eqb_spec ((shr_m r / p) mod 2) 0); simpl; symmetry;
    first [apply Z.eqb_eq; nia|apply Z.eqb_neq; nia].
Qed.

Lemma shr_spec r e n :
  0 <= r.(shr_m) -> 0 <= n ->
  let '(r', e') := shr r e n in
  r'.(shr_m) = r.(shr_m) / 2 ^ n /\ exact r' = exact r && (r.(shr_m) mod 2 ^ n =? 0) /\ e' = e + n.
Proof.
  intros Hm Hn. unfold shr. destruct n as [|n|n]; [| |lia].
  - rewrite Z.pow_0_r, Z.div_1_r, Z.mod_1_r, andb_true_r. split_and!; [done|done|lia].
  - rewrite iter_pos_Pos. destruct (shr_iter_spec r n Hm). by split_and!.
Qed.

(** ** Rounding *)

Lemma fexp_eq e : fexp prec emax e = Z.max (e - 53) (-1074).
Proof. reflexivity. Qed.

(** The exponent a mantissa of a given size is rounded at, and its quotient there. *)
Definition rexp (m : positive) (e : Z) : Z := Z.max (Zpos (digits2_pos m) + e - 53) (-1074).
Definition rquo (m : positive) (e : Z) : Z := Zpos m / 2 ^ (rexp m e - e).

Lemma rquo_range m e :
  e <= rexp m e ->
  0 <= rquo m e < 2 ^ 53 /\ (-1074 < rexp m e -> 2 ^ 52 <= rquo m e).
Proof.
  intros H. unfold rquo. pose proof (digits2_bounds m) as [B1 B2].
  set (d := Zpos (digits2_pos m)) in *. set (k := rexp m e - e).
  assert (Hk : 0 < 2 ^ k) by (apply Z.pow_pos_nonneg; lia).
  assert (Hd : d <= 53 + k) by (subst k; unfold rexp; fold d; lia).
  split; [split|].
  - apply Z.div_pos; lia.
  - apply Z.div_lt_upper_bound; [done|]. rewrite <- Z.pow_add_r by lia.
    apply (Z.lt_le_trans _ _ _ B2). apply Z.pow_le_mono_r; lia.
  - intros He. assert (Ek : d = 53 + k) by (subst k; unfold rexp in *; fold d in He |- *; lia).
    apply Z.div_le_lower_bound; [done|]. rewrite <- Z.pow_add_r by lia.
    replace (k + 52) with (d - 1) by lia. done.
Qed.

Lemma bounded_intro m e :
  e <= 971 -> Z.max (Zpos (digits2_pos m) + e - 53) (-1074) = e -> bounded prec emax m e = true.
Proof.
  intros H1 H2. unfold bounded, canonical_mantissa. rewrite fexp_eq. apply andb_true_iff.
  split; [by apply Z.eqb_eq|]. by apply Z.leb_le.
Qed.

Lemma bounded_elim m e :
  bounded prec emax m e = true ->
  -1074 <= e <= 971 /\ Zpos m < 2 ^ 53 /\ (-1074 < e -> 2 ^ 52 <= Zpos m).
Proof.
  unfold bounded, canonical_mantissa. rewrite fexp_eq. change (emax - prec) with 971.
  intros [H1%Z.eqb_eq H2%Z.leb_le]%andb_true_iff. pose proof (digits2_bounds m) as [B1 B2].
  split_and!; [lia|lia| |].
  - apply (Z.lt_le_trans _ _ _ B2). apply Z.pow_le_mono_r; lia.
  - intros He. replace 52 with (Zpos (digits2_pos m) - 1) by lia. done.
Qed.

(** What rounding at exponent [e1] with integral significand [q] gives. *)
Inductive rounded (s : bool) (q e1 : Z) : spec_float -> Prop :=
  | rounded_zero : q = 0 -> rounded s q e1 (S754_zero s)
  | rounded_finite m' e' :
      bounded prec emax m' e' = true ->
      Zpos m' * pw e' = q * pw e1 -> rounded s q e1 (S754_finite s m' e')
  | rounded_inf : pw 1024 <= q * pw e1 -> rounded s q e1 (S754_infinity s).

Lemma shr_none r e n : n <= 0 -> shr r e n = (r, e).
Proof. intros H. destruct n; [done|lia|done]. Qed.

(** The second shift of [binary_round_aux] changes the significand only when
    rounding up reached [2^53]. *)
Lemma renormalise s q e1 :
  0 <= q <= 2 ^ 53 -> -1074 <= e1 -> (-1074 < e1 -> 2 ^ 52 <= q) ->
  rounded s q e1
    (let '(mrs, e2) := shr_fexp prec emax q e1 loc_Exact in
     match mrs.(shr_m) with
     | Z0 => S754_zero s
     | Zpos m => if Z.leb e2 (emax - prec) then S754_finite s m e2 else S754_infinity s
     | Zneg _ => S754_nan
     end).
Proof.
  intros Hq He Hn. unfold shr_fexp. rewrite fexp_eq. change (emax - prec) with 971.
  destruct q as [|q|q]; [|..|lia].
  { rewrite shr_none by (simpl; lia). by constructor. }
  change (Zdigits2 (Zpos q)) with (Zpos (digits2_pos q)).
  destruct (Z.eq_dec (Zpos q) (2 ^ 53)) as [E|E].
  - injection E as ->. change (Zpos (digits2_pos _)) with 54.
    replace (Z.max (54 + e1 - 53) (-1074) - e1) with 1 by lia. simpl.
    destruct (Z.leb_spec (e1 + 1) 971).
    + apply rounded_finite;
        [apply bounded_intro; [lia|]; change (Zpos (digits2_pos _)) with 53; lia|]. rewrite pw_add by lia. rewrite Z.pow_1_r. lia.
    + apply rounded_inf. pose proof (pw_le 971 e1 ltac:(lia)). pose proof (pw_add 971 53 ltac:(lia) ltac:(lia)) as E.
      change (971 + 53) with 1024 in E. lia.
  - assert (Zpos (digits2_pos q) <= 53) by (apply digits2_le; lia).
    rewrite shr_none by lia. simpl. destruct (Z.leb_spec e1 971).
    + apply rounded_finite; [|done]. apply bounded_intro; [lia|].
      destruct (Z.eq_dec e1 (-1074)) as [->|He1]; [lia|].
      specialize (Hn ltac:(lia)). assert (53 <= Zpos (digits2_pos q)) by (by apply digits2_ge). lia.
    + apply rounded_inf. specialize (Hn ltac:(lia)).
      pose proof (pw_le 972 e1 ltac:(lia)). pose proof (pw_add 972 52 ltac:(lia) ltac:(lia)) as E'.
      change (972 + 52) with 1024 in E'. pose proof (pw_pos 972 ltac:(lia)). nia.
Qed.

Lemma round_spec s m e l :
  e <= rexp m e ->
  exists q,
    rounded s q (rexp m e) (binary_round_aux prec emax s (Zpos m) e l)
    /\ (q = rquo m e
        \/ q = rquo m e + 1 /\ ~ (l = loc_Exact /\ Zpos m mod 2 ^ (rexp m e - e) = 0)).
Proof.
  intros He. pose proof (rquo_range m e He) as [Hq Hq'].
  unfold binary_round_aux. unfold shr_fexp at 1. rewrite fexp_eq.
  change (Zdigits2 (Zpos m)) with (Zpos (digits2_pos m)). fold (rexp m e).
  pose proof (shr_spec (shr_record_of_loc (Zpos m) l) e (rexp m e - e)) as H.
  assert (Hm : shr_m (shr_record_of_loc (Zpos m) l) = Zpos m) by (by destruct l as [|[]]).
  assert (Hx : exact (shr_record_of_loc (Zpos m) l) = true <-> l = loc_Exact) by (by destruct l as [|[]]).
  destruct (shr _ _ _) as [r e1]. rewrite Hm in H. destruct H as (H1 & H2 & ->); [lia|lia|].
  replace (e + (rexp m e - e)) with (rexp m e) by lia. fold (rquo m e) in H1.
  set (q := round_nearest_even (shr_m r) (loc_of_shr_record r)).
  assert (Hr : q = shr_m r \/ q = shr_m r + 1 /\ exact r = false).
  { subst q. destruct r as [m' [|] [|]]; simpl; auto. destruct (Z.even m'); auto. }
  rewrite H1 in Hr. exists q. split.
  - apply renormalise; [|unfold rexp; lia|]; [|intros Hg; specialize (Hq' Hg)]; lia.
  - destruct Hr as [->|[-> Hr]]; [by left|]. right. split; [done|]. intros [Hl Hz].
    rewrite Hr in H2. apply Hx in Hl. rewrite Hl in H2. apply Z.eqb_eq in Hz. by rewrite Hz in H2.
Qed.

(** Bounds of the magnitude of a result, overflow counting as large. *)
Definition mag_ge (v : Z) (y : spec_float) : Prop :=
  match y with
  | S754_zero _ => v <= 0
  | S754_finite _ m e => v <= Zpos m * pw e
  | S754_infinity _ => True
  | S754_nan => False
  end.
Definition mag_le (v : Z) (y : spec_float) : Prop :=
  match y with
  | S754_zero _ => 0 <= v
  | S754_finite _ m e => Zpos m * pw e <= v
  | S754_infinity _ => pw 1024 <= v
  | S754_nan => False
  end.

Lemma rounded_mag s q e1 y : rounded s q e1 y -> mag_ge (q * pw e1) y /\ mag_le (q * pw e1) y.
Proof. intros [Hq|m' e' _ H|H]; simpl; [subst; lia|lia|done]. Qed.

Lemma rounded_valid s q e1 y : rounded s q e1 y -> valid_binary y = true.
Proof. by intros []. Qed.

Lemma mag_ge_trans v w y : v <= w -> mag_ge w y -> mag_ge v y.
Proof. destruct y; simpl; lia. Qed.
Lemma mag_le_trans v w y : w <= v -> mag_le w y -> mag_le v y.
Proof. destruct y; simpl; lia. Qed.

(** A representable value below the exact one stays below the rounded one. *)
Lemma round_low s m e l f ef :
  -4000 <= e <= rexp m e -> representable f ef -> f * pw ef <= Zpos m * pw e ->
  mag_ge (f * pw ef) (binary_round_aux prec emax s (Zpos m) e l).
Proof.
  intros [He0 He] [Hf Hef] H. destruct (round_spec s m e l He) as (q & Hr & Hq).
  apply rounded_mag in Hr as [Hr _]. eapply mag_ge_trans; [|exact Hr].
  pose proof (rquo_range m e He) as [_ Hn].
  assert (Hpe : 0 < pw e) by (apply pw_pos; lia).
  assert (He1 : 0 < pw (rexp m e)) by (apply pw_pos; lia).
  assert (Hfq : f * pw ef <= rquo m e * pw (rexp m e)); [|destruct Hq as [->|[-> _]]; nia].
  destruct (Z.le_gt_cases (rexp m e) ef) as [Hle|Hgt].
  - assert (E : f * pw ef = (f * 2 ^ (ef - rexp m e)) * pw (rexp m e)).
    { replace ef with (rexp m e + (ef - rexp m e)) at 1 by lia. rewrite pw_add by lia. lia. }
    rewrite E. apply Z.mul_le_mono_nonneg_r; [lia|].
    unfold rquo. apply Z.div_le_lower_bound; [apply Z.pow_pos_nonneg; lia|].
    apply (Z.mul_le_mono_pos_r _ _ (pw e)); [done|].
    replace (2 ^ (rexp m e - e) * (f * 2 ^ (ef - rexp m e)) * pw e) with (f * pw ef); [done|].
    rewrite E. replace (rexp m e) with (e + (rexp m e - e)) at 2 by lia.
    rewrite (pw_add e) by lia. lia.
  - specialize (Hn ltac:(lia)).
    assert (pw (ef + 1) <= pw (rexp m e)) by (apply pw_le; lia).
    rewrite pw_add in * by lia. assert (0 < pw ef) by (apply pw_pos; lia).
    change (2 ^ 1) with 2 in *. nia.
Qed.

(** A representable value above the exact one stays above the rounded one. *)
Lemma round_up s m e l f ef :
  -4000 <= e <= rexp m e -> representable f ef ->
  (l = loc_Exact /\ Zpos m * pw e <= f * pw ef \/ (Zpos m + 1) * pw e <= f * pw ef) ->
  mag_le (f * pw ef) (binary_round_aux prec emax s (Zpos m) e l).
Proof.
  intros [He0 He] [Hf Hef] H. destruct (round_spec s m e l He) as (q & Hr & Hq).
  apply rounded_mag in Hr as [_ Hr]. eapply mag_le_trans; [|exact Hr].
  pose proof (rquo_range m e He) as [Hq0 Hn].
  assert (Hpe : 0 < pw e) by (apply pw_pos; lia).
  set (k := rexp m e - e) in *.
  assert (Hk : 0 < 2 ^ k) by (apply Z.pow_pos_nonneg; lia).
  assert (Ek : pw (rexp m e) = pw e * 2 ^ k).
  { subst k. rewrite <- pw_add by lia. f_equal. lia. }
  pose proof (Z.div_mod (Zpos m) (2 ^ k) ltac:(lia)) as Hdm. fold (rquo m e) in Hdm.
  change (Zpos m / 2 ^ k) with (rquo m e) in Hdm.
  pose proof (Z.mod_pos_bound (Zpos m) (2 ^ k) Hk) as Hmb.
  assert (Hm : Zpos m * pw e <= f * pw ef) by (destruct H as [[_ H]|H]; lia).
  destruct (Z.le_gt_cases (rexp m e) ef) as [Hle|Hgt].
  - assert (E : f * pw ef = (f * 2 ^ (ef - rexp m e) * 2 ^ k) * pw e).
    { replace ef with (rexp m e + (ef - rexp m e)) at 1 by lia. rewrite pw_add, Ek by lia. lia. }
    set (c := f * 2 ^ (ef - rexp m e)) in *. rewrite E in *. rewrite Ek.
    assert (Hc : Zpos m <= c * 2 ^ k) by nia.
    destruct Hq as [->|[-> Hx]]; [nia|].
    enough (rquo m e + 1 <= c) by nia.
    destruct (Z.eq_dec (Zpos m mod 2 ^ k) 0) as [Z0|Z0]; [|nia].
    destruct H as [[Hl _]|H]; [by destruct Hx|].
    assert (Zpos m + 1 <= c * 2 ^ k) by nia. nia.
  - specialize (Hn ltac:(lia)).
    assert (pw (ef + 1) <= pw (rexp m e)) by (apply pw_le; lia).
    rewrite (pw_add ef) in * by lia. assert (0 < pw ef) by (apply pw_pos; lia).
    change (2 ^ 1) with 2 in *. rewrite Ek in *. nia.
Qed.

(** ** Aligning *)

Lemma iter_xO p d : Zpos (Pos.iter xO p d) = Zpos p * 2 ^ Zpos d.
Proof.
  induction d as [|d IH] using Pos.peano_ind; [simpl; lia|].
  rewrite Pos.iter_succ, Pos2Z.inj_succ, Z.pow_succ_r by lia. lia.
Qed.

Lemma shl_align_spec m e e' :
  let '(m', e'') := shl_align m e e' in
  e'' = Z.min e e' /\ Zpos m' = Zpos m * 2 ^ (e - e'').
Proof.
  unfold shl_align. destruct (e' - e) as [|d|d] eqn:D.
  - replace (e - e) with 0 by lia. lia.
  - replace (e - e) with 0 by lia. lia.
  - split; [lia|]. rewrite iter_xO. f_equal. f_equal. lia.
Qed.

Lemma digits2_iter_xO p d : Zpos (digits2_pos (Pos.iter xO p d)) = Zpos (digits2_pos p) + Zpos d.
Proof.
  induction d as [|d IH] using Pos.peano_ind; [simpl; lia|].
  rewrite Pos.iter_succ. simpl digits2_pos. lia.
Qed.

Lemma binary_round_aligned s m e :
  -4000 <= e ->
  exists m2 e2, binary_round prec emax s m e = binary_round_aux prec emax s (Zpos m2) e2 loc_Exact
    /\ Zpos m2 * pw e2 = Zpos m * pw e /\ -4000 <= e2 <= rexp m2 e2.
Proof.
  intros He. unfold binary_round, shl_align. rewrite fexp_eq.
  destruct (Z.max _ _ - e) as [|d|d] eqn:D.
  - exists m, e. split_and!; try done. unfold rexp. lia.
  - exists m, e. split_and!; try done. unfold rexp. lia.
  - eexists _, _. split; [reflexivity|]. rewrite iter_xO. split.
    + replace e with (Z.max (Zpos (digits2_pos m) + e - 53) (-1074) + Zpos d) at 2 by lia.
      rewrite pw_add by lia. lia.
    + unfold rexp. rewrite digits2_iter_xO. lia.
Qed.

(** ** Values of doubles *)

Lemma Prim2SF_bounded x s m e : Prim2SF x = S754_finite s m e -> bounded prec emax m e = true.
Proof. intros H. pose proof (Prim2SF_valid x) as V. by rewrite H in V. Qed.

Lemma binary_normalize_valid m e : -4000 <= e -> valid_binary (binary_normalize prec emax m e false) = true.
Proof.
  intros He. destruct m as [|m|m]; simpl; [done|..].
  - destruct (binary_round_aligned false m e He) as (m2 & e2 & -> & _ & H).
    destruct (round_spec false m2 e2 loc_Exact) as (q & Hr & _); [lia|]. by eapply rounded_valid.
  - destruct (binary_round_aligned true m e He) as (m2 & e2 & -> & _ & H).
    destruct (round_spec true m2 e2 loc_Exact) as (q & Hr & _); [lia|]. by eapply rounded_valid.
Qed.

Lemma magnitudes_compare m1 e1 m2 e2 :
  bounded prec emax m1 e1 = true -> bounded prec emax m2 e2 = true ->
  (Zpos m1 * pw e1 ?= Zpos m2 * pw e2) =
  match e1 ?= e2 with Lt => Lt | Gt => Gt | Eq => Pos.compare_cont Eq m1 m2 end.
Proof.
  intros (He1 & Hm1 & Hn1)%bounded_elim (He2 & Hm2 & Hn2)%bounded_elim.
  assert (P1 : 0 < pw e1) by (apply pw_pos; lia). assert (P2 : 0 < pw e2) by (apply pw_pos; lia).
  destruct (Z.compare_spec e1 e2) as [<-|H|H].
  - change (Pos.compare_cont Eq m1 m2) with (Pos.compare m1 m2).
    destruct (Pos.compare_spec m1 m2) as [<-|H|H];
      [apply Z.compare_refl|apply Z.compare_lt_iff; nia|apply Z.compare_gt_iff; nia].
  - apply Z.compare_lt_iff. specialize (Hn2 ltac:(lia)).
    assert (pw (e1 + 1) <= pw e2) by (apply pw_le; lia). rewrite pw_add in * by lia.
    change (2 ^ 1) with 2 in *. nia.
  - apply Z.compare_gt_iff. specialize (Hn1 ltac:(lia)).
    assert (pw (e2 + 1) <= pw e1) by (apply pw_le; lia). rewrite (pw_add e2) in * by lia.
    change (2 ^ 1) with 2 in *. nia.
Qed.

Lemma SFcompare_val x y :
  is_finite x = true -> is_finite y = true ->
  SFcompare (Prim2SF x) (Prim2SF y) = Some (val x ?= val y).
Proof.
  unfold is_finite, val. intros Hx Hy.
  pose proof (Prim2SF_valid x) as Vx. pose proof (Prim2SF_valid y) as Vy.
  assert (Hp : forall m e, bounded prec emax m e = true -> 0 < Zpos m * pw e).
  { intros m e (H & _ & _)%bounded_elim. assert (0 < pw e) by (apply pw_pos; lia). nia. }
  destruct (Prim2SF x) as [sx|sx| |sx mx ex], (Prim2SF y) as [sy|sy| |sy my ey]; try done;
    cbn [sval SFcompare SpecFloat.valid_binary] in *; cbv zeta; f_equal.
  - pose proof (Hp _ _ Vy). destruct sy; symmetry; [apply Z.compare_gt_iff|apply Z.compare_lt_iff]; lia.
  - pose proof (Hp _ _ Vx). destruct sx; symmetry; [apply Z.compare_lt_iff|apply Z.compare_gt_iff]; lia.
  - pose proof (Hp _ _ Vx). pose proof (Hp _ _ Vy). pose proof (magnitudes_compare _ _ _ _ Vx Vy) as E.
    destruct sx, sy.
    + rewrite Z.compare_opp, (Z.compare_antisym (Zpos mx * pw ex)), E. by destruct (ex ?= ey).
    + symmetry. apply Z.compare_lt_iff. lia.
    + symmetry. apply Z.compare_gt_iff. lia.
    + by rewrite E.
Qed.

Lemma ltb_val x y : is_finite x = true -> is_finite y = true -> (x <? y)%float = (val x <? val y).
Proof.
  intros Hx Hy. rewrite ltb_spec. unfold SFltb. rewrite (SFcompare_val x y Hx Hy).
  unfold Z.ltb. by destruct (val x ?= val y).
Qed.
Lemma leb_val x y : is_finite x = true -> is_finite y = true -> (x <=? y)%float = (val x <=? val y).
Proof.
  intros Hx Hy. rewrite leb_spec. unfold SFleb. rewrite (SFcompare_val x y Hx Hy).
  unfold Z.leb. by destruct (val x ?= val y).
Qed.
Lemma eqb_val x y : is_finite x = true -> is_finite y = true -> (x =? y)%float = (val x =? val y).
Proof.
  intros Hx Hy. rewrite eqb_spec. unfold SFeqb. rewrite (SFcompare_val x y Hx Hy).
  rewrite Z.eqb_compare. by destruct (val x ?= val y).
Qed.

(** ** Integers as doubles *)

Lemma of_Z_SF z : Prim2SF (of_Z z) = binary_normalize prec emax z 0 false.
Proof. unfold of_Z. apply Prim2SF_SF2Prim. by apply binary_normalize_valid. Qed.

Lemma mag_exact v y :
  mag_ge v y -> mag_le v y -> v < pw 1024 ->
  match y with
  | S754_zero _ => v = 0
  | S754_finite _ m e => Zpos m * pw e = v
  | _ => False
  end.
Proof. destruct y; simpl; lia. Qed.

Lemma rounded_sign s q e1 y : rounded s q e1 y ->
  match y with S754_zero s' | S754_finite s' _ _ | S754_infinity s' => s' = s | S754_nan => False end.
Proof. by intros []. Qed.

(** A representable integer is its own double. *)
Lemma normalize_exact m e f ef :
  -4000 <= e -> representable f ef -> Zpos m * pw e = f * pw ef -> f * pw ef < pw 1024 ->
  forall s, exists m' e', binary_round prec emax s m e = S754_finite s m' e' /\ Zpos m' * pw e' = Zpos m * pw e.
Proof.
  intros He Hr Hv Hlt s. destruct (binary_round_aligned s m e He) as (m2 & e2 & -> & E & He2).
  pose proof (round_low s m2 e2 loc_Exact f ef He2 Hr ltac:(lia)) as Hlo.
  pose proof (round_up s m2 e2 loc_Exact f ef He2 Hr ltac:(left; split; [done|lia])) as Hup.
  destruct (round_spec s m2 e2 loc_Exact) as (q & Hs%rounded_sign & _); [lia|].
  pose proof (mag_exact _ _ Hlo Hup Hlt) as Hx.
  destruct (binary_round_aux _ _ _ _ _ _) as [s'|s'| |s' m' e']; subst; try done.
  - assert (0 < pw e) by (by apply pw_pos). nia.
  - eexists _, _. split; [done|]. lia.
Qed.

Lemma of_Z_val z : - 2 ^ 53 <= z <= 2 ^ 53 -> is_finite (of_Z z) = true /\ val (of_Z z) = z * pw 0.
Proof.
  intros Hz. unfold is_finite, val. rewrite of_Z_SF.
  assert (H : forall s p, Zpos p <= 2 ^ 53 -> exists m' e', binary_round prec emax s p 0 = S754_finite s m' e'
             /\ Zpos m' * pw e' = Zpos p * pw 0).
  { intros s p Hp.
    assert (Hb : forall e, 0 <= e <= 1 -> 0 < pw e /\ 2 ^ 53 * pw e < pw 1024).
    { intros e He. split; [apply pw_pos; lia|]. rewrite Z.mul_comm, <- pw_add by lia.
      unfold pw. apply Z.pow_lt_mono_r; lia. }
    destruct (Z.eq_dec (Zpos p) (2 ^ 53)) as [Ep|Ep].
    - destruct (Hb 1 ltac:(lia)). apply (normalize_exact p 0 (2 ^ 52) 1); [lia|by split|rewrite Ep; reflexivity|lia].
    - destruct (Hb 0 ltac:(lia)). apply (normalize_exact p 0 (Zpos p) 0); [lia|split; lia|done|nia]. }
  destruct z as [|p|p]; simpl binary_normalize; [done|..].
  - destruct (H false p ltac:(lia)) as (m' & e' & -> & E). split; [done|]. simpl. lia.
  - destruct (H true p ltac:(lia)) as (m' & e' & -> & E). split; [done|]. simpl. lia.
Qed.

(** Safe integers compare as integers. *)
Definition safe_int (z : Z) : Prop := - 2 ^ 53 <= z <= 2 ^ 53.

Lemma of_Z_ltb z w : safe_int z -> safe_int w -> (of_Z z <? of_Z w)%float = (z <? w).
Proof.
  intros [Fz Vz]%of_Z_val [Fw Vw]%of_Z_val. rewrite ltb_val, Vz, Vw by done.
  pose proof (pw_pos 0 ltac:(lia)). destruct (Z.ltb_spec z w); [apply Z.ltb_lt|apply Z.ltb_ge]; nia.
Qed.
Lemma of_Z_leb z w : safe_int z -> safe_int w -> (of_Z z <=? of_Z w)%float = (z <=? w).
Proof.
  intros [Fz Vz]%of_Z_val [Fw Vw]%of_Z_val. rewrite leb_val, Vz, Vw by done.
  pose proof (pw_pos 0 ltac:(lia)). destruct (Z.leb_spec z w); [apply Z.leb_le|apply Z.leb_gt]; nia.
Qed.
Lemma of_Z_eqb z w : safe_int z -> safe_int w -> (of_Z z =? of_Z w)%float = (z =? w).
Proof.
  intros [Fz Vz]%of_Z_val [Fw Vw]%of_Z_val. rewrite eqb_val, Vz, Vw by done.
  pose proof (pw_pos 0 ltac:(lia)). destruct (Z.eqb_spec z w); [apply Z.eqb_eq|apply Z.eqb_neq]; nia.
Qed.

(** ** Sandwich rules for nonnegative operands

    [lo] and [hi] are representable values that enclose the exact result; the
    computed one is enclosed too. *)

Definition repr (v : Z) : Prop := exists f ef, representable f ef /\ v = f * pw ef.

(** A finite double between two values. *)
Definition within (lo hi : Z) (x : num) : Prop := is_finite x = true /\ lo <= val x <= hi.

Lemma within_weaken lo hi lo' hi' x : lo' <= lo -> hi <= hi' -> within lo hi x -> within lo' hi' x.
Proof. intros ?? [? ?]. split; [done|lia]. Qed.

(** A result whose sign is positive and whose magnitude is enclosed. *)
Lemma within_of_mag lo hi x :
  mag_ge lo (Prim2SF x) -> mag_le hi (Prim2SF x) -> hi < pw 1024 ->
  match Prim2SF x with
  | S754_finite s _ _ => s = false
  | _ => True
  end -> within lo hi x.
Proof.
  unfold within, is_finite, val. destruct (Prim2SF x) as [s|s| |s m e]; cbn [mag_ge mag_le sval];
    intros ?? ?; [split; [done|lia]|lia|done|]. intros ->. split; [done|lia].
Qed.

Lemma nonneg_cases x :
  is_finite x = true -> 0 <= val x ->
  (val x = 0 /\ exists s, Prim2SF x = S754_zero s)
  \/ exists m e, Prim2SF x = S754_finite false m e /\ val x = Zpos m * pw e /\ -1074 <= e <= 971
       /\ (-1074 < e -> 2 ^ 52 <= Zpos m).
Proof.
  unfold is_finite, val. pose proof (Prim2SF_bounded x) as B.
  destruct (Prim2SF x) as [s|s| |s m e]; try done; intros _ H.
  - left. split; [done|by exists s].
  - right. exists m, e. destruct (bounded_elim m e (B _ _ _ eq_refl)) as (He & _ & Hm).
    assert (0 < pw e) by (apply pw_pos; lia). destruct s; [cbn [sval] in H; cbv zeta in H; nia|].
    destruct He. by split_and!.
Qed.

Lemma round_within s m e l lo hi x :
  Prim2SF x = binary_round_aux prec emax s (Zpos m) e l ->
  s = false -> -4000 <= e <= rexp m e -> repr lo -> repr hi -> hi < pw 1024 ->
  lo <= Zpos m * pw e ->
  (l = loc_Exact /\ Zpos m * pw e <= hi \/ (Zpos m + 1) * pw e <= hi) ->
  within lo hi x.
Proof.
  intros Ex -> He (f & ef & Hf & ->) (g & eg & Hg & ->) Hlt Hlo Hhi.
  apply within_of_mag; rewrite ?Ex; [by apply round_low|by apply round_up|done|].
  destruct (round_spec false m e l) as (q & Hr%rounded_sign & _); [lia|].
  by destruct (binary_round_aux _ _ _ _ _ _).
Qed.

Lemma add_within x y lo hi :
  is_finite x = true -> is_finite y = true -> 0 <= val x -> 0 <= val y ->
  repr lo -> repr hi -> hi < pw 1024 ->
  lo <= val x + val y <= hi -> within lo hi (x + y)%float.
Proof.
  intros Fx Fy Px Py Rl Rh Hlt Hb.
  destruct (nonneg_cases x Fx Px) as [(Vx & sx & Ex)|(mx & ex & Ex & Vx & Hex & Nmx)],
           (nonneg_cases y Fy Py) as [(Vy & sy & Ey)|(my & ey & Ey & Vy & Hey & Nmy)].
  - apply within_of_mag; rewrite ?add_spec, ?Ex, ?Ey; try done; destruct sx, sy; simpl; try done; lia.
  - assert (E : Prim2SF (x + y)%float = Prim2SF y) by (by rewrite add_spec, Ex, Ey).
    unfold within, is_finite, val. rewrite E. fold (is_finite y) (val y). split; [done|lia].
  - assert (E : Prim2SF (x + y)%float = Prim2SF x) by (by rewrite add_spec, Ex, Ey).
    unfold within, is_finite, val. rewrite E. fold (is_finite x) (val x). split; [done|lia].
  - pose proof (add_spec x y) as E. rewrite Ex, Ey in E. cbn [SF64add SFadd] in E.
    unfold SF64add, SFadd in E. cbv zeta in E.
    pose proof (shl_align_spec mx ex (Z.min ex ey)) as Ax. pose proof (shl_align_spec my ey (Z.min ex ey)) as Ay.
    destruct (shl_align mx ex _) as [mx' ex'], (shl_align my ey _) as [my' ey']. simpl in E.
    destruct Ax as [-> Ax], Ay as [-> Ay].
    replace (Z.min ex (Z.min ex ey)) with (Z.min ex ey) in * by lia.
    replace (Z.min ey (Z.min ex ey)) with (Z.min ex ey) in * by lia.
    set (ez := Z.min ex ey) in *.
    assert (Vx' : val x = Zpos mx' * pw ez).
    { rewrite Vx, Ax. replace ex with (ez + (ex - ez)) at 1 by lia. rewrite pw_add by lia. lia. }
    assert (Vy' : val y = Zpos my' * pw ez).
    { rewrite Vy, Ay. replace ey with (ez + (ey - ez)) at 1 by lia. rewrite pw_add by lia. lia. }
    destruct (binary_round_aligned false (mx' + my') ez) as (m2 & e2 & E2 & V2 & H2); [lia|].
    rewrite E2 in E. eapply round_within; [exact E|done|done|done|done|done|..];
      rewrite V2, Pos2Z.inj_add; [lia|left; split; [done|lia]].
Qed.

Lemma mul_within x y lo hi :
  is_finite x = true -> is_finite y = true -> 0 <= val x -> 0 <= val y ->
  repr lo -> repr hi -> 0 <= hi < pw 1024 ->
  lo * pw 0 <= val x * val y <= hi * pw 0 -> within lo hi (x * y)%float.
Proof.
  intros Fx Fy Px Py Rl Rh Hlt Hb. assert (P0 : 0 < pw 0) by (by apply pw_pos).
  destruct (nonneg_cases x Fx Px) as [(Vx & sx & Ex)|(mx & ex & Ex & Vx & Hex & Nmx)],
           (nonneg_cases y Fy Py) as [(Vy & sy & Ey)|(my & ey & Ey & Vy & Hey & Nmy)].
  1,2,3: assert (Hlo : lo <= 0) by (rewrite ?Vx, ?Vy in Hb; nia);
    apply within_of_mag; rewrite ?mul_spec, ?Ex, ?Ey; simpl; try done; lia.
  pose proof (mul_spec x y) as E. rewrite Ex, Ey in E. unfold SF64mul, SFmul in E.
  assert (Ev : val x * val y = Zpos (mx * my) * pw (ex + ey) * pw 0).
  { rewrite Vx, Vy, Pos2Z.inj_mul. unfold pw.
    replace (ex + 4000) with (ex + 4000) by lia.
    rewrite <- !Z.mul_assoc, (Z.mul_comm (2 ^ (ex + 4000))). rewrite <- !Z.mul_assoc. f_equal. f_equal.
    rewrite <- !Z.pow_add_r by lia. f_equal. lia. }
  rewrite Ev in Hb.
  assert (Hr : ex + ey <= rexp (mx * my) (ex + ey)).
  { unfold rexp. destruct (Z.le_gt_cases (ex + ey) (-1074)); [lia|].
    enough (53 <= Zpos (digits2_pos (mx * my))) by lia.
    apply digits2_ge; [lia|]. change (53 - 1) with 52. rewrite Pos2Z.inj_mul.
    destruct (Z.eq_dec ex (-1074)); [specialize (Nmy ltac:(lia))|specialize (Nmx ltac:(lia))]; nia. }
  eapply round_within; [exact E|done|lia|done|done|lia|nia|left; split; [done|nia]].
Qed.

Lemma pw_mul a b c d : -4000 <= a -> -4000 <= b -> -4000 <= c -> -4000 <= d ->
  a + b = c + d -> pw a * pw b = pw c * pw d.
Proof. intros. unfold pw. rewrite <- !Z.pow_add_r by lia. f_equal. lia. Qed.

(** The quotient and location [SFdiv] rounds, for a quotient in the normal range. *)
Lemma div_core m1 e1 m2 e2 :
  -1074 <= e1 <= 971 -> -1074 <= e2 <= 971 ->
  pw (-1000) * Zpos m2 <= Zpos m1 * pw (e1 - e2) ->
  exists q e l, SFdiv_core_binary prec emax (Zpos m1) e1 (Zpos m2) e2 = (Zpos q, e, l)
    /\ -4000 <= e /\ 2 ^ 52 <= Zpos q
    /\ (exists n, n * pw e = Zpos m1 * pw (e1 - e2) /\ Zpos q * Zpos m2 <= n < (Zpos q + 1) * Zpos m2
          /\ (l = loc_Exact \/ Zpos q * Zpos m2 < n)).
Proof.
  intros H1 H2 Hlo. unfold SFdiv_core_binary. rewrite fexp_eq.
  change (Zdigits2 (Zpos m1)) with (Zpos (digits2_pos m1)). change (Zdigits2 (Zpos m2)) with (Zpos (digits2_pos m2)).
  pose proof (digits2_bounds m1) as [B1 B1']. pose proof (digits2_bounds m2) as [B2 B2'].
  set (d1 := Zpos (digits2_pos m1)) in *. set (d2 := Zpos (digits2_pos m2)) in *.
  cbv zeta. set (e := Z.min _ _). set (s := e1 - e2 - e).
  assert (HD : -1000 <= d1 + e1 - (d2 + e2)).
  { destruct (Z.le_gt_cases (-1000) (d1 + e1 - (d2 + e2))) as [|Hgt]; [done|exfalso].
    assert (Hm : Zpos m1 * pw (e1 - e2) < 2 ^ d1 * pw (e1 - e2)).
    { apply Z.mul_lt_mono_pos_r; [apply pw_pos; lia|done]. }
    assert (Hx : 2 ^ d1 * pw (e1 - e2) <= pw (-1000) * 2 ^ (d2 - 1)).
    { unfold pw. rewrite <- !Z.pow_add_r by lia. apply Z.pow_le_mono_r; lia. }
    assert (pw (-1000) * 2 ^ (d2 - 1) <= pw (-1000) * Zpos m2).
    { apply Z.mul_le_mono_nonneg_l; [|done]. pose proof (pw_pos (-1000) ltac:(lia)). lia. }
    lia. }
  assert (Hs : d2 + 53 - d1 <= s /\ 0 <= s) by (subst s e; lia).
  assert (He : -4000 <= e) by (subst e; lia).
  assert (Em : match s with 0 => Zpos m1 | Zpos _ => Z.shiftl (Zpos m1) s | Zneg _ => 0 end = Zpos m1 * 2 ^ s).
  { destruct s eqn:S; [simpl; lia| |lia]. rewrite Z.shiftl_mul_pow2 by lia. done. }
  rewrite Em. set (n := Zpos m1 * 2 ^ s).
  pose proof (Z_div_mod n (Zpos m2) ltac:(lia)) as Hdm.
  destruct (Z.div_eucl n (Zpos m2)) as [q r]. destruct Hdm as [Hn Hr].
  assert (Hbig : 2 ^ 52 * Zpos m2 <= n).
  { subst n. apply Z.le_trans with (2 ^ (d1 - 1) * 2 ^ s); [|apply Z.mul_le_mono_nonneg_r; lia].
    apply Z.le_trans with (2 ^ 52 * 2 ^ d2); [apply Z.mul_le_mono_nonneg_l; lia|].
    rewrite <- !Z.pow_add_r by lia. apply Z.pow_le_mono_r; lia. }
  assert (Hq : 2 ^ 52 <= q) by nia.
  destruct q as [|q|q]; [lia| |lia].
  eexists q, e, _. split; [reflexivity|]. split_and!; [done|done|].
  exists n. split_and!.
  - subst n. replace (e1 - e2) with (e + s) by (subst s; lia). rewrite pw_add by lia. lia.
  - lia.
  - lia.
  - unfold new_location, new_location_even, new_location_odd.
    destruct (Z.eqb_spec r 0) as [->|]; [left; by destruct (Z.even _)|right; lia].
Qed.

Lemma div_within x y lo hi :
  is_finite x = true -> is_finite y = true -> 0 <= val x -> 0 < val y ->
  repr lo -> repr hi -> pw (-1000) <= lo -> hi < pw 1024 ->
  lo * val y <= val x * pw 0 <= hi * val y -> within lo hi (x / y)%float.
Proof.
  intros Fx Fy Px Py Rl Rh Hmin Hlt Hb. assert (P0 : 0 < pw 0) by (by apply pw_pos).
  pose proof (pw_pos (-1000) ltac:(lia)) as Pm.
  destruct (nonneg_cases x Fx Px) as [(Vx & sx & Ex)|(m1 & e1 & Ex & Vx & He1 & _)]; [nia|].
  destruct (nonneg_cases y Fy ltac:(lia)) as [(Vy & sy & Ey)|(m2 & e2 & Ey & Vy & He2 & _)]; [lia|].
  assert (P2 : 0 < pw e2) by (apply pw_pos; lia).
  assert (Ew : pw e1 * pw 0 = pw (e1 - e2) * pw e2) by (apply pw_mul; lia).
  assert (Hlo : lo * Zpos m2 <= Zpos m1 * pw (e1 - e2)).
  { apply (Z.mul_le_mono_pos_r _ _ (pw e2)); [done|]. rewrite Vx, Vy in Hb. nia. }
  assert (Hhi : Zpos m1 * pw (e1 - e2) <= hi * Zpos m2).
  { apply (Z.mul_le_mono_pos_r _ _ (pw e2)); [done|]. rewrite Vx, Vy in Hb. nia. }
  pose proof (div_spec x y) as E. rewrite Ex, Ey in E. unfold SF64div, SFdiv in E.
  destruct (div_core m1 e1 m2 e2 He1 He2) as (q & e & l & Ed & He & Hq & n & En & Hn & Hl); [nia|].
  rewrite Ed in E. assert (Pe : 0 < pw e) by (by apply pw_pos). rewrite <- En in Hlo, Hhi.
  assert (Hr : e <= rexp q e).
  { unfold rexp. assert (53 <= Zpos (digits2_pos q)) by (by apply digits2_ge). lia. }
  (* a representable value is a multiple of [pw e], or below the quotient *)
  assert (Hrep : forall v, repr v -> (exists c, v = c * pw e) \/ v < Zpos q * pw e).
  { intros v (f & ef & [Hf Hef] & ->). destruct (Z.le_gt_cases e ef).
    - left. exists (f * 2 ^ (ef - e)). replace ef with (e + (ef - e)) at 1 by lia. rewrite pw_add by lia. lia.
    - right. assert (pw (ef + 1) <= pw e) by (apply pw_le; lia). rewrite pw_add in * by lia.
      assert (0 < pw ef) by (apply pw_pos; lia). change (2 ^ 1) with 2 in *. nia. }
  eapply round_within; [exact E|done|lia|done|done|done|..].
  - destruct (Hrep lo Rl) as [[c ->]|]; [|lia].
    assert (c * Zpos m2 <= n) by nia. assert (c <= Zpos q) by nia. nia.
  - destruct (Hrep hi Rh) as [[c ->]|Hbad].
    + assert (n <= c * Zpos m2) by nia.
      destruct Hl as [->|Hl]; [left; split; [done|]|right].
      * assert (Zpos q <= c) by nia. nia.
      * assert (Zpos q + 1 <= c) by nia. nia.
    + exfalso. nia.
Qed.

(** Values are powers of two with thousands of digits: nothing should unfold
    them by accident. *)
#[global] Opaque pw.
