(* ===== verification/RngFacts.v ===== *)
(** * Facts of the random numbers

    Every number drawn is [k / 2^32] for an integer [0 <= k < 2^32], exactly:
    so it lies in [0, 1), scaling it back gives [k], and a seed derived from it
    is [k] itself. *)

From S2P Require Import Prelude JsNum Types Binary64 Rng.
#[local] Open Scope Z_scope.

(** [u / 2^32], the value of the uint32 [u] in [0, 1). *)
Definition unit_of (u : Z) : num := (of_Z u / 4294967296)%float.

Lemma two32_of_Z : (4294967296)%float = of_Z W32.
Proof. vm_compute. reflexivity. Qed.

Lemma two32_val : is_finite 4294967296 = true /\ val 4294967296 = W32 * pw 0.
Proof. rewrite two32_of_Z. apply of_Z_val. unfold W32. lia. Qed.

Lemma repr_scaled u e : 0 <= u < 2 ^ 53 -> -1074 <= e -> repr (u * pw e).
Proof. intros Hu He. exists u, e. split; [by split|done]. Qed.

Lemma W32_pow : W32 = 2 ^ 32.
Proof. reflexivity. Qed.

Lemma pw0_unit : pw 0 = pw (-32) * 2 ^ 32.
Proof. exact (pw_add (-32) 32 ltac:(lia) ltac:(lia)). Qed.

(** Scaling by [2^-32] is exact. *)
Lemma unit_of_val u : 0 <= u < W32 -> is_finite (unit_of u) = true /\ val (unit_of u) = u * pw (-32).
Proof.
  intros Hu. destruct two32_val as [Ft Vt]. unfold W32 in Hu.
  destruct (of_Z_val u ltac:(lia)) as [Fu Vu].
  destruct (Z.eq_dec u 0) as [->|Hne]; [by split; vm_compute|].
  assert (Pm : 0 < pw (-32)) by (by apply pw_pos). assert (P0 : 0 < pw 0) by (by apply pw_pos).
  pose proof pw0_unit as E0.
  destruct (div_within (of_Z u) 4294967296 (u * pw (-32)) (u * pw (-32))) as [Hf Hv]; try assumption.
  - rewrite Vu. nia.
  - apply repr_scaled; lia.
  - apply repr_scaled; lia.
  - pose proof (pw_le (-1000) (-32) ltac:(lia)). nia.
  - pose proof (pw_lt 0 ltac:(lia)). nia.
  - rewrite Vu, Vt, W32_pow, E0. lia.
  - split; [done|]. unfold unit_of. lia.
Qed.

(** A double whose value is an integer is its own floor. *)
Lemma floor_integral x z :
  is_finite x = true -> 0 <= z -> val x = z * pw 0 -> num_floor x = of_Z z \/ z = 0 /\ num_floor x = x.
Proof.
  intros Hf Hz Hv. unfold num_floor.
  destruct (nonneg_cases x Hf) as [(V & s & ->)|(m & e & E & V & He & _)].
  - rewrite Hv. pose proof (pw_pos 0 ltac:(lia)). nia.
  - right. split; [|done]. rewrite Hv in V. pose proof (pw_pos 0 ltac:(lia)). nia.
  - left. rewrite E. f_equal. unfold sf_floor. cbv zeta iota. rewrite Hv in V.
    assert (P0 : 0 < pw 0) by (by apply pw_pos). assert (Pe : 0 < pw e) by (apply pw_pos; lia).
    destruct (Z.le_gt_cases 0 e) as [H0|H0].
    + rewrite Z.shiftl_mul_pow2 by done.
      rewrite <- (Z.add_0_l e), pw_add in V by lia. nia.
    + rewrite Z.shiftl_div_pow2 by lia.
      assert (E0 : pw 0 = pw e * 2 ^ (- e)) by (rewrite <- pw_add by lia; f_equal; lia).
      assert (Hp : 0 < 2 ^ (- e)) by (apply Z.pow_pos_nonneg; lia).
      rewrite E0 in V. replace (Zpos m) with (z * 2 ^ (- e)) by nia. apply Z.div_mul. lia.
Qed.

(** Scaling back is exact too. *)
Lemma unit_of_back u : 0 <= u < W32 -> num_floor (unit_of u * 4294967296)%float = of_Z u.
Proof.
  intros Hu. destruct two32_val as [Ft Vt]. destruct (unit_of_val u Hu) as [Fu Vu].
  unfold W32 in Hu.
  destruct (Z.eq_dec u 0) as [->|Hne]; [vm_compute; reflexivity|].
  assert (Pm : 0 < pw (-32)) by (by apply pw_pos). assert (P0 : 0 < pw 0) by (by apply pw_pos).
  pose proof pw0_unit as E0.
  destruct (mul_within (unit_of u) 4294967296 (u * pw 0) (u * pw 0)) as [Hf Hv]; try assumption.
  - rewrite Vu. nia.
  - rewrite Vt. unfold W32. lia.
  - apply repr_scaled; lia.
  - apply repr_scaled; lia.
  - split; [nia|]. pose proof (pw_add 0 32 ltac:(lia) ltac:(lia)) as E. change (0 + 32) with 32 in E.
    pose proof (pw_lt 32 ltac:(lia)). nia.
  - rewrite Vu, Vt, W32_pow, E0. lia.
  - destruct (floor_integral (unit_of u * 4294967296)%float u Hf ltac:(lia) ltac:(lia)) as [->|[? _]]; [done|lia].
Qed.

Lemma trunc_of_Z z : 0 <= z < 2 ^ 53 -> trunc_Z (of_Z z) = Some z.
Proof.
  intros Hz. destruct (of_Z_val z ltac:(lia)) as [Hf Hv]. unfold trunc_Z.
  assert (P0 : 0 < pw 0) by (by apply pw_pos).
  destruct (nonneg_cases (of_Z z) Hf) as [(V & s & ->)|(m & e & E & V & He & _)].
  - rewrite Hv. nia.
  - rewrite Hv in V. f_equal. nia.
  - rewrite E. f_equal. unfold sf_trunc. cbv zeta iota. rewrite Hv in V.
    assert (Pe : 0 < pw e) by (apply pw_pos; lia).
    destruct (Z.le_gt_cases 0 e) as [H0|H0].
    + rewrite Z.shiftl_mul_pow2 by done.
      rewrite <- (Z.add_0_l e), pw_add in V by lia. nia.
    + rewrite Z.shiftl_div_pow2 by lia.
      assert (E0 : pw 0 = pw e * 2 ^ (- e)) by (rewrite <- pw_add by lia; f_equal; lia).
      assert (Hp : 0 < 2 ^ (- e)) by (apply Z.pow_pos_nonneg; lia).
      rewrite E0 in V. replace (Zpos m) with (z * 2 ^ (- e)) by nia. apply Z.div_mul. lia.
Qed.

Lemma mulberry_out_range s : 0 <= mulberry_out s < W32.
Proof. apply to_u32_range. Qed.

Lemma nextRandom_unit_of s : (nextRandom s).2 = unit_of (mulberry_out (to_u32 (s + 0x6d2b79f5))).
Proof. unfold nextRandom, unit_of. cbv zeta. cbn [snd]. reflexivity. Qed.

(** Every draw is in [0, 1). *)
Lemma nextRandom_lt_1 s :
  (0 <=? (nextRandom s).2)%float = true /\ ((nextRandom s).2 <? 1)%float = true.
Proof.
  rewrite nextRandom_unit_of. set (u := mulberry_out _).
  assert (Hu : 0 <= u < W32) by apply mulberry_out_range.
  destruct (unit_of_val u Hu) as [Hf Hv]. unfold W32 in Hu.
  assert (Pm : 0 < pw (-32)) by (by apply pw_pos).
  pose proof pw0_unit as E0.
  change 1%float with (of_Z 1). change 0%float with (of_Z 0).
  destruct (of_Z_val 1 ltac:(lia)) as [F1 V1]. destruct (of_Z_val 0 ltac:(lia)) as [F0 V0].
  rewrite leb_val, ltb_val by done. rewrite Hv, V0, V1. split; [apply Z.leb_le|apply Z.ltb_lt]; nia.
Qed.

(** The seed of a continue-as-new segment is the raw generator output. *)
Lemma seedFrom_output s : seedFrom s = mulberry_out (to_u32 (s + 0x6d2b79f5)).
Proof.
  unfold seedFrom. rewrite nextRandom_unit_of. set (u := mulberry_out _).
  assert (Hu : 0 <= u < W32) by apply mulberry_out_range.
  rewrite unit_of_back by done. unfold num_to_u32. unfold W32 in Hu.
  rewrite trunc_of_Z by lia. by apply to_u32_id.
Qed.

(** Folding in a drawn value xors its 32 bits. *)
Lemma mix_unit s u : 0 <= u < W32 -> mix s (unit_of u) = to_u32 (bxor s (to_i32 u)).
Proof.
  intros Hu. unfold mix. rewrite unit_of_back by done. unfold num_to_i32. unfold W32 in Hu.
  by rewrite trunc_of_Z by lia.
Qed.
