(* ===== verification/SpawnFacts.v ===== *)
(** * Spawning

    The gap after a spawn is always more than a pixel, so the spawn loops end
    by their own test; what they spawn is drawn from the level's weights. *)

From S2P Require Import Prelude JsNum Types Levels Binary64 Rng RngFacts Step.
#[local] Open Scope Z_scope.

(** ** Definitions *)

(** A double between two integers. *)
Definition between_Z (a b : Z) (x : num) : Prop := within (a * pw 0) (b * pw 0) x.

(** Speeds the game is built for. *)
Definition sane_speed (v : num) : Prop := between_Z 1 1000 v.

(** ** Bounds *)

Lemma pw0_pos : 0 < pw 0.
Proof. by apply pw_pos. Qed.
#[local] Hint Resolve pw0_pos : core.

Lemma pw0_quarter : pw 0 = pw (-2) * 4.
Proof. exact (pw_add (-2) 2 ltac:(lia) ltac:(lia)). Qed.

Lemma repr_int n : 0 <= n < 2 ^ 53 -> repr (n * pw 0).
Proof. intros H. apply repr_scaled; lia. Qed.

Lemma int_lt_inf n : 0 <= n < 2 ^ 53 -> n * pw 0 < pw 1024.
Proof.
  intros H. pose proof (pw_add 0 53 ltac:(lia) ltac:(lia)) as E. change (0 + 53) with 53 in E.
  pose proof (pw_lt 53 ltac:(lia)). pose proof pw0_pos. nia.
Qed.

(** Whole-number bounds of the operations. *)
Lemma add_between a b c d x y :
  0 <= a -> 0 <= c -> b + d < 2 ^ 53 ->
  between_Z a b x -> between_Z c d y -> between_Z (a + c) (b + d) (x + y)%float.
Proof.
  intros Ha Hc Hbd [Fx Vx] [Fy Vy]. pose proof pw0_pos.
  assert (a <= b) by nia. assert (c <= d) by nia.
  apply add_within; try assumption; [nia|nia|apply repr_int; lia|apply repr_int; lia|apply int_lt_inf; lia|lia].
Qed.

Lemma mul_between a b c d x y :
  0 <= a -> 0 <= c -> b * d < 2 ^ 53 ->
  between_Z a b x -> between_Z c d y -> between_Z (a * c) (b * d) (x * y)%float.
Proof.
  intros Ha Hc Hbd [Fx Vx] [Fy Vy]. pose proof pw0_pos.
  assert (a <= b) by nia. assert (c <= d) by nia. assert (a * c <= b * d) by nia.
  apply mul_within; try assumption; [nia|nia|apply repr_int; nia|apply repr_int; nia| |].
  - split; [nia|]. apply int_lt_inf; nia.
  - split.
    + transitivity ((a * pw 0) * (c * pw 0)); [lia|]. apply Z.mul_le_mono_nonneg; nia.
    + transitivity ((b * pw 0) * (d * pw 0)); [|lia]. apply Z.mul_le_mono_nonneg; nia.
Qed.

Lemma between_const n x : 0 <= n < 2 ^ 53 -> x = of_Z n -> between_Z n n x.
Proof. intros Hn ->. destruct (of_Z_val n ltac:(lia)) as [F V]. split; [done|]. rewrite V. lia. Qed.

Lemma between_weaken a b a' b' x : a' <= a -> b <= b' -> between_Z a b x -> between_Z a' b' x.
Proof. intros ??. pose proof pw0_pos. apply within_weaken; nia. Qed.

Lemma unit_between u : 0 <= u < W32 -> between_Z 0 1 (unit_of u).
Proof.
  intros Hu. destruct (unit_of_val u Hu) as [F V]. split; [done|]. rewrite V. unfold W32 in Hu.
  pose proof (pw_pos (-32) ltac:(lia)).
  assert (E0 : pw 0 = pw (-32) * 2 ^ 32) by (by rewrite <- pw_add by lia). rewrite E0. nia.
Qed.

Lemma nextRandom_between s : between_Z 0 1 (nextRandom s).2.
Proof. rewrite nextRandom_unit_of. apply unit_between, mulberry_out_range. Qed.

(** The gap scale: 1, or 0.8 in a boss phase. *)
Definition scale_ok (scale : num) : Prop :=
  is_finite scale = true /\ 4 * pw 0 <= 5 * val scale + pw (-40) /\ val scale <= pw 0.

Lemma scale_one : scale_ok 1%float.
Proof. split; [done|]. split; apply Z.leb_le; vm_compute; reflexivity. Qed.
Lemma scale_boss : scale_ok BOSS_GAP_SCALE.
Proof. split; [done|]. split; apply Z.leb_le; vm_compute; reflexivity. Qed.

Lemma quarter_speed v :
  sane_speed v ->
  is_finite (v / 4)%float = true /\ pw (-2) <= val (v / 4)%float <= 250 * pw 0.
Proof.
  intros [Fv Vv]. change 4%float with (of_Z 4).
  destruct (of_Z_val 4 ltac:(lia)) as [F4 V4].
  pose proof pw0_quarter as E0.
  pose proof pw0_pos. assert (Pm : 0 < pw (-2)) by (by apply pw_pos).
  apply div_within; try assumption; try lia.
  - rewrite <- (Z.mul_1_l (pw (-2))). apply repr_scaled; lia.
  - apply repr_int; lia.
  - by apply pw_le.
  - rewrite V4. nia.
Qed.

(** The gap before scaling. *)
Lemma base_gap r : between_Z 0 1 r -> between_Z 150 280 (MIN_GAP + r * GAP_RANGE)%float.
Proof.
  intros Hr. apply (add_between 150 150 0 130); try lia; [by apply between_const|].
  apply (mul_between 0 1 130 130); try lia; [done|by apply between_const].
Qed.

Lemma scaled_gap base scale :
  between_Z 150 280 base -> scale_ok scale -> between_Z 119 280 (base * scale)%float.
Proof.
  intros [Fb Vb] (Fs & Hs1 & Hs2). pose proof pw0_pos. assert (P40 : 0 < pw (-40)) by (by apply pw_pos).
  pose proof (pw_add (-40) 40 ltac:(lia) ltac:(lia)) as E40. change (-40 + 40) with 0 in E40.
  change (2 ^ 40) with 1099511627776 in E40.
  apply mul_within; [exact Fb|exact Fs|lia|lia|apply repr_int; lia|apply repr_int; lia| |].
  - split; [lia|]. apply int_lt_inf; lia.
  - split.
    + assert (119 * pw 0 <= 150 * val scale) by lia.
      transitivity ((150 * pw 0) * val scale); [nia|]. apply Z.mul_le_mono_nonneg_r; lia.
    + apply Z.mul_le_mono_nonneg; lia.
Qed.

Lemma paced_gap scaled v :
  between_Z 119 280 scaled -> sane_speed v -> between_Z 29 70000 (scaled * (v / 4))%float.
Proof.
  intros [Fc Vc] Hv. destruct (quarter_speed v Hv) as [Fq Vq].
  pose proof pw0_quarter as E2. pose proof pw0_pos. assert (P2 : 0 < pw (-2)) by (by apply pw_pos).
  apply mul_within; [exact Fc|exact Fq|lia|lia|apply repr_int; lia|apply repr_int; lia| |].
  - split; [lia|]. apply int_lt_inf; lia.
  - split.
    + transitivity ((119 * pw 0) * pw (-2)); [nia|]. apply Z.mul_le_mono_nonneg; lia.
    + transitivity ((280 * pw 0) * (250 * pw 0)); [|nia]. apply Z.mul_le_mono_nonneg; lia.
Qed.

(** ** The loops end by their own test *)

Lemma floor_Z_val x : is_finite x = true -> 0 <= val x -> floor_Z x = Some (val x / pw 0).
Proof.
  intros Hf Hv. unfold floor_Z. pose proof pw0_pos.
  destruct (nonneg_cases x Hf Hv) as [(V & s & ->)|(m & e & E & V & He & _)]; [by rewrite V, Z.div_0_l by lia|].
  rewrite E, V. f_equal. unfold sf_floor. cbv zeta iota.
  destruct (Z.le_gt_cases 0 e) as [H0|H0].
  - rewrite Z.shiftl_mul_pow2 by done. replace (pw e) with (2 ^ e * pw 0).
    + rewrite Z.mul_assoc, Z.div_mul by lia. done.
    + rewrite Z.mul_comm, <- pw_add by lia. done.
  - rewrite Z.shiftl_div_pow2 by lia.
    assert (E0 : pw 0 = pw e * 2 ^ (- e)) by (rewrite <- pw_add by lia; f_equal; lia).
    assert (0 < pw e) by (apply pw_pos; lia). assert (0 < 2 ^ (- e)) by (apply Z.pow_pos_nonneg; lia).
    rewrite E0, (Z.mul_comm (Zpos m)), Z.div_mul_cancel_l by lia. done.
Qed.

(** A spawn position the loops work with: finite, not negative, and below the
    range where a double can no longer tell neighbouring pixels apart. *)
Definition position (x : num) : Prop := is_finite x = true /\ 0 <= val x < 2 ^ 40 * pw 0.
Definition pixel (x : num) : Z := val x / pw 0.

Lemma pixel_between x a b : between_Z a b x -> 0 <= a -> a <= pixel x <= b.
Proof.
  intros [_ [Ha Hb]] H. unfold pixel. pose proof pw0_pos. split.
  - apply Z.div_le_lower_bound; lia.
  - apply Z.div_le_upper_bound; lia.
Qed.

Lemma position_pixels x : position x -> between_Z (pixel x) (pixel x + 1) x /\ 0 <= pixel x < 2 ^ 40.
Proof.
  intros [Hf Hx]. unfold pixel. pose proof pw0_pos as P.
  pose proof (Z.mul_div_le (val x) (pw 0) P). pose proof (Z.mul_succ_div_gt (val x) (pw 0) P).
  split; [split; [done|lia]|]. split; [apply Z.div_pos; lia|apply Z.div_lt_upper_bound; lia].
Qed.

(** The next spawn moves on by at least 29 pixels. *)
Lemma next_spawn_moves next gap :
  position next -> between_Z 29 70000 gap ->
  is_finite (next + gap)%float = true /\ pixel next + 29 <= pixel (next + gap)%float
  /\ val (next + gap)%float <= (pixel next + 70001) * pw 0.
Proof.
  intros Hn Hg. destruct (position_pixels next Hn) as [Hb Hr].
  pose proof (add_between (pixel next) (pixel next + 1) 29 70000 _ _ (proj1 Hr) ltac:(lia) ltac:(lia) Hb Hg) as H.
  pose proof (pixel_between _ _ _ H ltac:(lia)). destruct H as [Hf Hv]. split; [done|lia].
Qed.

(** A loop over next-spawn positions, its fuel the distance still to go. *)
Lemma ahead_exits scroll next :
  position scroll -> is_finite next = true -> 0 <= val next ->
  pixel scroll < pixel next -> (next <=? scroll)%float = false.
Proof.
  intros [Fs Vs] Fn Vn Hp. rewrite leb_val by done. apply Z.leb_gt.
  pose proof pw0_pos. destruct (Z.le_gt_cases (val next) (val scroll)) as [H1|H1]; [|done].
  pose proof (Z.div_le_mono (val next) (val scroll) (pw 0) ltac:(lia) H1). unfold pixel in *. lia.
Qed.

Lemma behind_position scroll next :
  position scroll -> is_finite next = true -> 0 <= val next ->
  (next <=? scroll)%float = true -> position next /\ pixel next <= pixel scroll.
Proof.
  intros [Fs Vs] Fn Vn H. rewrite leb_val in H by done. apply Z.leb_le in H.
  split; [split; [done|lia]|]. apply Z.div_le_mono; [apply pw0_pos|done].
Qed.

Lemma roll_spec s :
  between_Z 0 1 (roll s).1.(r_gap) /\ exists x, (roll s).2 = {| s with g_rng := x |}.
Proof. split; [apply nextRandom_between|by eexists]. Qed.

Lemma pixel_nonneg next gap :
  position next -> pixel next + 29 <= pixel (next + gap)%float -> 0 <= val (next + gap)%float.
Proof.
  intros Hp Hm. destruct (position_pixels next Hp) as [_ H0].
  pose proof (Z.mul_div_le (val (next + gap)%float) (pw 0) pw0_pos) as Hd. pose proof pw0_pos.
  unfold pixel in *. nia.
Qed.

Lemma spawn_main_loop_measure ws boss v : sane_speed v -> forall fuel s,
  position s.(g_scroll) -> is_finite s.(g_nextSpawnAt) = true -> 0 <= val s.(g_nextSpawnAt) ->
  (pixel s.(g_scroll) - pixel s.(g_nextSpawnAt) < Z.of_nat fuel) ->
  let s' := spawn_main_loop fuel ws boss v s in
  (s'.(g_nextSpawnAt) <=? s'.(g_scroll))%float = false.
Proof.
  intros Hv fuel. induction fuel as [|fuel IH]; intros s Hs Hn Hn0 Hf; cbv zeta.
  { simpl. apply ahead_exits; try assumption. lia. }
  cbn [spawn_main_loop]. destruct (s.(g_nextSpawnAt) <=? s.(g_scroll))%float eqn:E; [|done].
  destruct (behind_position _ _ Hs Hn Hn0 E) as [Hp Hpx].
  destruct (roll_spec s) as [Hr [x Ex]]. destruct (roll s) as [r s1]. simpl in Hr, Ex. subst s1.
  assert (Hg : between_Z 29 70000 ((MIN_GAP + r.(r_gap) * GAP_RANGE)
                                   * (if boss then BOSS_GAP_SCALE else 1) * (v / 4))%float).
  { apply paced_gap; [|exact Hv]. apply scaled_gap; [by apply base_gap|].
    destruct boss; [apply scale_boss|apply scale_one]. }
  destruct (next_spawn_moves _ _ Hp Hg) as (Hf' & Hm & _).
  apply IH; cbn [g_scroll g_nextSpawnAt]; [done|exact Hf'|by eapply pixel_nonneg|].
  lia.
Qed.

Lemma spawn_lane_loop_measure ws v : sane_speed v -> forall fuel s lane,
  position s.(g_scroll) -> is_finite lane.(l_nextSpawnAt) = true -> 0 <= val lane.(l_nextSpawnAt) ->
  (pixel s.(g_scroll) - pixel lane.(l_nextSpawnAt) < Z.of_nat fuel) ->
  let r := spawn_lane_loop fuel ws v s lane in
  (r.2.(l_nextSpawnAt) <=? r.1.(g_scroll))%float = false.
Proof.
  intros Hv fuel. induction fuel as [|fuel IH]; intros s l Hs Hn Hn0 Hf; cbv zeta.
  { simpl. apply ahead_exits; try assumption. lia. }
  cbn [spawn_lane_loop]. destruct (l.(l_nextSpawnAt) <=? s.(g_scroll))%float eqn:E; [|done].
  destruct (behind_position _ _ Hs Hn Hn0 E) as [Hp Hpx].
  destruct (roll_spec s) as [Hr [x Ex]]. destruct (roll s) as [r s1]. simpl in Hr, Ex. subst s1.
  assert (Hg : between_Z 29 70000 ((MIN_GAP + r.(r_gap) * GAP_RANGE) * (v / 4))%float).
  { apply paced_gap; [|exact Hv]. by eapply between_weaken; [..|by apply base_gap]. }
  destruct (next_spawn_moves _ _ Hp Hg) as (Hf' & Hm & _).
  apply IH; cbn [g_scroll l_nextSpawnAt]; [done|exact Hf'|by eapply pixel_nonneg|]. lia.
Qed.

Lemma spawn_fuel_enough scroll next :
  position scroll -> is_finite next = true -> 0 <= val next ->
  pixel scroll - pixel next < Z.of_nat (spawn_fuel scroll next).
Proof.
  intros [Fs Vs] Fn Vn. unfold spawn_fuel. rewrite !floor_Z_val by (assumption || lia). simpl.
  unfold pixel. lia.
Qed.

(** ** The speed of a level *)

Lemma minutes_between e : 0 <= e < 2 ^ 53 -> between_Z 0 (2 ^ 52) (of_Z e / 3600)%float.
Proof.
  intros He. destruct (Z.eq_dec e 0) as [->|Hne].
  { split; [done|]. pose proof pw0_pos. change (val (of_Z 0 / 3600)) with 0. lia. }
  destruct (of_Z_val e ltac:(lia)) as [Fe Ve]. destruct (of_Z_val 3600 ltac:(lia)) as [Fk Vk].
  change 3600%float with (of_Z 3600). pose proof pw0_pos as P0. assert (P12 : 0 < pw (-12)) by (by apply pw_pos).
  pose proof (pw_add (-12) 12 ltac:(lia) ltac:(lia)) as E12. change (-12 + 12) with 0 in E12. change (2 ^ 12) with 4096 in E12.
  apply (within_weaken (1 * pw (-12)) (2 ^ 52 * pw 0)); [lia|lia|].
  apply div_within; [exact Fe|exact Fk|lia|lia|apply repr_scaled; lia|apply repr_int; lia| |apply int_lt_inf; lia|].
  - pose proof (pw_le (-1000) (-12) ltac:(lia)). lia.
  - rewrite Ve, Vk, E12. nia.
Qed.

(** Level tables the engine's arithmetic is sound for: the speed starts, grows
    and stops within [1, 1000] pixels per tick. *)
Record sane_level (cfg : LevelConfig) : Prop := {
  sane_start : between_Z 1 1000 cfg.(cfg_speed);
  sane_max : between_Z 1 1000 cfg.(cfg_maxSpeed);
  sane_ramp : between_Z 0 1 cfg.(cfg_ramp)
}.

Lemma speedAt_sane cfg e : sane_level cfg -> 0 <= e < 2 ^ 53 -> sane_speed (speedAt cfg e).
Proof.
  intros [[Fs Vs] [Fm Vm] Hr] He. unfold speedAt, sane_speed. pose proof pw0_pos as P0.
  pose proof (mul_between 0 1 0 (2 ^ 52) _ _ ltac:(lia) ltac:(lia) ltac:(lia) Hr (minutes_between e He)) as Hg.
  pose proof (add_between 1 1000 0 (1 * 2 ^ 52) _ _ ltac:(lia) ltac:(lia) ltac:(lia) (conj Fs Vs) Hg) as [Fa Va].
  assert (Hmin : 1 * pw 0 <= val (num_min (cfg_maxSpeed cfg) (cfg_speed cfg + cfg_ramp cfg * (of_Z e / 3600))%float)
     <= 1000 * pw 0 /\ is_finite (num_min (cfg_maxSpeed cfg) (cfg_speed cfg + cfg_ramp cfg * (of_Z e / 3600))%float) = true).
  { unfold num_min. rewrite (eqb_val (cfg_maxSpeed cfg)), (eqb_val (_ + _)%float), !Z.eqb_refl by done. simpl.
    rewrite !ltb_val by done. repeat case_match; split; try assumption; bool_to_prop; try lia. }
  destruct Hmin. by split.
Qed.

Lemma LEVELS_sane l : sane_level (LEVELS l).
Proof.
  destruct l; split; cbn [LEVELS cfg_speed cfg_maxSpeed cfg_ramp];
    (split; [vm_compute; reflexivity|]; split; apply Z.leb_le; vm_compute; reflexivity).
Qed.
