(* ===== verification/StepFacts.v ===== *)
(** * Facts about one tick

    What [step] reads from its ports and what it writes to its events; the
    invariants every tick keeps. *)

From S2P Require Import Prelude JsNum Types Levels Rng Step.
#[local] Open Scope Z_scope.

(** ** Definitions *)

(** What a tick asked of its ports, in order: the value an orb got, or the
    value a crate (by id) got. *)
Inductive Answer := OrbAns (v : num) | CrateAns (id : Z) (v : num).

(** Ports in state [p] give these answers and end in state [p']. *)
Inductive supplies {P} (ports : Ports P) : P -> list Answer -> P -> Prop :=
  | supplies_nil p : supplies ports p [] p
  | supplies_orb p p1 p2 v l :
      ports.(impure) p = (v, p1) -> supplies ports p1 l p2 -> supplies ports p (OrbAns v :: l) p2
  | supplies_crate p p1 p2 id v l :
      ports.(crateValue) id p = (v, p1) -> supplies ports p1 l p2 ->
      supplies ports p (CrateAns id v :: l) p2.

(** The answers that explain a list of outcomes. *)
Inductive explains : list Answer -> list OutcomeEvent -> Prop :=
  | explains_nil : explains [] []
  | explains_orb v t id h l evs : explains l evs -> explains (OrbAns v :: l) (OrbTaken t id h :: evs)
  | explains_crate v t id h l evs :
      explains l evs -> explains (CrateAns id v :: l) (ActivityCrateCollected t id h v :: evs)
  | explains_coin t id h l evs : explains l evs -> explains l (ActivityCoinCollected t id h :: evs)
  | explains_trip t id h l evs : explains l evs -> explains l (CircuitBreakerTripped t id h :: evs)
  | explains_boost t id h l evs : explains l evs -> explains l (BoostLost t id h :: evs)
  | explains_out t h l evs : explains l evs -> explains l (FanOut t h :: evs)
  | explains_in t h r l evs : explains l evs -> explains l (FanIn t h r :: evs).

Create HintDb step discriminated.
#[export] Hint Constructors supplies explains : step.

(** The same collision state over other ports. *)
Definition with_port {P Q} (c : Coll (P := P)) (q : Q) : Coll (P := Q) :=
  {| c_s := c.(c_s); c_hit := c.(c_hit); c_evs := c.(c_evs); c_p := q |}.

(** [F] depends on its ports only through their answers. *)
Definition factors {P} (ports : Ports P)
    (F : forall Q, Ports Q -> Coll (P := Q) -> Coll (P := Q)) (c : Coll (P := P)) : Prop :=
  exists ans evs,
    supplies ports c.(c_p) ans (F P ports c).(c_p)
    /\ (F P ports c).(c_evs) = c.(c_evs) ++ evs
    /\ explains ans evs
    /\ forall Q (portsQ : Ports Q) q q',
         supplies portsQ q ans q' -> F Q portsQ (with_port c q) = with_port (F P ports c) q'.

(** ** Answers *)

Lemma supplies_app {P} (ports : Ports P) p1 p2 p3 l1 l2 :
  supplies ports p1 l1 p2 -> supplies ports p2 l2 p3 -> supplies ports p1 (l1 ++ l2) p3.
Proof. induction 1; simpl; eauto with step. Qed.

Lemma supplies_app_inv {P} (ports : Ports P) p1 p3 l1 l2 :
  supplies ports p1 (l1 ++ l2) p3 -> exists p2, supplies ports p1 l1 p2 /\ supplies ports p2 l2 p3.
Proof.
  revert p1. induction l1 as [|a l1 IH]; simpl; intros p1 H; [eauto with step|].
  inversion H; subst; destruct (IH _ ltac:(eassumption)) as (?&?&?); eauto with step.
Qed.

Lemma supplies_nil_inv {P} (ports : Ports P) p p' : supplies ports p [] p' -> p' = p.
Proof. by inversion 1. Qed.

Lemma explains_app l1 l2 e1 e2 : explains l1 e1 -> explains l2 e2 -> explains (l1 ++ l2) (e1 ++ e2).
Proof. induction 1; simpl; eauto with step. Qed.

Lemma explains_with_hash h l evs : explains l evs -> explains l (map (with_hash h) evs).
Proof. induction 1; simpl; eauto with step. Qed.

(** ** The ports are read through their answers only *)

Lemma factors_id {P} (ports : Ports P) c : factors ports (fun _ _ c => c) c.
Proof.
  exists [], []. rewrite app_nil_r. repeat split; eauto with step.
  intros Q portsQ q q' ->%supplies_nil_inv. done.
Qed.

Lemma factors_comp {P} (ports : Ports P) F G c :
  factors ports F c -> factors ports G (F P ports c) ->
  factors ports (fun Q ps c => G Q ps (F Q ps c)) c.
Proof.
  intros (a1 & e1 & S1 & E1 & X1 & T1) (a2 & e2 & S2 & E2 & X2 & T2).
  exists (a1 ++ a2), (e1 ++ e2). repeat split.
  - eauto using supplies_app.
  - rewrite E2, E1. by rewrite app_assoc.
  - by apply explains_app.
  - intros Q portsQ q q' (q1 & H1 & H2)%supplies_app_inv.
    rewrite (T1 _ _ _ _ H1). by apply T2.
Qed.

(** An operation that does not touch the ports and appends plain outcomes. *)
Lemma factors_pure {P} (ports : Ports P) (f : GameState -> GameState) (hit : bool) evs c :
  explains [] evs ->
  factors ports (fun Q _ c => {| c_s := f c.(c_s); c_hit := hit; c_evs := c.(c_evs) ++ evs; c_p := c.(c_p) |}) c.
Proof.
  intros Hx. exists [], evs. repeat split; eauto with step.
  intros Q portsQ q q' ->%supplies_nil_inv. done.
Qed.

Lemma resolveHit_explains cfg i h s : explains [] (resolveHit cfg i h s).2.
Proof. unfold resolveHit. repeat (case_match; simpl; eauto with step). Qed.

Definition hit_coll {P} (cfg : LevelConfig) (i : nat) (h : Hit) (c : Coll (P := P)) : Coll (P := P) :=
  let (s, evs) := resolveHit cfg i h c.(c_s) in
  {| c_s := s; c_hit := true; c_evs := c.(c_evs) ++ evs; c_p := c.(c_p) |}.

Lemma factors_hit {P} (ports : Ports P) cfg i h c :
  factors ports (fun Q _ c => hit_coll cfg i h c) c.
Proof.
  pose proof (resolveHit_explains cfg i h c.(c_s)) as Hx. unfold factors, hit_coll. simpl.
  destruct (resolveHit cfg i h c.(c_s)) as [s evs] eqn:E.
  exists [], evs. repeat split; eauto with step.
  intros Q portsQ q q' ->%supplies_nil_inv. simpl. by rewrite ?E.
Qed.

Definition pickup_coll {P} (ports : Ports P) cfg i j e (c : Coll (P := P)) : Coll (P := P) :=
  let '(s, evs, p) := pickup ports cfg i j e c.(c_s) c.(c_p) in
  {| c_s := s; c_hit := c.(c_hit); c_evs := c.(c_evs) ++ evs; c_p := p |}.

Lemma factors_pickup {P} (ports : Ports P) cfg i j e c :
  factors ports (fun Q ps c => pickup_coll ps cfg i j e c) c.
Proof.
  unfold factors, pickup_coll, pickup. simpl.
  destruct (e_kind e) eqn:K.
  all: try (destruct (impure ports (c_p c)) as [v p] eqn:V).
  all: try (destruct (crateValue ports (e_id e) (c_p c)) as [r p'] eqn:V').
  3: { (* a coin asks nothing *)
    eexists [], _. simpl. repeat split; eauto with step.
    intros Q portsQ q q' ->%supplies_nil_inv. done. }
  3: { (* an orb asks [impure] *)
    eexists [OrbAns v], _. simpl. repeat split; eauto with step.
    intros Q portsQ q q' H. inversion H; subst. apply supplies_nil_inv in H5 as ->.
    simpl. by rewrite H3. }
  (* everything else is a crate *)
  all: eexists [CrateAns (e_id e) r], _; simpl; repeat split; eauto with step;
    intros Q portsQ q q' H; inversion H; subst;
    match goal with X : supplies _ _ [] _ |- _ => apply supplies_nil_inv in X as -> end;
    simpl; match goal with X : crateValue _ _ _ = _ |- _ => by rewrite X end.
Qed.

Lemma with_port_id {P} (c : Coll (P := P)) : with_port c c.(c_p) = c.
Proof. by destruct c. Qed.

Lemma factors_ext {P} (ports : Ports P) F G c :
  (forall Q (ps : Ports Q) q, F Q ps (with_port c q) = G Q ps (with_port c q)) ->
  factors ports G c -> factors ports F c.
Proof.
  intros E (ans & evs & H1 & H2 & H3 & H4).
  pose proof (E P ports c.(c_p)) as E0. rewrite with_port_id in E0.
  exists ans, evs. rewrite E0. repeat split; auto.
  intros Q ps q q' Hs. rewrite E. by apply H4.
Qed.

(** What the loop body of [collide] decides for one entity. *)
Inductive Decided := Stop | Skip | Hits | Picks.
Definition decide_entity (s : GameState) (hit : bool) (box : Box) (e : Entity) : Decided :=
  if negb (bool_decide (s.(g_status) = Running)) then Stop
  else if e.(e_taken) || bool_decide (e.(e_kind) = Pit) || bool_decide (e.(e_kind) = Fanout) then Skip
  else if negb (overlaps (if isRack e.(e_kind) then hazard_box box else box) (box_of e)) then Skip
  else if isRack e.(e_kind) then if hit then Skip else Hits
  else Picks.

Lemma collide_entity_decide {P} (ports : Ports P) cfg i box c j e :
  collide_entity ports cfg i box c j e =
  match decide_entity c.(c_s) c.(c_hit) box e with
  | Stop => None
  | Skip => Some c
  | Hits => Some (hit_coll cfg i (RackHit j e.(e_id)) c)
  | Picks => Some (pickup_coll ports cfg i j e c)
  end.
Proof.
  unfold collide_entity, decide_entity, hit_coll, pickup_coll.
  repeat (case_match; simplify_eq/=; try done).
Qed.

Lemma factors_entities {P} (ports : Ports P) cfg i box es : forall j c,
  factors ports (fun Q ps c => collide_entities ps cfg i box j es c) c.
Proof.
  induction es as [|e es IH]; intros j c; [apply factors_id|].
  set (rest := fun Q (ps : Ports Q) c => collide_entities ps cfg i box (S j) es c).
  assert (E : forall Q (ps : Ports Q) q, collide_entities ps cfg i box j (e :: es) (with_port c q) =
    match decide_entity c.(c_s) c.(c_hit) box e with
    | Stop => with_port c q
    | Skip => rest Q ps (with_port c q)
    | Hits => rest Q ps (hit_coll cfg i (RackHit j e.(e_id)) (with_port c q))
    | Picks => rest Q ps (pickup_coll ps cfg i j e (with_port c q))
    end).
  { intros. simpl. rewrite collide_entity_decide. simpl. by destruct (decide_entity _ _ _ _). }
  destruct (decide_entity c.(c_s) c.(c_hit) box e).
  - apply (factors_ext ports _ (fun Q _ c => c)); [apply E|apply factors_id].
  - apply (factors_ext ports _ rest); [apply E|apply IH].
  - apply (factors_ext ports _ (fun Q ps c => rest Q ps (hit_coll cfg i (RackHit j (e_id e)) c))); [apply E|].
    apply (factors_comp ports (fun Q _ c => hit_coll cfg i (RackHit j (e_id e)) c) rest);
      [apply factors_hit|apply IH].
  - apply (factors_ext ports _ (fun Q ps c => rest Q ps (pickup_coll ps cfg i j e c))); [apply E|].
    apply (factors_comp ports (fun Q ps c => pickup_coll ps cfg i j e c) rest);
      [apply factors_pickup|apply IH].
Qed.

Lemma collide_track_hit {P} (ports : Ports P) cfg c i t :
  collide_track ports cfg c (i, t) =
  let box := player_box t.(t_player) in
  collide_entities ports cfg i box 0 t.(t_entities)
    (if negb c.(c_hit) && (GROUND_Y + PIT_HIT_DEPTH <=? t.(t_player).(p_y))%float
     then hit_coll cfg i PitHit c else c).
Proof. unfold collide_track, hit_coll. repeat case_match; simplify_eq/=; done. Qed.

Lemma factors_track {P} (ports : Ports P) cfg it c :
  factors ports (fun Q ps c => collide_track ps cfg c it) c.
Proof.
  destruct it as [i t].
  set (rest := fun Q (ps : Ports Q) c =>
    collide_entities ps cfg i (player_box t.(t_player)) 0 t.(t_entities) c).
  assert (E : forall Q (ps : Ports Q) q, collide_track ps cfg (with_port c q) (i, t) =
    if negb c.(c_hit) && (GROUND_Y + PIT_HIT_DEPTH <=? t.(t_player).(p_y))%float
    then rest Q ps (hit_coll cfg i PitHit (with_port c q)) else rest Q ps (with_port c q)).
  { intros. rewrite collide_track_hit. simpl. by destruct (negb _ && _). }
  destruct (negb _ && _).
  - apply (factors_ext ports _ (fun Q ps c => rest Q ps (hit_coll cfg i PitHit c))); [apply E|].
    apply (factors_comp ports (fun Q _ c => hit_coll cfg i PitHit c) rest);
      [apply factors_hit|apply factors_entities].
  - apply (factors_ext ports _ rest); [apply E|apply factors_entities].
Qed.

Lemma factors_tracks {P} (ports : Ports P) cfg its : forall c,
  factors ports (fun Q ps c => fold_left (collide_track ps cfg) its c) c.
Proof.
  induction its as [|it its IH]; intros c; [apply factors_id|].
  apply (factors_comp ports (fun Q ps c => collide_track ps cfg c it)
           (fun Q ps c => fold_left (collide_track ps cfg) its c)); [apply factors_track|apply IH].
Qed.

Lemma explains_nil_r evs : explains [] evs -> forall l evs', explains l evs' -> explains l (evs ++ evs').
Proof. intros H l evs' H'. by apply (explains_app [] l). Qed.

Lemma step_world_explains cfg s : explains [] (step_world cfg s).2.
Proof. unfold step_world, enterGate. repeat (case_match; simpl; eauto with step). Qed.

Lemma step_finish_explains cfg s evs :
  exists es, (step_finish cfg s evs).2 = evs ++ es /\ explains [] es.
Proof.
  unfold step_finish, fanIn.
  repeat (case_match; simplify_eq/=); eauto with step; exists []; rewrite ?app_nil_r; eauto with step.
Qed.

(** The events [step_finish] appends do not depend on the ones before. *)
Lemma step_finish_state cfg s evs evs' : (step_finish cfg s evs).1 = (step_finish cfg s evs').1.
Proof. unfold step_finish. repeat (case_match; simplify_eq/=); done. Qed.

(** A tick reads its ports through their answers only: some list of answers
    explains its outcomes, and any ports that give these answers produce the
    same state and the same events. *)
Lemma step_factors {P} (ports : Ports P) levels s ins p :
  exists ans,
    supplies ports p ans (step ports levels s ins p).(port)
    /\ explains ans (step ports levels s ins p).(events)
    /\ forall Q (portsQ : Ports Q) q q',
         supplies portsQ q ans q' ->
         step portsQ levels s ins q =
         {| state := (step ports levels s ins p).(state);
            events := (step ports levels s ins p).(events); port := q' |}.
Proof.
  unfold step. destruct (negb _).
  { exists []. simpl. repeat split; eauto with step. intros Q portsQ q q' ->%supplies_nil_inv. done. }
  pose proof (step_world_explains (levels s.(g_level)) (step_inputs ins s)) as Hw.
  destruct (step_world _ _) as [s1 evs1] eqn:W. simpl in Hw.
  pose proof (factors_tracks ports (levels s.(g_level)) (imap pair (tracks s1))
    {| c_s := s1; c_hit := false; c_evs := evs1; c_p := p |}) as (ans & evs2 & H1 & H2 & H3 & H4).
  fold (collide ports (levels s.(g_level)) s1 evs1 p) in H1, H2, H4. simpl in *.
  set (c := collide ports (levels s.(g_level)) s1 evs1 p) in *.
  destruct (step_finish_explains (levels s.(g_level)) c.(c_s) c.(c_evs)) as (es & E & X).
  exists ans.
  assert (EQ : forall Q (portsQ : Ports Q) q q', supplies portsQ q ans q' ->
            collide portsQ (levels s.(g_level)) s1 evs1 q = with_port c q').
  { intros Q portsQ q q' Hs. by rewrite <- (H4 _ _ _ _ Hs). }
  repeat split.
  - destruct (step_finish _ _ _) eqn:F. simpl. done.
  - destruct (step_finish _ _ _) as [s3 evs3] eqn:F. simpl in *. subst evs3.
    rewrite H2. apply explains_with_hash. rewrite <- app_assoc. apply explains_nil_r; [done|].
    rewrite <- (app_nil_r ans). by apply explains_app.
  - intros Q portsQ q q' Hs. rewrite (EQ _ _ _ _ Hs). simpl.
    destruct (step_finish _ _ _) eqn:F. done.
Qed.

(** ** Induction over [collide] *)

(** The entity a pair of indices denotes. *)
Definition entity_at (s : GameState) (i j : nat) : option Entity :=
  tracks s !! i ≫= fun t => t.(t_entities) !! j.

Lemma tracks_upd i f s : tracks (upd_track i f s) = alter f i (tracks s).
Proof.
  unfold tracks, upd_track. destruct (g_fan s) as [fan|] eqn:F; simpl.
  - generalize (f_lanes fan). intros l. revert i.
    induction l as [|x l IH]; intros [|i]; simpl; try done.
    + unfold alter. simpl. f_equal. by destruct (f (lane_track x)).
    + f_equal. apply IH.
  - destruct i; simpl; rewrite ?F; [|done]. unfold alter, main_track. simpl.
    f_equal. by destruct (f _).
Qed.

Lemma tracks_add_coin i s : tracks (add_lane_coin i s) = tracks s.
Proof.
  unfold tracks, add_lane_coin. destruct (g_fan s) as [fan|] eqn:F; simpl; rewrite ?F; [|done].
  generalize (f_lanes fan). intros l. revert i.
  induction l as [|x l IH]; intros [|i]; simpl; try done. f_equal. apply IH.
Qed.

(** How [resolveHit] and [pickup] change the tracks. *)
Definition take_at (j : nat) (t : Track) : Track :=
  {| t with t_entities := alter (fun e => {| e with e_taken := true |}) j t.(t_entities) |}.
Definition bounce_track (t : Track) : Track := {| t with t_player := bounce t.(t_player) |}.

Definition touches (i : nat) (h : Hit) (s s' : GameState) : Prop :=
  tracks s' = tracks s
  \/ tracks s' = alter bounce_track i (tracks s)
  \/ exists j id, h = RackHit j id /\ tracks s' = alter (take_at j) i (tracks s).

Lemma resolveHit_touches cfg i h s : touches i h s (resolveHit cfg i h s).1.
Proof.
  unfold touches, resolveHit, bounce_pit, upd_player, set_taken.
  repeat (case_match; simplify_eq/=); rewrite ?tracks_upd; auto.
  right; right. eauto.
Qed.

Lemma collect_coin_tracks cfg i s : tracks (collect_coin cfg i s) = tracks s.
Proof.
  transitivity (tracks (add_lane_coin i (add_score s))); [|by rewrite tracks_add_coin].
  unfold collect_coin. by destruct (cfg_shieldEnabled cfg).
Qed.

(** [pickup] by what it asks its ports; [s1] is the state with the entity taken. *)
Lemma pickup_inv {P} (ports : Ports P) cfg i j e s p (I : GameState * list OutcomeEvent * P -> Prop) :
  let s1 := set_taken i j s in
  I (collect_coin cfg i s1, [ActivityCoinCollected s1.(g_tick) e.(e_id) 0], p) ->
  (forall v p', I (mix_and_boost v s1, [OrbTaken s1.(g_tick) e.(e_id) 0], p')) ->
  (forall v p', I (add_score (mix_and_boost v s1), [ActivityCrateCollected s1.(g_tick) e.(e_id) 0 v], p')) ->
  I (pickup ports cfg i j e s p).
Proof.
  cbv zeta. intros H1 H2 H3. unfold pickup.
  destruct (e_kind e); try destruct (impure _ _); try destruct (crateValue _ _ _); auto.
Qed.

Lemma pickup_tracks {P} (ports : Ports P) cfg i j e s p :
  tracks (pickup ports cfg i j e s p).1.1 = alter (take_at j) i (tracks s).
Proof.
  rewrite <- (tracks_upd i (take_at j) s). fold (set_taken i j s).
  apply (pickup_inv ports cfg i j e s p (fun r => tracks r.1.1 = tracks (set_taken i j s))); [|done..].
  apply collect_coin_tracks.
Qed.

Lemma entity_at_bounce i s s' i' j' :
  tracks s' = alter bounce_track i (tracks s) -> entity_at s' i' j' = entity_at s i' j'.
Proof.
  unfold entity_at. intros ->. rewrite list_lookup_alter. case_decide; [subst|done].
  by destruct (tracks s !! i').
Qed.

Lemma entity_at_take i j s s' i' j' :
  tracks s' = alter (take_at j) i (tracks s) -> (i', j') <> (i, j) ->
  entity_at s' i' j' = entity_at s i' j'.
Proof.
  unfold entity_at. intros -> Hne. rewrite list_lookup_alter. case_decide; [subst|done].
  destruct (tracks s !! i') as [t|]; simpl; [|done].
  rewrite list_lookup_alter_ne; [done|congruence].
Qed.

Lemma entity_at_hit cfg i h s i' j' :
  (forall j id, h = RackHit j id -> (i', j') <> (i, j)) ->
  entity_at (resolveHit cfg i h s).1 i' j' = entity_at s i' j'.
Proof.
  intros Hne. destruct (resolveHit_touches cfg i h s) as [H|[H|(j & id & -> & H)]].
  - unfold entity_at. by rewrite H.
  - eauto using entity_at_bounce.
  - eapply entity_at_take; eauto.
Qed.

Lemma hit_coll_s {P} cfg i h (c : Coll (P := P)) : (hit_coll cfg i h c).(c_s) = (resolveHit cfg i h c.(c_s)).1.
Proof. unfold hit_coll. by destruct (resolveHit _ _ _ _). Qed.
Lemma pickup_coll_s {P} (ports : Ports P) cfg i j e c :
  (pickup_coll ports cfg i j e c).(c_s) = (pickup ports cfg i j e c.(c_s) c.(c_p)).1.1.
Proof. unfold pickup_coll. by destruct (pickup _ _ _ _ _ _ _) as [[? ?] ?]. Qed.

Section CollideInd.
Context {P : Type} (ports : Ports P) (cfg : LevelConfig) (I : Coll (P := P) -> Prop).
Hypothesis I_pit : forall i c, I c -> c.(c_hit) = false -> I (hit_coll cfg i PitHit c).
Hypothesis I_rack : forall i j e c, I c -> c.(c_hit) = false -> c.(c_s).(g_status) = Running ->
  entity_at c.(c_s) i j = Some e -> isRack e.(e_kind) = true -> e.(e_taken) = false ->
  I (hit_coll cfg i (RackHit j e.(e_id)) c).
Hypothesis I_pick : forall i j e c, I c -> c.(c_s).(g_status) = Running ->
  entity_at c.(c_s) i j = Some e -> e.(e_taken) = false ->
  e.(e_kind) ∈ [Coin; Orb; Crate] ->
  I (pickup_coll ports cfg i j e c).

(** The entities of track [i] from [j] on, and all later tracks, are untouched. *)
Definition ahead (i j : nat) (es : list Entity) (later : list Track) (s : GameState) : Prop :=
  (forall k e, es !! k = Some e -> entity_at s i (j + k) = Some e)
  /\ (forall k t, later !! k = Some t ->
        forall m, entity_at s (S i + k) m = t.(t_entities) !! m).

Lemma decide_rack s hit box e :
  decide_entity s hit box e = Hits ->
  hit = false /\ s.(g_status) = Running /\ isRack e.(e_kind) = true /\ e.(e_taken) = false.
Proof.
  unfold decide_entity. destruct (bool_decide_reflect (g_status s = Running)); simpl; [|done].
  destruct (e_taken e); simpl; [done|]. repeat case_match; try done.
Qed.

Lemma decide_pick s hit box e :
  decide_entity s hit box e = Picks ->
  s.(g_status) = Running /\ e.(e_taken) = false /\ e.(e_kind) ∈ [Coin; Orb; Crate].
Proof.
  unfold decide_entity. destruct (bool_decide_reflect (g_status s = Running)); simpl; [|done].
  destruct (e_taken e), (e_kind e); simpl; try done; repeat case_match; try done; set_solver.
Qed.

Lemma ahead_tail i j e es later s : ahead i j (e :: es) later s -> ahead i (S j) es later s.
Proof.
  intros [H1 H2]. split; [|done]. intros k x Hk. rewrite Nat.add_succ_comm. by apply (H1 (S k)).
Qed.

Lemma ahead_head i j e es later s : ahead i j (e :: es) later s -> entity_at s i j = Some e.
Proof. intros [H _]. rewrite <- (Nat.add_0_r j). by apply (H O). Qed.

Lemma ahead_take i j e es later s s' :
  ahead i j (e :: es) later s ->
  (forall i' j', (i', j') <> (i, j) -> entity_at s' i' j' = entity_at s i' j') ->
  ahead i (S j) es later s'.
Proof.
  intros [H1 H2] Hs. split.
  - intros k x Hk. rewrite Hs by (intros ?; simplify_eq; lia). rewrite Nat.add_succ_comm. by apply (H1 (S k)).
  - intros k t Hk m. rewrite Hs by (intros ?; simplify_eq; lia). by apply H2.
Qed.

Lemma collide_entities_inv box later i es : forall j c,
  I c -> ahead i j es later c.(c_s) ->
  I (collide_entities ports cfg i box j es c)
  /\ ahead i (j + length es) [] later (collide_entities ports cfg i box j es c).(c_s).
Proof.
  induction es as [|e es IH]; intros j c Hc Ha; simpl; [by rewrite Nat.add_0_r|].
  rewrite collide_entity_decide, Nat.add_succ_r.
  pose proof (ahead_head _ _ _ _ _ _ Ha) as He.
  destruct (decide_entity _ _ _ _) eqn:D.
  - split; [done|]. split; [done|]. apply Ha.
  - apply (IH (S j)); eauto using ahead_tail.
  - apply decide_rack in D as (Hh & Hs & Hk & Ht). apply (IH (S j)); [eauto|].
    eapply ahead_take; [done|]. intros i' j' Hne. rewrite hit_coll_s. apply entity_at_hit.
    by intros ?? ?; simplify_eq.
  - apply decide_pick in D as (Hs & Ht & Hk). apply (IH (S j)); [eauto|].
    eapply ahead_take; [done|]. intros i' j' Hne. rewrite pickup_coll_s.
    eapply entity_at_take; [apply pickup_tracks|done].
Qed.

Lemma collide_tracks_inv ts : forall i c,
  I c ->
  (forall k t, ts !! k = Some t -> forall m, entity_at c.(c_s) (i + k) m = t.(t_entities) !! m) ->
  I (fold_left (collide_track ports cfg) (imap (fun k t => ((i + k)%nat, t)) ts) c).
Proof.
  induction ts as [|t ts IH]; intros i c Hc Ha; [done|].
  rewrite imap_cons. cbn [fold_left]. rewrite Nat.add_0_r, collide_track_hit. cbv zeta.
  match goal with |- context [collide_entities _ _ _ _ _ _ ?x] => set (c1 := x) end.
  assert (Hc1 : I c1 /\ forall i' j', entity_at c1.(c_s) i' j' = entity_at c.(c_s) i' j').
  { subst c1. destruct (negb _) eqn:Hh; simpl; [|done]. destruct (_ <=? _)%float; [|done].
    apply negb_true_iff in Hh. split; [by apply I_pit|].
    intros. rewrite hit_coll_s. by apply entity_at_hit. }
  destruct Hc1 as [Hc1 He1].
  destruct (collide_entities_inv (player_box t.(t_player)) ts i t.(t_entities) 0 c1 Hc1) as [Hc2 Ha2].
  { split.
    - intros k e Hk. rewrite He1. specialize (Ha O t eq_refl). rewrite Nat.add_0_r in Ha. by rewrite Ha.
    - intros k t' Hk m. rewrite He1, Nat.add_succ_comm. by apply (Ha (S k)). }
  replace (imap ((fun k t0 => ((i + k)%nat, t0)) ∘ S) ts)
    with (imap (fun k t0 => ((S i + k)%nat, t0)) ts).
  2: { apply imap_ext. intros. simpl. f_equal. lia. }
  apply IH; [done|]. apply Ha2.
Qed.

Lemma collide_inv s evs p :
  I {| c_s := s; c_hit := false; c_evs := evs; c_p := p |} ->
  I (collide ports cfg s evs p).
Proof.
  intros H. unfold collide.
  apply (collide_tracks_inv (tracks s) 0); [done|].
  intros k t Hk m. simpl. unfold entity_at. by rewrite Hk.
Qed.
End CollideInd.
