(* ===== verification/StepInv.v ===== *)
(** * Invariants of the engine state

    The clock, the entity ids and the pickups: what holds of every state [step]
    reaches. *)

From S2P Require Import Prelude JsNum Types Levels Rng Step StepFacts.
#[local] Open Scope Z_scope.

(** ** Definitions *)

(** Ids of the pickups among some outcomes. *)
Definition pickup_id (e : OutcomeEvent) : option Z :=
  match e with
  | ActivityCoinCollected _ id _ | ActivityCrateCollected _ id _ _ | OrbTaken _ id _ => Some id
  | _ => None
  end.
Definition pickup_ids (evs : list OutcomeEvent) : list Z := omap pickup_id evs.

(** The ids of the entities on all tracks, each with its [taken] flag. *)
Definition track_view (t : Track) : list (Z * bool) :=
  map (fun e => (e.(e_id), e.(e_taken))) t.(t_entities).
Definition view (s : GameState) : list (Z * bool) := concat (map track_view (tracks s)).

(** Ids are unique, below the next id and above 0 (the id of a pit hit); what
    was collected ([C]) was collected once and is taken. *)
Record ids_ok (C : list Z) (next : Z) (V : list (Z * bool)) : Prop := {
  ids_next : 0 < next;
  ids_nodup : NoDup V.*1;
  ids_range : Forall (fun id => 0 < id < next) V.*1;
  ids_once : NoDup C;
  ids_past : Forall (fun id => id < next) C;
  ids_taken : forall id, (id, false) ∈ V -> id ∉ C
}.
Definition state_ids (C : list Z) (s : GameState) : Prop := ids_ok C s.(g_nextId) (view s).

(** ** Frames: what track updates leave alone *)

Lemma upd_track_frame i f s :
  exists p es fan, upd_track i f s = {| s with g_player := p; g_entities := es; g_fan := fan |}
    /\ (forall n, (forall fn, s.(g_fan) = Some fn -> length fn.(f_lanes) = n) ->
                  forall fn, fan = Some fn -> length fn.(f_lanes) = n).
Proof.
  unfold upd_track. destruct (g_fan s) as [fan|] eqn:F.
  - eexists (g_player s), (g_entities s), _. split; [reflexivity|].
    intros n Hn fn [= <-]. simpl. rewrite length_alter. by apply Hn.
  - destruct i.
    + eexists _, _, (g_fan s). rewrite F. split; [reflexivity|done].
    + exists (g_player s), (g_entities s), (g_fan s). rewrite F. split; [|done]. rewrite <- F. by destruct s.
Qed.

Lemma map_tracks_frame f s :
  exists p es fan, map_tracks f s = {| s with g_player := p; g_entities := es; g_fan := fan |}
    /\ (forall n, (forall fn, s.(g_fan) = Some fn -> length fn.(f_lanes) = n) ->
                  forall fn, fan = Some fn -> length fn.(f_lanes) = n).
Proof.
  unfold map_tracks. destruct (g_fan s) as [fan|] eqn:F.
  - eexists (g_player s), (g_entities s), _. split; [reflexivity|].
    intros n Hn fn [= <-]. simpl. rewrite length_map. by apply Hn.
  - eexists _, _, (g_fan s). rewrite F. split; [reflexivity|done].
Qed.

Lemma add_lane_coin_frame i s :
  exists fan, add_lane_coin i s = {| s with g_fan := fan |}
    /\ (forall n, (forall fn, s.(g_fan) = Some fn -> length fn.(f_lanes) = n) ->
                  forall fn, fan = Some fn -> length fn.(f_lanes) = n).
Proof.
  unfold add_lane_coin. destruct (g_fan s) as [fan|] eqn:F.
  - eexists _. split; [reflexivity|].
    intros n Hn fn [= <-]. simpl. rewrite length_alter. by apply Hn.
  - exists None. split; [|done]. rewrite <- F. by destruct s.
Qed.

(** Replaces every track update of the goal by an explicit record. *)
Ltac frame_tracks :=
  repeat match goal with
  | |- context [upd_track ?i ?f ?s] =>
      let p := fresh "p" in let es := fresh "es" in let fn := fresh "fn" in
      let E := fresh "E" in let L := fresh "L" in
      destruct (upd_track_frame i f s) as (p & es & fn & E & L); rewrite E in *; clear E
  | |- context [map_tracks ?f ?s] =>
      let p := fresh "p" in let es := fresh "es" in let fn := fresh "fn" in
      let E := fresh "E" in let L := fresh "L" in
      destruct (map_tracks_frame f s) as (p & es & fn & E & L); rewrite E in *; clear E
  | |- context [add_lane_coin ?i ?s] =>
      let fn := fresh "fn" in let E := fresh "E" in let L := fresh "L" in
      destruct (add_lane_coin_frame i s) as (fn & E & L); rewrite E in *; clear E
  end.

Lemma upd_track_proj {A} (pr : GameState -> A) i f s :
  (forall s p es fn, pr {| s with g_player := p; g_entities := es; g_fan := fn |} = pr s) ->
  pr (upd_track i f s) = pr s.
Proof. intros H. destruct (upd_track_frame i f s) as (p & es & fn & -> & _). apply H. Qed.
Lemma add_lane_coin_proj {A} (pr : GameState -> A) i s :
  (forall s fn, pr {| s with g_fan := fn |} = pr s) -> pr (add_lane_coin i s) = pr s.
Proof. intros H. destruct (add_lane_coin_frame i s) as (fn & -> & _). apply H. Qed.

Lemma collect_coin_proj {A} (pr : GameState -> A) cfg i s :
  (forall s fn sc sh, pr {| s with g_fan := fn; g_score := sc; g_shield := sh |} = pr s) ->
  pr (collect_coin cfg i s) = pr s.
Proof.
  intros H. unfold collect_coin. destruct (add_lane_coin_frame i (add_score s)) as (fn & -> & _).
  destruct (cfg_shieldEnabled cfg); apply (H s).
Qed.

(** Projections of a state whose tracks were updated. *)
Ltac frame_field pr :=
  rewrite ?(upd_track_proj pr), ?(add_lane_coin_proj pr) by (intros; reflexivity);
  try rewrite !(collect_coin_proj pr) by (intros; reflexivity).
Ltac frame_proj :=
  unfold set_taken, upd_player;
  repeat (progress (simpl;
    frame_field g_tick; frame_field g_elapsed; frame_field g_rng; frame_field g_score;
    frame_field g_multiplier; frame_field g_multUntil; frame_field g_nextId;
    frame_field g_retries; frame_field g_shield; frame_field g_graceUntil;
    frame_field g_failedAt; frame_field g_status; frame_field g_bossUntil)).

(** ** The clock and the events' ticks *)

Definition ticked (t el : Z) (s : GameState) : Prop := s.(g_tick) = t /\ s.(g_elapsed) = el.

Lemma resolveHit_ticked cfg i h s t el :
  ticked t el s ->
  ticked t el (resolveHit cfg i h s).1
  /\ Forall (fun e => outcome_tick e = t) (resolveHit cfg i h s).2.
Proof.
  intros [<- <-]. unfold resolveHit, bounce_pit, ticked.
  repeat (case_match; simpl); frame_proj; auto.
Qed.

Lemma pickup_ticked {P} (ports : Ports P) cfg i j e s p t el :
  ticked t el s ->
  ticked t el (pickup ports cfg i j e s p).1.1
  /\ Forall (fun e => outcome_tick e = t) (pickup ports cfg i j e s p).1.2.
Proof.
  intros [<- <-]. unfold ticked.
  apply (pickup_inv ports cfg i j e s p
    (fun r => (g_tick r.1.1 = g_tick s /\ g_elapsed r.1.1 = g_elapsed s)
              /\ Forall (fun e => outcome_tick e = g_tick s) r.1.2)); intros; frame_proj; auto.
Qed.

Definition coll_ticked {P} (t el : Z) (c : Coll (P := P)) : Prop :=
  ticked t el c.(c_s) /\ Forall (fun e => outcome_tick e = t) c.(c_evs).

Lemma collide_ticked {P} (ports : Ports P) cfg s evs p t el :
  ticked t el s -> Forall (fun e => outcome_tick e = t) evs ->
  coll_ticked t el (collide ports cfg s evs p).
Proof.
  intros Hs He. apply (collide_inv ports cfg (coll_ticked t el)); [..|done].
  - intros i c [Hc Hv] _. unfold hit_coll.
    destruct (resolveHit_ticked cfg i PitHit _ _ _ Hc). destruct (resolveHit _ _ _ _).
    split; [done|]. by apply Forall_app.
  - intros i j e c [Hc Hv] _ _ _ _ _. unfold hit_coll.
    destruct (resolveHit_ticked cfg i (RackHit j (e_id e)) _ _ _ Hc). destruct (resolveHit _ _ _ _).
    split; [done|]. by apply Forall_app.
  - intros i j e c [Hc Hv] _ _ _ _. unfold pickup_coll.
    destruct (pickup_ticked ports cfg i j e _ (c_p c) _ _ Hc). destruct (pickup _ _ _ _ _ _ _) as [[? ?] ?].
    split; [done|]. by apply Forall_app.
Qed.

Lemma step_inputs_ticked ins s : ticked s.(g_tick) s.(g_elapsed) (step_inputs ins s).
Proof.
  unfold step_inputs. cbv zeta. frame_tracks. unfold ticked. simpl.
  apply (fold_left_inv (fun s' => s'.(g_tick) = s.(g_tick) /\ s'.(g_elapsed) = s.(g_elapsed))).
  - intros s' i _ [<- <-]. by destruct i.
  - by case_match.
Qed.

(** Induction over the spawn loops: every spawned entity is [spawn] of some
    kind and roll, under the next id. *)
Section SpawnInd.
Context (ws : Weights) (v : num).

Lemma spawn_main_loop_inv (I : GameState -> Prop) b :
  (forall s r k y at_, 0 <= r < W32 -> I s ->
     I {| s with g_rng := r; g_entities := s.(g_entities) ++ [spawn k s.(g_nextId) SPAWN_X y];
                 g_nextId := s.(g_nextId) + 1; g_nextSpawnAt := at_ |}) ->
  forall fuel s, I s -> I (spawn_main_loop fuel ws b v s).
Proof.
  intros HI fuel. induction fuel as [|fuel IH]; intros s Hs; cbn [spawn_main_loop]; [done|].
  destruct (_ <=? _)%float; [|done].
  apply IH. apply (HI s); [apply to_u32_range|done].
Qed.

Context (I : GameState -> Lane -> Prop).
Hypothesis HI : forall s l r k y at_, 0 <= r < W32 -> I s l ->
     I {| s with g_rng := r; g_nextId := s.(g_nextId) + 1 |}
       {| l with l_entities := l.(l_entities) ++ [spawn k s.(g_nextId) LANE_SPAWN_X y];
                 l_nextSpawnAt := at_ |}.

Lemma spawn_lane_loop_inv : forall fuel s l, I s l ->
  I (spawn_lane_loop fuel ws v s l).1 (spawn_lane_loop fuel ws v s l).2.
Proof.
  intros fuel. induction fuel as [|fuel IH]; intros s l Hs; cbn [spawn_lane_loop]; [done|].
  destruct (_ <=? _)%float; [|done].
  apply IH. apply (HI s l); [apply to_u32_range|done].
Qed.
End SpawnInd.

Lemma spawn_each_lane_ticked ws v ls : forall s,
  ticked s.(g_tick) s.(g_elapsed) (spawn_each_lane ws v s ls).1.
Proof.
  induction ls as [|l ls IH]; intros s; [done|]. cbn [spawn_each_lane].
  pose proof (spawn_lane_loop_inv ws v (fun s' _ => ticked s.(g_tick) s.(g_elapsed) s')
    ltac:(done) (spawn_fuel (g_scroll s) (l_nextSpawnAt l)) s l) as H.
  destruct (spawn_lane_loop _ _ _ _ _) as [s1 l1]. specialize (IH s1).
  destruct (spawn_each_lane _ _ _ _) as [s2 ls2]. simpl in *. destruct H; [done|].
  unfold ticked in *. lia.
Qed.

Lemma step_world_ticked cfg s t el :
  ticked t el s ->
  ticked t el (step_world cfg s).1 /\ Forall (fun e => outcome_tick e = t) (step_world cfg s).2.
Proof.
  intros [<- <-]. unfold step_world, enterGate. cbv zeta. frame_tracks. simpl.
  destruct fn as [fan|]; simpl.
  - split; [|done]. unfold spawnLanes. simpl. case_match; [done|].
    match goal with |- context [spawn_each_lane ?ws ?v ?s0 ?ls] =>
      pose proof (spawn_each_lane_ticked ws v ls s0); destruct (spawn_each_lane ws v s0 ls) end.
    done.
  - match goal with |- context [spawnMain cfg ?v ?s0] =>
      assert (H : ticked (g_tick s0) (g_elapsed s0) (spawnMain cfg v s0)); [|set (s1 := spawnMain cfg v s0) in *] end.
    { unfold spawnMain. case_match; [case_match; done|].
      apply (spawn_main_loop_inv _ _ (fun s' => ticked _ _ s')); done. }
    simpl in H. destruct H as [H1 H2]. unfold ticked.
    repeat (case_match; simpl); auto.
Qed.

Lemma step_finish_ticked cfg s evs t el :
  ticked t el s -> Forall (fun e => outcome_tick e = t) evs ->
  ticked (t + 1) (el + 1) (step_finish cfg s evs).1
  /\ Forall (fun e => outcome_tick e = t) (step_finish cfg s evs).2.
Proof.
  intros [<- <-] He. unfold step_finish, fanIn, ticked.
  repeat (case_match; simplify_eq/=); auto; rewrite ?Forall_app; auto.
Qed.

(** A running tick advances both clocks by one. *)
Lemma step_clock {P} (ports : Ports P) levels s ins p :
  s.(g_status) = Running ->
  let r := step ports levels s ins p in
  ticked (s.(g_tick) + 1) (s.(g_elapsed) + 1) r.(state)
  /\ Forall (fun e => outcome_tick e = s.(g_tick)) r.(events)
  /\ Forall (fun e => outcome_hash e = hashState r.(state)) r.(events).
Proof.
  intros Hr. cbv zeta. unfold step. rewrite Hr. simpl negb. cbv iota.
  pose proof (step_inputs_ticked ins s) as Hi.
  destruct (step_world_ticked (levels (g_level s)) _ _ _ Hi) as [Hw Hwe].
  destruct (step_world _ _) as [s1 evs1]. simpl in Hw, Hwe.
  destruct (collide_ticked ports (levels (g_level s)) s1 evs1 p _ _ Hw Hwe) as [Hc Hce].
  destruct (step_finish_ticked (levels (g_level s)) _ _ _ _ Hc Hce) as [Hf Hfe].
  destruct (step_finish _ _ _) as [s2 evs2]. simpl in *. split_and!; [done|..].
  - rewrite Forall_map. eapply Forall_impl; [exact Hfe|]. intros e. simpl. by rewrite with_hash_tick.
  - rewrite Forall_map. apply Forall_true. intros e. apply with_hash_hash.
Qed.

(** ** Entity ids *)

Lemma ids_ok_sublist C n V V' : V' `sublist_of` V -> ids_ok C n V -> ids_ok C n V'.
Proof.
  intros Hs [H0 H1 H2 H3 H4 H5]. split; auto.
  - apply (sublist_NoDup _ V.*1); [done|]. by apply fmap_sublist.
  - rewrite Forall_forall in *. intros x Hx. apply H2.
    eapply elem_of_sublist; [exact Hx|]. by apply fmap_sublist.
  - intros id Hid. apply H5. by eapply elem_of_sublist.
Qed.

Lemma ids_ok_perm C n V V' : V ≡ₚ V' -> ids_ok C n V -> ids_ok C n V'.
Proof.
  intros Hp [H0 H1 H2 H3 H4 H5]. split; auto.
  - by rewrite <- Hp.
  - by rewrite <- Hp.
  - intros id. rewrite <- Hp. apply H5.
Qed.

Lemma ids_ok_new C n V : ids_ok C n V -> ids_ok C (n + 1) ((n, false) :: V).
Proof.
  intros [H0 H1 H2 H3 H4 H5]. rewrite Forall_forall in H2, H4. split; auto.
  - lia.
  - simpl. constructor; [|done]. intros H%H2. lia.
  - simpl. constructor; [lia|]. rewrite Forall_forall. intros x Hx%H2. lia.
  - rewrite Forall_forall. intros x Hx%H4. lia.
  - intros id [Heq|Hid]%elem_of_cons; [|by apply H5].
    simplify_eq. intros H%H4. lia.
Qed.

Lemma ids_ok_take C n V1 V2 id b : ids_ok C n (V1 ++ (id, b) :: V2) -> ids_ok C n (V1 ++ (id, true) :: V2).
Proof.
  intros [H0 H1 H2 H3 H4 H5]. rewrite fmap_app, fmap_cons in *.
  split; rewrite ?fmap_app, ?fmap_cons; auto.
  intros x [Hx|[Hx|Hx]%elem_of_cons]%elem_of_app; [|done|]; apply H5; apply elem_of_app;
    [by left|right; by apply elem_of_cons; right].
Qed.

Lemma ids_ok_collect C n V1 V2 id :
  ids_ok C n (V1 ++ (id, false) :: V2) -> ids_ok (C ++ [id]) n (V1 ++ (id, true) :: V2).
Proof.
  intros H. pose proof (ids_ok_take _ _ _ _ _ _ H) as [H0 H1 H2 H3 H4 H5].
  destruct H as [_ Hn Hr _ _ Ht]. split; auto.
  - apply NoDup_app. split_and!; [done| |apply NoDup_singleton].
    intros x Hx ->%list_elem_of_singleton. apply (Ht id); [|done]. apply elem_of_app. right. by left.
  - rewrite Forall_app. split; [done|]. constructor; [|done].
    rewrite Forall_forall in Hr. eapply Hr. rewrite fmap_app, fmap_cons. apply elem_of_app. right. by left.
  - intros x Hx [HC| ->%list_elem_of_singleton]%elem_of_app; [by apply (H5 x)|].
    rewrite fmap_app, fmap_cons in Hn. apply NoDup_app in Hn as (_ & Hd & Hc).
    apply NoDup_cons in Hc as [Hc _].
    apply elem_of_app in Hx as [Hx|Hx].
    + apply (Hd id); [|by left]. apply list_elem_of_fmap. by exists (id, false).
    + apply elem_of_cons in Hx as [Hx|Hx]; [done|].
      apply Hc. apply list_elem_of_fmap. by exists (id, false).
Qed.

Lemma concat_sublist {A} (ls ls' : list (list A)) :
  Forall2 sublist ls ls' -> concat ls `sublist_of` concat ls'.
Proof. induction 1; simpl; [done|]. by apply sublist_app. Qed.

Lemma tracks_map f s : tracks (map_tracks f s) = map f (tracks s).
Proof.
  unfold tracks, map_tracks. destruct (g_fan s) as [fan|] eqn:F; simpl.
  - rewrite !map_map. apply map_ext. intros l. unfold lane_track at 1. simpl. by destruct (f _).
  - rewrite ?F. unfold main_track at 1. simpl. by destruct (f _).
Qed.

Lemma view_map_sub f s :
  (forall t, track_view (f t) `sublist_of` track_view t) -> view (map_tracks f s) `sublist_of` view s.
Proof.
  intros Hf. unfold view. rewrite tracks_map, map_map. apply concat_sublist.
  induction (tracks s); simpl; constructor; auto.
Qed.

Lemma updateFalling_view e v : (e_id (updateFalling e v), e_taken (updateFalling e v)) = (e_id e, e_taken e).
Proof. unfold updateFalling. by repeat case_match. Qed.

Lemma scrollTrack_view v t : track_view (scrollTrack v t) `sublist_of` track_view t.
Proof.
  unfold track_view, scrollTrack. simpl. induction (t_entities t) as [|e es IH]; simpl; [done|].
  case_match; simpl.
  - unfold scrollEntity at 1 2. rewrite updateFalling_view. by apply sublist_skip.
  - by apply sublist_cons.
Qed.

Lemma state_ids_map C f s :
  (forall t, track_view (f t) `sublist_of` track_view t) -> state_ids C s -> state_ids C (map_tracks f s).
Proof.
  intros Hf Hs. unfold state_ids.
  destruct (map_tracks_frame f s) as (p & es & fn & E & _).
  replace (g_nextId (map_tracks f s)) with (g_nextId s) by (by rewrite E).
  eapply ids_ok_sublist; [by apply view_map_sub|done].
Qed.

Lemma step_inputs_ids C ins s : state_ids C s -> state_ids C (step_inputs ins s).
Proof.
  intros Hs. unfold step_inputs. apply state_ids_map; [done|].
  apply fold_left_inv; [|by case_match]. intros s' i _ H. by destruct i.
Qed.

Lemma spawnMain_ids C cfg v s :
  s.(g_fan) = None -> state_ids C s ->
  (spawnMain cfg v s).(g_fan) = None /\ state_ids C (spawnMain cfg v s).
Proof.
  set (I s := s.(g_fan) = None /\ state_ids C s).
  assert (Happ : forall s s' e, I s -> s'.(g_fan) = None ->
    s'.(g_entities) = s.(g_entities) ++ [e] -> e.(e_id) = s.(g_nextId) -> e.(e_taken) = false ->
    s'.(g_nextId) = s.(g_nextId) + 1 -> I s').
  { intros s1 s2 e [Hf Hi] Hf2 He Hid Ht Hn. split; [done|]. revert Hi.
    unfold state_ids, view, tracks. rewrite Hf, Hf2, Hn. simpl. rewrite !app_nil_r.
    unfold track_view. simpl. rewrite He, map_app. simpl. rewrite Hid, Ht. intros Hi.
    eapply ids_ok_perm; [|by apply ids_ok_new]. by rewrite Permutation_app_comm. }
  intros Hf Hs. unfold spawnMain. case_match; [case_match|].
  - by eapply (Happ s).
  - done.
  - apply (spawn_main_loop_inv _ _ I); [|done]. intros s1 r k y at_ _ H1.
    eapply (Happ s1); [done|apply H1|done..].
Qed.

Definition lane_view (l : Lane) : list (Z * bool) := track_view (lane_track l).

Lemma spawn_each_lane_ids C ws v ls : forall s pre,
  ids_ok C s.(g_nextId) (pre ++ concat (map lane_view ls)) ->
  let r := spawn_each_lane ws v s ls in
  ids_ok C r.1.(g_nextId) (pre ++ concat (map lane_view r.2)).
Proof.
  induction ls as [|l ls IH]; intros s pre Hs; [done|]. cbn [spawn_each_lane map concat].
  set (post := concat (map lane_view ls)) in *.
  assert (H : let r := spawn_lane_loop (spawn_fuel (g_scroll s) (l_nextSpawnAt l)) ws v s l in
              ids_ok C (g_nextId r.1) (pre ++ lane_view r.2 ++ post)).
  { cbv zeta. apply (spawn_lane_loop_inv _ _ (fun s l => ids_ok C (g_nextId s) (pre ++ lane_view l ++ post)));
      [|done].
    intros s1 l1 r k y at_ _ H1. simpl. eapply ids_ok_perm; [|by apply ids_ok_new].
    unfold lane_view at 2, track_view, lane_track. simpl. rewrite map_app. simpl.
    rewrite <- !(assoc_L (++)). simpl. by rewrite <- !Permutation_middle. }
  destruct (spawn_lane_loop _ _ _ _ _) as [s1 l1]. cbv zeta in H. simpl in H.
  rewrite (assoc_L (++)) in H. apply IH in H. subst post.
  destruct (spawn_each_lane _ _ _ _) as [s2 ls2]. simpl in *. by rewrite <- (assoc_L (++)) in H.
Qed.

Lemma view_fan s fan : s.(g_fan) = Some fan -> view s = concat (map lane_view fan.(f_lanes)).
Proof. unfold view, tracks. intros ->. by rewrite map_map. Qed.

Lemma ids_ok_nil C n V : ids_ok C n V -> ids_ok C n [].
Proof. apply ids_ok_sublist, sublist_nil_l. Qed.

Lemma step_world_ids C cfg s : state_ids C s -> state_ids C (step_world cfg s).1.
Proof.
  intros Hs. unfold step_world. cbv zeta.
  match goal with |- context [map_tracks ?f ?s0] =>
    assert (H : state_ids C (map_tracks f s0)); [apply state_ids_map; [apply scrollTrack_view|done]|];
    set (s1 := map_tracks f s0) in * end.
  clearbody s1. destruct (g_fan s1) as [fan|] eqn:F.
  - simpl. unfold spawnLanes. rewrite F. case_match; [done|].
    unfold state_ids in H. rewrite (view_fan _ _ F) in H.
    pose proof (spawn_each_lane_ids C (cfg_laneWeights cfg) (speedAt cfg (g_elapsed s)) (f_lanes fan) s1 [] H) as H1.
    cbv zeta in H1. destruct (spawn_each_lane _ _ _ _) as [s2 ls].
    unfold state_ids. by erewrite view_fan by reflexivity.
  - destruct (spawnMain_ids C cfg (speedAt cfg (g_elapsed s)) s1 F H) as [_ H2].
    unfold enterGate. repeat (case_match; simpl; try done).
    unfold state_ids. erewrite view_fan by reflexivity. simpl. by eapply ids_ok_nil.
Qed.

Lemma view_take s s' i j e :
  entity_at s i j = Some e -> tracks s' = alter (take_at j) i (tracks s) ->
  exists V1 V2, view s = V1 ++ (e.(e_id), e.(e_taken)) :: V2 /\ view s' = V1 ++ (e.(e_id), true) :: V2.
Proof.
  unfold entity_at, view. intros H ->.
  destruct (tracks s !! i) as [t|] eqn:Ht; [|done]. simpl in H.
  apply lookup_split in Ht as (T1 & T2 & -> & <-). apply lookup_split in H as (E1 & E2 & HE & <-).
  exists (concat (map track_view T1) ++ map (fun e => (e_id e, e_taken e)) E1),
         (map (fun e => (e_id e, e_taken e)) E2 ++ concat (map track_view T2)).
  rewrite alter_middle, !map_app, !concat_app. simpl.
  assert (track_view t = map (fun e => (e_id e, e_taken e)) (E1 ++ e :: E2)) as -> by (by rewrite <- HE).
  assert (track_view (take_at (length E1) t)
          = map (fun e => (e_id e, e_taken e)) (E1 ++ {| e with e_taken := true |} :: E2)) as ->.
  { unfold track_view, take_at. simpl. by rewrite HE, alter_middle. }
  rewrite !map_app. simpl. by rewrite <- !(assoc_L (++)).
Qed.

Lemma view_alter_bounce s s' i : tracks s' = alter bounce_track i (tracks s) -> view s' = view s.
Proof.
  unfold view. intros ->. f_equal. revert i. induction (tracks s) as [|t ts IH]; intros [|i]; try done.
  unfold alter in *. simpl. f_equal. apply IH.
Qed.

Lemma pickup_ids_app e1 e2 : pickup_ids (e1 ++ e2) = pickup_ids e1 ++ pickup_ids e2.
Proof. apply omap_app. Qed.

Lemma pickup_ids_hash h evs : pickup_ids (map (with_hash h) evs) = pickup_ids evs.
Proof. unfold pickup_ids. induction evs as [|e evs IH]; [done|].
  destruct e; cbn; first [apply IH | f_equal; apply IH]. Qed.

Lemma resolveHit_next cfg i h s : (resolveHit cfg i h s).1.(g_nextId) = s.(g_nextId).
Proof.
  unfold resolveHit, bounce_pit.
  repeat (case_match; simpl); by frame_proj.
Qed.
Lemma resolveHit_pickups cfg i h s : pickup_ids (resolveHit cfg i h s).2 = [].
Proof. unfold resolveHit. repeat (case_match; simpl; try done). Qed.

Lemma resolveHit_ids C cfg i h s :
  (forall j id, h = RackHit j id -> exists e, entity_at s i j = Some e) ->
  state_ids C s -> state_ids C (resolveHit cfg i h s).1.
Proof.
  unfold state_ids. rewrite resolveHit_next. intros Hh Hs.
  destruct (resolveHit_touches cfg i h s) as [E|[E|(j & id & -> & E)]].
  - unfold view in *. by rewrite E.
  - by rewrite (view_alter_bounce _ _ _ E).
  - destruct (Hh j id eq_refl) as [e He].
    destruct (view_take _ _ _ _ _ He E) as (V1 & V2 & Hv & ->). rewrite Hv in Hs.
    by eapply ids_ok_take.
Qed.

Lemma pickup_next {P} (ports : Ports P) cfg i j e s p :
  (pickup ports cfg i j e s p).1.1.(g_nextId) = s.(g_nextId).
Proof.
  apply (pickup_inv ports cfg i j e s p (fun r => g_nextId r.1.1 = g_nextId s)); intros; by frame_proj.
Qed.
Lemma pickup_pickups {P} (ports : Ports P) cfg i j e s p :
  pickup_ids (pickup ports cfg i j e s p).1.2 = [e.(e_id)].
Proof. by apply (pickup_inv ports cfg i j e s p (fun r => pickup_ids r.1.2 = [e.(e_id)])). Qed.

Lemma pickup_state_ids {P} (ports : Ports P) C cfg i j e s p :
  entity_at s i j = Some e -> e.(e_taken) = false ->
  state_ids C s -> state_ids (C ++ [e.(e_id)]) (pickup ports cfg i j e s p).1.1.
Proof.
  unfold state_ids. rewrite pickup_next. intros He Ht Hs.
  destruct (view_take _ _ _ _ _ He (pickup_tracks ports cfg i j e s p)) as (V1 & V2 & Hv & ->).
  rewrite Hv, Ht in Hs. by apply ids_ok_collect.
Qed.

Definition coll_ids {P} (C : list Z) (c : Coll (P := P)) : Prop :=
  state_ids (C ++ pickup_ids c.(c_evs)) c.(c_s).

Lemma coll_ids_hit {P} C cfg i h (c : Coll (P := P)) :
  (forall j id, h = RackHit j id -> exists e, entity_at c.(c_s) i j = Some e) ->
  coll_ids C c -> coll_ids C (hit_coll cfg i h c).
Proof.
  intros Hh Hc. unfold coll_ids, hit_coll.
  pose proof (resolveHit_ids _ cfg i h _ Hh Hc) as H. pose proof (resolveHit_pickups cfg i h (c_s c)) as Hp.
  destruct (resolveHit _ _ _ _). simpl in *. by rewrite pickup_ids_app, Hp, app_nil_r.
Qed.

Lemma collide_ids {P} (ports : Ports P) C cfg s evs p :
  state_ids (C ++ pickup_ids evs) s -> coll_ids C (collide ports cfg s evs p).
Proof.
  intros Hs. apply (collide_inv ports cfg (coll_ids C)); [..|done].
  - intros i c Hc _. by apply coll_ids_hit.
  - intros i j e c Hc _ _ He _ _. apply coll_ids_hit; [|done]. intros j' id' [= <- <-]. eauto.
  - intros i j e c Hc _ He Ht _. unfold coll_ids, pickup_coll.
    pose proof (pickup_state_ids ports _ cfg i j e _ (c_p c) He Ht Hc) as H.
    pose proof (pickup_pickups ports cfg i j e (c_s c) (c_p c)) as Hp.
    destruct (pickup _ _ _ _ _ _ _) as [[? ?] ?]. simpl in *.
    by rewrite pickup_ids_app, Hp, (assoc_L (++)).
Qed.

Lemma step_world_pickups cfg s : pickup_ids (step_world cfg s).2 = [].
Proof. unfold step_world, enterGate. repeat (case_match; simpl; try done). Qed.

Lemma step_finish_ids C cfg s evs :
  state_ids C s ->
  state_ids C (step_finish cfg s evs).1 /\ pickup_ids (step_finish cfg s evs).2 = pickup_ids evs.
Proof.
  intros Hs. unfold step_finish, fanIn.
  assert (Hn : ids_ok C (g_nextId s) []) by (by eapply ids_ok_nil).
  repeat (case_match; simplify_eq/=); rewrite ?pickup_ids_app, ?app_nil_r; split; try done.
  all: first [exact Hs|exact Hn|
    unfold state_ids, view, tracks in Hs |- *; simpl;
    match goal with F : g_fan _ = _ |- _ => rewrite F in Hs; exact Hs end].
Qed.

(** Every tick keeps ids unique and collects each pickup at most once ever. *)
Lemma step_ids {P} (ports : Ports P) levels C s ins p :
  state_ids C s ->
  let r := step ports levels s ins p in
  state_ids (C ++ pickup_ids r.(events)) r.(state).
Proof.
  intros Hs. cbv zeta. unfold step. destruct (negb _); [by rewrite app_nil_r|].
  apply (step_inputs_ids C ins) in Hs.
  apply (step_world_ids C (levels (g_level s))) in Hs.
  pose proof (step_world_pickups (levels (g_level s)) (step_inputs ins s)) as Hw.
  destruct (step_world _ _) as [s1 evs1]. simpl in *.
  pose proof (collide_ids ports C (levels (g_level s)) s1 evs1 p) as Hc.
  rewrite Hw, app_nil_r in Hc. specialize (Hc Hs).
  destruct (step_finish_ids _ (levels (g_level s)) _ (c_evs (collide ports (levels (g_level s)) s1 evs1 p)) Hc) as [Hf Hp].
  destruct (step_finish _ _ _) as [s2 evs2]. simpl in *. by rewrite pickup_ids_hash, Hp.
Qed.
