(* ===== verification/Replayer.v ===== *)
(** * Re-running a history

    [engine/replay.ts]: [createReplayer] re-runs [step] from a segment's start
    input, feeding the recorded inputs at their ticks and checking every
    recorded outcome; [replay] runs it to the end. *)

From S2P Require Import Prelude JsNum Types Levels Rng Step StepFacts StepInv.
#[local] Open Scope Z_scope.

(** ** Definitions *)

Definition isInputEvent (e : HistoryEvent) : bool :=
  match e with InE _ => true | OutE _ => false end.

Definition inputOf (e : InputEvent) : InputKind :=
  match e with
  | Input _ kind => Press kind
  | OrchestratorStarted _ => ResumeInput
  | RetryAttempt _ _ _ => RetryInput
  end.

Definition idOf (e : OutcomeEvent) : Z :=
  match e with
  | ActivityCoinCollected _ id _ | ActivityCrateCollected _ id _ _ | OrbTaken _ id _
  | CircuitBreakerTripped _ id _ | BoostLost _ id _ => id
  | FanOut _ _ | FanIn _ _ _ => 0
  end.

(** The [type] tags as comparable values. *)
Definition typeOf (e : OutcomeEvent) : Z :=
  match e with
  | ActivityCoinCollected _ _ _ => 0
  | ActivityCrateCollected _ _ _ _ => 1
  | OrbTaken _ _ _ => 2
  | CircuitBreakerTripped _ _ _ => 3
  | BoostLost _ _ _ => 4
  | FanOut _ _ => 5
  | FanIn _ _ _ => 6
  end.

Definition event_matches (a b : OutcomeEvent) : bool :=
  (typeOf a =? typeOf b) && (idOf a =? idOf b) && (outcome_hash a =? outcome_hash b).

Fixpoint matches (expected actual : list OutcomeEvent) : bool :=
  match expected, actual with
  | [], [] => true
  | e :: es, a :: acts => event_matches e a && matches es acts
  | _, _ => false
  end.

Definition as_input (e : HistoryEvent) : option InputEvent :=
  match e with InE e => Some e | OutE _ => None end.
Definition as_outcome (e : HistoryEvent) : option OutcomeEvent :=
  match e with OutE e => Some e | InE _ => None end.

(** [crateResults]: the last recorded result of each crate. *)
Definition crateResults (history : list HistoryEvent) : gmap Z num :=
  fold_left (fun m e =>
    match e with
    | OutE (ActivityCrateCollected _ id _ result) => <[id := result]> m
    | _ => m
    end) history ∅.

(** The ports of a replay: crates are read back, orbs (and crates history does
    not know) ask the outside world again. *)
Definition replay_ports {P} (crates : gmap Z num) (impure_ : P -> num * P) : Ports P := {|
  impure := impure_;
  crateValue := fun id p =>
    match crates !! id with
    | Some v => (v, p)
    | None => impure_ p
    end |}.

(** The closure state of a replayer; [rp_port] is the outside world. *)
Record Replayer (P : Type) := {
  rp_state : GameState;
  rp_cursor : nat;
  rp_divergedAt : option Z;
  rp_done : bool;
  rp_port : P
}.
Arguments rp_state {P}.
Arguments rp_cursor {P}.
Arguments rp_divergedAt {P}.
Arguments rp_done {P}.
Arguments rp_port {P}.

Inductive ReplayResult :=
  | ReplayOk (state : GameState)
  | ReplayDiverged (divergedAt : Z) (state : GameState).

Definition result_state (r : ReplayResult) : GameState :=
  match r with ReplayOk s | ReplayDiverged _ s => s end.

(** [while (cursor < history.length && history[cursor].tick <= tick)]: the
    events consumed, from the rest of the history. *)
Fixpoint due (tick : Z) (rest : list HistoryEvent) : list HistoryEvent :=
  match rest with
  | [] => []
  | e :: rest => if ev_tick e <=? tick then e :: due tick rest else []
  end.

(** [findIndex((e) => !isInputEvent(e))], or -1. *)
Fixpoint first_outcome (es : list HistoryEvent) : option nat :=
  match es with
  | [] => None
  | InE _ :: es => option_map S (first_outcome es)
  | OutE _ :: _ => Some O
  end.

Section Replay.
Context {P : Type} (levels : LevelTable).
Context (start : StartInput) (history : list HistoryEvent) (toTick : Z) (impure_ : P -> num * P).

Definition createReplayer (p : P) : Replayer P := {|
  rp_state := initialState start levels;
  rp_cursor := 0;
  rp_divergedAt := None;
  rp_done := toTick <=? 0;
  rp_port := p |}.

Definition rp_ports : Ports P := replay_ports (crateResults history) impure_.

(** One iteration of [advance]'s loop. *)
Definition advance_tick (r : Replayer P) : Replayer P :=
  let tick := r.(rp_state).(g_tick) in
  let firstIndex := r.(rp_cursor) in
  let consumed := due tick (drop firstIndex history) in
  let inputs := map inputOf (omap as_input consumed) in
  let expected := omap as_outcome consumed in
  let cursor := (firstIndex + length consumed)%nat in
  let next := step rp_ports levels r.(rp_state) inputs r.(rp_port) in
  let divergedAt :=
    match r.(rp_divergedAt) with
    | Some d => Some d
    | None =>
        if matches expected next.(events) then None
        else match first_outcome consumed with
             | Some k => Some (Z.of_nat (firstIndex + k))
             | None => Some (Z.of_nat cursor)
             end
    end in
  if bool_decide (next.(state).(g_status) = Failed)
     || bool_decide (next.(state).(g_status) = RetryNeeded)
  then
    {| rp_state := r.(rp_state);
       rp_cursor := cursor;
       rp_divergedAt := match divergedAt with Some d => Some d | None => Some (Z.of_nat cursor) end;
       rp_done := true;
       rp_port := next.(port) |}
  else
    {| rp_state := next.(state);
       rp_cursor := cursor;
       rp_divergedAt := divergedAt;
       rp_done := (toTick <=? next.(state).(g_tick))
                  || negb (bool_decide (next.(state).(g_status) = Running));
       rp_port := next.(port) |}.

(** [advance(maxTicks)]. *)
Fixpoint advance (maxTicks : nat) (r : Replayer P) : Replayer P :=
  match maxTicks with
  | O => r
  | S n => if r.(rp_done) then r else advance n (advance_tick r)
  end.

Definition result (r : Replayer P) : ReplayResult :=
  match r.(rp_divergedAt) with
  | None => ReplayOk r.(rp_state)
  | Some d => ReplayDiverged d r.(rp_state)
  end.

(** [replay] advances by [Infinity]: [toTick] iterations are as many as it
    takes ([replay_done]). *)
Definition replay (p : P) : ReplayResult :=
  result (advance (Z.to_nat toTick) (createReplayer p)).
End Replay.

(** ** Recorded runs *)

(** Ports that read their answers from a list. *)
Definition list_ports : Ports (list Answer) := {|
  impure := fun l => match l with OrbAns v :: l => (v, l) | _ => (0%float, l) end;
  crateValue := fun id l =>
    match l with
    | CrateAns id' v :: l' => if id =? id' then (v, l') else (0%float, l)
    | _ => (0%float, l)
    end |}.

(** The values the orbs among some answers got. *)
Definition orb_values (ans : list Answer) : list num :=
  omap (fun a => match a with OrbAns v => Some v | CrateAns _ _ => None end) ans.

(** [Run start h s orbs]: live play from [start] recorded the history [h] and
    reached [s]; [orbs] are the values its orbs got, which no history holds.
    Every tick records the inputs it was fed, then its outcomes; a tick that
    failed or needs a retry is not part of a run. *)
Inductive Run (levels : LevelTable) (start : StartInput) : list HistoryEvent -> GameState -> list num -> Prop :=
  | Run_start : Run levels start [] (initialState start levels) []
  | Run_tick h s orbs ins ans s' evs :
      Run levels start h s orbs ->
      s.(g_status) = Running ->
      Forall (fun e => input_tick e = s.(g_tick)) ins ->
      step list_ports levels s (map inputOf ins) ans = {| state := s'; events := evs; port := [] |} ->
      explains ans evs ->
      s'.(g_status) <> Failed -> s'.(g_status) <> RetryNeeded ->
      Run levels start (h ++ map InE ins ++ map OutE evs) s'
        (orbs ++ orb_values ans).

(** An outside world that gives these values to the next orbs. *)
Inductive gives {P} (impure_ : P -> num * P) : P -> list num -> Prop :=
  | gives_nil p : gives impure_ p []
  | gives_cons p p' v l : impure_ p = (v, p') -> gives impure_ p' l -> gives impure_ p (v :: l).

(** Executable live play: every tick of [script] feeds its player inputs to a
    step whose outside values come from [world], and records the tick; the log
    holds the answers given so far.  [None] when a tick fails or needs a retry. *)
Definition log_ports (world : nat -> num) : Ports (list Answer) := {|
  impure := fun log => let v := world (length log) in (v, log ++ [OrbAns v]);
  crateValue := fun id log => let v := world (length log) in (v, log ++ [CrateAns id v]) |}.

Definition live_tick (levels : LevelTable) (world : nat -> num)
    (r : list HistoryEvent * GameState * list Answer) (keys : list PlayerInput)
    : option (list HistoryEvent * GameState * list Answer) :=
  let '(h, s, log) := r in
  let ins := map (Input s.(g_tick)) keys in
  let next := step (log_ports world) levels s (map inputOf ins) log in
  if bool_decide (s.(g_status) = Running)
     && negb (bool_decide (next.(state).(g_status) ∈ [Failed; RetryNeeded]))
  then Some (h ++ map InE ins ++ map OutE next.(events), next.(state), next.(port))
  else None.

Fixpoint live_play (levels : LevelTable) (world : nat -> num) (script : list (list PlayerInput))
    (r : list HistoryEvent * GameState * list Answer)
    : option (list HistoryEvent * GameState * list Answer) :=
  match script with
  | [] => Some r
  | keys :: script =>
      match live_tick levels world r keys with
      | Some r => live_play levels world script r
      | None => None
      end
  end.

Definition record_run (levels : LevelTable) (start : StartInput) (world : nat -> num)
    (script : list (list PlayerInput)) : option (list HistoryEvent * GameState * list Answer) :=
  live_play levels world script ([], initialState start levels, []).

(** ** Facts *)

Lemma list_supplies ans rest : supplies list_ports (ans ++ rest) ans rest.
Proof.
  induction ans as [|[v|id v] ans IH]; simpl; [constructor|..]; econstructor; try done.
  simpl. by rewrite Z.eqb_refl.
Qed.

(** A live tick, over any ports, extends a run. *)
Lemma Run_live {P} (ports : Ports P) levels start h s orbs ins p :
  let r := step ports levels s (map inputOf ins) p in
  Run levels start h s orbs -> s.(g_status) = Running ->
  Forall (fun e => input_tick e = s.(g_tick)) ins ->
  r.(state).(g_status) <> Failed -> r.(state).(g_status) <> RetryNeeded ->
  exists ans, supplies ports p ans r.(port) /\ explains ans r.(events)
    /\ Run levels start (h ++ map InE ins ++ map OutE r.(events)) r.(state)
         (orbs ++ orb_values ans).
Proof.
  cbv zeta. intros HR Hs Hi Hf Hr.
  destruct (step_factors ports levels s (map inputOf ins) p) as (ans & H1 & H2 & H3).
  exists ans. split_and!; [done|done|]. eapply Run_tick; try done.
  apply H3. rewrite <- (app_nil_r ans) at 1. apply list_supplies.
Qed.

Lemma log_supplies world log ans log' : supplies (log_ports world) log ans log' -> log' = log ++ ans.
Proof.
  induction 1 as [|p p1 p2 v l HA _ IH|p p1 p2 id v l HA _ IH]; [by rewrite app_nil_r|..];
    simpl in HA; simplify_eq; by rewrite <- app_assoc.
Qed.

Lemma live_play_run levels start world script : forall h s log h' s' log',
  live_play levels world script (h, s, log) = Some (h', s', log') ->
  Run levels start h s (orb_values log) -> Run levels start h' s' (orb_values log').
Proof.
  induction script as [|keys script IH]; intros h s log h' s' log' H HR; simpl in H; [by simplify_eq|].
  destruct (bool_decide_reflect (g_status s = Running)) as [Hs|]; [|done]. simpl in H.
  match type of H with context [bool_decide ?Q] => destruct (bool_decide_reflect Q) as [|E] end; [done|].
  simpl in H. eapply IH; [exact H|].
  destruct (Run_live (log_ports world) levels start h s (orb_values log) (map (Input (g_tick s)) keys) log HR Hs)
    as (ans & Hsup & _ & HR').
  - rewrite Forall_map. by apply Forall_true.
  - intros Hf. apply E. rewrite Hf. by left.
  - intros Hf. apply E. rewrite Hf. by right; left.
  - rewrite (log_supplies _ _ _ _ Hsup). unfold orb_values. by rewrite omap_app.
Qed.

Lemma record_run_sound levels start world script h s log :
  record_run levels start world script = Some (h, s, log) -> Run levels start h s (orb_values log).
Proof. intros H. eapply live_play_run; [exact H|]. constructor. Qed.

Lemma Run_step levels start h s orbs :
  Run levels start h s orbs -> 0 <= s.(g_tick) /\ Forall (fun e => 0 <= ev_tick e < s.(g_tick)) h
    /\ s.(g_status) <> Failed /\ s.(g_status) <> RetryNeeded.
Proof.
  induction 1 as [|h s orbs ins ans s' evs HR (IH1 & IH2 & _) Hs Hi Hst Hx Hf Hr]; [done|].
  destruct (step_clock list_ports levels s (map inputOf ins) ans Hs) as ((Ht & _) & He & _).
  rewrite Hst in Ht, He. simpl in Ht, He. split_and!; [lia| |done|done].
  rewrite !Forall_app, !Forall_map. split_and!.
  - eapply Forall_impl; [exact IH2|]. simpl. lia.
  - eapply Forall_impl; [exact Hi|]. simpl. lia.
  - eapply Forall_impl; [exact He|]. simpl. lia.
Qed.

Lemma omap_in_map (ins : list InputEvent) (evs : list OutcomeEvent) :
  omap as_input (map InE ins ++ map OutE evs) = ins
  /\ omap as_outcome (map InE ins ++ map OutE evs) = evs.
Proof.
  assert (omap as_input (map OutE evs) = [] /\ omap as_outcome (map OutE evs) = evs) as [E1 E2].
  { induction evs as [|e evs [IH1 IH2]]; [done|]. cbn. split; [done|]. f_equal. apply IH2. }
  rewrite !omap_app, E1, E2.
  assert (omap as_input (map InE ins) = ins /\ omap as_outcome (map InE ins) = []) as [-> ->].
  { induction ins as [|e ins [IH1 IH2]]; [done|]. cbn. split; [|done]. f_equal. apply IH1. }
  by rewrite app_nil_r.
Qed.

(** The pickups of a run are all different. *)
Lemma Run_ids levels start h s orbs :
  Run levels start h s orbs -> state_ids (pickup_ids (omap as_outcome h)) s.
Proof.
  induction 1 as [|h s orbs ins ans s' evs HR IH Hs Hi Hst Hx Hf Hr].
  - split; try constructor; simpl; try lia. intros id Hid. by apply elem_of_nil in Hid.
  - pose proof (step_ids list_ports levels _ s (map inputOf ins) ans IH) as H. cbv zeta in H.
    rewrite Hst in H. simpl in H.
    by rewrite omap_app, (proj2 (omap_in_map ins evs)), pickup_ids_app.
Qed.

Lemma crateResults_app h h' :
  crateResults (h ++ h') =
  fold_left (fun m e => match e with
                        | OutE (ActivityCrateCollected _ id _ result) => <[id := result]> m
                        | _ => m end) h' (crateResults h).
Proof. apply fold_left_app. Qed.

Lemma crateResults_lookup h t id hash v :
  OutE (ActivityCrateCollected t id hash v) ∈ h ->
  NoDup (pickup_ids (omap as_outcome h)) ->
  crateResults h !! id = Some v.
Proof.
  induction h as [|e h IH] using rev_ind; [by intros ?%elem_of_nil|].
  rewrite crateResults_app, omap_app, pickup_ids_app. intros Hin Hd. simpl.
  apply NoDup_app in Hd as (Hd1 & Hd2 & _).
  apply elem_of_app in Hin as [Hin|<-%list_elem_of_singleton]; [|by rewrite lookup_insert_eq].
  specialize (IH Hin Hd1).
  destruct e as [e|[| t' id' h' r'| | | | |]]; try done.
  rewrite lookup_insert_ne; [done|]. intros ->.
  apply (Hd2 id); [|cbn; by left].
  apply list_elem_of_omap. exists (ActivityCrateCollected t id hash v). split; [|done].
  apply list_elem_of_omap. by eexists.
Qed.

Lemma crateResults_inputs h qs : crateResults (h ++ map InE qs) = crateResults h.
Proof. rewrite crateResults_app. induction qs; simpl; auto. Qed.

Lemma explains_crates ans evs id v :
  explains ans evs -> CrateAns id v ∈ ans -> exists t h, ActivityCrateCollected t id h v ∈ evs.
Proof.
  intros HX. induction HX; intros Hin.
  1: by apply elem_of_nil in Hin.
  1: apply elem_of_cons in Hin as [?|Hin]; [done|].
  2: apply elem_of_cons in Hin as [Heq|Hin]; [simplify_eq; by do 2 eexists; left|].
  all: destruct (IHHX Hin) as (t' & h' & ?); exists t', h'; by right.
Qed.

Lemma gives_supplies {P} (impure_ : P -> num * P) crates ans rest : forall p,
  (forall id v, CrateAns id v ∈ ans -> crates !! id = Some v) ->
  gives impure_ p (orb_values ans ++ rest) ->
  exists p', supplies (replay_ports crates impure_) p ans p' /\ gives impure_ p' rest.
Proof.
  induction ans as [|[v|id v] ans IH]; intros p Hc Hg; cbn in Hg.
  - exists p. split; [constructor|done].
  - inversion Hg as [|? p1 ? ? Hv Hg']; subst.
    destruct (IH p1) as (p' & Hp & Hr); [intros; apply Hc; by right|done|].
    exists p'. split; [|done]. by econstructor.
  - destruct (IH p) as (p' & Hp & Hr); [intros; apply Hc; by right|done|].
    exists p'. split; [|done]. econstructor; [|done]. simpl. rewrite (Hc id v); [done|by left].
Qed.

Lemma matches_refl evs : matches evs evs = true.
Proof. induction evs as [|e evs IH]; simpl; [done|]. unfold event_matches. by rewrite !Z.eqb_refl. Qed.

Lemma due_app t l rest :
  Forall (fun e => ev_tick e <= t) l -> Forall (fun e => t < ev_tick e) rest -> due t (l ++ rest) = l.
Proof.
  induction 1 as [|e l He Hl IH]; intros Hr; simpl.
  - destruct Hr as [|e rest He _]; simpl; [done|]. by rewrite (proj2 (Z.leb_gt _ _) He).
  - rewrite (proj2 (Z.leb_le _ _) He). f_equal. by apply IH.
Qed.

Lemma advance_succ {P} levels history toTick (impure_ : P -> num * P) n : forall r,
  advance levels history toTick impure_ (S n) r =
  let r' := advance levels history toTick impure_ n r in
  if r'.(rp_done) then r' else advance_tick levels history toTick impure_ r'.
Proof.
  induction n as [|n IH]; intros r; [done|].
  change (advance levels history toTick impure_ (S (S n)) r)
    with (if rp_done r then r else advance levels history toTick impure_ (S n)
            (advance_tick levels history toTick impure_ r)).
  rewrite IH. simpl. by destruct (rp_done r) eqn:D; rewrite ?D.
Qed.

Lemma explains_length a a' evs : explains a evs -> explains a' evs -> length a = length a'.
Proof.
  intros H. revert a'. induction H; inversion 1; subst; simpl; auto.
Qed.

Lemma list_supplies_inv a a' e :
  supplies list_ports a a' e ->
  (length a <= length a' + length e)%nat /\ (length a = (length a' + length e)%nat -> a = a' ++ e).
Proof.
  induction 1 as [|p p1 p2 v l HA _ [IH1 IH2]|p p1 p2 id v l HA _ [IH1 IH2]]; simpl; [split; [lia|done]|..].
  all: destruct p as [|[v'|id' v'] p]; simpl in HA; try case_match; simplify_eq; simpl in *; bool_to_prop; subst.
  all: split; [lia|]; intros; first [lia|f_equal; apply IH2; lia].
Qed.

(** The tick of a run, over any ports that give the same answers. *)
Lemma Run_tick_any levels s ins ans s' evs :
  step list_ports levels s ins ans = {| state := s'; events := evs; port := [] |} ->
  explains ans evs ->
  forall Q (ports : Ports Q) q q', supplies ports q ans q' ->
  step ports levels s ins q = {| state := s'; events := evs; port := q' |}.
Proof.
  intros Hst Hx.
  destruct (step_factors list_ports levels s ins ans) as (ans' & H1 & H2 & H3).
  rewrite Hst in H1, H2, H3. simpl in *.
  apply list_supplies_inv in H1 as [_ H1]. simpl in H1.
  rewrite Nat.add_0_r, app_nil_r in H1.
  rewrite (H1 (explains_length _ _ _ Hx H2)). exact H3.
Qed.

(** Replaying the prefix [h] of a longer history. *)
Lemma advance_run {P} levels start (impure_ : P -> num * P) toTick hist h s orbs :
  Run levels start h s orbs ->
  forall rest orbs' p,
  hist = h ++ rest ->
  Forall (fun e => s.(g_tick) <= ev_tick e) rest ->
  s.(g_tick) <= toTick ->
  (forall t id hash v, OutE (ActivityCrateCollected t id hash v) ∈ h -> crateResults hist !! id = Some v) ->
  gives impure_ p (orbs ++ orbs') ->
  exists p',
    advance levels hist toTick impure_ (Z.to_nat s.(g_tick)) (createReplayer levels start toTick p)
    = {| rp_state := s; rp_cursor := length h; rp_divergedAt := None;
         rp_done := (toTick <=? s.(g_tick)) || negb (bool_decide (s.(g_status) = Running));
         rp_port := p' |}
    /\ gives impure_ p' orbs'.
Proof.
  induction 1 as [|h s orbs ins ans s' evs HR IH Hs Hi Hst Hx Hf Hr];
    intros rest orbs' p Hh Hrest Ht Hc Hg.
  { exists p. split; [|done]. simpl. unfold createReplayer. by rewrite orb_false_r. }
  destruct (step_clock list_ports levels s (map inputOf ins) ans Hs) as ((Ht' & _) & He & _).
  rewrite Hst in Ht', He. simpl in Ht', He.
  destruct (Run_step _ _ _ _ _ HR) as [Hpos _].
  rewrite <- (app_assoc h) in Hh. rewrite <- (app_assoc orbs) in Hg.
  edestruct (IH _ (orb_values ans ++ orbs') p Hh)
    as (p1 & Ha & Hg1); [ |lia| |exact Hg| ].
  { rewrite !Forall_app, !Forall_map. split_and!.
    - eapply Forall_impl; [exact Hi|]. simpl. lia.
    - eapply Forall_impl; [exact He|]. simpl. lia.
    - eapply Forall_impl; [exact Hrest|]. simpl. lia. }
  { intros t id hash v Hin. eapply Hc. apply elem_of_app. by left. }
  clear IH. apply (gives_supplies impure_ (crateResults hist)) in Hg1 as (p2 & Hp2 & Hg2).
  2: { intros id v Hin. destruct (explains_crates _ _ _ _ Hx Hin) as (t & hash & Hev).
       eapply Hc. rewrite !elem_of_app. right. right. apply list_elem_of_fmap. by eexists. }
  exists p2. split; [|done].
  replace (Z.to_nat (g_tick s')) with (S (Z.to_nat (g_tick s))) by lia.
  rewrite advance_succ, Ha. cbv zeta. simpl rp_done. rewrite Hs, bool_decide_true by done.
  rewrite (proj2 (Z.leb_gt toTick (g_tick s))) by lia. simpl. unfold advance_tick. simpl.
  assert (Hd : due (g_tick s) (drop (length h) hist) = map InE ins ++ map OutE evs).
  { rewrite Hh, drop_app_length. apply due_app.
    - rewrite Forall_app, !Forall_map. split.
      + eapply Forall_impl; [exact Hi|]. simpl. lia.
      + eapply Forall_impl; [exact He|]. simpl. lia.
    - eapply Forall_impl; [exact Hrest|]. simpl. lia. }
  rewrite Hd. destruct (omap_in_map ins evs) as [-> ->].
  rewrite (Run_tick_any _ _ _ _ _ _ Hst Hx _ (rp_ports hist impure_) _ _ Hp2). simpl.
  rewrite matches_refl, !bool_decide_false by done. simpl. rewrite !length_app. done.
Qed.

(** A recorded history replays to the state it was recorded from, whatever
    runtime inputs wait at that state's tick, when the orbs get the values
    they got live. *)
Lemma replay_run {P} levels start h s orbs qs (impure_ : P -> num * P) p :
  Run levels start h s orbs ->
  Forall (fun e => input_tick e = s.(g_tick)) qs ->
  gives impure_ p orbs ->
  replay levels start (h ++ map InE qs) s.(g_tick) impure_ p = ReplayOk s.
Proof.
  intros HR Hq Hg. pose proof (Run_ids _ _ _ _ _ HR) as [_ _ _ Hn _ _].
  rewrite <- (app_nil_r orbs) in Hg.
  destruct (advance_run levels start impure_ s.(g_tick) (h ++ map InE qs) h s orbs HR
              (map InE qs) [] p eq_refl) as (p' & Ha & _); [|done| |done|].
  - rewrite Forall_map. eapply Forall_impl; [exact Hq|]. simpl. lia.
  - intros t id hash v Hin. rewrite crateResults_inputs. by eapply crateResults_lookup.
  - unfold replay. by rewrite Ha.
Qed.

(** ** Termination and soundness of a replay *)

Section ReplayFacts.
Context {P : Type} (levels : LevelTable) (start : StartInput) (history : list HistoryEvent)
  (toTick : Z) (impure_ : P -> num * P).
Abbreviation adv := (advance levels history toTick impure_).
Abbreviation adv1 := (advance_tick levels history toTick impure_).
Abbreviation create := (createReplayer levels start toTick).

(** The state a live replayer is in. *)
Definition going (n : nat) (r : Replayer P) : Prop :=
  r.(rp_state).(g_status) = Running /\ r.(rp_state).(g_tick) = Z.of_nat n /\ Z.of_nat n < toTick.

Lemma advance_tick_going n r :
  going n r -> (adv1 r).(rp_done) = true \/ going (S n) (adv1 r).
Proof.
  intros (Hs & Ht & Hn). unfold advance_tick. cbv zeta.
  set (ins := map inputOf _).
  pose proof (step_clock (rp_ports history impure_) levels (rp_state r) ins (rp_port r) Hs) as ((Hc & _) & _).
  destruct (step _ _ _ _ _) as [s' evs p']. simpl in *.
  destruct (_ || _); simpl; [by left|].
  destruct (Z.leb_spec toTick (g_tick s')); simpl; [by left|].
  destruct (bool_decide_reflect (g_status s' = Running)); simpl; [right|by left].
  unfold going. simpl. split_and!; [done|lia|lia].
Qed.

Lemma advance_going p n : (adv n (create p)).(rp_done) = true \/ going n (adv n (create p)).
Proof.
  induction n as [|n IH].
  - simpl. destruct (Z.leb_spec toTick 0); [by left|right]. unfold going. simpl. split_and!; [done|done|lia].
  - rewrite advance_succ. cbv zeta. destruct (rp_done (adv n (create p))) eqn:D; [by left|].
    destruct IH as [IH|IH]; [done|]. by apply advance_tick_going.
Qed.

Lemma advance_to_end p : (adv (Z.to_nat toTick) (create p)).(rp_done) = true.
Proof. destruct (advance_going p (Z.to_nat toTick)) as [H|(_ & _ & H)]; [done|lia]. Qed.

Lemma advance_done n : forall r, r.(rp_done) = true -> adv n r = r.
Proof. destruct n; simpl; intros r H; by rewrite ?H. Qed.

Lemma advance_add m n : forall r, adv (m + n) r = adv n (adv m r).
Proof.
  induction m as [|m IH]; intros r; simpl; [done|].
  destruct (rp_done r) eqn:D; [by rewrite advance_done|]. apply IH.
Qed.

(** [due] splits a sorted history at a tick. *)
Definition sorted_ticks (h : list HistoryEvent) : Prop :=
  StronglySorted (fun a b => ev_tick a <= ev_tick b) h.

Lemma due_split t rest :
  sorted_ticks rest ->
  exists rest', rest = due t rest ++ rest' /\ Forall (fun e => ev_tick e <= t) (due t rest)
    /\ Forall (fun e => t < ev_tick e) rest' /\ sorted_ticks rest'.
Proof.
  induction 1 as [|e l Hl IH He]; simpl; [by exists []; split_and!; constructor|].
  destruct (Z.leb_spec (ev_tick e) t) as [Hle|Hgt].
  - destruct IH as (rest' & E & H1 & H2 & H3). exists rest'. split_and!; [|by constructor|done|done].
    cbn. by rewrite <- E.
  - exists (e :: l). split_and!; [done|done| |by constructor].
    constructor; [done|]. eapply Forall_impl; [exact He|]. simpl. lia.
Qed.

Lemma matches_app e1 e2 a1 a2 :
  matches e1 a1 = true -> matches e2 a2 = true -> matches (e1 ++ e2) (a1 ++ a2) = true.
Proof.
  revert a1. induction e1 as [|e e1 IH]; intros [|a a1]; simpl; try done.
  intros [H1 H2]%andb_true_iff H. rewrite H1. simpl. by apply IH.
Qed.

(** While nothing has diverged, the replayed prefix is the history of a run
    up to what [matches] compares. *)
Definition faithful (r : Replayer P) : Prop :=
  r.(rp_divergedAt) = None ->
  exists pre rest h' orbs,
    history = pre ++ rest /\ length pre = r.(rp_cursor)
    /\ sorted_ticks rest
    /\ Forall (fun e => ev_tick e < r.(rp_state).(g_tick)) pre
    /\ Forall (fun e => r.(rp_state).(g_tick) <= ev_tick e) rest
    /\ Run levels start h' r.(rp_state) orbs
    /\ omap as_input pre = omap as_input h'
    /\ matches (omap as_outcome pre) (omap as_outcome h') = true.

Lemma due_inputs t (l : list HistoryEvent) :
  Forall (fun e => ev_tick e = t) l -> Forall (fun e => input_tick e = t) (omap as_input l).
Proof. induction 1 as [|[e|e] l He Hl IH]; cbn; [done|by constructor|done]. Qed.

Lemma advance_tick_faithful n r : going n r -> faithful r -> faithful (adv1 r).
Proof.
  intros (Hs & _ & _) Hf. unfold advance_tick. cbv zeta.
  destruct (rp_divergedAt r) as [d|] eqn:D.
  { destruct (_ || _); intros Hd; by simpl in Hd. }
  destruct (Hf D) as (pre & rest & h' & orbs & -> & Hl & Hsort & Hpre & Hrest & HR & Hin & Hm).
  rewrite <- Hl, drop_app_length.
  destruct (due_split (g_tick (rp_state r)) rest Hsort) as (rest' & E & H1 & H2 & H3).
  set (con := due _ rest) in *.
  assert (Hcon : Forall (fun e => ev_tick e = g_tick (rp_state r)) con).
  { rewrite E, Forall_app in Hrest. destruct Hrest as [Hr _].
    rewrite Forall_forall in *. intros e He. specialize (Hr e He). specialize (H1 e He). lia. }
  pose proof (step_clock (rp_ports (pre ++ rest) impure_) levels (rp_state r)
    (map inputOf (omap as_input con)) (rp_port r) Hs) as ((Hc & _) & _).
  pose proof (Run_live (rp_ports (pre ++ rest) impure_) levels start h' (rp_state r) orbs
    (omap as_input con) (rp_port r) HR Hs (due_inputs _ _ Hcon)) as Hlive. cbv zeta in Hlive.
  destruct (step _ _ _ _ _) as [s' evs p']. simpl in *.
  destruct (bool_decide_reflect (g_status s' = Failed)) as [|Hn1]; simpl.
  { intros Hd. by repeat case_match. }
  destruct (bool_decide_reflect (g_status s' = RetryNeeded)) as [|Hn2]; simpl.
  { intros Hd. by repeat case_match. }
  intros Hd. destruct (matches _ evs) eqn:M; [|by repeat case_match].
  destruct (Hlive Hn1 Hn2) as (ans & _ & _ & HR').
  exists (pre ++ con), rest'. do 2 eexists. split_and!; [| |done| | |exact HR'| |].
  - by rewrite <- app_assoc, <- E.
  - by rewrite length_app.
  - simpl. rewrite Forall_app. split.
    + eapply Forall_impl; [exact Hpre|]. simpl. lia.
    + eapply Forall_impl; [exact Hcon|]. simpl. lia.
  - simpl. eapply Forall_impl; [exact H2|]. simpl. lia.
  - rewrite (omap_app as_input pre), (omap_app as_input h'), Hin. by rewrite (proj1 (omap_in_map _ _)).
  - rewrite (omap_app as_outcome pre), (omap_app as_outcome h'), (proj2 (omap_in_map _ _)).
    by apply matches_app.
Qed.

Lemma advance_faithful p n :
  sorted_ticks history -> Forall (fun e => 0 <= ev_tick e) history -> faithful (adv n (create p)).
Proof.
  intros Hsort Hpos. induction n as [|n IH].
  - intros _. exists [], history, [], []. split_and!; try done. constructor.
  - rewrite advance_succ. cbv zeta.
    destruct (advance_going p n) as [D|G]; [by rewrite D|].
    destruct (rp_done (adv n (create p))); [done|]. by apply (advance_tick_faithful n).
Qed.
End ReplayFacts.

(** ** Properties *)

(** C1: crash recovery. The history recorded during live play replays to
    exactly the state it was recorded from: no divergence is reported, and the
    state is reproduced field by field, when the orbs (the only values history
    does not hold) get the values they got live. Runtime inputs that wait at the
    current tick do not disturb it. *)
Theorem replay_reproduces_live_play {P} levels start h s orbs qs (impure_ : P -> num * P) p :
  Run levels start h s orbs ->
  Forall (fun e => input_tick e = s.(g_tick)) qs ->
  gives impure_ p orbs ->
  replay levels start (h ++ map InE qs) s.(g_tick) impure_ p = ReplayOk s.
Proof. apply replay_run. Qed.

(** C4: soundness of the divergence check. When a replay of a well-formed
    history (ordered by tick) reports success, what it rebuilt is a genuine run
    of the engine: some run reached that very state with the recorded inputs and
    with outcomes of the recorded types, ids and state hashes, and every other
    event of the history lies at or after the tick reached. *)
Theorem replay_ok_is_a_run {P} levels start history toTick (impure_ : P -> num * P) p s :
  sorted_ticks history -> Forall (fun e => 0 <= ev_tick e) history ->
  replay levels start history toTick impure_ p = ReplayOk s ->
  exists pre rest h' orbs,
    history = pre ++ rest
    /\ Forall (fun e => ev_tick e < s.(g_tick)) pre
    /\ Forall (fun e => s.(g_tick) <= ev_tick e) rest
    /\ Run levels start h' s orbs
    /\ omap as_input pre = omap as_input h'
    /\ matches (omap as_outcome pre) (omap as_outcome h') = true.
Proof.
  intros Hsort Hpos Hr.
  pose proof (advance_faithful levels start history toTick impure_ p (Z.to_nat toTick) Hsort Hpos) as Hf.
  unfold replay, result in Hr. destruct (rp_divergedAt _) eqn:D; [done|]. injection Hr as <-.
  destruct (Hf D) as (pre & rest & h' & orbs & ? & _ & _ & ? & ? & ? & ? & ?).
  by exists pre, rest, h', orbs.
Qed.

(** C5: termination. Whatever the history and the outside world, a replay to
    tick [toTick] is finished after at most [toTick] ticks: asking for any
    number of further ticks ([advance(Infinity)]) changes nothing. *)
Theorem replay_terminates {P} levels start history toTick (impure_ : P -> num * P) p extra :
  let r := advance levels history toTick impure_ (Z.to_nat toTick) (createReplayer levels start toTick p) in
  r.(rp_done) = true
  /\ advance levels history toTick impure_ (Z.to_nat toTick + extra) (createReplayer levels start toTick p) = r.
Proof.
  cbv zeta. split; [apply advance_to_end|].
  rewrite advance_add. apply advance_done, advance_to_end.
Qed.

(** ** Witnesses *)

(** A short level of orbs and crates, fast enough to meet some in a few ticks. *)
Definition demo_level : LevelConfig := {|
  cfg_name := "Demo"; cfg_length := infinity; cfg_speed := 30; cfg_ramp := 0; cfg_maxSpeed := 30;
  cfg_weights := [(Orb, 1%float); (Crate, 1%float)]; cfg_bossWeights := []; cfg_laneWeights := [];
  cfg_durable := true; cfg_chaosMeanTicks := None; cfg_chaosFloorTicks := None;
  cfg_firstCrashTicks := None; cfg_scriptedCrashAt := None; cfg_crashAfterPickup := None;
  cfg_retries := 0; cfg_shieldEnabled := false; cfg_fanOut := None |}.
Definition demo_levels : LevelTable := fun _ => demo_level.
Definition demo_start (seed : Z) : StartInput := {|
  s_level := L2; s_seed := seed; s_score := 0; s_elapsed := 0; s_distance := 0;
  s_boss := false; s_retries := 0; s_shield := 0 |}.
Definition demo_world (n : nat) : num := (of_Z (Z.of_nat n + 1) / 16)%float.

(** An outside world that hands out a list of values. *)
Definition next_value (l : list num) : num * list num :=
  match l with [] => (0%float, []) | v :: l => (v, l) end.
Lemma gives_next_value l : gives next_value l l.
Proof. induction l; econstructor; [reflexivity|done]. Qed.

(** Runs past an orb (seed 7), and jumps for a crate (seed 1). *)
Abbreviation orb_run := ( record_run demo_levels (demo_start 7) demo_world (replicate 22 [])).
Abbreviation crate_run := (
  record_run demo_levels (demo_start 1) demo_world (replicate 14 [] ++ [[Jump]] ++ replicate 8 [])).

(** What the runs record. *)
Definition summary (r : option (list HistoryEvent * GameState * list Answer)) :=
  option_map (fun '(h, s, log) => (h, s.(g_tick), log)) r.

Lemma orb_run_summary :
  summary orb_run = Some ([OutE (OrbTaken 20 1 2139846383)], 22, [OrbAns 0.0625]).
Proof. vm_compute. reflexivity. Qed.

Lemma replay_reproduces_live_play_witness :
  exists h s log, orb_run = Some (h, s, log)
    /\ h = [OutE (OrbTaken 20 1 2139846383)] /\ log = [OrbAns 0.0625]
    /\ replay demo_levels (demo_start 7) (h ++ map InE [OrchestratorStarted s.(g_tick)]) s.(g_tick)
         next_value [0.0625%float] = ReplayOk s.
Proof.
  pose proof orb_run_summary as H.
  destruct orb_run as [[[h s] log]|] eqn:E; [|discriminate H].
  simpl in H. injection H as Hh Ht Hl. exists h, s, log. split_and!; [reflexivity|done|done|].
  apply (replay_reproduces_live_play demo_levels (demo_start 7) h s (orb_values log)).
  - exact (record_run_sound _ _ _ _ _ _ _ E).
  - constructor; [reflexivity|constructor].
  - rewrite Hl. apply gives_next_value.
Defined.

(** A jump for a crate, recorded and replayed; a changed hash is noticed. *)
Definition crate_history (hash : Z) : list HistoryEvent :=
  [InE (Input 14 Jump); OutE (ActivityCrateCollected 20 1 hash 0.0625)].
Lemma crate_run_summary :
  summary crate_run = Some (crate_history 2230895096, 23, [CrateAns 1 0.0625]).
Proof. vm_compute. reflexivity. Qed.

Abbreviation crate_replay := (fun hash =>
  replay demo_levels (demo_start 1) (crate_history hash) 23 next_value []).
Definition divergence (r : ReplayResult) : option Z :=
  match r with ReplayOk _ => None | ReplayDiverged d _ => Some d end.
Lemma crate_replay_check :
  divergence (crate_replay 2230895096) = None /\ divergence (crate_replay 7) = Some 1.
Proof. vm_compute. split; reflexivity. Qed.

Lemma replay_ok_is_a_run_witness :
  exists s pre rest h' orbs,
    crate_history 2230895096 = pre ++ rest
    /\ Run demo_levels (demo_start 1) h' s orbs
    /\ omap as_input pre = omap as_input h'
    /\ matches (omap as_outcome pre) (omap as_outcome h') = true.
Proof.
  pose proof (proj1 crate_replay_check) as H.
  destruct (crate_replay 2230895096) as [s|d s] eqn:E; [|discriminate H].
  assert (Hs : sorted_ticks (crate_history 2230895096)) by (repeat constructor; discriminate).
  assert (Hp : Forall (fun e => 0 <= ev_tick e) (crate_history 2230895096)) by (repeat constructor; discriminate).
  destruct (replay_ok_is_a_run demo_levels (demo_start 1) _ 23 next_value [] s Hs Hp E)
    as (pre & rest & h' & orbs & H1 & _ & _ & H4 & H5 & H6).
  exists s, pre, rest, h', orbs. auto.
Defined.
