(* ===== verification/EngineProps.v ===== *)
(** * What holds of every state the engine reaches

    The counters of [engine/step.ts] stay in their ranges, a pickup is collected
    at most once, random draws stay in [0, 1), and the spawn loops end. *)

From S2P Require Import Prelude JsNum Types Levels Binary64 Rng RngFacts Step.
From S2P Require Import SpawnFacts StepFacts StepInv Replayer.
#[local] Open Scope Z_scope.

(** ** Definitions *)

(** The counters of a state of a run from [start]. *)
Record counters_ok (start : StartInput) (s : GameState) : Prop := {
  ok_rng : 0 <= s.(g_rng) < W32;
  ok_mult : s.(g_multiplier) = 1 \/ s.(g_multiplier) = 3;
  ok_retries : 0 <= s.(g_retries) <= start.(s_retries);
  ok_shield : 0 <= s.(g_shield) <= Z.max SHIELD_FULL start.(s_shield);
  ok_score : start.(s_score) <= s.(g_score);
  ok_clock : s.(g_elapsed) = start.(s_elapsed) + s.(g_tick);
  ok_level : s.(g_level) = start.(s_level);
  ok_fan : forall fan, s.(g_fan) = Some fan -> length fan.(f_lanes) = FAN_LANES
}.

Section Counters.
Context (start : StartInput).
Abbreviation ok := (counters_ok start).

(** ** Counters *)

(** Only the tracks change. *)
Lemma ok_tracks s p es fan :
  (forall n, (forall fn, s.(g_fan) = Some fn -> length fn.(f_lanes) = n) ->
             forall fn, fan = Some fn -> length fn.(f_lanes) = n) ->
  ok s -> ok {| s with g_player := p; g_entities := es; g_fan := fan |}.
Proof. intros Hf []. split; try assumption. simpl. by apply Hf. Qed.

Lemma ok_upd i f s : ok s -> ok (upd_track i f s).
Proof. destruct (upd_track_frame i f s) as (p & es & fan & -> & Hf). by apply ok_tracks. Qed.
Lemma ok_map f s : ok s -> ok (map_tracks f s).
Proof. destruct (map_tracks_frame f s) as (p & es & fan & -> & Hf). by apply ok_tracks. Qed.
Lemma ok_lane_coin i s : ok s -> ok (add_lane_coin i s).
Proof.
  destruct (add_lane_coin_frame i s) as (fan & -> & Hf). intros Hs.
  exact (ok_tracks s s.(g_player) s.(g_entities) fan Hf Hs).
Qed.

Lemma ok_mix s v : 0 <= mix s v < W32.
Proof. apply to_u32_range. Qed.

Ltac ok_fields := intros []; split; simpl; try assumption; try lia; auto.

Lemma ok_resolveHit cfg i h s : ok s -> ok (resolveHit cfg i h s).1.
Proof.
  intros Hs. unfold resolveHit, bounce_pit, set_taken, upd_player.
  assert (Hfull : 0 <= Z.max SHIELD_FULL start.(s_shield)) by (unfold SHIELD_FULL; lia).
  repeat (case_match; simpl); try apply ok_upd; try assumption; revert Hs; ok_fields.
Qed.

Lemma ok_add_score s : ok s -> ok (add_score s).
Proof. intros []. split; simpl; try assumption. destruct ok_mult0 as [-> | ->]; lia. Qed.

Lemma ok_collect cfg i s : ok s -> ok (collect_coin cfg i s).
Proof.
  intros Hs. unfold collect_coin. cbv zeta.
  pose proof (ok_lane_coin i _ (ok_add_score _ Hs)) as H. destruct (cfg_shieldEnabled cfg); [|done].
  revert H. intros []. split; simpl; try assumption. unfold SHIELD_FULL in *. lia.
Qed.

Lemma ok_boost v s : ok s -> ok (mix_and_boost v s).
Proof. pose proof (ok_mix s.(g_rng) v). intros []. split; simpl; try assumption; auto. Qed.

Lemma ok_pickup {P} (ports : Ports P) cfg i j e s p : ok s -> ok (pickup ports cfg i j e s p).1.1.
Proof.
  intros Hs. pose proof (ok_upd i (fun t => {| t with t_entities :=
    alter (fun e => {| e with e_taken := true |}) j t.(t_entities) |}) s Hs) as Ht.
  apply (pickup_inv ports cfg i j e s p (fun r => ok r.1.1)); simpl.
  - by apply ok_collect.
  - intros v p'. by apply ok_boost.
  - intros v p'. by apply ok_add_score, ok_boost.
Qed.

Lemma ok_collide {P} (ports : Ports P) cfg s evs p : ok s -> ok (collide ports cfg s evs p).(c_s).
Proof.
  intros Hs. apply (collide_inv ports cfg (fun c => ok c.(c_s))); [..|done].
  - intros i c Hc _. unfold hit_coll. pose proof (ok_resolveHit cfg i PitHit _ Hc).
    by destruct (resolveHit _ _ _ _).
  - intros i j e c Hc _ _ _ _ _. unfold hit_coll. pose proof (ok_resolveHit cfg i (RackHit j (e_id e)) _ Hc).
    by destruct (resolveHit _ _ _ _).
  - intros i j e c Hc _ _ _ _. unfold pickup_coll. pose proof (ok_pickup ports cfg i j e _ (c_p c) Hc).
    by destruct (pickup _ _ _ _ _ _ _) as [[? ?] ?].
Qed.

Lemma ok_inputs ins s : ok s -> ok (step_inputs ins s).
Proof.
  intros Hs. unfold step_inputs. cbv zeta. apply ok_map.
  apply (fold_left_inv ok).
  - intros s' i _. destruct i; simpl; [done|ok_fields..].
  - destruct (_ && _); [|done]. revert Hs. ok_fields.
Qed.

Lemma ok_spawnMain cfg v s : ok s -> ok (spawnMain cfg v s).
Proof.
  intros Hs. unfold spawnMain. cbv zeta.
  destruct (_ && _); [destruct (_ && _); [|done]; revert Hs; ok_fields|].
  apply (spawn_main_loop_inv _ _ ok); [|done]. intros s1 r k y at_ Hr. ok_fields.
Qed.

Lemma ok_spawnLanes cfg v s : ok s -> ok (spawnLanes cfg v s).
Proof.
  intros Hs. unfold spawnLanes. destruct (g_fan s) as [fan|] eqn:F; [|done].
  destruct (_ <=? _)%float; [done|].
  assert (Hl : forall ws ls s, ok s -> let r := spawn_each_lane ws v s ls in ok r.1 /\ length r.2 = length ls).
  { intros ws ls. induction ls as [|l ls IH]; intros s0 H0; [done|]. cbn [spawn_each_lane].
    pose proof (spawn_lane_loop_inv ws v (fun s _ => ok s)) as Hi.
    assert (H1 : ok (spawn_lane_loop (spawn_fuel (g_scroll s0) (l_nextSpawnAt l)) ws v s0 l).1).
    { apply Hi; [|done]. intros s1 l1 r k y at_ Hr. ok_fields. }
    destruct (spawn_lane_loop _ _ _ _ _) as [s1 l1]. destruct (IH s1 H1) as [H2 H3].
    destruct (spawn_each_lane _ _ _ _) as [s2 ls2]. simpl in *. by rewrite H3. }
  destruct (Hl (cfg_laneWeights cfg) (f_lanes fan) s Hs) as [H1 H2].
  destruct (spawn_each_lane _ _ _ _) as [s2 ls2]. simpl in *.
  destruct Hs as [_ _ _ _ _ _ _ Hfan]. destruct H1. split; simpl; try assumption.
  intros fn [= <-]. simpl. rewrite H2. by apply Hfan.
Qed.

Lemma ok_world cfg s : ok s -> ok (step_world cfg s).1.
Proof.
  intros Hs. unfold step_world. cbv zeta.
  match goal with |- context [map_tracks ?f ?s0] =>
    assert (H : ok (map_tracks f s0)); [apply ok_map; revert Hs; ok_fields|]; set (s1 := map_tracks f s0) in * end.
  clearbody s1. destruct (g_fan s1) as [fan|] eqn:F; simpl; [by apply ok_spawnLanes|].
  pose proof (ok_spawnMain cfg (speedAt cfg (g_elapsed s)) s1 H) as H2.
  unfold enterGate. repeat (case_match; simpl; try done).
  destruct H2. split; simpl; try assumption. intros fn [= <-]. reflexivity.
Qed.

Lemma ok_finish cfg s evs : ok s -> ok (step_finish cfg s evs).1.
Proof.
  intros Hs. unfold step_finish, fanIn.
  repeat (case_match; simplify_eq/=); destruct Hs; split; simpl; try assumption; try lia; try done.
Qed.

Lemma ok_step {P} (ports : Ports P) levels s ins p :
  ok s -> ok (step ports levels s ins p).(state).
Proof.
  intros Hs. unfold step. destruct (negb _); [done|]. cbv zeta.
  apply (ok_inputs ins) in Hs. apply (ok_world (levels (g_level s))) in Hs.
  destruct (step_world _ _) as [s1 evs1]. simpl in Hs.
  apply (ok_collide ports (levels (g_level s)) s1 evs1 p) in Hs.
  apply (ok_finish (levels (g_level s)) _ (c_evs (collide ports (levels (g_level s)) s1 evs1 p))) in Hs.
  destruct (step_finish _ _ _) as [s2 evs2]. exact Hs.
Qed.

Lemma ok_initial levels : 0 <= start.(s_retries) -> 0 <= start.(s_shield) -> ok (initialState start levels).
Proof.
  intros Hr Hs. split; simpl; try lia; try done. apply to_u32_range.
Qed.
End Counters.

(** ** The spawn loops *)

(** Once its test fails, more fuel changes nothing. *)
Lemma spawn_main_loop_more ws b v extra : forall fuel s,
  (let s' := spawn_main_loop fuel ws b v s in (s'.(g_nextSpawnAt) <=? s'.(g_scroll))%float = false) ->
  spawn_main_loop (fuel + extra) ws b v s = spawn_main_loop fuel ws b v s.
Proof.
  induction fuel as [|fuel IH]; intros s; cbv zeta.
  - intros E. simpl in *. destruct extra; [done|]. cbn [spawn_main_loop]. by rewrite E.
  - cbn [Nat.add spawn_main_loop]. destruct (s.(g_nextSpawnAt) <=? s.(g_scroll))%float; [|done].
    destruct (roll s) as [r s1]. apply IH.
Qed.

Lemma spawn_lane_loop_more ws v extra : forall fuel s l,
  (let r := spawn_lane_loop fuel ws v s l in (r.2.(l_nextSpawnAt) <=? r.1.(g_scroll))%float = false) ->
  spawn_lane_loop (fuel + extra) ws v s l = spawn_lane_loop fuel ws v s l.
Proof.
  induction fuel as [|fuel IH]; intros s l; cbv zeta.
  - intros E. simpl in *. destruct extra; [done|]. cbn [spawn_lane_loop]. by rewrite E.
  - cbn [Nat.add spawn_lane_loop]. destruct (l.(l_nextSpawnAt) <=? s.(g_scroll))%float; [|done].
    destruct (roll s) as [r s1]. apply IH.
Qed.

(** ** Properties *)

(** C8: the counters of a run. In every state live play or a replay reaches,
    the generator's state is a 32-bit integer, the multiplier is 1 or 3, the
    retries are never negative nor more than the run started with, the shield
    is within its scale, the score never falls below what the segment started
    with, the clock counts the ticks since the segment's start, the level is the
    segment's and an open fan has its lanes. *)
Theorem run_counters_ok levels start h s orbs :
  Run levels start h s orbs -> 0 <= start.(s_retries) -> 0 <= start.(s_shield) -> counters_ok start s.
Proof.
  intros HR Hr Hs. induction HR as [|h s orbs ins ans s' evs HR IH _ _ Hst _ _ _].
  - by apply ok_initial.
  - pose proof (ok_step start list_ports levels s (map inputOf ins) ans IH) as H. by rewrite Hst in H.
Qed.

(** C9: nothing is collected twice. In a recorded run every coin, crate and
    orb is collected at most once, the ids of the entities on the tracks are
    pairwise different and positive (0 is the id of a pit hit), and what is
    still to be had was never collected. *)
Theorem pickups_collected_once levels start h s orbs :
  Run levels start h s orbs ->
  NoDup (pickup_ids (omap as_outcome h)) /\ NoDup (view s).*1
  /\ Forall (fun id => 0 < id < s.(g_nextId)) (view s).*1
  /\ forall id, (id, false) ∈ view s -> id ∉ pickup_ids (omap as_outcome h).
Proof. intros HR. destruct (Run_ids _ _ _ _ _ HR). by split_and!. Qed.

(** C10: spawning catches up. On every level, at every time of a game, the
    loop that spawns on the main track and the loop of a lane stop by their own
    test, the next spawn ahead of the scroll position: the fuel of the model is
    enough, and any more of it changes nothing. *)
Theorem spawning_catches_up l elapsed ws boss s lane extra :
  0 <= elapsed < 2 ^ 53 -> position s.(g_scroll) ->
  is_finite s.(g_nextSpawnAt) = true -> 0 <= val s.(g_nextSpawnAt) ->
  is_finite lane.(l_nextSpawnAt) = true -> 0 <= val lane.(l_nextSpawnAt) ->
  let v := speedAt (LEVELS l) elapsed in
  let n := spawn_fuel s.(g_scroll) s.(g_nextSpawnAt) in
  let m := spawn_fuel s.(g_scroll) lane.(l_nextSpawnAt) in
  let s' := spawn_main_loop n ws boss v s in
  let r := spawn_lane_loop m ws v s lane in
  (s'.(g_nextSpawnAt) <=? s'.(g_scroll))%float = false
  /\ spawn_main_loop (n + extra) ws boss v s = s'
  /\ (r.2.(l_nextSpawnAt) <=? r.1.(g_scroll))%float = false
  /\ spawn_lane_loop (m + extra) ws v s lane = r.
Proof.
  intros He Hs Hn Hn0 Hl Hl0. cbv zeta.
  assert (Hv : sane_speed (speedAt (LEVELS l) elapsed)) by (apply speedAt_sane; [apply LEVELS_sane|done]).
  pose proof (spawn_main_loop_measure ws boss _ Hv _ s Hs Hn Hn0 (spawn_fuel_enough _ _ Hs Hn Hn0)) as H1.
  pose proof (spawn_lane_loop_measure ws _ Hv _ s lane Hs Hl Hl0 (spawn_fuel_enough _ _ Hs Hl Hl0)) as H2.
  cbv zeta in H1, H2. split_and!; [exact H1|by apply spawn_main_loop_more|exact H2|by apply spawn_lane_loop_more].
Qed.

(** Randomness is well-behaved. Whatever the generator's state, a draw is
    at least 0 and less than 1, the next state is a 32-bit integer, the seed of
    the next segment is the draw's exact 32 bits, and folding an outside value
    made of 32 bits into the state xors exactly these bits. *)
Theorem draws_are_exact s u :
  0 <= u < W32 ->
  (0 <=? (nextRandom s).2)%float = true /\ ((nextRandom s).2 <? 1)%float = true
  /\ 0 <= (nextRandom s).1 < W32
  /\ (nextRandom s).2 = unit_of (seedFrom s) /\ 0 <= seedFrom s < W32
  /\ mix s (unit_of u) = to_u32 (bxor s (to_i32 u)).
Proof.
  intros Hu. destruct (nextRandom_lt_1 s) as [H1 H2]. rewrite (seedFrom_output s).
  refine (conj H1 (conj H2 (conj _ (conj _ (conj _ _))))).
  - unfold nextRandom. cbv zeta. cbn [fst]. apply to_u32_range.
  - apply nextRandom_unit_of.
  - apply mulberry_out_range.
  - by apply mix_unit.
Qed.

(** ** Witnesses *)

Lemma run_counters_ok_witness :
  exists h s orbs, Run demo_levels (demo_start 1) h s orbs /\ s.(g_tick) = 23 /\ counters_ok (demo_start 1) s.
Proof.
  pose proof crate_run_summary as H.
  destruct crate_run as [[[h s] log]|] eqn:E; [|discriminate H].
  simpl in H. injection H as _ Ht _. apply record_run_sound in E. exists h, s, (orb_values log).
  split_and!; [exact E|exact Ht|].
  apply (run_counters_ok demo_levels (demo_start 1) h s (orb_values log) E); discriminate.
Defined.

Lemma pickups_collected_once_witness :
  exists h s orbs, Run demo_levels (demo_start 1) h s orbs
    /\ pickup_ids (omap as_outcome h) = [1] /\ NoDup (pickup_ids (omap as_outcome h)).
Proof.
  pose proof crate_run_summary as H.
  destruct crate_run as [[[h s] log]|] eqn:E; [|discriminate H].
  simpl in H. injection H as Hh _ _. apply record_run_sound in E. exists h, s, (orb_values log).
  split_and!; [exact E|rewrite Hh; reflexivity|].
  apply (pickups_collected_once demo_levels (demo_start 1) h s (orb_values log) E).
Defined.

Lemma spawning_catches_up_witness :
  let s := {| (initialState (demo_start 1) LEVELS) with g_scroll := 1000%float |} in
  let lane := new_lane (initialState (demo_start 1) LEVELS) in
  let s' := spawn_main_loop (spawn_fuel s.(g_scroll) s.(g_nextSpawnAt)) (cfg_weights (LEVELS L1)) false
              (speedAt (LEVELS L1) 60) s in
  (s'.(g_nextSpawnAt) <=? s'.(g_scroll))%float = false.
Proof.
  cbv zeta.
  apply (spawning_catches_up L1 60 (cfg_weights (LEVELS L1)) false
    {| (initialState (demo_start 1) LEVELS) with g_scroll := 1000%float |}
    (new_lane (initialState (demo_start 1) LEVELS)) 0).
  - lia.
  - split; [reflexivity|]. split; [apply Z.leb_le|apply Z.ltb_lt]; vm_compute; reflexivity.
  - reflexivity.
  - apply Z.leb_le. vm_compute. reflexivity.
  - reflexivity.
  - apply Z.leb_le. vm_compute. reflexivity.
Defined.

Lemma draws_are_exact_witness : mix 7 (unit_of 5) = to_u32 (bxor 7 (to_i32 5)).
Proof. apply (draws_are_exact 7 5). unfold W32. lia. Defined.
