(* ===== verification/RuntimeTypes.v ===== *)
(** * Runtime data

    [runtime/types.ts], the tape of [runtime/tape.ts] and the segments of
    [runtime/montage.ts]: what a save file and a shared run hold. *)

From S2P Require Import Prelude JsNum Types.
#[local] Open Scope Z_scope.

Record RunStats := {
  replays : Z;
  fromHistory : Z;
  executed : Z;
  incidents : Z;
  retriesUsed : Z;
  circuitTrips : Z;
  boostsLost : Z
}.

Inductive Command := CJump | CJumpEnd | CSlideStart | CSlideEnd | CPause | CConfirm | CCancel.
#[export] Instance Command_eq_dec : EqDecision Command.
Proof. solve_decision. Defined.

(** The commands that are player inputs. *)
Definition command_input (c : Command) : option PlayerInput :=
  match c with
  | CJump => Some Jump
  | CJumpEnd => Some JumpEnd
  | CSlideStart => Some SlideStart
  | CSlideEnd => Some SlideEnd
  | CPause | CConfirm | CCancel => None
  end.

(** [Phase]; the texts of [over] are kept, they say why a run ended. *)
Inductive Phase :=
  | PTitle
  | PResume (tick : Z)
  | PTip (level : Level)
  | PPlaying
  | PPaused
  | PCrashing (framesLeft : Z)
  | PReplaying
  | PRewinding (frames : list GameState) (index : nat) (attempt of_ : Z)
  | PMontage (events : Z)
  | PLost
  | POver (reason : string).

Inductive PhaseKind :=
  KTitle | KResume | KTip | KPlaying | KPaused | KCrashing | KReplaying | KRewinding | KMontage | KLost | KOver.
#[export] Instance PhaseKind_eq_dec : EqDecision PhaseKind.
Proof. solve_decision. Defined.
Definition kind (p : Phase) : PhaseKind :=
  match p with
  | PTitle => KTitle | PResume _ => KResume | PTip _ => KTip | PPlaying => KPlaying
  | PPaused => KPaused | PCrashing _ => KCrashing | PReplaying => KReplaying
  | PRewinding _ _ _ _ => KRewinding | PMontage _ => KMontage | PLost => KLost | POver _ => KOver
  end.

Record MontageSegment := {
  sg_start : StartInput;
  sg_history : list HistoryEvent;
  sg_endTick : Z;
  sg_orbValues : list (Z * num)
}.

(** A save without its tape. *)
Record SaveBody := {
  sv_date : string;
  sv_start : StartInput;
  sv_history : list HistoryEvent;
  sv_tick : Z;
  sv_stats : RunStats;
  sv_divergedAt : option Z;
  sv_segments : list MontageSegment;
  sv_orbValues : list (Z * num)
}.

Record Restart := {
  rs_liveTick : Z;
  rs_impureAt : nat;
  rs_chaosAt : nat;
  rs_save : SaveBody
}.

Record Tape := {
  tp_date : string;
  tp_inputs : list (Z * PlayerInput);
  tp_impure : list num;
  tp_chaos : list num;
  tp_restarts : list Restart;
  tp_liveTick : Z
}.

Record Save := { sv_body : SaveBody; sv_tape : Tape }.
