(* ===== verification/Rewind.v ===== *)
(** * The rewind buffer

    [runtime/rewind.ts]: the recent states a retry can go back to, how the
    target of a rewind is picked, and how its frames are sampled. *)

From S2P Require Import Prelude JsNum Types Levels Rng Step.
#[local] Open Scope Z_scope.
#[local] Open Scope js_scope.

(** ** Definitions *)

Definition REWIND_BUFFER_TICKS : nat := 180.
Definition REWIND_PX : num := 240%float.
Definition REWIND_FRAMES : Z := 30.
Definition SAFE_BEHIND : num := 10%float.
Definition SAFE_AHEAD : num := 120%float.

Definition hatSafe (p : Player) (entities : list Entity) : bool :=
  if negb (p.(p_y) =? GROUND_Y)%float || negb (p.(p_vy) =? 0)%float then false
  else
    let lo := (PLAYER_X - SAFE_BEHIND)%float in
    let hi := (PLAYER_X + PLAYER_W + SAFE_AHEAD)%float in
    negb (existsb (fun e => isHazard e.(e_kind) && negb e.(e_taken)
                            && (e.(e_x) <? hi)%float && (lo <? e.(e_x) + e.(e_w))%float) entities).

Definition isSafe (s : GameState) : bool :=
  forallb (fun t => hatSafe t.(t_player) t.(t_entities)) (tracks s).

Record RewindBuffer := {
  rb_anchor : option GameState;
  rb_ring : list GameState;
  rb_wrapped : bool
}.

Definition rewind_new : RewindBuffer := {| rb_anchor := None; rb_ring := []; rb_wrapped := false |}.

Definition reset (anchor : GameState) : RewindBuffer :=
  {| rb_anchor := Some anchor; rb_ring := []; rb_wrapped := false |}.

Definition push (b : RewindBuffer) (s : GameState) : RewindBuffer :=
  let ring := b.(rb_ring) ++ [s] in
  if (REWIND_BUFFER_TICKS <? length ring)%nat
  then {| b with rb_ring := drop 1 ring; rb_wrapped := true |}
  else {| b with rb_ring := ring |}.

Definition all (b : RewindBuffer) : list GameState :=
  match b.(rb_wrapped), b.(rb_anchor) with
  | false, Some a => a :: b.(rb_ring)
  | _, _ => b.(rb_ring)
  end.

(** [pick]; [None] is the exception "rewind buffer is empty". *)
Definition pick (b : RewindBuffer) (failedAt : Z) (minBack : num) (floor : Z) : option GameState :=
  let all := all b in
  let candidates := List.filter (fun s => floor <=? s.(g_tick)) all in
  let limit := (of_Z failedAt - minBack)%float in
  match List.find (fun s => (of_Z s.(g_tick) <=? limit)%float && isSafe s) (rev candidates) with
  | Some s => Some s
  | None =>
      match head candidates with
      | Some s => Some s
      | None => last all
      end
  end.

Definition between (b : RewindBuffer) (from to_ : Z) : list GameState :=
  List.filter (fun s => (from <=? s.(g_tick)) && (s.(g_tick) <=? to_)) (all b).

Definition dropAfter (b : RewindBuffer) (tick : Z) : RewindBuffer :=
  {| b with rb_ring := List.filter (fun s => s.(g_tick) <=? tick) b.(rb_ring) |}.

(** The index [Math.round((i * (len - 1)) / (n - 1))]. *)
Definition sample_index (len n : Z) (i : nat) : Z :=
  default 0 (round_Z (of_Z (Z.of_nat i * (len - 1)) / of_Z (n - 1))%float).

(** [sample]: every index it reads is in range ([sample_in_range]). *)
Definition sample {A} (items : list A) (n : Z) : list A :=
  let len := Z.of_nat (length items) in
  if n <=? 0 then []
  else if n =? 1 then take 1 items
  else if len <=? n then items
  else omap (fun i => items !! Z.to_nat (sample_index len n i)) (seq 0 (Z.to_nat n)).

#[global] Arguments pick : simpl never.
#[global] Arguments sample : simpl never.
#[global] Arguments sample_index : simpl never.

(** ** The buffer *)

(** Ticks strictly increase along the buffer. *)
Definition ticks_sorted (l : list GameState) : Prop :=
  StronglySorted (fun a b => a.(g_tick) < b.(g_tick)) l.

(** The ring never outgrows its bound, and once wrapped it is full. *)
Definition ring_bounded (b : RewindBuffer) : Prop := (length b.(rb_ring) <= REWIND_BUFFER_TICKS)%nat.

Lemma push_bounded b s : ring_bounded b -> ring_bounded (push b s).
Proof.
  unfold ring_bounded, push. intros H.
  destruct (Nat.ltb_spec REWIND_BUFFER_TICKS (length (b.(rb_ring) ++ [s]))) as [Hl|Hl]; [|done].
  cbn [rb_ring]. rewrite length_drop. rewrite length_app in *. simpl in *. lia.
Qed.

Lemma all_length b : ring_bounded b -> (length (all b) <= S REWIND_BUFFER_TICKS)%nat.
Proof. unfold ring_bounded, all. intros H. destruct (rb_wrapped b), (rb_anchor b); simpl; lia. Qed.

(** Every state the buffer holds after a push was there before, or is new. *)
Lemma all_push b s x : x ∈ all (push b s) -> x ∈ all b \/ x = s.
Proof.
  unfold all, push. destruct (_ <? _)%nat; simpl.
  - intros Hx.
    assert (Hx' : x ∈ rb_ring b ++ [s]).
    { rewrite <- (take_drop 1 (rb_ring b ++ [s])). apply elem_of_app. by right. }
    apply elem_of_app in Hx' as [Hx'| ->%list_elem_of_singleton]; [|by right].
    left. destruct (rb_wrapped b), (rb_anchor b); try done. by right.
  - destruct (rb_wrapped b), (rb_anchor b); rewrite ?elem_of_cons, ?elem_of_app, ?list_elem_of_singleton;
      tauto.
Qed.

Lemma push_new b s : s ∈ all (push b s).
Proof.
  assert (Hn : s ∈ rb_ring (push b s)).
  { unfold push. destruct (Nat.ltb_spec REWIND_BUFFER_TICKS (length (rb_ring b ++ [s]))) as [H|H]; simpl.
    - destruct (rb_ring b); simpl in *; [unfold REWIND_BUFFER_TICKS in H; lia|].
      apply elem_of_app. right. by left.
    - apply elem_of_app. right. by left. }
  unfold all. destruct (rb_wrapped (push b s)), (rb_anchor (push b s)); try done. by right.
Qed.

Lemma elem_of_List_filter {A} (f : A -> bool) (l : list A) x :
  x ∈ List.filter f l <-> f x = true /\ x ∈ l.
Proof. rewrite !list_elem_of_In, filter_In. tauto. Qed.

Lemma all_dropAfter b t x : x ∈ all (dropAfter b t) -> x ∈ all b.
Proof.
  unfold all, dropAfter. simpl.
  destruct (rb_wrapped b), (rb_anchor b); rewrite ?elem_of_cons, ?elem_of_List_filter; tauto.
Qed.

(** What [dropAfter] leaves is not later than the tick it was given, the anchor
    of the segment apart. *)
Lemma dropAfter_le b t x : x ∈ rb_ring (dropAfter b t) -> x.(g_tick) <= t.
Proof. unfold dropAfter. simpl. rewrite elem_of_List_filter. intros [H _]. by apply Z.leb_le. Qed.

Lemma find_rev_last {A} (f : A -> bool) (l : list A) x :
  List.find f (rev l) = Some x ->
  exists l1 l2, l = l1 ++ x :: l2 /\ f x = true /\ Forall (fun y => f y = false) l2.
Proof.
  induction l as [|a l IH] using rev_ind; simpl; [done|].
  rewrite rev_unit. simpl. destruct (f a) eqn:F.
  - intros [= ->]. exists l, []. by split_and!.
  - intros H. destruct (IH H) as (l1 & l2 & -> & Hf & Hl). exists l1, (l2 ++ [a]).
    split_and!; [by rewrite <- app_assoc|done|]. apply Forall_app. by split; [|constructor].
Qed.

Lemma find_rev_none {A} (f : A -> bool) (l : list A) x :
  List.find f (rev l) = None -> x ∈ l -> f x = false.
Proof.
  intros H Hx. apply (List.find_none _ _ H). rewrite <- in_rev. by apply list_elem_of_In.
Qed.

Definition safe_by (limit : num) (s : GameState) : bool :=
  (of_Z s.(g_tick) <=? limit)%float && isSafe s.

(** [pick] on every branch. *)
Lemma pick_cases b failedAt minBack floor s :
  pick b failedAt minBack floor = Some s ->
  let limit := (of_Z failedAt - minBack)%float in
  let candidates := List.filter (fun s => floor <=? s.(g_tick)) (all b) in
  s ∈ all b
  /\ (candidates <> [] -> floor <= s.(g_tick))
  /\ ((exists x, x ∈ candidates /\ safe_by limit x = true) -> safe_by limit s = true)
  /\ (candidates <> [] ->
      exists l1 l2, candidates = l1 ++ s :: l2 /\ Forall (fun y => safe_by limit y = false) l2).
Proof.
  cbv zeta. unfold pick. set (limit := (of_Z failedAt - minBack)%float).
  set (cs := List.filter _ (all b)). fold (safe_by limit).
  destruct (List.find _ (rev cs)) as [x|] eqn:F.
  - intros [= ->]. apply find_rev_last in F as (l1 & l2 & E & Hf & Hl).
    assert (Hx : s ∈ cs) by (rewrite E; apply elem_of_app; right; by left).
    pose proof Hx as [Hfl Ha]%elem_of_List_filter. split_and!; [done| |done|].
    + intros _. by apply Z.leb_le.
    + intros _. by exists l1, l2.
  - intros H.
    assert (Hno : forall x, x ∈ cs -> safe_by limit x = false) by (intros x Hx; by eapply find_rev_none).
    destruct cs as [|c cs'] eqn:C; simpl in H.
    + split_and!; [|done| |done].
      * by apply last_Some_elem_of.
      * intros (x & Hx & _). by apply elem_of_nil in Hx.
    + injection H as ->.
      assert (Hx : s ∈ cs) by (rewrite C; by left).
      pose proof Hx as [Hfl Ha]%elem_of_List_filter. split_and!; [done| | |].
      * intros _. by apply Z.leb_le.
      * intros (x & Hx' & Hs). by rewrite Hno in Hs.
      * intros _. exists [], cs'. split; [done|]. rewrite Forall_forall. intros y Hy.
        apply Hno. by right.
Qed.

(** [pick] fails on the empty buffer only. *)
Lemma pick_total b failedAt minBack floor :
  all b <> [] -> is_Some (pick b failedAt minBack floor).
Proof.
  intros H. unfold pick. destruct (List.find _ _); [by eexists|].
  destruct (head _); [by eexists|]. destruct (all b) as [|x l] using rev_ind; [done|].
  rewrite last_snoc. by eexists.
Qed.

Lemma pick_in b failedAt minBack floor s : pick b failedAt minBack floor = Some s -> s ∈ all b.
Proof. intros H. by apply (pick_cases _ _ _ _ _ H). Qed.

(** ** Sampling *)

(** The indices of a sample of 30 out of [len]: from the first to the last
    one, strictly increasing. *)
Definition indices (len : nat) : list nat :=
  map (fun i => Z.to_nat (sample_index (Z.of_nat len) REWIND_FRAMES i)) (seq 0 (Z.to_nat REWIND_FRAMES)).
Fixpoint increasing (l : list nat) : bool :=
  match l with
  | a :: (b :: _) as tl => (a <? b)%nat && increasing tl
  | _ => true
  end.
Definition indices_ok (len : nat) : bool :=
  bool_decide (head (indices len) = Some 0%nat)
  && bool_decide (last (indices len) = Some (len - 1)%nat)
  && increasing (indices len).

Lemma indices_checked : forallb indices_ok (seq 31 151) = true.
Proof. vm_compute. reflexivity. Qed.

Lemma indices_ok_bound len : (31 <= len <= 181)%nat -> indices_ok len = true.
Proof.
  intros H. pose proof indices_checked as C. rewrite forallb_forall in C. apply C.
  apply in_seq. lia.
Qed.

Lemma increasing_cons a b l : increasing (a :: b :: l) = (a <? b)%nat && increasing (b :: l).
Proof. done. Qed.

Lemma increasing_drop a l : increasing (a :: l) = true -> Forall (fun b => (a < b)%nat) l /\ increasing l = true.
Proof.
  revert a. induction l as [|b l IH]; intros a H; [done|].
  rewrite increasing_cons in H. apply andb_true_iff in H as [H1%Nat.ltb_lt H2]. split; [|done].
  constructor; [done|]. destruct (IH b H2) as [H3 _]. eapply Forall_impl; [exact H3|]. simpl. lia.
Qed.

Lemma drop_sublist_le {A} (l : list A) j k : (k <= j)%nat -> drop j l `sublist_of` drop k l.
Proof.
  intros H. replace (drop j l) with (drop (j - k) (drop k l)); [apply sublist_drop|].
  rewrite drop_drop. f_equal. lia.
Qed.

(** Reading a list at increasing indices keeps its order. *)
Lemma omap_increasing {A} (l : list A) idx : forall k,
  increasing idx = true -> Forall (fun i => (k <= i)%nat) idx ->
  omap (fun i => l !! i) idx `sublist_of` drop k l.
Proof.
  induction idx as [|i idx IH]; intros k Hi Hk; [apply sublist_nil_l|].
  apply increasing_drop in Hi as [Hlt Hi]. apply Forall_cons in Hk as [Hk _].
  assert (Hrest : omap (fun i => l !! i) idx `sublist_of` drop (S i) l).
  { apply IH; [done|]. eapply Forall_impl; [exact Hlt|]. simpl. lia. }
  cbn. destruct (l !! i) as [x|] eqn:E; simpl.
  - transitivity (drop i l); [|by apply drop_sublist_le]. rewrite (drop_S _ x) by done. by apply sublist_skip.
  - transitivity (drop (S i) l); [done|]. apply drop_sublist_le. lia.
Qed.

Lemma omap_total_length {A B} (f : A -> option B) l :
  Forall (fun x => is_Some (f x)) l -> length (omap f l) = length l.
Proof. induction 1 as [|x l [y Hy] Hl IH]; cbn; [done|]. rewrite Hy. simpl. by rewrite <- IH. Qed.

Lemma omap_map {A B C} (f : B -> option C) (g : A -> B) l : omap f (map g l) = omap (fun x => f (g x)) l.
Proof. induction l as [|x l IH]; [done|]. cbn. by rewrite <- IH. Qed.

Lemma omap_head {A B} (f : A -> option B) l x y :
  head l = Some x -> f x = Some y -> head (omap f l) = Some y.
Proof. destruct l; simpl; [done|]. intros [= ->] H. cbn. by rewrite H. Qed.

Lemma omap_last {A B} (f : A -> option B) l x y :
  last l = Some x -> f x = Some y -> last (omap f l) = Some y.
Proof.
  destruct l as [|a l] using rev_ind; [done|]. rewrite last_snoc. intros [= ->] H.
  rewrite omap_app. cbn. rewrite H. simpl. apply last_snoc.
Qed.

Lemma increasing_last l n : increasing l = true -> last l = Some n -> Forall (fun i => (i <= n)%nat) l.
Proof.
  induction l as [|a l IH]; intros Hi Hl; [constructor|].
  destruct l as [|b l]; [injection Hl as ->; by constructor|].
  apply increasing_drop in Hi as [Hlt Hi]. specialize (IH Hi Hl).
  constructor; [|done]. apply Forall_cons in IH as [? _]. apply Forall_cons in Hlt as [? _]. lia.
Qed.

Lemma last_lookup_length {A} (l : list A) : last l = l !! (length l - 1)%nat.
Proof. rewrite last_lookup. f_equal. lia. Qed.

Lemma sample_short {A} (items : list A) n :
  2 <= n -> Z.of_nat (length items) <= n -> sample items n = items.
Proof.
  intros H1 H2. unfold sample.
  rewrite (proj2 (Z.leb_gt n 0)), (proj2 (Z.eqb_neq n 1)), (proj2 (Z.leb_le _ n)) by lia. done.
Qed.

Lemma sample_long {A} (items : list A) :
  (31 <= length items)%nat ->
  sample items REWIND_FRAMES = omap (fun i => items !! i) (indices (length items)).
Proof.
  intros H. unfold sample. rewrite (proj2 (Z.leb_gt (Z.of_nat (length items)) REWIND_FRAMES)) by (unfold REWIND_FRAMES; lia).
  change (REWIND_FRAMES <=? 0) with false. change (REWIND_FRAMES =? 1) with false. cbv iota.
  unfold indices. symmetry. apply (omap_map (fun i => items !! i)).
Qed.

(** What the rewind animation shows of the states it runs back over. *)
Lemma sample_spec {A} (items : list A) :
  (length items <= S REWIND_BUFFER_TICKS)%nat ->
  let f := sample items REWIND_FRAMES in
  f `sublist_of` items
  /\ head f = head items /\ last f = last items
  /\ length f = Nat.min (Z.to_nat REWIND_FRAMES) (length items).
Proof.
  intros H. cbv zeta. unfold REWIND_BUFFER_TICKS in H.
  destruct (Nat.le_gt_cases (length items) 30) as [Hs|Hs].
  { rewrite sample_short by (unfold REWIND_FRAMES; lia). split_and!; try done.
    change (Z.to_nat REWIND_FRAMES) with 30%nat. lia. }
  rewrite sample_long by lia.
  pose proof (indices_ok_bound (length items) ltac:(lia)) as C. unfold indices_ok in C.
  apply andb_true_iff in C as [[C1%bool_decide_eq_true C2%bool_decide_eq_true]%andb_true_iff C3].
  pose proof (increasing_last _ _ C3 C2) as Hb.
  assert (Hf : is_Some (items !! 0%nat)) by (apply lookup_lt_is_Some; lia). destruct Hf as [a Ha].
  assert (Hl : is_Some (items !! (length items - 1)%nat)) by (apply lookup_lt_is_Some; lia). destruct Hl as [z Hz].
  split; [|split; [|split]].
  - rewrite <- (drop_0 items) at 2. apply omap_increasing; [done|]. apply Forall_true. lia.
  - rewrite (omap_head _ _ _ _ C1 Ha). by destruct items.
  - rewrite (omap_last _ _ _ _ C2 Hz). by rewrite last_lookup_length.
  - rewrite omap_total_length.
    + unfold indices. rewrite length_map, length_seq. change (Z.to_nat REWIND_FRAMES) with 30%nat. lia.
    + eapply Forall_impl; [exact Hb|]. simpl. intros i Hi. apply lookup_lt_is_Some. lia.
Qed.
