(* ===== verification/Chaos.v ===== *)
(** * The chaos scheduler

    [runtime/chaos.ts]: when the "process" dies.  The random source [rand] is
    an operation on an outside state [R]. *)

From S2P Require Import Prelude JsNum Types Levels.
#[local] Open Scope Z_scope.
#[local] Open Scope js_scope.

(** [dueAt]: an integral tick, kept as the double the arithmetic gives. *)
Definition ChaosScheduler : Type := option num.

Section Chaos.
Context {R : Type} (rand : R -> num * R) (levels : LevelTable).

Definition chaos_between (range : Z * Z) (r : R) : num * R :=
  let (lo, hi) := range in
  let (v, r) := rand r in
  ((of_Z lo + num_round (v * of_Z (hi - lo)))%float, r).

Definition scheduleNext (level : Level) (tick elapsed : Z) (r : R) : ChaosScheduler * R :=
  match chaosMeanTicks (levels level) elapsed with
  | None => (None, r)
  | Some mean =>
      let (v, r) := rand r in
      (Some (of_Z tick + num_round (mean * (0.5 + v)))%float, r)
  end.

Definition chaos_start (level : Level) (firstOfLevel : bool) (elapsed : Z) (r : R) : ChaosScheduler * R :=
  let cfg := levels level in
  match cfg.(cfg_scriptedCrashAt), cfg.(cfg_firstCrashTicks) with
  | Some at_, _ => (Some (of_Z at_), r)
  | None, Some range =>
      if firstOfLevel then let (d, r) := chaos_between range r in (Some d, r)
      else scheduleNext level 0 elapsed r
  | None, None => scheduleNext level 0 elapsed r
  end.

Definition onPickup (c : ChaosScheduler) (level : Level) (k : EntityKind) (tick : Z) (r : R)
    : ChaosScheduler * R :=
  match (levels level).(cfg_crashAfterPickup) with
  | Some kinds =>
      if bool_decide (k ∈ kinds) then
        let (d, r) := chaos_between CRASH_AFTER_PICKUP r in
        let at_ := (of_Z tick + d)%float in
        match c with
        | None => (Some at_, r)
        | Some due => if (at_ <? due)%float then (Some at_, r) else (c, r)
        end
      else (c, r)
  | None => (c, r)
  end.
End Chaos.

Definition isDue (c : ChaosScheduler) (tick : Z) : bool :=
  match c with Some due => (due <=? of_Z tick)%float | None => false end.

#[global] Arguments scheduleNext : simpl never.
#[global] Arguments chaos_start : simpl never.
#[global] Arguments onPickup : simpl never.
#[global] Arguments isDue : simpl never.
