(* ===== verification/Json.v ===== *)
(** * JSON values

    What [JSON.parse] can return, and how the checks of the source look at it:
    [typeof], property access, [Array.isArray], [every]. Texts (the grammar of
    JSON) belong to the language's own library; here a document is its value. *)

From Stdlib Require Import Ascii.
From S2P Require Import Prelude JsNum.
#[local] Open Scope Z_scope.

(** ** Values *)

#[warnings="-register-all"]
Inductive json :=
  | JNull
  | JBool (b : bool)
  | JNum (n : num)
  | JStr (s : string)
  | JArr (l : list json)
  | JObj (fields : list (string * json)).

(** [v.key]: [None] is [undefined].  An array has none of the keys the source
    asks for. *)
Definition prop (v : json) (key : string) : option json :=
  match v with
  | JObj fields => snd <$> List.find (fun kv => String.eqb kv.1 key) fields
  | _ => None
  end.

(** [typeof v === 'object' && v !== null]. *)
Definition isObj (v : option json) : bool :=
  match v with Some (JArr _) | Some (JObj _) => true | _ => false end.

(** [typeof v === 'number' && Number.isFinite(v)]. *)
Definition isNum (v : option json) : bool :=
  match v with Some (JNum n) => is_finite n | _ => false end.

Definition isBool (v : option json) : bool :=
  match v with Some (JBool _) => true | _ => false end.

(** [isNum(v) && f(v)]. *)
Definition num_and (v : option json) (f : num -> bool) : bool :=
  match v with Some (JNum n) => is_finite n && f n | _ => false end.

(** [Array.isArray(v) && v.every(f)]. *)
Definition array_every (v : option json) (f : json -> bool) : bool :=
  match v with Some (JArr l) => forallb f l | _ => false end.

(** [v === s]. *)
Definition is_str (v : option json) (s : string) : bool :=
  match v with Some (JStr t) => String.eqb t s | _ => false end.

(** [v === n]. *)
Definition is_n (v : option json) (n : num) : bool :=
  match v with Some (JNum m) => (m =? n)%float | _ => false end.

(** [Number.isInteger]. *)
Definition isInteger (n : num) : bool := is_finite n && (num_floor n =? n)%float.

(** ** Writing values *)

(** A number as [JSON.stringify] writes it and [JSON.parse] reads it back:
    what is not finite becomes [null], and [-0] becomes [0]. *)
Definition json_num (n : num) : json :=
  if is_finite n then JNum (if is_neg_zero n then 0%float else n) else JNull.
Definition json_Z (z : Z) : json := JNum (of_Z z).

(** ** Character classes and dates *)

Definition is_digit (c : Ascii.ascii) : bool :=
  let n := Ascii.nat_of_ascii c in (48 <=? n)%nat && (n <=? 57)%nat.

(** [/^\d{4}-\d{2}-\d{2}$/.test(s)]. *)
Fixpoint matches_mask (mask : list bool) (s : list Ascii.ascii) : bool :=
  match mask, s with
  | [], [] => true
  | digit :: mask, c :: s =>
      (if digit then is_digit c else Ascii.eqb c "-"%char) && matches_mask mask s
  | _, _ => false
  end.
Definition date_mask : list bool := [true; true; true; true; false; true; true; false; true; true].
Definition is_date (s : string) : bool := matches_mask date_mask (String.list_ascii_of_string s).

Definition isDate (v : option json) : bool :=
  match v with Some (JStr s) => is_date s | _ => false end.

(** ** Facts *)

Lemma prop_cons_eq k v fields : prop (JObj ((k, v) :: fields)) k = Some v.
Proof. simpl. by rewrite String.eqb_refl. Qed.

Lemma isNum_json_num n : is_finite n = true -> isNum (Some (json_num n)) = true.
Proof. intros H. unfold json_num. rewrite H. simpl. by destruct (is_neg_zero n). Qed.

#[global] Arguments is_finite : simpl never.
#[global] Arguments of_Z : simpl never.
