(* ===== verification/Validate.v ===== *)
(** * Validating a save

    [runtime/validate.ts]: which JSON values are start inputs, history events,
    montage segments and saves.  The writers ([json_of_*]) are what
    [JSON.stringify] makes of the typed values; the theorems say that the checks
    accept exactly the well-formed ones. *)

From S2P Require Import Prelude JsNum Types Replayer Json RuntimeTypes Binary64.
#[local] Open Scope string_scope.
#[local] Open Scope Z_scope.

(** ** The checks *)

(** [[0, 1, 2, 3, 4, 5].includes(v)]. *)
Definition is_level (v : option json) : bool :=
  match v with
  | Some (JNum n) => existsb (fun k => (k =? n)%float) [0; 1; 2; 3; 4; 5]%float
  | _ => false
  end.

Definition nonneg (n : num) : bool := (0 <=? n)%float.

Definition isStart (v : option json) : bool :=
  match v with
  | Some j =>
      isObj v && is_level (prop j "level")
      && isNum (prop j "seed") && isNum (prop j "score") && isNum (prop j "elapsed")
      && isNum (prop j "distance") && isBool (prop j "boss")
      && num_and (prop j "retries") nonneg && num_and (prop j "shield") nonneg
  | None => false
  end.

Definition has_hash (j : json) : bool := isNum (prop j "hash").
Definition has_id (j : json) : bool := isNum (prop j "id").

Definition isEvent (j : json) : bool :=
  if negb (isObj (Some j)) || negb (isNum (prop j "tick"))
     || num_and (prop j "tick") (fun n => (n <? 0)%float)
  then false
  else
    let type := prop j "type" in
    if is_str type "Input" then
      existsb (is_str (prop j "kind")) ["jump"; "jumpEnd"; "slideStart"; "slideEnd"]
    else if is_str type "OrchestratorStarted" then true
    else if is_str type "RetryAttempt" then isNum (prop j "attempt") && isNum (prop j "failedAt")
    else if is_str type "CircuitBreakerTripped" || is_str type "BoostLost" then has_id j && has_hash j
    else if is_str type "FanOut" then has_hash j
    else if is_str type "FanIn" then
      has_hash j && array_every (prop j "results") (fun r => isNum (Some r))
    else if is_str type "OrbTaken" then has_id j && has_hash j
    else if is_str type "ActivityCoinCollected" then has_id j && has_hash j
    else if is_str type "ActivityCrateCollected" then has_id j && has_hash j && isNum (prop j "result")
    else false.

Definition STAT_KEYS : list string :=
  ["replays"; "fromHistory"; "executed"; "incidents"; "retriesUsed"; "circuitTrips"; "boostsLost"].

Definition isStats (v : option json) : bool :=
  match v with
  | Some j => isObj v && forallb (fun k => isNum (prop j k)) STAT_KEYS
  | None => false
  end.

Definition isPair (p : json) : bool :=
  match p with JArr [a; b] => isNum (Some a) && isNum (Some b) | _ => false end.
Definition isPairs (v : option json) : bool := array_every v isPair.

Definition isSegment (j : json) : bool :=
  isObj (Some j) && isStart (prop j "start") && array_every (prop j "history") isEvent
  && isNum (prop j "endTick") && isPairs (prop j "orbValues").

(** [isInputEvent] and the tick of a JSON event that passed [isEvent]. *)
Definition json_is_input (j : json) : bool :=
  existsb (is_str (prop j "type")) ["Input"; "OrchestratorStarted"; "RetryAttempt"].
Definition json_tick (j : json) : num :=
  match prop j "tick" with Some (JNum n) => n | _ => 0%float end.

(** Ordered by tick; outcomes before the tick replayed to, inputs at most on it. *)
Fixpoint ordered_from (tick : num) (prev : option num) (events : list json) : bool :=
  match events with
  | [] => true
  | e :: events =>
      match prev with None => true | Some p => (p <=? json_tick e)%float end
      && (if json_is_input e then (json_tick e <=? tick)%float else (json_tick e <? tick)%float)
      && ordered_from tick (Some (json_tick e)) events
  end.

Definition isSaveBody (v : option json) : bool :=
  match v with
  | None => false
  | Some j =>
      if negb (isObj v) || negb (is_n (prop j "version") 2) || negb (isStart (prop j "start"))
         || negb (isStats (prop j "stats")) then false
      else if negb (isDate (prop j "date")) then false
      else if negb (isNum (prop j "tick")) || num_and (prop j "tick") (fun n => (n <? 0)%float) then false
      else if negb (match prop j "divergedAt" with Some JNull => true | d => isNum d end) then false
      else if negb (array_every (prop j "history") isEvent) then false
      else if negb (array_every (prop j "segments") isSegment) || negb (isPairs (prop j "orbValues")) then false
      else
        match prop j "history" with
        | Some (JArr history) => ordered_from (json_tick j) None history
        | _ => false
        end
  end.

(** ** What the writer produces *)

Definition json_of_start (s : StartInput) : json := JObj [
  ("level", json_Z (level_num s.(s_level))); ("seed", json_Z s.(s_seed)); ("score", json_Z s.(s_score));
  ("elapsed", json_Z s.(s_elapsed)); ("distance", json_num s.(s_distance)); ("boss", JBool s.(s_boss));
  ("retries", json_Z s.(s_retries)); ("shield", json_Z s.(s_shield))].

Definition input_name (k : PlayerInput) : string :=
  match k with Jump => "jump" | JumpEnd => "jumpEnd" | SlideStart => "slideStart" | SlideEnd => "slideEnd" end.

Definition json_of_event (e : HistoryEvent) : json :=
  match e with
  | InE (Input t k) => JObj [("type", JStr "Input"); ("tick", json_Z t); ("kind", JStr (input_name k))]
  | InE (OrchestratorStarted t) => JObj [("type", JStr "OrchestratorStarted"); ("tick", json_Z t)]
  | InE (RetryAttempt t a f) =>
      JObj [("type", JStr "RetryAttempt"); ("tick", json_Z t); ("attempt", json_Z a); ("failedAt", json_Z f)]
  | OutE (ActivityCoinCollected t i h) =>
      JObj [("type", JStr "ActivityCoinCollected"); ("tick", json_Z t); ("id", json_Z i); ("hash", json_Z h)]
  | OutE (ActivityCrateCollected t i h r) =>
      JObj [("type", JStr "ActivityCrateCollected"); ("tick", json_Z t); ("id", json_Z i); ("hash", json_Z h);
            ("result", json_num r)]
  | OutE (OrbTaken t i h) =>
      JObj [("type", JStr "OrbTaken"); ("tick", json_Z t); ("id", json_Z i); ("hash", json_Z h)]
  | OutE (CircuitBreakerTripped t i h) =>
      JObj [("type", JStr "CircuitBreakerTripped"); ("tick", json_Z t); ("id", json_Z i); ("hash", json_Z h)]
  | OutE (BoostLost t i h) =>
      JObj [("type", JStr "BoostLost"); ("tick", json_Z t); ("id", json_Z i); ("hash", json_Z h)]
  | OutE (FanOut t h) => JObj [("type", JStr "FanOut"); ("tick", json_Z t); ("hash", json_Z h)]
  | OutE (FanIn t h r) =>
      JObj [("type", JStr "FanIn"); ("tick", json_Z t); ("hash", json_Z h); ("results", JArr (map json_Z r))]
  end.

Definition json_of_stats (s : RunStats) : json := JObj [
  ("replays", json_Z s.(replays)); ("fromHistory", json_Z s.(fromHistory)); ("executed", json_Z s.(executed));
  ("incidents", json_Z s.(incidents)); ("retriesUsed", json_Z s.(retriesUsed));
  ("circuitTrips", json_Z s.(circuitTrips)); ("boostsLost", json_Z s.(boostsLost))].

Definition json_of_pairs (l : list (Z * num)) : json :=
  JArr (map (fun p => JArr [json_Z p.1; json_num p.2]) l).

Definition json_of_segment (s : MontageSegment) : json := JObj [
  ("start", json_of_start s.(sg_start)); ("history", JArr (map json_of_event s.(sg_history)));
  ("endTick", json_Z s.(sg_endTick)); ("orbValues", json_of_pairs s.(sg_orbValues))].

Definition json_of_body (b : SaveBody) : json := JObj [
  ("version", json_Z 2); ("date", JStr b.(sv_date)); ("start", json_of_start b.(sv_start));
  ("history", JArr (map json_of_event b.(sv_history))); ("tick", json_Z b.(sv_tick));
  ("stats", json_of_stats b.(sv_stats));
  ("divergedAt", match b.(sv_divergedAt) with Some d => json_Z d | None => JNull end);
  ("segments", JArr (map json_of_segment b.(sv_segments))); ("orbValues", json_of_pairs b.(sv_orbValues))].

(** ** Well-formed values

    [*_safe]: every integer is one a double holds exactly; [*_wf]: what the
    checks should accept. *)

Definition start_safe (s : StartInput) : Prop :=
  safe_int s.(s_seed) /\ safe_int s.(s_score) /\ safe_int s.(s_elapsed)
  /\ safe_int s.(s_retries) /\ safe_int s.(s_shield).
Definition start_wf (s : StartInput) : Prop :=
  is_finite s.(s_distance) = true /\ 0 <= s.(s_retries) /\ 0 <= s.(s_shield).

Definition event_ints (e : HistoryEvent) : list Z :=
  match e with
  | InE (Input t _) | InE (OrchestratorStarted t) => [t]
  | InE (RetryAttempt t a f) => [t; a; f]
  | OutE (FanOut t h) => [t; h]
  | OutE (FanIn t h r) => t :: h :: r
  | OutE (ActivityCoinCollected t i h) | OutE (OrbTaken t i h) | OutE (CircuitBreakerTripped t i h)
  | OutE (BoostLost t i h) | OutE (ActivityCrateCollected t i h _) => [t; i; h]
  end.
Definition event_safe (e : HistoryEvent) : Prop := Forall safe_int (event_ints e).
Definition event_wf (e : HistoryEvent) : Prop :=
  0 <= ev_tick e
  /\ match e with OutE (ActivityCrateCollected _ _ _ r) => is_finite r = true | _ => True end.

Definition stats_safe (s : RunStats) : Prop :=
  Forall safe_int [s.(replays); s.(fromHistory); s.(executed); s.(incidents); s.(retriesUsed);
                   s.(circuitTrips); s.(boostsLost)].

Definition pairs_safe (l : list (Z * num)) : Prop := Forall (fun p => safe_int p.1) l.
Definition pairs_wf (l : list (Z * num)) : Prop := Forall (fun p => is_finite p.2 = true) l.

Definition segment_safe (s : MontageSegment) : Prop :=
  start_safe s.(sg_start) /\ Forall event_safe s.(sg_history) /\ safe_int s.(sg_endTick)
  /\ pairs_safe s.(sg_orbValues).
Definition segment_wf (s : MontageSegment) : Prop :=
  start_wf s.(sg_start) /\ Forall event_wf s.(sg_history) /\ pairs_wf s.(sg_orbValues).

(** Ordered by tick, the outcomes before [tick], the inputs at most on it. *)
Definition upto (tick : Z) (e : HistoryEvent) : Prop :=
  match e with InE _ => ev_tick e <= tick | OutE _ => ev_tick e < tick end.
Fixpoint ordered_wf (tick : Z) (prev : option Z) (h : list HistoryEvent) : Prop :=
  match h with
  | [] => True
  | e :: h =>
      match prev with Some p => p <= ev_tick e | None => True end
      /\ upto tick e /\ ordered_wf tick (Some (ev_tick e)) h
  end.

Definition body_safe (b : SaveBody) : Prop :=
  start_safe b.(sv_start) /\ Forall event_safe b.(sv_history) /\ safe_int b.(sv_tick)
  /\ stats_safe b.(sv_stats) /\ (forall d, b.(sv_divergedAt) = Some d -> safe_int d)
  /\ Forall segment_safe b.(sv_segments) /\ pairs_safe b.(sv_orbValues).
Definition body_wf (b : SaveBody) : Prop :=
  is_date b.(sv_date) = true /\ start_wf b.(sv_start) /\ 0 <= b.(sv_tick)
  /\ Forall event_wf b.(sv_history) /\ Forall segment_wf b.(sv_segments) /\ pairs_wf b.(sv_orbValues)
  /\ ordered_wf b.(sv_tick) None b.(sv_history).

(** ** The checks on written values *)

Lemma isNum_json_Z z : safe_int z -> isNum (Some (json_Z z)) = true.
Proof. intros H. exact (proj1 (of_Z_val z H)). Qed.

Lemma isNum_json n : isNum (Some (json_num n)) = is_finite n.
Proof. unfold json_num. destruct (is_finite n) eqn:F; simpl; [|done]. by destruct (is_neg_zero n). Qed.

Lemma safe_zero : safe_int 0.
Proof. split; lia. Qed.

Lemma nonneg_json_Z z : safe_int z -> num_and (Some (json_Z z)) nonneg = (0 <=? z).
Proof.
  intros H. unfold num_and, json_Z. cbv beta iota. rewrite (proj1 (of_Z_val z H)). simpl.
  unfold nonneg. change 0%float with (of_Z 0). apply of_Z_leb; [apply safe_zero|done].
Qed.

Lemma negative_json_Z z : safe_int z ->
  num_and (Some (json_Z z)) (fun n => (n <? 0)%float) = (z <? 0).
Proof.
  intros H. unfold num_and, json_Z. cbv beta iota. rewrite (proj1 (of_Z_val z H)). simpl.
  change 0%float with (of_Z 0). apply of_Z_ltb; [done|apply safe_zero].
Qed.

Lemma is_level_json l : is_level (Some (json_Z (level_num l))) = true.
Proof. destruct l; vm_compute; reflexivity. Qed.

#[global] Arguments json_Z : simpl never.
#[global] Arguments json_num : simpl never.
#[global] Arguments isNum : simpl never.
#[global] Arguments num_and : simpl never.
#[global] Arguments is_level : simpl never.

Lemma isStart_written s :
  start_safe s -> isStart (Some (json_of_start s)) = true <-> start_wf s.
Proof.
  intros (H1 & H2 & H3 & H4 & H5). unfold isStart, start_wf. simpl.
  rewrite is_level_json, !isNum_json_Z, isNum_json, !nonneg_json_Z by done. simpl.
  rewrite !andb_true_iff, !Z.leb_le. tauto.
Qed.

Lemma forallb_map {A B} (f : B -> bool) (g : A -> B) l : forallb f (map g l) = forallb (fun x => f (g x)) l.
Proof. induction l; simpl; by f_equal. Qed.

Lemma forallb_Forall {A} (f : A -> bool) (P Q : A -> Prop) l :
  (forall x, P x -> f x = true <-> Q x) -> Forall P l -> forallb f l = true <-> Forall Q l.
Proof.
  intros H. induction 1 as [|x l Hx Hl IH]; simpl; [by split|].
  rewrite andb_true_iff, IH, (H x Hx). rewrite Forall_cons. done.
Qed.

Lemma all_nums r : Forall safe_int r -> forallb (fun x => isNum (Some (json_Z x))) r = true.
Proof. intros H. apply forallb_forall. intros x Hx. apply isNum_json_Z. rewrite Forall_forall in H. apply H. by apply list_elem_of_In. Qed.

Lemma isEvent_written e : event_safe e -> isEvent (json_of_event e) = true <-> event_wf e.
Proof.
  unfold event_safe, event_wf, isEvent, has_hash, has_id. intros H.
  destruct e as [[t k|t|t a f]|[t i h|t i h r|t i h|t i h|t i h|t h|t h r]]; simpl in *;
    repeat match goal with X : Forall _ (_ :: _) |- _ => apply Forall_cons in X as [? X] end;
    rewrite ?isNum_json_Z, ?negative_json_Z by done; simpl;
    rewrite ?forallb_map, ?all_nums, ?isNum_json by done; simpl;
    destruct (Z.ltb_spec t 0); simpl; try (destruct k; simpl); intuition (try lia; congruence).
Qed.

Lemma isStats_written s : stats_safe s -> isStats (Some (json_of_stats s)) = true.
Proof.
  unfold stats_safe. intros H. unfold isStats. simpl.
  repeat match goal with X : Forall _ (_ :: _) |- _ => apply Forall_cons in X as [? X] end.
  by rewrite !isNum_json_Z by done.
Qed.

Lemma isPairs_written l : pairs_safe l -> isPairs (Some (json_of_pairs l)) = true <-> pairs_wf l.
Proof.
  intros H. unfold isPairs, json_of_pairs. simpl. rewrite forallb_map.
  apply (forallb_Forall _ (fun p => safe_int p.1)); [|done].
  intros [i v] Hi. simpl in *. rewrite isNum_json_Z, isNum_json by done. done.
Qed.

Lemma events_written h :
  Forall event_safe h -> forallb isEvent (map json_of_event h) = true <-> Forall event_wf h.
Proof. intros H. rewrite forallb_map. by apply (forallb_Forall _ event_safe); [apply isEvent_written|]. Qed.

#[global] Arguments isStart : simpl never.
#[global] Arguments isEvent : simpl never.
#[global] Arguments isPairs : simpl never.
#[global] Arguments isStats : simpl never.

Lemma isSegment_written s : segment_safe s -> isSegment (json_of_segment s) = true <-> segment_wf s.
Proof.
  intros (H1 & H2 & H3 & H4). unfold isSegment, segment_wf. cbn [json_of_segment].
  rewrite <- isStart_written, <- events_written, <- isPairs_written by done.
  simpl. rewrite isNum_json_Z by done. rewrite !andb_true_iff. tauto.
Qed.

Lemma json_is_input_written e : json_is_input (json_of_event e) = isInputEvent e.
Proof. by destruct e as [[]|[]]. Qed.
Lemma json_tick_written e : json_tick (json_of_event e) = of_Z (ev_tick e).
Proof. by destruct e as [[]|[]]. Qed.

Lemma event_tick_safe e : event_safe e -> safe_int (ev_tick e).
Proof. unfold event_safe. destruct e as [[]|[]]; simpl; intros H; by apply Forall_cons in H as [? _]. Qed.

Lemma ordered_written tick h : safe_int tick -> Forall event_safe h -> forall prev,
  match prev with Some p => safe_int p | None => True end ->
  ordered_from (of_Z tick) (of_Z <$> prev) (map json_of_event h) = true <-> ordered_wf tick prev h.
Proof.
  intros Ht. induction 1 as [|e h He Hh IH]; intros prev Hp; [done|].
  pose proof (event_tick_safe e He) as Hs. cbn [map ordered_from ordered_wf].
  rewrite json_is_input_written, json_tick_written, !andb_true_iff.
  change (Some (of_Z (ev_tick e))) with (of_Z <$> Some (ev_tick e)). rewrite IH by done.
  rewrite of_Z_leb, of_Z_ltb by done.
  assert (Eu : (if isInputEvent e then ev_tick e <=? tick else ev_tick e <? tick) = true <-> upto tick e).
  { destruct e; simpl; [apply Z.leb_le|apply Z.ltb_lt]. }
  rewrite Eu. destruct prev as [p|]; simpl; [rewrite of_Z_leb, Z.leb_le by done|]; tauto.
Qed.

Lemma segments_written l :
  Forall segment_safe l -> forallb isSegment (map json_of_segment l) = true <-> Forall segment_wf l.
Proof. intros H. rewrite forallb_map. by apply (forallb_Forall _ segment_safe); [apply isSegment_written|]. Qed.

Lemma negb_if (b c : bool) : (if negb b then false else c) = b && c.
Proof. by destruct b. Qed.

Lemma isSaveBody_written b :
  body_safe b -> isSaveBody (Some (json_of_body b)) = true <-> body_wf b.
Proof.
  intros (H1 & H2 & H3 & H4 & H5 & H6 & H7). unfold body_wf.
  rewrite <- (isStart_written _ H1), <- (events_written _ H2), <- (isPairs_written _ H7),
    <- (segments_written _ H6), <- (ordered_written _ _ H3 H2 None I).
  unfold isSaveBody. simpl.
  rewrite (isStats_written _ H4), negative_json_Z, isNum_json_Z by done. simpl.
  assert (Hd : match match b.(sv_divergedAt) with Some d => json_Z d | None => JNull end with
               | JNull => true
               | j => isNum (Some j)
               end = true).
  { destruct (sv_divergedAt b) as [d|]; [|done]. apply isNum_json_Z. by apply H5. }
  rewrite Hd. change (json_tick (json_of_body b)) with (of_Z b.(sv_tick)). simpl.
  rewrite orb_false_r, !negb_if. destruct (Z.ltb_spec b.(sv_tick) 0) as [Hl|Hl].
  - rewrite !andb_false_r. split; [done|lia].
  - destruct (isPairs _), (forallb isSegment _); simpl; rewrite !andb_true_iff; intuition done.
Qed.

