(* ===== verification/Tape.v ===== *)
(** * Tapes

    [runtime/tape.ts]: quantised random values, the sources a game reads, and
    which JSON values are tapes. *)

From S2P Require Import Prelude JsNum Types Json RuntimeTypes Binary64 RngFacts SpawnFacts Validate.
#[local] Open Scope string_scope.
#[local] Open Scope Z_scope.

(** ** Quantised values *)

Definition U32 : num := 4294967296%float.
Definition quantise (v : num) : num :=
  num_min (U32 - 1)%float (num_max 0 (num_floor (v * U32)))%float.
Definition toUnit (u : num) : num := (u / U32)%float.

Definition emptyTape (date : string) : Tape := {|
  tp_date := date; tp_inputs := []; tp_impure := []; tp_chaos := []; tp_restarts := []; tp_liveTick := 0 |}.

(** ** Sources *)

(** A [TapeRecorder] reads the outside world, a [TapePlayer] its own cursors;
    both work on the game's tape, which is threaded. *)
Inductive Source :=
  | Recorder
  | Player_ (i c : nat) (exhausted : bool).

Definition exhausted (s : Source) : bool :=
  match s with Recorder => false | Player_ _ _ e => e end.

Definition newPlayer_ : Source := Player_ 0 0 false.

Definition push_impure (u : num) (t : Tape) : Tape := {| t with tp_impure := t.(tp_impure) ++ [u] |}.
Definition push_chaos (u : num) (t : Tape) : Tape := {| t with tp_chaos := t.(tp_chaos) ++ [u] |}.

Section Sources.
Context {W : Type} (world_impure world_chaos : W -> num * W).

(** What a source reads from and writes to. *)
Record Outside := { o_source : Source; o_tape : Tape; o_world : W }.

Definition source_impure (o : Outside) : num * Outside :=
  match o.(o_source) with
  | Recorder =>
      let (v, w) := world_impure o.(o_world) in
      let u := quantise v in
      (toUnit u, {| o_source := Recorder; o_tape := push_impure u o.(o_tape); o_world := w |})
  | Player_ i c e =>
      match o.(o_tape).(tp_impure) !! i with
      | None => (0%float, {| o with o_source := Player_ i c true |})
      | Some u => (toUnit u, {| o with o_source := Player_ (S i) c e |})
      end
  end.

Definition source_chaos (o : Outside) : num * Outside :=
  match o.(o_source) with
  | Recorder =>
      let (v, w) := world_chaos o.(o_world) in
      let u := quantise v in
      (toUnit u, {| o_source := Recorder; o_tape := push_chaos u o.(o_tape); o_world := w |})
  | Player_ i c e =>
      match o.(o_tape).(tp_chaos) !! c with
      | None => (0%float, {| o with o_source := Player_ i c true |})
      | Some u => (toUnit u, {| o with o_source := Player_ i (S c) e |})
      end
  end.

(** [seek]: only a player has it. *)
Definition seek (impureAt chaosAt : nat) (s : Source) : Source :=
  match s with
  | Recorder => Recorder
  | Player_ _ _ e => Player_ impureAt chaosAt e
  end.
End Sources.

Arguments o_source {W}.
Arguments o_tape {W}.
Arguments o_world {W}.
#[global] Arguments quantise : simpl never.
#[global] Arguments toUnit : simpl never.

(** ** Which values are tapes *)

Definition isTick_num (n : num) : bool := isInteger n && (0 <=? n)%float.
Definition isU32_num (n : num) : bool := isInteger n && (0 <=? n)%float && (n <? U32)%float.
Definition isU32 (j : json) : bool := match j with JNum n => isU32_num n | _ => false end.
Definition isTick (v : option json) : bool := match v with Some (JNum n) => isTick_num n | _ => false end.

Definition PLAYER_INPUTS : list string := ["jump"; "jumpEnd"; "slideStart"; "slideEnd"].

(** [inputs.every(...)]; [prev] is the tick of the entry before. *)
Fixpoint inputs_ok (prev : option num) (inputs : list json) : bool :=
  match inputs with
  | [] => true
  | JArr [JNum t; command] :: inputs =>
      isTick_num t && existsb (is_str (Some command)) PLAYER_INPUTS
      && match prev with None => true | Some p => (p <=? t)%float end
      && inputs_ok (Some t) inputs
  | _ :: _ => false
  end.

Definition restart_ok (j : json) : bool :=
  isObj (Some j) && isTick (prop j "liveTick") && isTick (prop j "impureAt") && isTick (prop j "chaosAt")
  && isSaveBody (prop j "save").

Definition isTape (v : option json) : bool :=
  match v with
  | None => false
  | Some j =>
      if negb (isObj v) then false
      else if negb (is_n (prop j "v") 1) || negb (isDate (prop j "date")) || negb (isTick (prop j "liveTick"))
      then false
      else if negb (array_every (prop j "impure") isU32) || negb (array_every (prop j "chaos") isU32) then false
      else
        match prop j "inputs", prop j "restarts" with
        | Some (JArr inputs), Some (JArr restarts) => inputs_ok None inputs && forallb restart_ok restarts
        | _, _ => false
        end
  end.

(** ** The writer *)

Definition json_of_restart (r : Restart) : json := JObj [
  ("liveTick", json_Z r.(rs_liveTick)); ("impureAt", json_Z (Z.of_nat r.(rs_impureAt)));
  ("chaosAt", json_Z (Z.of_nat r.(rs_chaosAt))); ("save", json_of_body r.(rs_save))].

Definition json_of_tape (t : Tape) : json := JObj [
  ("v", json_Z 1); ("date", JStr t.(tp_date));
  ("inputs", JArr (map (fun p => JArr [json_Z p.1; JStr (input_name p.2)]) t.(tp_inputs)));
  ("impure", JArr (map json_num t.(tp_impure))); ("chaos", JArr (map json_num t.(tp_chaos)));
  ("restarts", JArr (map json_of_restart t.(tp_restarts))); ("liveTick", json_Z t.(tp_liveTick))].

(** ** Well-formed tapes *)

Definition u32 (n : num) : Prop := exists u, 0 <= u < W32 /\ n = of_Z u.

Definition restart_safe (r : Restart) : Prop :=
  safe_int r.(rs_liveTick) /\ safe_int (Z.of_nat r.(rs_impureAt)) /\ safe_int (Z.of_nat r.(rs_chaosAt))
  /\ body_safe r.(rs_save).
Definition restart_wf (r : Restart) : Prop := 0 <= r.(rs_liveTick) /\ body_wf r.(rs_save).

Fixpoint inputs_wf (prev : option Z) (l : list (Z * PlayerInput)) : Prop :=
  match l with
  | [] => True
  | (t, _) :: l =>
      0 <= t /\ match prev with Some p => p <= t | None => True end /\ inputs_wf (Some t) l
  end.

Definition tape_safe (t : Tape) : Prop :=
  Forall (fun p => safe_int p.1) t.(tp_inputs) /\ Forall u32 t.(tp_impure) /\ Forall u32 t.(tp_chaos)
  /\ Forall restart_safe t.(tp_restarts) /\ safe_int t.(tp_liveTick).
Definition tape_wf (t : Tape) : Prop :=
  is_date t.(tp_date) = true /\ 0 <= t.(tp_liveTick) /\ inputs_wf None t.(tp_inputs)
  /\ Forall restart_wf t.(tp_restarts).

Lemma isInteger_of_Z z : 0 <= z -> safe_int z -> isInteger (of_Z z) = true.
Proof.
  intros H0 Hz. destruct (of_Z_val z Hz) as [F V]. unfold isInteger. rewrite F. simpl.
  destruct (floor_integral (of_Z z) z F H0 V) as [->|[_ ->]]; rewrite eqb_val by done; apply Z.eqb_refl.
Qed.

Lemma isTick_written z : safe_int z -> isTick (Some (json_Z z)) = true <-> 0 <= z.
Proof.
  intros Hz. unfold isTick, json_Z, isTick_num. change 0%float with (of_Z 0).
  rewrite of_Z_leb by (done || apply safe_zero).
  destruct (Z.leb_spec 0 z) as [H|H]; rewrite ?andb_true_r, ?andb_false_r; [|split; [done|lia]].
  rewrite isInteger_of_Z by done. done.
Qed.

Lemma isU32_written n : u32 n -> isU32 (json_num n) = true.
Proof.
  intros (u & Hu & ->). assert (Hs : safe_int u) by (unfold W32, safe_int in *; lia).
  destruct (of_Z_val u Hs) as [F V].
  unfold json_num. rewrite F. destruct (is_neg_zero (of_Z u)) eqn:N; [vm_compute; reflexivity|].
  unfold isU32, isU32_num. rewrite isInteger_of_Z by (done || lia).
  unfold U32. rewrite two32_of_Z. change 0%float with (of_Z 0).
  rewrite of_Z_leb, of_Z_ltb by (done || apply safe_zero || (unfold safe_int, W32; lia)).
  destruct (Z.leb_spec 0 u), (Z.ltb_spec u W32); done || lia.
Qed.

Lemma inputs_written l : Forall (fun p => safe_int p.1) l -> forall prev,
  match prev with Some p => safe_int p | None => True end ->
  inputs_ok (of_Z <$> prev) (map (fun p => JArr [json_Z p.1; JStr (input_name p.2)]) l) = true
  <-> inputs_wf prev l.
Proof.
  induction 1 as [|[t k] l Ht Hl IH]; intros prev Hp; [done|]. simpl in Ht.
  cbn [map inputs_ok inputs_wf fst snd]. unfold json_Z at 1.
  assert (Hk : existsb (is_str (Some (JStr (input_name k)))) PLAYER_INPUTS = true) by (by destruct k).
  change (Some (of_Z t)) with (of_Z <$> Some t).
  rewrite Hk, !andb_true_iff, IH by done.
  change (isTick_num (of_Z t)) with (isTick (Some (json_Z t))). rewrite isTick_written by done.
  destruct prev as [p|]; simpl; [rewrite of_Z_leb, Z.leb_le by done|]; tauto.
Qed.

#[global] Arguments isSaveBody : simpl never.
#[global] Arguments isTick : simpl never.

Lemma restart_written r : restart_safe r -> restart_ok (json_of_restart r) = true <-> restart_wf r.
Proof.
  intros (H1 & H2 & H3 & H4). unfold restart_ok, restart_wf. cbn [json_of_restart].
  rewrite <- (isSaveBody_written _ H4), <- (isTick_written _ H1). simpl.
  rewrite !andb_true_iff, !isTick_written by done. intuition lia.
Qed.

Lemma isTape_written t : tape_safe t -> isTape (Some (json_of_tape t)) = true <-> tape_wf t.
Proof.
  intros (H1 & H2 & H3 & H4 & H5). unfold tape_wf.
  rewrite <- (isTick_written _ H5), <- (inputs_written _ H1 None I).
  rewrite <- (forallb_Forall (fun r => restart_ok (json_of_restart r)) restart_safe restart_wf _ restart_written H4).
  rewrite <- forallb_map.
  assert (E : forall l, Forall u32 l -> forallb isU32 (map json_num l) = true).
  { intros l Hl. rewrite forallb_map. apply forallb_forall. intros x Hx. apply isU32_written.
    rewrite Forall_forall in Hl. apply Hl. by apply list_elem_of_In. }
  unfold isTape. simpl. rewrite !E by done. change (is_n _ 1) with true. simpl.
  destruct (isTick _); simpl; rewrite ?orb_true_r, ?orb_false_r, ?negb_if; rewrite ?andb_true_iff; [tauto|].
  intuition done.
Qed.

(** ** Quantised values *)

(** The floor of a nonnegative double, and the zeros it keeps. *)
Lemma num_floor_val x :
  is_finite x = true -> 0 <= val x ->
  num_floor x = of_Z (val x / pw 0) \/ (val x = 0 /\ num_floor x = x).
Proof.
  intros Hf Hv. pose proof (floor_Z_val x Hf Hv) as E. unfold floor_Z in E. unfold num_floor.
  destruct (nonneg_cases x Hf Hv) as [(V & s & Es)|(m & e & Em & V & _)].
  - right. rewrite Es. by split.
  - left. rewrite Em in *. by injection E as ->.
Qed.

Lemma clamp_below (z hi : Z) :
  0 <= z <= hi -> safe_int hi ->
  num_min (of_Z hi) (num_max 0 (of_Z z))%float = of_Z z.
Proof.
  intros Hz Hs. assert (Sz : safe_int z) by (unfold safe_int in *; lia).
  destruct (of_Z_val z Sz) as [Fz Vz]. destruct (of_Z_val hi Hs) as [Fh Vh].
  assert (Emax : num_max 0 (of_Z z) = of_Z z).
  { unfold num_max. change (0 =? 0)%float with true. rewrite (eqb_val (of_Z z)), Z.eqb_refl by done. simpl.
    change 0%float with (of_Z 0). rewrite !of_Z_ltb by (done || apply safe_zero).
    destruct (Z.ltb_spec 0 z); [done|]. destruct (Z.ltb_spec z 0); [lia|].
    replace z with 0 by lia. by destruct (is_neg_zero (of_Z 0)). }
  rewrite Emax. unfold num_min.
  rewrite (eqb_val (of_Z hi)), (eqb_val (of_Z z)), !Z.eqb_refl by done. simpl.
  rewrite !of_Z_ltb by done.
  destruct (Z.ltb_spec hi z); [lia|]. destruct (Z.ltb_spec z hi); [done|].
  replace hi with z by lia. by destruct (is_neg_zero (of_Z z)).
Qed.

Lemma U32_pred : (U32 - 1)%float = of_Z (W32 - 1).
Proof. vm_compute. reflexivity. Qed.

Lemma safe_W32 : safe_int (W32 - 1).
Proof. unfold safe_int, W32. lia. Qed.

(** Quantising what a quantised value stands for gives it back. *)
Lemma quantise_back u : 0 <= u < W32 -> quantise (toUnit (of_Z u)) = of_Z u.
Proof.
  intros Hu. unfold quantise. change (toUnit (of_Z u)) with (unit_of u).
  change U32 with 4294967296%float at 2. rewrite unit_of_back, U32_pred by done.
  apply clamp_below; [lia|apply safe_W32].
Qed.

Lemma clamp_above (z hi : Z) :
  hi < z -> 0 <= hi -> safe_int z -> num_min (of_Z hi) (num_max 0 (of_Z z))%float = of_Z hi.
Proof.
  intros Hz H0 Hs. assert (Sh : safe_int hi) by (unfold safe_int in *; lia).
  destruct (of_Z_val z Hs) as [Fz Vz]. destruct (of_Z_val hi Sh) as [Fh Vh].
  assert (Emax : num_max 0 (of_Z z) = of_Z z).
  { unfold num_max. change (0 =? 0)%float with true. rewrite (eqb_val (of_Z z)), Z.eqb_refl by done. simpl.
    change 0%float with (of_Z 0). rewrite !of_Z_ltb by (done || apply safe_zero).
    by rewrite (proj2 (Z.ltb_lt 0 z)) by lia. }
  rewrite Emax. unfold num_min.
  rewrite (eqb_val (of_Z hi)), (eqb_val (of_Z z)), !Z.eqb_refl by done. simpl.
  rewrite !of_Z_ltb by done. by rewrite (proj2 (Z.ltb_lt hi z)) by lia.
Qed.

(** A number the world draws from [0, 1] is recorded as a uint32. *)
Lemma quantise_u32 v : is_finite v = true -> 0 <= val v <= pw 0 -> u32 (quantise v).
Proof.
  intros Fv Vv. destruct two32_val as [Ft Vt]. unfold quantise. rewrite U32_pred.
  pose proof pw0_pos as P0.
  assert (H : between_Z 0 W32 (v * U32)%float).
  { apply (mul_between 0 1 W32 W32); [lia|done|unfold W32; lia|split; [done|lia]|split; [done|]].
    unfold U32. rewrite Vt. lia. }
  destruct H as [Fx Vx].
  assert (Hq : 0 <= val (v * U32)%float / pw 0 <= W32).
  { split; [apply Z.div_pos; lia|apply Z.div_le_upper_bound; lia]. }
  destruct (num_floor_val _ Fx ltac:(lia)) as [->|[V0 ->]].
  - set (z := val _ / _) in *. destruct (Z.le_gt_cases z (W32 - 1)) as [Hz|Hz].
    + rewrite clamp_below by (lia || apply safe_W32). exists z. split; [lia|done].
    + rewrite clamp_above by (lia || (unfold safe_int, W32 in *; lia)). exists (W32 - 1).
      split; [unfold W32; lia|done].
  - exists 0. split; [unfold W32; lia|].
    assert (Emax : num_max 0 (v * U32)%float = 0%float).
    { unfold num_max. change (0 =? 0)%float with true. rewrite (eqb_val (v * U32)%float), Z.eqb_refl by done. simpl.
      change 0%float with (of_Z 0). destruct (of_Z_val 0 safe_zero) as [Fz Vz].
      rewrite !ltb_val, V0, Vz by done. simpl. done. }
    rewrite Emax. vm_compute. reflexivity.
Qed.
