(* ===== verification/Persistence.v ===== *)
(** * Saved games

    [runtime/persistence.ts]: which documents are saves, and the store over a
    browser storage that may fail at every access.  [SaveStore] is the
    interface the game is written against, with the laws a working store keeps. *)

From S2P Require Import Prelude JsNum Types Replayer Json RuntimeTypes Binary64 RngFacts Validate Tape.
#[local] Open Scope string_scope.
#[local] Open Scope Z_scope.

(** ** Documents *)

Definition SAVE_KEY : string := "devdash.replay.save".
Definition BEST_KEY : string := "devdash.replay.best".
Definition DAILY_KEY : string := "devdash.replay.daily".

Definition isSave (v : option json) : bool :=
  isSaveBody v && match v with Some j => isTape (prop j "tape") | None => false end.

Definition json_of_save (s : Save) : json :=
  match json_of_body s.(sv_body) with
  | JObj fields => JObj (fields ++ [("tape", json_of_tape s.(sv_tape))])
  | j => j
  end.

(** ** Reading a document that passed the checks

    A type assertion of the source ([v is Save]): the fields, read at their types. *)

Definition get_num (v : option json) : num := match v with Some (JNum n) => n | _ => 0%float end.
Definition get_Z (v : option json) : Z := default 0 (trunc_Z (get_num v)).
Definition get_str (v : option json) : string := match v with Some (JStr s) => s | _ => "" end.
Definition get_bool (v : option json) : bool := match v with Some (JBool b) => b | _ => false end.
Definition get_list (v : option json) : list json := match v with Some (JArr l) => l | _ => [] end.

Definition level_of (z : Z) : Level :=
  match z with 1 => L1 | 2 => L2 | 3 => L3 | 4 => L4 | 5 => L5 | _ => L0 end.

Definition input_of (s : string) : PlayerInput :=
  if String.eqb s "jump" then Jump else if String.eqb s "jumpEnd" then JumpEnd
  else if String.eqb s "slideStart" then SlideStart else SlideEnd.

Definition start_of_json (j : json) : StartInput := {|
  s_level := level_of (get_Z (prop j "level")); s_seed := get_Z (prop j "seed");
  s_score := get_Z (prop j "score"); s_elapsed := get_Z (prop j "elapsed");
  s_distance := get_num (prop j "distance"); s_boss := get_bool (prop j "boss");
  s_retries := get_Z (prop j "retries"); s_shield := get_Z (prop j "shield") |}.

Definition event_of_json (j : json) : HistoryEvent :=
  let type := get_str (prop j "type") in
  let t := get_Z (prop j "tick") in
  let id := get_Z (prop j "id") in
  let hash := get_Z (prop j "hash") in
  if String.eqb type "Input" then InE (Input t (input_of (get_str (prop j "kind"))))
  else if String.eqb type "OrchestratorStarted" then InE (OrchestratorStarted t)
  else if String.eqb type "RetryAttempt" then
    InE (RetryAttempt t (get_Z (prop j "attempt")) (get_Z (prop j "failedAt")))
  else if String.eqb type "CircuitBreakerTripped" then OutE (CircuitBreakerTripped t id hash)
  else if String.eqb type "BoostLost" then OutE (BoostLost t id hash)
  else if String.eqb type "FanOut" then OutE (FanOut t hash)
  else if String.eqb type "FanIn" then
    OutE (FanIn t hash (map (fun r => get_Z (Some r)) (get_list (prop j "results"))))
  else if String.eqb type "OrbTaken" then OutE (OrbTaken t id hash)
  else if String.eqb type "ActivityCoinCollected" then OutE (ActivityCoinCollected t id hash)
  else OutE (ActivityCrateCollected t id hash (get_num (prop j "result"))).

Definition stats_of_json (j : json) : RunStats := {|
  replays := get_Z (prop j "replays"); fromHistory := get_Z (prop j "fromHistory");
  executed := get_Z (prop j "executed"); incidents := get_Z (prop j "incidents");
  retriesUsed := get_Z (prop j "retriesUsed"); circuitTrips := get_Z (prop j "circuitTrips");
  boostsLost := get_Z (prop j "boostsLost") |}.

Definition pairs_of_json (v : option json) : list (Z * num) :=
  map (fun p => match p with JArr [a; b] => (get_Z (Some a), get_num (Some b)) | _ => (0, 0%float) end)
    (get_list v).

Definition or_null (v : option json) : json := default JNull v.

Definition segment_of_json (j : json) : MontageSegment := {|
  sg_start := start_of_json (or_null (prop j "start"));
  sg_history := map event_of_json (get_list (prop j "history"));
  sg_endTick := get_Z (prop j "endTick"); sg_orbValues := pairs_of_json (prop j "orbValues") |}.

Definition body_of_json (j : json) : SaveBody := {|
  sv_date := get_str (prop j "date"); sv_start := start_of_json (or_null (prop j "start"));
  sv_history := map event_of_json (get_list (prop j "history")); sv_tick := get_Z (prop j "tick");
  sv_stats := stats_of_json (or_null (prop j "stats"));
  sv_divergedAt := match prop j "divergedAt" with Some (JNum n) => trunc_Z n | _ => None end;
  sv_segments := map segment_of_json (get_list (prop j "segments"));
  sv_orbValues := pairs_of_json (prop j "orbValues") |}.

Definition restart_of_json (j : json) : Restart := {|
  rs_liveTick := get_Z (prop j "liveTick"); rs_impureAt := Z.to_nat (get_Z (prop j "impureAt"));
  rs_chaosAt := Z.to_nat (get_Z (prop j "chaosAt")); rs_save := body_of_json (or_null (prop j "save")) |}.

Definition tape_of_json (j : json) : Tape := {|
  tp_date := get_str (prop j "date");
  tp_inputs := map (fun p => match p with
                             | JArr [a; b] => (get_Z (Some a), input_of (get_str (Some b)))
                             | _ => (0, Jump)
                             end) (get_list (prop j "inputs"));
  tp_impure := map (fun u => get_num (Some u)) (get_list (prop j "impure"));
  tp_chaos := map (fun u => get_num (Some u)) (get_list (prop j "chaos"));
  tp_restarts := map restart_of_json (get_list (prop j "restarts"));
  tp_liveTick := get_Z (prop j "liveTick") |}.

Definition save_of_json (j : json) : Save := {|
  sv_body := body_of_json j; sv_tape := tape_of_json (or_null (prop j "tape")) |}.

(** ** The interface *)

(** What a game asks of its store ([SaveStore]). *)
Class SaveStore (S : Type) := {
  st_load : S -> option Save;
  st_save : Save -> S -> S;
  st_clear : S -> S;
  st_loadBest : S -> Z;
  st_saveBest : Z -> S -> S;
  st_loadDailyBest : string -> S -> Z;
  st_saveDailyBest : string -> Z -> S -> S
}.

(** The laws of a store that works: what was saved is loaded, the three slots
    are independent. [ok] are the saves, and the scores, it can hold. *)
Class LawfulStore (S : Type) `{SaveStore S} (ok : Save -> Prop) (score_ok : Z -> Prop) := {
  load_save : forall v s, ok v -> st_load (st_save v s) = Some v;
  load_clear : forall s, st_load (st_clear s) = None;
  best_saved : forall n s, score_ok n -> st_loadBest (st_saveBest n s) = n;
  daily_saved : forall d n s, score_ok n -> st_loadDailyBest d (st_saveDailyBest d n s) = n;
  best_save : forall v s, st_loadBest (st_save v s) = st_loadBest s;
  best_clear : forall s, st_loadBest (st_clear s) = st_loadBest s;
  load_saveBest : forall n s, st_load (st_saveBest n s) = st_load s
}.

(** ** The local store *)

(** A browser storage: every access may throw ([None]). *)
Class Storage (St : Type) := {
  getItem : string -> St -> option (option string);
  setItem : string -> string -> St -> option St;
  removeItem : string -> St -> option St
}.

(** Texts of values: [JSON.stringify], [JSON.parse], [String] and [Number]. *)
Class JsText := {
  stringify : json -> string;
  parse : string -> option json;
  string_of_score : Z -> string;
  number_of : string -> num
}.

Section LocalStore.
Context `{Storage St} `{JsText}.

Definition parseSave (raw : option string) : option Save :=
  match raw with
  | None | Some EmptyString => None
  | Some text =>
      match parse text with
      | Some data => if isSave (Some data) then Some (save_of_json data) else None
      | None => None
      end
  end.

(** [attempt] of a read and of a write. *)
Definition attempt_read {A} (key : string) (f : option string -> A) (fallback : A) (s : St) : A :=
  match getItem key s with Some raw => f raw | None => fallback end.
Definition attempt_write (w : option St) (s : St) : St := default s w.

Definition read_best (raw : option string) : Z :=
  let n := match raw with Some t => number_of t | None => 0%float end in
  if is_finite n && (0 <? n)%float then default 0 (floor_Z n) else 0.

(** [None] when [JSON.parse] throws, which [attempt] turns into the fallback too. *)
Definition read_daily (date : string) (raw : option string) : Z :=
  match match raw with Some t => parse t | None => Some JNull end with
  | None => 0
  | Some data =>
      if isObj (Some data) && is_str (prop data "date") date
         && num_and (prop data "best") (fun n => (0 <? n)%float)
      then default 0 (floor_Z (get_num (prop data "best"))) else 0
  end.

Definition daily_doc (date : string) (score : Z) : json :=
  JObj [("date", JStr date); ("best", json_Z score)].

#[export] Instance localSaveStore : SaveStore St := {
  st_load := fun s => attempt_read SAVE_KEY parseSave None s;
  st_save := fun v s => attempt_write (setItem SAVE_KEY (stringify (json_of_save v)) s) s;
  st_clear := fun s => attempt_write (removeItem SAVE_KEY s) s;
  st_loadBest := fun s => attempt_read BEST_KEY read_best 0 s;
  st_saveBest := fun n s => attempt_write (setItem BEST_KEY (string_of_score n) s) s;
  st_loadDailyBest := fun d s => attempt_read DAILY_KEY (read_daily d) 0 s;
  st_saveDailyBest := fun d n s => attempt_write (setItem DAILY_KEY (stringify (daily_doc d n)) s) s }.
End LocalStore.

(** ** Two storages *)

(** A storage that works: a map. *)
#[export] Instance map_storage : Storage (gmap string string) := {
  getItem := fun k s => Some (s !! k);
  setItem := fun k v s => Some (<[k := v]> s);
  removeItem := fun k s => Some (delete k s) }.

(** A storage the browser refuses: every access throws. *)
Inductive Refused := refused.
#[export] Instance refused_storage : Storage Refused := {
  getItem := fun _ _ => None; setItem := fun _ _ _ => None; removeItem := fun _ _ => None }.

(** ** Reading back what was written *)

Lemma trunc_integral x z : is_finite x = true -> val x = z * pw 0 -> trunc_Z x = Some z.
Proof.
  unfold is_finite, val, trunc_Z. pose proof (Prim2SF_bounded x) as B. pose proof (pw_pos 0 ltac:(lia)) as P0.
  destruct (Prim2SF x) as [s|s| |s m e]; try done; intros _ V; [simpl in V; f_equal; nia|].
  destruct (bounded_elim m e (B _ _ _ eq_refl)) as (He & _ & _).
  assert (Pe : 0 < pw e) by (apply pw_pos; lia). f_equal. unfold sf_trunc. cbv zeta. cbn [sval] in V. cbv zeta in V.
  assert (E : exists w, Z.shiftl (Zpos m) e = w /\ Zpos m * pw e = w * pw 0).
  { destruct (Z.le_gt_cases 0 e) as [H0|H0].
    - exists (Zpos m * 2 ^ e). rewrite Z.shiftl_mul_pow2 by done. split; [done|].
      rewrite <- (Z.add_0_l e) at 1. rewrite pw_add by lia. lia.
    - exists (Zpos m / 2 ^ (- e)). rewrite Z.shiftl_div_pow2 by lia. split; [done|].
      assert (E0 : pw 0 = pw e * 2 ^ (- e)) by (rewrite <- pw_add by lia; f_equal; lia).
      assert (Hp : 0 < 2 ^ (- e)) by (apply Z.pow_pos_nonneg; lia).
      assert (Hm : exists w, Zpos m = w * 2 ^ (- e)).
      { rewrite E0 in V. destruct s; [exists (- z)|exists z]; nia. }
      destruct Hm as [w Hm]. rewrite Hm, Z.div_mul by lia. rewrite E0. lia. }
  destruct E as (w & -> & Ew). destruct s; nia.
Qed.

Lemma trunc_safe z : safe_int z -> trunc_Z (of_Z z) = Some z.
Proof. intros [F V]%of_Z_val. by apply trunc_integral. Qed.

Lemma get_Z_written z : safe_int z -> get_Z (Some (json_Z z)) = z.
Proof. intros Hz. unfold get_Z, get_num, json_Z. by rewrite trunc_safe. Qed.

(** A double [JSON] keeps: finite, and not minus zero. *)
Definition plain (n : num) : Prop := is_finite n = true /\ is_neg_zero n = false.
Lemma get_num_written n : plain n -> get_num (Some (json_num n)) = n.
Proof. intros [F N]. unfold get_num, json_num. by rewrite F, N. Qed.

#[global] Arguments get_Z : simpl never.
#[global] Arguments get_num : simpl never.

Definition start_plain (s : StartInput) : Prop := plain s.(s_distance).
Definition event_plain (e : HistoryEvent) : Prop :=
  match e with OutE (ActivityCrateCollected _ _ _ r) => plain r | _ => True end.
Definition pairs_plain (l : list (Z * num)) : Prop := Forall (fun p => plain p.2) l.
Definition segment_plain (s : MontageSegment) : Prop :=
  start_plain s.(sg_start) /\ Forall event_plain s.(sg_history) /\ pairs_plain s.(sg_orbValues).
Definition body_plain (b : SaveBody) : Prop :=
  start_plain b.(sv_start) /\ Forall event_plain b.(sv_history) /\ Forall segment_plain b.(sv_segments)
  /\ pairs_plain b.(sv_orbValues).

Lemma level_roundtrip l : level_of (level_num l) = l.
Proof. by destruct l. Qed.
Lemma level_safe l : safe_int (level_num l).
Proof. destruct l; split; simpl; lia. Qed.

Lemma start_roundtrip s : start_safe s -> start_plain s -> start_of_json (json_of_start s) = s.
Proof.
  intros (H1 & H2 & H3 & H4 & H5) Hp. destruct s. unfold start_of_json. simpl in *.
  rewrite !get_Z_written, get_num_written, level_roundtrip by (done || apply level_safe). done.
Qed.

Lemma map_id_on {A B} (f : A -> B) (g : B -> A) (P : A -> Prop) l :
  (forall x, P x -> g (f x) = x) -> Forall P l -> map g (map f l) = l.
Proof. intros H. induction 1; simpl; [done|]. rewrite H by done. by f_equal. Qed.

Lemma event_roundtrip e : event_safe e -> event_plain e -> event_of_json (json_of_event e) = e.
Proof.
  unfold event_safe, event_of_json. intros H Hp.
  destruct e as [[t k|t|t a f]|[t i h|t i h r|t i h|t i h|t i h|t h|t h r]]; simpl in *;
    repeat match goal with X : Forall _ (_ :: _) |- _ => apply Forall_cons in X as [? X] end;
    rewrite ?get_Z_written, ?get_num_written by done; try done.
  - by destruct k.
  - do 2 f_equal. by apply (map_id_on json_Z (fun r => get_Z (Some r)) safe_int r get_Z_written).
Qed.

Lemma stats_roundtrip s : stats_safe s -> stats_of_json (json_of_stats s) = s.
Proof.
  unfold stats_safe. intros H. destruct s. unfold stats_of_json. simpl in *.
  repeat match goal with X : Forall _ (_ :: _) |- _ => apply Forall_cons in X as [? X] end.
  by rewrite !get_Z_written by done.
Qed.

Lemma pairs_roundtrip l : pairs_safe l -> pairs_plain l -> pairs_of_json (Some (json_of_pairs l)) = l.
Proof.
  intros Hs Hp. unfold pairs_of_json. simpl.
  apply (map_id_on (fun p => JArr [json_Z p.1; json_num p.2]) _ (fun p => safe_int p.1 /\ plain p.2)).
  - intros [i v] [? ?]. simpl in *. by rewrite get_Z_written, get_num_written.
  - apply Forall_and. by split.
Qed.

Lemma events_roundtrip h : Forall event_safe h -> Forall event_plain h ->
  map event_of_json (map json_of_event h) = h.
Proof.
  intros Hs Hp. apply (map_id_on _ _ (fun e => event_safe e /\ event_plain e)).
  - intros e [? ?]. by apply event_roundtrip.
  - apply Forall_and. by split.
Qed.

#[global] Arguments json_of_start : simpl never.
#[global] Arguments json_of_stats : simpl never.
#[global] Arguments json_of_pairs : simpl never.
#[global] Arguments json_of_event : simpl never.
#[global] Arguments event_of_json : simpl never.
#[global] Arguments pairs_of_json : simpl never.

Lemma segment_roundtrip s : segment_safe s -> segment_plain s -> segment_of_json (json_of_segment s) = s.
Proof.
  intros (H1 & H2 & H3 & H4) (P1 & P2 & P3). destruct s. unfold segment_of_json. simpl in *.
  by rewrite start_roundtrip, events_roundtrip, get_Z_written, pairs_roundtrip.
Qed.

Lemma body_roundtrip b extra : body_safe b -> body_plain b ->
  body_of_json (match json_of_body b with JObj f => JObj (f ++ extra) | j => j end) = b.
Proof.
  intros (H1 & H2 & H3 & H4 & H5 & H6 & H7) (P1 & P2 & P3 & P4). destruct b. unfold body_of_json. simpl in *.
  rewrite start_roundtrip, events_roundtrip, get_Z_written, stats_roundtrip, pairs_roundtrip by done.
  rewrite (map_id_on json_of_segment segment_of_json (fun s => segment_safe s /\ segment_plain s)).
  - f_equal. destruct sv_divergedAt as [d|]; [|done]. simpl. apply trunc_safe. by apply H5.
  - intros s [? ?]. by apply segment_roundtrip.
  - apply Forall_and. by split.
Qed.

Definition tape_plain (t : Tape) : Prop :=
  Forall plain t.(tp_impure) /\ Forall plain t.(tp_chaos) /\ Forall (fun r => body_plain r.(rs_save)) t.(tp_restarts).
Definition save_safe (s : Save) : Prop := body_safe s.(sv_body) /\ tape_safe s.(sv_tape).
Definition save_plain (s : Save) : Prop := body_plain s.(sv_body) /\ tape_plain s.(sv_tape).
Definition save_wf (s : Save) : Prop := body_wf s.(sv_body) /\ tape_wf s.(sv_tape).

#[global] Arguments body_of_json : simpl never.
#[global] Arguments json_of_body : simpl never.

Lemma body_roundtrip_exact b : body_safe b -> body_plain b -> body_of_json (json_of_body b) = b.
Proof.
  intros Hs Hp. rewrite <- (body_roundtrip b [] Hs Hp) at 2. unfold json_of_body. by rewrite app_nil_r.
Qed.

Lemma restart_roundtrip r : restart_safe r -> body_plain r.(rs_save) -> restart_of_json (json_of_restart r) = r.
Proof.
  intros (H1 & H2 & H3 & H4) Hp. destruct r. unfold restart_of_json. simpl in *.
  by rewrite !get_Z_written, !Nat2Z.id, body_roundtrip_exact.
Qed.

Lemma tape_roundtrip t : tape_safe t -> tape_plain t -> tape_of_json (json_of_tape t) = t.
Proof.
  intros (H1 & H2 & H3 & H4 & H5) (P1 & P2 & P3). destruct t. unfold tape_of_json. simpl in *.
  rewrite get_Z_written by done.
  rewrite (map_id_on json_num (fun u => get_num (Some u)) plain tp_impure get_num_written P1).
  rewrite (map_id_on json_num (fun u => get_num (Some u)) plain tp_chaos get_num_written P2).
  rewrite (map_id_on json_of_restart restart_of_json (fun r => restart_safe r /\ body_plain r.(rs_save)));
    [|by intros r [? ?]; apply restart_roundtrip|by apply Forall_and].
  f_equal. apply (map_id_on _ _ (fun p => safe_int p.1)); [|done].
  intros [i k] ?. simpl in *. rewrite get_Z_written by done. by destruct k.
Qed.

#[global] Arguments tape_of_json : simpl never.
#[global] Arguments json_of_tape : simpl never.
#[global] Arguments isTape : simpl never.

(** The fields of a body are the first fields of its save. *)
Lemma prop_app fields k v : prop (JObj fields) k = Some v -> forall extra, prop (JObj (fields ++ extra)) k = Some v.
Proof.
  simpl. intros H extra. induction fields as [|[k' v'] l IH]; simpl in *; [done|].
  destruct (String.eqb k' k); [done|]. by apply IH.
Qed.

Lemma isSaveBody_extra b extra :
  isSaveBody (Some (match json_of_body b with JObj f => JObj (f ++ extra) | j => j end))
  = isSaveBody (Some (json_of_body b)).
Proof. reflexivity. Qed.

Lemma isSave_written s : save_safe s -> isSave (Some (json_of_save s)) = true <-> save_wf s.
Proof.
  intros [Hb Ht]. unfold isSave, save_wf. rewrite <- (isSaveBody_written _ Hb), <- (isTape_written _ Ht).
  unfold json_of_save. rewrite isSaveBody_extra, andb_true_iff. done.
Qed.

Lemma save_roundtrip s : save_safe s -> save_plain s -> save_of_json (json_of_save s) = s.
Proof.
  intros [Hb Ht] [Pb Pt]. unfold save_of_json, json_of_save. rewrite body_roundtrip by done.
  replace (or_null (prop _ "tape")) with (json_of_tape s.(sv_tape)) by done.
  rewrite tape_roundtrip by done. by destruct s.
Qed.

(** ** The laws hold over a working storage *)

(** A save this store keeps. *)
Definition storable (s : Save) : Prop := save_safe s /\ save_plain s /\ save_wf s.
Definition score_storable (n : Z) : Prop := 0 <= n /\ safe_int n.

(** The documented behaviour of the language's own texts, for the saves [ok]
    and the scores a game stores. *)
Class TextLaws `{JsText} (ok : Save -> Prop) (score : Z -> Prop) := {
  parse_save : forall s, ok s -> parse (stringify (json_of_save s)) = Some (json_of_save s);
  text_nonempty : forall s, ok s -> stringify (json_of_save s) <> "";
  parse_daily : forall d n, score n -> parse (stringify (daily_doc d n)) = Some (daily_doc d n);
  number_of_score : forall n, score n -> number_of (string_of_score n) = of_Z n
}.

Lemma floor_of_Z n : 0 <= n -> safe_int n -> floor_Z (of_Z n) = Some n.
Proof.
  intros H0 Hs. destruct (of_Z_val n Hs) as [F V]. pose proof (pw_pos 0 ltac:(lia)).
  rewrite SpawnFacts.floor_Z_val by (done || nia). rewrite V. by rewrite Z.div_mul by lia.
Qed.

Lemma positive_of_Z n : safe_int n -> (0 <? of_Z n)%float = (0 <? n).
Proof. intros Hs. change 0%float with (of_Z 0). apply of_Z_ltb; [apply safe_zero|done]. Qed.

Lemma read_best_written `{JsText} n t :
  score_storable n -> number_of t = of_Z n -> read_best (Some t) = n.
Proof.
  intros [H0 Hs] E. unfold read_best. rewrite E, (proj1 (of_Z_val n Hs)), positive_of_Z, floor_of_Z by done.
  simpl. destruct (Z.ltb_spec 0 n); [done|lia].
Qed.

Lemma read_daily_written `{JsText} d n t :
  score_storable n -> parse t = Some (daily_doc d n) -> read_daily d (Some t) = n.
Proof.
  intros [H0 Hs] E. unfold read_daily. rewrite E. simpl. rewrite String.eqb_refl. simpl.
  unfold num_and, json_Z. rewrite (proj1 (of_Z_val n Hs)). cbv beta iota. simpl.
  rewrite positive_of_Z by done. unfold get_num. rewrite floor_of_Z by done. simpl.
  destruct (Z.ltb_spec 0 n); [done|lia].
Qed.

#[export] Instance localSaveStore_lawful `{T : JsText} (ok : Save -> Prop) (score : Z -> Prop)
  `{!TextLaws ok score} (ok_storable : forall s, ok s -> storable s)
  (score_ok : forall n, score n -> score_storable n) :
  LawfulStore (gmap string string) ok score.
Proof.
  split; intros; cbn [st_load st_save st_clear st_loadBest st_saveBest st_loadDailyBest st_saveDailyBest localSaveStore];
    unfold attempt_read, attempt_write; cbn [getItem setItem removeItem map_storage from_option default]; unfold id;
    rewrite ?lookup_insert_eq, ?lookup_delete_eq; rewrite ?lookup_insert_ne, ?lookup_delete_ne by done; try done.
  - destruct (ok_storable v) as (Hs & Hp & Hw); [done|]. unfold parseSave.
    pose proof (text_nonempty v ltac:(done)) as Hne. destruct (stringify (json_of_save v)) eqn:E; [done|].
    cbv beta iota. rewrite <- E, parse_save by done. cbv beta iota.
    rewrite (proj2 (isSave_written v Hs)) by done. by rewrite save_roundtrip.
  - by apply read_best_written; [apply score_ok|apply number_of_score].
  - by apply read_daily_written; [apply score_ok|apply parse_daily].
Qed.
