(* ===== verification/JsMap.v ===== *)
(** * JavaScript maps

    [Map] keeps its entries in insertion order: setting an old key changes its
    value in place, a new key goes to the end. *)

From S2P Require Import Prelude.

Section JsMap.
Context {K V : Type} `{EqDecision K}.

Definition JsMap : Type := list (K * V).

Fixpoint map_get (k : K) (m : JsMap) : option V :=
  match m with
  | [] => None
  | (k', v) :: m => if decide (k = k') then Some v else map_get k m
  end.

Definition map_has (k : K) (m : JsMap) : bool := bool_decide (is_Some (map_get k m)).

Fixpoint map_set (k : K) (v : V) (m : JsMap) : JsMap :=
  match m with
  | [] => [(k, v)]
  | (k', v') :: m => if decide (k = k') then (k', v) :: m else (k', v') :: map_set k v m
  end.

Fixpoint map_delete (k : K) (m : JsMap) : JsMap :=
  match m with
  | [] => []
  | (k', v) :: m => if decide (k = k') then m else (k', v) :: map_delete k m
  end.

(** [new Map(entries)]. *)
Definition map_of (entries : list (K * V)) : JsMap :=
  fold_left (fun m kv => map_set kv.1 kv.2 m) entries [].

Definition keys (m : JsMap) : list K := m.*1.
Definition values (m : JsMap) : list V := m.*2.

Lemma map_get_set_eq k v m : map_get k (map_set k v m) = Some v.
Proof.
  induction m as [|[k' v'] m IH]; simpl; [by rewrite decide_True|].
  destruct (decide (k = k')); simpl; [by rewrite decide_True|by rewrite decide_False].
Qed.

Lemma map_get_set_ne k k' v m : k <> k' -> map_get k (map_set k' v m) = map_get k m.
Proof.
  intros Hne. induction m as [|[k'' v'] m IH]; simpl; [by rewrite decide_False|].
  destruct (decide (k' = k'')) as [->|]; simpl; [by rewrite !decide_False|].
  destruct (decide (k = k'')); [done|]. apply IH.
Qed.

Lemma keys_set k v m : keys (map_set k v m) = if decide (k ∈ keys m) then keys m else keys m ++ [k].
Proof.
  induction m as [|[k' v'] m IH].
  { simpl. destruct (decide (k ∈ keys [])) as [H|]; [by apply elem_of_nil in H|done]. }
  simpl map_set. change (keys ((k', v') :: m)) with (k' :: keys m).
  destruct (decide (k = k')) as [->|Hne].
  - rewrite decide_True by (by left). done.
  - change (keys ((k', v') :: map_set k v m)) with (k' :: keys (map_set k v m)). rewrite IH.
    destruct (decide (k ∈ keys m)) as [Hin|Hin].
    + rewrite decide_True by (by right). done.
    + rewrite decide_False; [done|]. by intros [?|?]%elem_of_cons.
Qed.

Lemma keys_set_nodup k v m : NoDup (keys m) -> NoDup (keys (map_set k v m)).
Proof.
  intros H. rewrite keys_set. destruct (decide _) as [Hin|Hin]; [done|].
  apply NoDup_app. split_and!; [done| |apply NoDup_singleton].
  intros x Hx ->%list_elem_of_singleton. done.
Qed.

Lemma map_get_in k v m : map_get k m = Some v -> (k, v) ∈ m.
Proof.
  induction m as [|[k' v'] m IH]; simpl; [done|]. destruct (decide (k = k')) as [->|].
  - intros [= ->]. by left.
  - intros H. right. by apply IH.
Qed.

Lemma map_get_none k m : map_get k m = None <-> k ∉ keys m.
Proof.
  unfold keys. induction m as [|[k' v'] m IH]; simpl.
  - split; [|done]. intros _ ?%elem_of_nil. done.
  - rewrite not_elem_of_cons. destruct (decide (k = k')); [naive_solver|]. rewrite IH. naive_solver.
Qed.

Lemma map_has_in k m : map_has k m = true <-> k ∈ keys m.
Proof.
  unfold map_has. rewrite bool_decide_eq_true. destruct (map_get k m) as [v|] eqn:E.
  - split; [intros _|by eexists]. apply map_get_in in E. apply list_elem_of_fmap. by exists (k, v).
  - apply map_get_none in E. split; [by intros []|done].
Qed.

Lemma elem_keys_set k v m k' : k' ∈ keys (map_set k v m) <-> k' = k \/ k' ∈ keys m.
Proof.
  rewrite keys_set. destruct (decide (k ∈ keys m)); [naive_solver|].
  rewrite elem_of_app, list_elem_of_singleton. tauto.
Qed.

Lemma map_of_keys_nodup entries : NoDup (keys (map_of entries)).
Proof.
  unfold map_of. apply (fold_left_inv (fun m => NoDup (keys m))); [|constructor].
  intros m kv _. apply keys_set_nodup.
Qed.

Lemma map_of_keys entries k : k ∈ keys (map_of entries) <-> k ∈ entries.*1.
Proof.
  unfold map_of. assert (G : forall m, k ∈ keys (fold_left (fun m kv => map_set kv.1 kv.2 m) entries m)
    <-> k ∈ keys m \/ k ∈ entries.*1); [|rewrite G; split; [intros [H|H]; [by apply elem_of_nil in H|done]|by right]].
  induction entries as [|[k' v] l IH]; intros m; cbn [fold_left fmap list_fmap fst snd].
  - split; [by left|intros [H|H]; [done|by apply elem_of_nil in H]].
  - rewrite IH, elem_keys_set, elem_of_cons. tauto.
Qed.

(** Deleting a key leaves the others as they were. *)
Lemma keys_delete_nodup k m : NoDup (keys m) -> NoDup (keys (map_delete k m)).
Proof.
  unfold keys. assert (Sub : forall m : JsMap, (map_delete k m).*1 `sublist_of` m.*1).
  { clear m. intros m. induction m as [|[k' v] m IH]; [done|]. cbn. destruct (decide (k = k')); by constructor. }
  intros H. by eapply sublist_NoDup.
Qed.

Lemma map_get_delete_ne k k' m : k <> k' -> map_get k (map_delete k' m) = map_get k m.
Proof.
  intros Hne. induction m as [|[k'' v] m IH]; simpl; [done|].
  destruct (decide (k' = k'')) as [->|]; simpl; [by rewrite (decide_False (P := k = k''))|].
  destruct (decide (k = k'')); [done|]. apply IH.
Qed.

Lemma map_get_delete_eq k m : NoDup (keys m) -> map_get k (map_delete k m) = None.
Proof.
  unfold keys. induction m as [|[k' v] m IH]; simpl; [done|]. intros [Hk H]%NoDup_cons.
  destruct (decide (k = k')) as [->|Hne]; simpl; [by apply map_get_none|]. rewrite decide_False by done. by apply IH.
Qed.

(** Entries with distinct keys are the map itself. *)
Lemma map_set_fresh k v m : k ∉ keys m -> map_set k v m = m ++ [(k, v)].
Proof.
  unfold keys. induction m as [|[k' v'] m IH]; simpl; [done|]. rewrite not_elem_of_cons. intros [Hne Hin].
  rewrite decide_False by done. by rewrite IH.
Qed.

Lemma map_of_nodup entries : NoDup entries.*1 -> map_of entries = entries.
Proof.
  unfold map_of.
  assert (G : forall m, NoDup (keys (m ++ entries)) ->
    fold_left (fun m kv => map_set kv.1 kv.2 m) entries m = m ++ entries).
  { induction entries as [|[k v] l IH]; intros m Hn; simpl; [by rewrite app_nil_r|].
    unfold keys in Hn. rewrite fmap_app in Hn. apply NoDup_app in Hn as Hn'. destruct Hn' as (_ & Hd & _).
    rewrite map_set_fresh.
    - rewrite IH; rewrite <- app_assoc; [done|]. unfold keys. by rewrite fmap_app.
    - intros Hin. apply (Hd k Hin). simpl. by left. }
  intros Hn. by rewrite G.
Qed.
End JsMap.

Arguments JsMap : clear implicits.
