(* ===== verification/JsSort.v ===== *)
(** * Sorting

    [Array.prototype.sort] with a comparator: stable, and a permutation that is
    in order when the comparator is a consistent order on the elements. *)

From S2P Require Import Prelude.
#[local] Open Scope Z_scope.

(** ** Definitions *)

(** [Array.prototype.sort]: stable, by a comparator; with one that is not a
    consistent order the language leaves the result open, and this one inserts
    each element after those it does not precede. *)
Fixpoint insert_sorted {A} (cmp : A -> A -> Z) (x : A) (l : list A) : list A :=
  match l with
  | [] => [x]
  | y :: l' => if cmp x y <? 0 then x :: l else y :: insert_sorted cmp x l'
  end.
Definition js_sort {A} (cmp : A -> A -> Z) (l : list A) : list A :=
  fold_left (fun sorted x => insert_sorted cmp x sorted) l [].

(** The default order of texts, by code units. *)
Definition compare_strings (a b : string) : Z :=
  match String.compare a b with Lt => -1 | Eq => 0 | Gt => 1 end.

Fixpoint compare_texts (a b : list Z) : Z :=
  match a, b with
  | [], [] => 0
  | [], _ :: _ => -1
  | _ :: _, [] => 1
  | x :: a, y :: b => if x <? y then -1 else if y <? x then 1 else compare_texts a b
  end.

(** ** What sorting gives *)

Section Sorting.
Context {A : Type} (cmp : A -> A -> Z) (ok : A -> Prop).

(** A comparator that is a consistent order on the elements in [ok]. *)
Record consistent : Prop := {
  cmp_anti : forall x y, ok x -> ok y -> cmp x y < 0 -> 0 <= cmp y x;
  cmp_total : forall x y, ok x -> ok y -> 0 <= cmp x y -> cmp y x <= 0;
  cmp_trans : forall x y z, ok x -> ok y -> ok z -> cmp x y <= 0 -> cmp y z <= 0 -> cmp x z <= 0
}.

Lemma insert_sorted_perm x l : insert_sorted cmp x l ≡ₚ x :: l.
Proof.
  induction l as [|y l IH]; cbn; [done|]. destruct (_ <? _); [done|]. rewrite IH. constructor.
Qed.

Lemma js_sort_perm_acc l : forall acc, fold_left (fun s x => insert_sorted cmp x s) l acc ≡ₚ acc ++ l.
Proof.
  induction l as [|x l IH]; intros acc; cbn; [by rewrite app_nil_r|].
  rewrite IH, insert_sorted_perm. by rewrite <- Permutation_middle.
Qed.

Lemma js_sort_perm l : js_sort cmp l ≡ₚ l.
Proof. apply js_sort_perm_acc. Qed.

Lemma insert_sorted_sorted x l :
  consistent -> ok x -> Forall ok l ->
  StronglySorted (fun a b => cmp a b <= 0) l -> StronglySorted (fun a b => cmp a b <= 0) (insert_sorted cmp x l).
Proof.
  intros C Hx Hok Hs. induction Hs as [|y l Hs IH Hall]; cbn; [by repeat constructor|].
  apply Forall_cons in Hok as [Hy Hok]. destruct (Z.ltb_spec (cmp x y) 0) as [H|H].
  - constructor; [by constructor|]. constructor; [lia|].
    rewrite Forall_forall in *. intros z Hz. apply (cmp_trans C x y z); auto. lia.
  - constructor; [by apply IH|]. rewrite insert_sorted_perm. constructor; [|done].
    by apply (cmp_total C).
Qed.

Lemma js_sort_sorted l :
  consistent -> Forall ok l -> StronglySorted (fun a b => cmp a b <= 0) (js_sort cmp l).
Proof.
  intros C. unfold js_sort.
  assert (G : forall l acc, Forall ok acc -> Forall ok l -> StronglySorted (fun a b => cmp a b <= 0) acc ->
    StronglySorted (fun a b => cmp a b <= 0) (fold_left (fun s x => insert_sorted cmp x s) l acc)).
  { clear l. induction l as [|x l IH]; intros acc Ha Hl Hs; [done|]. apply Forall_cons in Hl as [Hx Hl]. cbn.
    apply IH; [|done|by apply insert_sorted_sorted]. rewrite insert_sorted_perm. by constructor. }
  intros Hl. apply G; [constructor|done|constructor].
Qed.
End Sorting.

(** ** The default order *)

Lemma compare_texts_anti a : forall b, compare_texts a b = - compare_texts b a.
Proof.
  induction a as [|x a IH]; intros [|y b]; cbn; try done.
  destruct (Z.ltb_spec x y), (Z.ltb_spec y x); try lia. apply IH.
Qed.

Lemma compare_texts_eq a : forall b, compare_texts a b = 0 <-> a = b.
Proof.
  induction a as [|x a IH]; intros [|y b]; cbn; try done.
  destruct (Z.ltb_spec x y) as [H|H]; [split; [done|intros [= -> _]; lia]|].
  destruct (Z.ltb_spec y x) as [H'|H']; [split; [done|intros [= -> _]; lia]|].
  assert (x = y) as -> by lia. rewrite IH. split; [by intros ->|by intros [= ->]].
Qed.

Lemma compare_texts_trans a : forall b c, compare_texts a b <= 0 -> compare_texts b c <= 0 -> compare_texts a c <= 0.
Proof.
  induction a as [|x a IH]; intros [|y b] [|z c]; cbn; try lia.
  destruct (Z.ltb_spec x y), (Z.ltb_spec y x), (Z.ltb_spec y z), (Z.ltb_spec z y), (Z.ltb_spec x z), (Z.ltb_spec z x);
    try lia. apply IH.
Qed.

Lemma compare_texts_consistent : consistent compare_texts (fun _ => True).
Proof.
  split; [| |intros x y z _ _ _; apply compare_texts_trans];
    intros x y _ _; rewrite (compare_texts_anti y x); lia.
Qed.
