(* ===== verification/Text.v ===== *)
(** * Texts

    JavaScript strings as lists of UTF-16 code units, and the string operations
    the source uses.  Letter case is changed for ASCII letters only: what the
    source compares a lowered text with is ASCII. *)

From S2P Require Import Prelude.
#[local] Open Scope Z_scope.

(** ** Definitions *)

Abbreviation text := (list Z).

(** A literal. *)
Definition u (s : string) : text :=
  map (fun c => Z.of_N (Ascii.N_of_ascii c)) (String.list_ascii_of_string s).

(** [\s] and what [trim] removes. *)
Definition js_space (c : Z) : bool :=
  ((9 <=? c) && (c <=? 13)) || ((8192 <=? c) && (c <=? 8202))
  || existsb (Z.eqb c) [32; 160; 5760; 8232; 8233; 8239; 8287; 12288; 65279].

Definition is_upper (c : Z) : bool := (65 <=? c) && (c <=? 90).
Definition is_lower (c : Z) : bool := (97 <=? c) && (c <=? 122).
Definition is_digit_unit (c : Z) : bool := (48 <=? c) && (c <=? 57).
(** [\w]. *)
Definition is_word (c : Z) : bool := is_upper c || is_lower c || is_digit_unit c || (c =? 95).

Definition lower (c : Z) : Z := if is_upper c then c + 32 else c.
Definition toLowerCase (t : text) : text := map lower t.

Fixpoint drop_while (f : Z -> bool) (t : text) : text :=
  match t with [] => [] | c :: t' => if f c then drop_while f t' else t end.
Fixpoint take_while (f : Z -> bool) (t : text) : text :=
  match t with [] => [] | c :: t' => if f c then c :: take_while f t' else [] end.

Definition trimStart (t : text) : text := drop_while js_space t.
Definition drop_while_end (f : Z -> bool) (t : text) : text := rev (drop_while f (rev t)).
Definition trimEnd (t : text) : text := drop_while_end js_space t.
Definition trim (t : text) : text := trimEnd (trimStart t).

Fixpoint starts_with (t prefix : text) {struct prefix} : bool :=
  match prefix, t with
  | [], _ => true
  | p :: prefix, c :: t => (c =? p) && starts_with t prefix
  | _, _ => false
  end.
Definition ends_with (t suffix : text) : bool := starts_with (rev t) (rev suffix).

Fixpoint includes (t sub : text) : bool :=
  starts_with t sub || match t with [] => false | _ :: t => includes t sub end.

Definition text_eqb (a b : text) : bool := bool_decide (a = b).

(** [t.split(sep)] for a one-unit separator. *)
Fixpoint split_on (sep : Z) (t : text) : list text :=
  match t with
  | [] => [[]]
  | c :: t =>
      match split_on sep t with
      | [] => [[c]]
      | part :: parts => if c =? sep then [] :: part :: parts else (c :: part) :: parts
      end
  end.

(** Decimal digits, at least one, to a number. *)
Definition digits_value (t : text) : Z := fold_left (fun n c => n * 10 + (c - 48)) t 0.

(** ** Facts *)

Lemma drop_while_all f t : forallb f t = true -> drop_while f t = [].
Proof. induction t as [|c t IH]; simpl; [done|]. intros [Hc H]%andb_true_iff. rewrite Hc. by apply IH. Qed.

Lemma drop_while_head f t c t' : drop_while f t = c :: t' -> f c = false.
Proof.
  induction t as [|d t IH]; simpl; [done|]. destruct (f d) eqn:E; [done|]. by intros [= <- <-].
Qed.

Lemma drop_while_nil f t : drop_while f t = [] -> forallb f t = true.
Proof. induction t as [|c t IH]; simpl; [done|]. destruct (f c); [|done]. apply IH. Qed.

Lemma drop_while_suffix f t : exists pre, t = pre ++ drop_while f t /\ forallb f pre = true.
Proof.
  induction t as [|c t IH]; simpl; [by exists []|]. destruct (f c) eqn:E.
  - destruct IH as (pre & H1 & H2). exists (c :: pre). simpl. rewrite E. split; [by f_equal|done].
  - by exists [].
Qed.

Lemma drop_while_id f t : drop_while f (drop_while f t) = drop_while f t.
Proof.
  destruct (drop_while f t) as [|c t'] eqn:E; [done|]. simpl. by rewrite (drop_while_head _ _ _ _ E).
Qed.

Lemma starts_with_app t s : starts_with (s ++ t) s = true.
Proof. induction s as [|c s IH]; simpl; [done|]. by rewrite Z.eqb_refl. Qed.

Lemma starts_with_true t s : starts_with t s = true -> exists r, t = s ++ r.
Proof.
  revert t. induction s as [|c s IH]; intros t; simpl; [by eexists|].
  destruct t as [|d t]; [discriminate|]. intros [Hd%Z.eqb_eq H]%andb_true_iff. destruct (IH _ H) as [r ->].
  exists r. by rewrite Hd.
Qed.

Lemma toLowerCase_idem t : toLowerCase (toLowerCase t) = toLowerCase t.
Proof.
  unfold toLowerCase. rewrite map_map. apply map_ext. intros c. unfold lower, is_upper.
  destruct ((65 <=? c) && (c <=? 90)) eqn:E; [|by rewrite E].
  apply andb_true_iff in E as [H1%Z.leb_le H2%Z.leb_le].
  destruct ((65 <=? c + 32) && (c + 32 <=? 90)) eqn:E'; [|done].
  apply andb_true_iff in E' as [H3%Z.leb_le H4%Z.leb_le]. lia.
Qed.

Lemma split_on_nonempty sep t : split_on sep t <> [].
Proof. induction t as [|c t IH]; simpl; [done|]. destruct (split_on sep t); [done|]. by destruct (c =? sep). Qed.
