(* ===== verification/Paging.v ===== *)
(** * Paging and selection

    What [pages/Workflows.tsx] and [pages/State.tsx] have in common: a list
    read page by page with forward cursors, so that going back means stacking
    the pages left; and a set of selected rows, kept in insertion order.  Both
    pages write these operations out; they are one definition here, mapped to
    the first. The answers of the backend are given by [issued] and [listed]. *)

From S2P Require Import Prelude JsMap Text.
#[local] Open Scope string_scope.
#[local] Open Scope Z_scope.

(** ** Sets of texts *)

Definition set_has (x : string) (s : list string) : bool := bool_decide (x ∈ s).
Definition set_add (x : string) (s : list string) : list string :=
  if decide (x ∈ s) then s else (s ++ [x])%list.
Definition set_delete (x : string) (s : list string) : list string := filter (fun y => y <> x) s.
(** [new Set(xs)]. *)
Definition set_of_list (xs : list string) : list string := fold_left (fun s x => set_add x s) xs [].

Lemma set_add_nodup x s : NoDup s -> NoDup (set_add x s).
Proof.
  intros H. unfold set_add. destruct (decide (x ∈ s)); [done|]. apply NoDup_app. split; [done|].
  split; [|apply NoDup_singleton]. intros y Hy ->%list_elem_of_singleton. done.
Qed.
Lemma elem_set_add x y s : y ∈ set_add x s <-> y = x \/ y ∈ s.
Proof. unfold set_add. destruct (decide (x ∈ s)); set_solver. Qed.
Lemma set_delete_nodup x s : NoDup s -> NoDup (set_delete x s).
Proof. intros H. by apply NoDup_filter. Qed.
Lemma elem_set_delete x y s : y ∈ set_delete x s <-> y ∈ s /\ y <> x.
Proof. unfold set_delete. rewrite list_elem_of_filter. tauto. Qed.

Lemma set_of_list_spec xs : forall s, NoDup s ->
  NoDup (fold_left (fun s x => set_add x s) xs s)
  /\ forall y, y ∈ fold_left (fun s x => set_add x s) xs s <-> y ∈ s \/ y ∈ xs.
Proof.
  induction xs as [|x xs IH]; intros s Hs; cbn; [split; [done|set_solver]|].
  destruct (IH (set_add x s)) as [N E]; [by apply set_add_nodup|]. split; [done|].
  intros y. rewrite E, elem_set_add. set_solver.
Qed.
Lemma set_of_list_nodup xs : NoDup (set_of_list xs).
Proof. apply set_of_list_spec, NoDup_nil_2. Qed.
Lemma elem_set_of_list xs y : y ∈ set_of_list xs <-> y ∈ xs.
Proof. destruct (set_of_list_spec xs []) as [_ E]; [apply NoDup_nil_2|]. unfold set_of_list. rewrite E. set_solver. Qed.

Create HintDb paging.
#[export] Hint Resolve set_add_nodup set_delete_nodup set_of_list_nodup : paging.

(** ** The state *)

Record Paging := {
  pg_page : option string;
  pg_history : list (option string * Z);
  pg_pageOffset : Z;
  pg_selected : list string
}.

Definition first_page (urlPage : option string) : Paging :=
  {| pg_page := urlPage; pg_history := []; pg_pageOffset := 0; pg_selected := [] |}.

Definition resetPaging (p : Paging) : Paging := first_page None.

Definition clear_selection (p : Paging) : Paging :=
  {| pg_page := p.(pg_page); pg_history := p.(pg_history); pg_pageOffset := p.(pg_pageOffset); pg_selected := [] |}.

Definition set_selected (s : list string) (p : Paging) : Paging :=
  {| pg_page := p.(pg_page); pg_history := p.(pg_history); pg_pageOffset := p.(pg_pageOffset); pg_selected := s |}.

(** The click on "Prev". *)
Definition go_prev (p : Paging) : Paging :=
  match last p.(pg_history) with
  | None => p
  | Some prev =>
      {| pg_page := prev.1; pg_history := removelast p.(pg_history);
         pg_pageOffset := prev.2; pg_selected := [] |}
  end.

(** The click on "Next", with the answer's token and the rows it holds. *)
Definition go_next (nextToken : option string) (rows : Z) (p : Paging) : Paging :=
  match nextToken with
  | None | Some "" => p
  | Some token =>
      {| pg_page := Some token;
         pg_history := (p.(pg_history) ++ [(p.(pg_page), p.(pg_pageOffset))])%list;
         pg_pageOffset := p.(pg_pageOffset) + rows; pg_selected := [] |}
  end.

Definition toggle_row (key : string) (p : Paging) : Paging :=
  set_selected
    (if set_has key p.(pg_selected) then set_delete key p.(pg_selected) else set_add key p.(pg_selected)) p.

Definition toggle_all (rows : list string) (p : Paging) : Paging :=
  if (length p.(pg_selected) =? length rows)%nat && (0 <? length rows)%nat then clear_selection p
  else set_selected (set_of_list rows) p.

Definition all_selected (rows : list string) (p : Paging) : bool :=
  (length p.(pg_selected) =? length rows)%nat && (0 <? length rows)%nat.

(** ** What the operations keep *)

Section Coherent.
(** The tokens the backend issued for the filters in force, and the keys of the
    rows it listed on each page of them. *)
Context (issued : string -> Prop) (listed : option string -> string -> Prop).

Definition cursor_ok (page : option string) : Prop := match page with Some t => issued t | None => True end.

Record paging_ok (p : Paging) : Prop := {
  ok_page : cursor_ok p.(pg_page);
  ok_history : Forall (fun h => cursor_ok h.1) p.(pg_history);
  ok_selected : Forall (listed p.(pg_page)) p.(pg_selected);
  ok_nodup : NoDup p.(pg_selected);
  (** The offsets grow along the pages left, from 0 on the first. *)
  ok_offsets : StronglySorted Z.le ((p.(pg_history)).*2 ++ [p.(pg_pageOffset)]);
  ok_first : head ((p.(pg_history)).*2 ++ [p.(pg_pageOffset)]) = Some 0
}.

Lemma first_page_ok : paging_ok (first_page None).
Proof. split; cbn; auto; try constructor; repeat constructor. Qed.

Lemma reset_ok p : paging_ok (resetPaging p).
Proof. apply first_page_ok. Qed.

Lemma set_selected_ok s p : paging_ok p -> Forall (listed p.(pg_page)) s -> NoDup s -> paging_ok (set_selected s p).
Proof. intros [] Hs N. by split. Qed.

Lemma clear_selection_ok p : paging_ok p -> paging_ok (clear_selection p).
Proof. intros H. apply (set_selected_ok [] p); [done|constructor|constructor]. Qed.

Lemma last_removelast {A} (l : list A) x : last l = Some x -> l = (removelast l ++ [x])%list.
Proof. intros H. destruct l as [|y l] using rev_ind; [done|]. rewrite last_snoc in H. injection H as ->. by rewrite removelast_last. Qed.

Lemma go_prev_ok p : paging_ok p -> paging_ok (go_prev p).
Proof.
  intros [Hp Hh Hs N Ho Hf]. unfold go_prev. destruct (last (pg_history p)) as [[t o]|] eqn:E; [|by split].
  apply last_removelast in E. rewrite E in Hh, Ho, Hf.
  apply Forall_app in Hh as [Hh [Ht _]%Forall_cons].
  rewrite fmap_app in Ho, Hf. cbn in Ho, Hf. rewrite <- app_assoc in Ho, Hf.
  split; cbn [pg_page pg_history pg_pageOffset pg_selected]; [exact Ht|done|by constructor|by constructor| |].
  - apply StronglySorted_app_1_l with (l2 := [pg_pageOffset p]). by rewrite <- app_assoc.
  - revert Hf. by destruct ((removelast (pg_history p)).*2).
Qed.

Lemma go_next_ok nextToken rows p : paging_ok p -> 0 <= rows ->
  (forall t, nextToken = Some t -> issued t) -> paging_ok (go_next nextToken rows p).
Proof.
  intros [Hp Hh Hs N Ho Hf] Hr Hi. unfold go_next. destruct nextToken as [[|a t]|]; [by split| |by split].
  split; cbn [pg_page pg_history pg_pageOffset pg_selected]; [by apply Hi| |by constructor|by constructor| |].
  - apply Forall_app. split; [done|]. by apply Forall_singleton.
  - rewrite fmap_app. cbn. apply StronglySorted_app_2; [|done|repeat constructor].
    intros x y Hx ->%list_elem_of_singleton. apply elem_of_app in Hx as [Hx| ->%list_elem_of_singleton]; [|lia].
    assert (x <= pg_pageOffset p); [|lia].
    apply (StronglySorted_app_1_elem_of _ _ _ _ _ Ho Hx). by left.
  - rewrite fmap_app. revert Hf. cbn. by destruct ((pg_history p).*2).
Qed.

Lemma toggle_row_ok key p : paging_ok p -> listed p.(pg_page) key -> paging_ok (toggle_row key p).
Proof.
  intros H Hk. pose proof H as [_ _ Hs N _ _]. unfold toggle_row. rewrite Forall_forall in Hs.
  destruct (set_has key _); apply set_selected_ok; auto with paging; apply Forall_forall; intros x Hx.
  - apply elem_set_delete in Hx as [Hx _]. auto.
  - apply elem_set_add in Hx as [->|Hx]; auto.
Qed.

Lemma toggle_all_ok rows p : paging_ok p -> Forall (listed p.(pg_page)) rows -> paging_ok (toggle_all rows p).
Proof.
  intros H Hr. unfold toggle_all. destruct (_ && _); [by apply clear_selection_ok|].
  apply set_selected_ok; [done| |apply set_of_list_nodup]. apply Forall_forall. intros x Hx.
  rewrite elem_set_of_list in Hx. rewrite Forall_forall in Hr. auto.
Qed.
End Coherent.

Lemma cursor_ok_impl (issued issued' : string -> Prop) page :
  (forall t, issued t -> issued' t) -> cursor_ok issued page -> cursor_ok issued' page.
Proof. intros H. destruct page; [apply H|done]. Qed.

Lemma paging_ok_impl (issued issued' : string -> Prop) (listed listed' : option string -> string -> Prop) p :
  (forall t, issued t -> issued' t) -> (forall page k, listed page k -> listed' page k) ->
  paging_ok issued listed p -> paging_ok issued' listed' p.
Proof.
  intros Hi Hl [Hp Hh Hs N Ho Hf]. split; [by eapply cursor_ok_impl| | |done|done|done].
  - eapply Forall_impl; [exact Hh|]. intros h. by apply cursor_ok_impl.
  - eapply Forall_impl; [exact Hs|]. intros k. apply Hl.
Qed.

(** "Prev" undoes "Next", but for the selection. *)
Lemma prev_next token rows p : token <> "" ->
  go_prev (go_next (Some token) rows p) = clear_selection p.
Proof.
  intros Ht. destruct token as [|a token]; [done|]. unfold go_prev, go_next. cbn [pg_history pg_page].
  rewrite last_snoc, removelast_last. by destruct p.
Qed.

(** ** What a query shows *)

(** The result of a list query, as the caching library hands it to the page. *)
Record ListResult (A : Type) := { lr_items : list A; lr_nextToken : option string }.
Arguments lr_items {A}.
Arguments lr_nextToken {A}.

Record ListView (A : Type) := {
  vw_data : option (ListResult A);
  vw_isError : bool;
  vw_isPlaceholderData : bool
}.
Arguments vw_data {A}.
Arguments vw_isError {A}.
Arguments vw_isPlaceholderData {A}.

Definition view_token {A} (v : ListView A) : option string := v.(vw_data) ≫= lr_nextToken.
Definition has_next {A} (v : ListView A) : bool :=
  match view_token v with None | Some "" => false | Some _ => true end.

(** ** Load errors *)

(** [/^.*?503[:\s]+/]: what follows the first "503" and its separators; [.]
    stops at the end of a line. *)
Definition is_newline (c : Z) : bool := existsb (Z.eqb c) [10; 13; 8232; 8233].
Definition is_separator (c : Z) : bool := (c =? 58) || js_space c.
Fixpoint after_503 (t : text) : option text :=
  let here :=
    if starts_with t (u "503") then
      match drop 3 t with
      | c :: rest => if is_separator c then Some (drop_while is_separator rest) else None
      | [] => None
      end
    else None in
  match here with
  | Some rest => Some rest
  | None => match t with [] => None | c :: t => if is_newline c then None else after_503 t end
  end.

(** [/\s*for\s+\/\S*$/]. *)
Definition for_path (t : text) : bool :=
  let t := drop_while js_space t in
  if starts_with t (u "for") then
    match drop 3 t with
    | c :: rest =>
        js_space c &&
        match drop_while js_space rest with
        | 47 :: path => forallb (fun c => negb (js_space c)) path
        | _ => false
        end
    | [] => false
    end
  else false.
Fixpoint strip_path (t : text) : text :=
  if for_path t then [] else match t with [] => [] | c :: t => c :: strip_path t end.

(** The banner of a failed list query, [noun] being what the page lists. *)
Definition load_error (noun : text) (errStr : text) : text :=
  if includes errStr (u "503") then
    let extracted := trim (strip_path (default errStr (after_503 errStr))) in
    if negb (text_eqb extracted []) && negb (text_eqb extracted errStr) then extracted
    else u "state store unavailable"
  else (u "Error loading " ++ noun ++ u ": " ++ errStr)%list.
