(* ===== verification/Base64.v ===== *)
(** * Base64

    [btoa] and [atob] on bytes (RFC 4648, with [atob]'s forgiving decoding),
    and the preview of [lib/base64.ts]. Texts are UTF-16 code units. *)

From S2P Require Import Prelude Text.
#[local] Open Scope Z_scope.

(** ** Definitions *)

Definition PAD : Z := 61.

(** The digit of a value below 64, and back. *)
Definition digit (v : Z) : Z :=
  if v <? 26 then 65 + v
  else if v <? 52 then 97 + (v - 26)
  else if v <? 62 then 48 + (v - 52)
  else if v =? 62 then 43 else 47.

Definition undigit (n : Z) : option Z :=
  if (65 <=? n) && (n <=? 90) then Some (n - 65)
  else if (97 <=? n) && (n <=? 122) then Some (n - 97 + 26)
  else if (48 <=? n) && (n <=? 57) then Some (n - 48 + 52)
  else if n =? 43 then Some 62
  else if n =? 47 then Some 63
  else None.

Fixpoint btoa (bytes : list Z) : text :=
  match bytes with
  | [] => []
  | [a] => [digit (a / 4); digit (a mod 4 * 16); PAD; PAD]
  | [a; b] => [digit (a / 4); digit (a mod 4 * 16 + b / 16); digit (b mod 16 * 4); PAD]
  | a :: b :: c :: bytes =>
      [digit (a / 4); digit (a mod 4 * 16 + b / 16); digit (b mod 16 * 4 + c / 64); digit (c mod 64)]
      ++ btoa bytes
  end.

(** The bytes of a list of 6-bit values; what is left of the last group is dropped. *)
Fixpoint unpack (vs : list Z) : option (list Z) :=
  match vs with
  | [] => Some []
  | [_] => None
  | [a; b] => Some [a * 4 + b / 16]
  | [a; b; c] => Some [a * 4 + b / 16; b mod 16 * 16 + c / 4]
  | a :: b :: c :: d :: vs =>
      match unpack vs with
      | Some bytes => Some ([a * 4 + b / 16; b mod 16 * 16 + c / 4; c mod 4 * 64 + d] ++ bytes)
      | None => None
      end
  end.

(** ASCII whitespace, which [atob] skips. *)
Definition is_space (c : Z) : bool := existsb (Z.eqb c) [9; 10; 12; 13; 32].

(** Drops one or two trailing padding characters of a text whose length is a
    multiple of four. *)
Definition strip_padding (t : text) : text :=
  if (length t mod 4 =? 0)%nat then
    match rev t with
    | c1 :: c2 :: rest =>
        if c1 =? PAD then if c2 =? PAD then rev rest else rev (c2 :: rest) else t
    | _ => t
    end
  else t.

(** [atob]; [None] is the exception. *)
Definition atob (t : text) : option (list Z) :=
  match mapM undigit (strip_padding (List.filter (fun c => negb (is_space c)) t)) with
  | Some vs => unpack vs
  | None => None
  end.

(** ** lib/base64.ts *)

Definition UNPRINTABLE : Z := 183.
Definition ELLIPSIS : Z := 8230.
Definition is_printable (c : Z) : bool := (32 <=? c) && (c <=? 126).

(** [bytes.replace(/[^\x20-\x7E]+/g, '·')]: a run becomes one placeholder;
    [in_run]: the unit before was part of one. *)
Fixpoint collapse (in_run : bool) (bytes : text) : text :=
  match bytes with
  | [] => []
  | c :: bytes =>
      if is_printable c then c :: collapse false bytes
      else if in_run then collapse true bytes else UNPRINTABLE :: collapse true bytes
  end.

Definition whole_groups (cleaned : text) : text := take (length cleaned - length cleaned mod 4) cleaned.

Definition decodeBase64Preview (s : text) : option text :=
  let cleaned := List.filter (fun c => negb (js_space c)) (drop_while_end (Z.eqb ELLIPSIS) s) in
  match whole_groups cleaned with
  | [] => None
  | whole =>
      bytes ← atob whole;
      let trimmed := trim (drop_while_end (Z.eqb UNPRINTABLE) (drop_while (Z.eqb UNPRINTABLE) (collapse false bytes))) in
      match trimmed with [] => None | _ => Some trimmed end
  end.

(** ** Round trip *)

Definition byte (b : Z) : Prop := 0 <= b < 256.

Lemma forall_below (n : nat) (f : Z -> bool) :
  forallb (fun i => f (Z.of_nat i)) (seq 0 n) = true -> forall v, 0 <= v < Z.of_nat n -> f v = true.
Proof.
  intros H v Hv. rewrite forallb_forall in H. specialize (H (Z.to_nat v)).
  rewrite Z2Nat.id in H by lia. apply H. apply in_seq. lia.
Qed.

Definition digit_ok (v : Z) : bool :=
  bool_decide (undigit (digit v) = Some v) && negb (is_space (digit v)) && negb ((digit v =? PAD)).

Lemma digits_checked v : 0 <= v < 64 -> digit_ok v = true.
Proof. intros Hv. apply (forall_below 64 digit_ok); [vm_compute; reflexivity|lia]. Qed.

Lemma undigit_digit v : 0 <= v < 64 -> undigit (digit v) = Some v.
Proof.
  intros Hv%digits_checked. unfold digit_ok in Hv.
  apply andb_true_iff in Hv as [[H%bool_decide_eq_true _]%andb_true_iff _]. done.
Qed.

Lemma digit_plain v : 0 <= v < 64 -> is_space (digit v) = false /\ (digit v =? PAD) = false.
Proof.
  intros Hv%digits_checked. unfold digit_ok in Hv.
  apply andb_true_iff in Hv as [[_ H1%negb_true_iff]%andb_true_iff H2%negb_true_iff]. done.
Qed.

#[global] Arguments digit : simpl never.
#[global] Arguments undigit : simpl never.
#[global] Arguments is_space : simpl never.

(** The 6-bit values of some bytes. *)
Fixpoint sextets (bytes : list Z) : list Z :=
  match bytes with
  | [] => []
  | [a] => [a / 4; a mod 4 * 16]
  | [a; b] => [a / 4; a mod 4 * 16 + b / 16; b mod 16 * 4]
  | a :: b :: c :: bytes =>
      [a / 4; a mod 4 * 16 + b / 16; b mod 16 * 4 + c / 64; c mod 64] ++ sextets bytes
  end.
Fixpoint padding (bytes : list Z) : text :=
  match bytes with
  | [] => []
  | [_] => [PAD; PAD]
  | [_; _] => [PAD]
  | _ :: _ :: _ :: bytes => padding bytes
  end.

Section ByThree.
Context (P : list Z -> Prop).
Context (P0 : P []) (P1 : forall a, P [a]) (P2 : forall a b, P [a; b]).
Context (P3 : forall a b c l, P l -> P (a :: b :: c :: l)).
Fixpoint by_three (l : list Z) : P l :=
  match l with
  | [] => P0
  | [a] => P1 a
  | [a; b] => P2 a b
  | a :: b :: c :: l => P3 a b c l (by_three l)
  end.
End ByThree.

Lemma btoa_sextets bytes : btoa bytes = map digit (sextets bytes) ++ padding bytes.
Proof.
  induction bytes as [| | |a b c l IH] using by_three; [done..|].
  cbn [btoa sextets padding map app]. by rewrite IH.
Qed.

Ltac euclid := Z.to_euclidean_division_equations; lia.

Lemma sextets_range bytes : Forall byte bytes -> Forall (fun v => 0 <= v < 64) (sextets bytes).
Proof.
  unfold byte. induction bytes as [|a|a b|a b c l IH] using by_three; intros H; [constructor|..];
    repeat (apply Forall_cons in H as [? H]); cbn [sextets]; repeat constructor; try euclid.
  by apply IH.
Qed.

Lemma unpack_sextets bytes : Forall byte bytes -> unpack (sextets bytes) = Some bytes.
Proof.
  unfold byte. induction bytes as [|a|a b|a b c l IH] using by_three; intros H; [done|..];
    repeat (apply Forall_cons in H as [? H]).
  - cbn. do 2 f_equal. euclid.
  - cbn. f_equal. f_equal; [euclid|]. f_equal. euclid.
  - cbn [sextets unpack app]. rewrite IH by done. f_equal. f_equal; [euclid|]. f_equal; [euclid|]. f_equal. euclid.
Qed.

Lemma mapM_digits vs : Forall (fun v => 0 <= v < 64) vs -> mapM undigit (map digit vs) = Some vs.
Proof.
  intros H. apply mapM_Some. induction H as [|v vs Hv Hvs IH]; simpl; constructor; [|done].
  by apply undigit_digit.
Qed.

Lemma filter_digits vs :
  Forall (fun v => 0 <= v < 64) vs -> List.filter (fun c => negb (is_space c)) (map digit vs) = map digit vs.
Proof.
  induction 1 as [|v vs Hv Hvs IH]; [done|]. cbn. rewrite (proj1 (digit_plain v Hv)). cbn. by rewrite IH.
Qed.

Lemma filter_padding bytes : List.filter (fun c => negb (is_space c)) (padding bytes) = padding bytes.
Proof. by induction bytes using by_three. Qed.

(** The encoding's length is a multiple of four; padding makes it so. *)
Lemma encoded_length bytes : ((length (sextets bytes) + length (padding bytes)) mod 4 = 0)%nat.
Proof.
  induction bytes as [| | |a b c l IH] using by_three; [done..|]. cbn [sextets padding length app].
  replace (Datatypes.S (S (S (S (length (sextets l))))) + length (padding l))%nat
    with (length (sextets l) + length (padding l) + 1 * 4)%nat by lia.
  by rewrite Nat.Div0.mod_add.
Qed.

Lemma strip_encoded vs (pad : text) :
  Forall (fun v => 0 <= v < 64) vs -> pad ∈ [[]; [PAD]; [PAD; PAD]] ->
  ((length vs + length pad) mod 4 = 0)%nat -> strip_padding (map digit vs ++ pad) = map digit vs.
Proof.
  intros Hv Hp Hl. unfold strip_padding. rewrite length_app, length_map, Hl, Nat.eqb_refl.
  assert (Hr : forall v vs', rev vs = v :: vs' -> (digit v =? PAD) = false).
  { intros v vs' E. apply digit_plain. rewrite Forall_forall in Hv. apply Hv.
    apply list_elem_of_In. rewrite in_rev, E. by left. }
  rewrite rev_app_distr, <- map_rev. apply elem_of_cons in Hp as [->|Hp]; [|apply elem_of_cons in Hp as [->|Hp];
    [|apply list_elem_of_singleton in Hp as ->]]; cbn [rev app].
  - destruct (rev vs) as [|v [|v' l]] eqn:E; cbn [map]; [by rewrite app_nil_r..|].
    rewrite (Hr v _ eq_refl). by rewrite app_nil_r.
  - destruct (rev vs) as [|v l] eqn:E; cbn [map].
    + apply (f_equal (@rev Z)) in E. rewrite rev_involutive in E. subst vs. done.
    + rewrite (Hr v _ eq_refl). transitivity (rev (map digit (v :: l))); [done|].
      by rewrite <- E, map_rev, rev_involutive.
  - cbn. by rewrite map_rev, rev_involutive.
Qed.

Lemma padding_cases bytes : padding bytes ∈ [[]; [PAD]; [PAD; PAD]].
Proof. induction bytes using by_three; cbn; try done; repeat (first [by left|right]). Qed.

Lemma atob_btoa bytes : Forall byte bytes -> atob (btoa bytes) = Some bytes.
Proof.
  intros H. pose proof (sextets_range bytes H) as Hr. unfold atob.
  rewrite btoa_sextets, List.filter_app, filter_digits, filter_padding by done.
  rewrite strip_encoded; [|done|apply padding_cases|apply encoded_length].
  rewrite mapM_digits by done. by apply unpack_sextets.
Qed.

(** ** The preview *)

Lemma btoa_take k : forall bytes, take (4 * k) (btoa bytes) = btoa (take (3 * k) bytes).
Proof.
  induction k as [|k IH]; intros bytes; [done|].
  replace (4 * S k)%nat with (S (S (S (S (4 * k))))) by lia. replace (3 * S k)%nat with (S (S (S (3 * k)))) by lia.
  destruct bytes as [|a [|b [|c l]]]; [done| | |].
  - cbn. by destruct (k + _)%nat.
  - cbn. by destruct (k + _)%nat.
  - cbn [btoa take app]. by rewrite IH.
Qed.

Lemma btoa_length bytes : (length (btoa bytes) mod 4 = 0)%nat.
Proof. rewrite btoa_sextets, length_app, length_map. apply encoded_length. Qed.

(** The units [btoa] writes are neither blank nor the ellipsis. *)
Definition base64_unit (c : Z) : bool := negb (js_space c) && negb (ELLIPSIS =? c).
Lemma digit_unit v : 0 <= v < 64 -> base64_unit (digit v) = true.
Proof. intros Hv. apply (forall_below 64 (fun v => base64_unit (digit v))); [vm_compute; reflexivity|lia]. Qed.

Lemma btoa_units bytes : Forall byte bytes -> Forall (fun c => base64_unit c = true) (btoa bytes).
Proof.
  intros H. rewrite btoa_sextets. apply Forall_app. split.
  - apply Forall_fmap. eapply Forall_impl; [by apply sextets_range|]. intros v. apply digit_unit.
  - pose proof (padding_cases bytes) as Hc.
    repeat (apply elem_of_cons in Hc as [->|Hc]; [repeat constructor|]). by apply elem_of_nil in Hc.
Qed.

Lemma drop_ellipsis t m : Forall (fun c => base64_unit c = true) t ->
  drop_while_end (Z.eqb ELLIPSIS) (t ++ repeat ELLIPSIS m) = t.
Proof.
  intros H. unfold drop_while_end. rewrite rev_app_distr.
  assert (R : rev (repeat ELLIPSIS m) = repeat ELLIPSIS m).
  { induction m as [|m IH]; [done|]. cbn [repeat rev]. by rewrite IH, <- repeat_cons. }
  rewrite R. clear R. induction m as [|m IH]; [|exact IH]. cbn [repeat app].
  destruct t as [|c t] using rev_ind; [done|]. apply Forall_app in H as [_ [Hc _]%Forall_cons].
  apply andb_true_iff in Hc as [_ Hc%negb_true_iff]. rewrite rev_app_distr. cbn [rev app drop_while]. rewrite Hc.
  cbn [rev]. by rewrite rev_involutive.
Qed.

Lemma filter_units t : Forall (fun c => base64_unit c = true) t -> List.filter (fun c => negb (js_space c)) t = t.
Proof.
  induction 1 as [|c t Hc _ IH]; [done|]. apply andb_true_iff in Hc as [Hc _]. cbn. by rewrite Hc, IH.
Qed.

Lemma whole_groups_take n t : (length t mod 4 = 0)%nat -> whole_groups (take n t) = take (4 * (n / 4)) t.
Proof.
  intros H4. unfold whole_groups. rewrite length_take, take_take.
  pose proof (Nat.div_mod_eq n 4) as En. pose proof (Nat.mod_upper_bound n 4).
  destruct (Nat.le_gt_cases n (length t)) as [Hn|Hn].
  - f_equal. rewrite (Nat.min_l n) by lia. lia.
  - pose proof (Nat.div_mod_eq (length t) 4) as El. rewrite (Nat.min_r n (length t)), H4 by lia.
    rewrite (take_ge t (4 * _)) by lia. apply take_ge. lia.
Qed.

(** What is shown of decoded bytes. *)
Definition render_bytes (bytes : list Z) : option text :=
  match trim (drop_while_end (Z.eqb UNPRINTABLE) (drop_while (Z.eqb UNPRINTABLE) (collapse false bytes))) with
  | [] => None
  | shown => Some shown
  end.

(** A list preview is a value's base64 cut anywhere and marked with an
    ellipsis: what [decodeBase64Preview] shows of it is what it would show of
    the first bytes of the value, as many as whole groups were left, so a
    correct prefix and never a misaligned decoding. *)
Theorem preview_shows_a_prefix (bytes : list Z) (n m : nat) :
  Forall byte bytes -> decodeBase64Preview (take n (btoa bytes) ++ repeat ELLIPSIS m) = render_bytes (take (3 * (n / 4)) bytes).
Proof.
  intros H. unfold decodeBase64Preview.
  assert (U : Forall (fun c => base64_unit c = true) (take n (btoa bytes))) by (by apply Forall_take, btoa_units).
  rewrite drop_ellipsis, filter_units, whole_groups_take, btoa_take by (done || apply btoa_length).
  set (prefix := take _ bytes). assert (Hp : Forall byte prefix) by (by apply Forall_take).
  pose proof (atob_btoa prefix Hp) as E. destruct (btoa prefix) as [|c t] eqn:Eb.
  2:{ rewrite E. unfold render_bytes. cbn [mbind option_bind]. by destruct (trim _). }
  destruct prefix as [|a [|b [|d l]]]; done.
Qed.

Lemma preview_shows_a_prefix_witness :
  Forall byte [10; 4; 115; 104; 111; 112; 18; 200]
  /\ decodeBase64Preview (take 9 (btoa [10; 4; 115; 104; 111; 112; 18; 200]) ++ repeat ELLIPSIS 1) = Some (u "shop").
Proof.
  assert (H : Forall byte [10; 4; 115; 104; 111; 112; 18; 200]) by (unfold byte; repeat constructor; lia).
  split; [exact H|]. rewrite (preview_shows_a_prefix _ 9 1 H). vm_compute. reflexivity.
Defined.
