(* ===== verification/Logs.v ===== *)
(** * Log streams and the log page

    [lib/loglevel.ts], [lib/logtime.ts], [hooks/useLogStream.ts],
    [types/logs.ts] and the logic of [pages/Logs.tsx]: what a stream keeps of
    the lines it receives, how two streams become one view, what the filters
    show, and the targets the page offers.  Texts are UTF-16 code units; a
    search compares texts lowered by a parameter [lowercase], the Unicode table
    of the language.  An arithmetic infinity is [None]. *)

From S2P Require Import Prelude JsMap JsSort Text.
#[local] Open Scope string_scope.
#[local] Open Scope Z_scope.

(** ** types/logs.ts *)

Inductive LogLevel := LError | LWarn | LInfo | LDebug.
#[export] Instance LogLevel_eq_dec : EqDecision LogLevel.
Proof. solve_decision. Defined.

Record LogLine := {
  ll_seq : Z;
  ll_text : text;
  ll_level : option LogLevel
}.

(** ** Regular expressions

    The leftmost match of a pattern: [f] is tried at every position, knowing
    whether the unit before it is a word character. *)

Fixpoint search {A} (f : bool -> text -> option A) (after_word : bool) (t : text) : option A :=
  match f after_word t with
  | Some x => Some x
  | None => match t with [] => None | c :: t' => search f (is_word c) t' end
  end.

Definition match_text {A} (f : bool -> text -> option A) (t : text) : option A := search f false t.

(** [\b] between a word character and what follows. *)
Definition word_ends (rest : text) : bool :=
  match rest with [] => true | c :: _ => negb (is_word c) end.

(** [\d] is written [d], any other unit stands for itself. *)
Fixpoint take_shape (shape : text) (t : text) : option (text * text) :=
  match shape, t with
  | [], _ => Some ([], t)
  | p :: shape, c :: t =>
      if (if p =? 100 then is_digit_unit c else c =? p) then
        '(taken, rest) ← take_shape shape t; Some (c :: taken, rest)
      else None
  | _, _ => None
  end.

(** ** lib/loglevel.ts *)

(** What [toLowerCase] does where the result is ASCII: two letters outside
    ASCII have a lower case that is, or begins, an ASCII letter. *)
Definition lower_units (t : text) : text :=
  flat_map (fun c => if c =? 304 then [105; 775] else if c =? 8490 then [107] else [lower c]) t.

(** [prefix(tok|...|tok)\b], the alternatives in order, at a word's start. *)
Definition token_at (prefix : text) (tokens : list text) (after_word : bool) (t : text) : option text :=
  if negb after_word && starts_with t prefix then
    let rest := drop (length prefix) t in
    List.find (fun v => starts_with rest v && word_ends (drop (length v) rest)) tokens
  else None.

Definition LOGFMT_LEVELS : list text := map u ["error"; "warn"; "warning"; "info"; "debug"].
Definition BARE_TOKENS : list text := map u ["erro"; "error"; "fata"; "warn"; "info"; "debu"; "debug"].

Definition logfmt_level (val : text) : option LogLevel :=
  if text_eqb val (u "warning") then Some LWarn
  else if text_eqb val (u "error") then Some LError
  else if text_eqb val (u "warn") then Some LWarn
  else if text_eqb val (u "info") then Some LInfo
  else if text_eqb val (u "debug") then Some LDebug
  else None.

Definition token_level (val : text) : option LogLevel :=
  if text_eqb val (u "error") || text_eqb val (u "erro") || text_eqb val (u "fata") then Some LError
  else if text_eqb val (u "warn") then Some LWarn
  else if text_eqb val (u "info") then Some LInfo
  else if text_eqb val (u "debu") || text_eqb val (u "debug") then Some LDebug
  else None.

Definition parseLogLevel (line : text) : option LogLevel :=
  let lower := lower_units line in
  match match_text (token_at (u "level=") LOGFMT_LEVELS) lower with
  | Some val => logfmt_level val
  | None =>
      match match_text (token_at [] BARE_TOKENS) lower with
      | Some val => token_level val
      | None => None
      end
  end.

(** ** lib/logtime.ts *)

(** [(?:\.(\d+))?]: the digits after a point, and what follows them. *)
Definition take_fraction (t : text) : option (text * text) :=
  match t with
  | 46 :: t =>
      match take_while is_digit_unit t with
      | [] => None
      | digits => Some (digits, drop_while is_digit_unit t)
      end
  | _ => None
  end.

(** [(\d{2}):(\d{2}):(\d{2})(?:\.(\d+))?], as milliseconds of the day. *)
Definition clock_ms (t : text) : option Z :=
  '(clock, rest) ← take_shape (u "dd:dd:dd") t;
  let h := digits_value (take 2 clock) in
  let m := digits_value (take 2 (drop 3 clock)) in
  let s := digits_value (take 2 (drop 6 clock)) in
  let ms :=
    match take_fraction rest with
    | Some (digits, _) =>
        let three := take 3 digits in
        digits_value (three ++ repeat 48 (3 - length three))%list
    | None => 0
    end in
  Some (h * 3600000 + m * 60000 + s * 1000 + ms).

Definition iso_time (_ : bool) (t : text) : option Z :=
  '(_, rest) ← take_shape (u "dddd-dd-ddT") t; clock_ms rest.
Definition hms_time (after_word : bool) (t : text) : option Z :=
  if after_word then None else clock_ms t.

(** [None] is [Infinity]. *)
Definition parseLogTime (t : text) : option Z :=
  match match_text iso_time t with
  | Some ms => Some ms
  | None => match_text hms_time t
  end.

(** ** hooks/useLogStream.ts *)

Inductive LogStreamStatus := SIdle | SConnecting | SOpen | SError | SClosed.
#[export] Instance LogStreamStatus_eq_dec : EqDecision LogStreamStatus.
Proof. solve_decision. Defined.

(** The hook's state and refs; [sr_source]: an [EventSource] is held. *)
Record LogStream := {
  sr_lines : list LogLine;
  sr_revision : Z;
  sr_status : LogStreamStatus;
  sr_seq : Z;
  sr_source : bool
}.

Definition initial_stream : LogStream :=
  {| sr_lines := []; sr_revision := 0; sr_status := SIdle; sr_seq := 0; sr_source := false |}.

(** The effect on [path]: run on mount and when the path changes; the source of
    the old path is closed first. *)
Definition connect (path : option string) (s : LogStream) : LogStream :=
  match path with
  | None | Some "" =>
      {| sr_lines := []; sr_revision := s.(sr_revision); sr_status := SIdle;
         sr_seq := s.(sr_seq); sr_source := false |}
  | Some _ =>
      {| sr_lines := []; sr_revision := s.(sr_revision); sr_status := SConnecting;
         sr_seq := s.(sr_seq); sr_source := true |}
  end.

Definition clear (s : LogStream) : LogStream :=
  {| sr_lines := []; sr_revision := s.(sr_revision); sr_status := s.(sr_status);
     sr_seq := s.(sr_seq); sr_source := s.(sr_source) |}.

Definition set_status (status : LogStreamStatus) (s : LogStream) : LogStream :=
  {| sr_lines := s.(sr_lines); sr_revision := s.(sr_revision); sr_status := status;
     sr_seq := s.(sr_seq); sr_source := s.(sr_source) |}.

Definition onopen (s : LogStream) : LogStream := set_status SOpen s.
(** [readyState] is [CLOSED] when the server ended the stream. *)
Definition onerror (closed : bool) (s : LogStream) : LogStream :=
  set_status (if closed then SClosed else SError) s.

Definition onmessage (cap : nat) (data : text) (s : LogStream) : LogStream :=
  let line := {| ll_seq := s.(sr_seq); ll_text := data; ll_level := parseLogLevel data |} in
  let next := (s.(sr_lines) ++ [line])%list in
  {| sr_lines := if (cap <? length next)%nat then drop (length next - cap) next else next;
     sr_revision := s.(sr_revision) + 1;
     sr_status := s.(sr_status);
     sr_seq := s.(sr_seq) + 1;
     sr_source := s.(sr_source) |}.

(** What can happen to a stream. Only a held source fires events. *)
Inductive StreamEvent :=
  | EPath (path : option string)
  | EClear
  | EOpen
  | EMessage (data : text)
  | EError (closed : bool).

Definition stream_event (cap : nat) (s : LogStream) (e : StreamEvent) : LogStream :=
  match e with
  | EPath path => connect path s
  | EClear => clear s
  | EOpen => if s.(sr_source) then onopen s else s
  | EMessage data => if s.(sr_source) then onmessage cap data s else s
  | EError closed => if s.(sr_source) then onerror closed s else s
  end.

Definition stream_run (cap : nat) (es : list StreamEvent) : LogStream :=
  fold_left (stream_event cap) es initial_stream.

Inductive StreamName := NDaprd | NApp.
#[export] Instance StreamName_eq_dec : EqDecision StreamName.
Proof. solve_decision. Defined.
Definition stream_name (n : StreamName) : string := match n with NDaprd => "daprd" | NApp => "app" end.

(** [useLogStream]: the path of an application's stream. *)
Definition log_path (appId : option string) (source : StreamName) : option string :=
  match appId with
  | None | Some "" => None
  | Some id => Some ("/apps/" ++ id ++ "/logs?source=" ++ stream_name source)
  end.

(** ** pages/Logs.tsx: one view of two streams *)

Inductive LogSource := Both | One (n : StreamName).
#[export] Instance LogSource_eq_dec : EqDecision LogSource.
Proof. solve_decision. Defined.

(** [mg_sortTime]: [None] is [-Infinity]. *)
Record MergedLine := {
  mg_line : LogLine;
  mg_src : StreamName;
  mg_arrival : Z;
  mg_sortTime : option Z
}.

Fixpoint tag_from (last : option Z) (i : Z) (lines : list LogLine) (src : StreamName) (arrivalBase arrivalStep : Z)
    : list MergedLine :=
  match lines with
  | [] => []
  | line :: lines =>
      let last := match parseLogTime line.(ll_text) with Some t => Some t | None => last end in
      {| mg_line := line; mg_src := src; mg_arrival := arrivalBase + i * arrivalStep; mg_sortTime := last |}
        :: tag_from last (i + 1) lines src arrivalBase arrivalStep
  end.
Definition tagStream := tag_from None 0.

(** The sign of the comparator is all [sort] looks at: a finite time is after
    [-Infinity]. *)
Definition compare_merged (a b : MergedLine) : Z :=
  match a.(mg_sortTime), b.(mg_sortTime) with
  | None, None => a.(mg_arrival) - b.(mg_arrival)
  | None, Some _ => -1
  | Some _, None => 1
  | Some ta, Some tb => if ta =? tb then a.(mg_arrival) - b.(mg_arrival) else ta - tb
  end.

Definition LINE_CAP : nat := 2000.

Definition merged_view (source : LogSource) (daprd app : list LogLine) : list MergedLine :=
  match source with
  | One NDaprd => tagStream daprd NDaprd 0 1
  | One NApp => tagStream app NApp 0 1
  | Both =>
      let dLines := tagStream daprd NDaprd 0 2 in
      let aLines := tagStream app NApp 1 2 in
      let all := js_sort compare_merged (dLines ++ aLines)%list in
      if (LINE_CAP <? length all)%nat then drop (length all - LINE_CAP) all else all
  end.

(** The key a row is rendered under. *)
Definition row_key (m : MergedLine) : StreamName * Z := (m.(mg_src), m.(mg_line).(ll_seq)).

(** [extractTime]: the clock as text, its point and digits included. *)
Definition clock_text (bounded : bool) (t : text) : option text :=
  '(clock, rest) ← take_shape (u "dd:dd:dd") t;
  match take_fraction rest with
  | Some (digits, rest') =>
      if negb bounded || word_ends rest' then Some (clock ++ 46 :: digits)%list
      else if word_ends rest then Some clock else None
  | None => if negb bounded || word_ends rest then Some clock else None
  end.
Definition extractTime (t : text) : text :=
  match match_text (fun _ t => '(_, rest) ← take_shape (u "dddd-dd-ddT") t; clock_text false rest) t with
  | Some found => found
  | None =>
      default [] (match_text (fun after_word t => if (after_word : bool) then None else clock_text true t) t)
  end.

(** The widths of the time and source columns: the second is [None] when it is
    left to the stylesheet. *)
Definition longest (ts : list text) : nat := fold_left (fun m t => Nat.max m (length t)) ts 0%nat.
Definition logGridVars (srcLabels texts : list text) : nat * option nat :=
  let timeLen := longest (map extractTime texts) in
  (S (longest srcLabels), if (0 <? timeLen)%nat then Some (S timeLen) else None).

Section Filters.
Context (lowercase : text -> text).

Definition lineMatches (line : LogLine) (activeLevels : list LogLevel) (search : text) : bool :=
  let level := default LInfo line.(ll_level) in
  if negb (bool_decide (level ∈ activeLevels)) then false
  else if negb (text_eqb search []) && negb (includes (lowercase line.(ll_text)) (lowercase search)) then false
  else true.

Definition countMatches (lines : list LogLine) (search : text) : nat :=
  if text_eqb search [] then 0%nat
  else length (List.filter (fun line => includes (lowercase line.(ll_text)) (lowercase search)) lines).
End Filters.

(** [Math.round(n / 1024)]: the quotient is exact, a half is rounded up. *)
Definition tailSizeKB (lines : list LogLine) : Z :=
  (fold_left (fun acc line => acc + Z.of_nat (length line.(ll_text))) lines 0 + 512) / 1024.

Definition combineStatuses (statuses : list LogStreamStatus) : LogStreamStatus :=
  default SOpen (List.find (fun s => bool_decide (s ∈ statuses)) [SClosed; SError; SConnecting; SIdle]).

(** ** pages/Logs.tsx: the page *)

Definition CP_SERVICES : list string := ["dapr_scheduler"; "dapr_placement"].
Definition staticCpForMode (mode : string) : list string :=
  if String.eqb mode "" || String.eqb mode "dapr-run" || String.eqb mode "aspire" then CP_SERVICES else [].

(** [[...new Set(names)]]. *)
Definition set_of (names : list string) : list string :=
  fold_left (fun set x => if decide (x ∈ set) then set else (set ++ [x])%list) names [].

(** The control-plane targets: the static ones and those of the answer that can
    be acted on; [None] while there is no answer. *)
Definition cpNames (staticCp : list string) (services : option (list (string * bool))) : list string :=
  set_of (staticCp ++ map fst (List.filter snd (default [] services)))%list.

Definition valid_cp (names : list string) (cpParam : string) : string :=
  if decide (cpParam ∈ names) then cpParam else "".

Definition cp_pending (cpParam cp : string) (loaded failed : bool) : bool :=
  negb (String.eqb cpParam "") && String.eqb cp "" && negb loaded && negb failed.

(** The page's URL parameters. *)
Definition Params : Type := JsMap string string.

Definition targetValue (cp appId : string) : string :=
  if negb (String.eqb cp "") then "cp:" ++ cp else if negb (String.eqb appId "") then "app:" ++ appId else "".

Definition onTargetChange (value : string) (prev : Params) : Params :=
  let '(kind, name) :=
    match String.index 0 ":" value with
    | None => ("", "")
    | Some sep => (String.substring 0 sep value, String.substring (S sep) (String.length value - S sep) value)
    end in
  if String.eqb kind "app" then map_delete "cp" (map_set "app" name prev)
  else if String.eqb kind "cp" then map_delete "app" (map_set "cp" name prev)
  else map_delete "cp" (map_delete "app" prev).

(** The source after a click on a stream's chip: at least one stays on. *)
Definition toggleSource (source : LogSource) (stream : StreamName) : LogSource :=
  match source with
  | Both => One (match stream with NDaprd => NApp | NApp => NDaprd end)
  | One n => if decide (n = stream) then source else Both
  end.

Definition toggleLevel (level : LogLevel) (active : list LogLevel) : list LogLevel :=
  if decide (level ∈ active) then filter (fun l => l <> level) active else (active ++ [level])%list.

(** An application's log files and containers, as its detail has them. *)
Definition hasPath (source : LogSource) (canStreamDaprd canStreamApp : bool) : bool :=
  match source with One NApp => canStreamApp | One NDaprd => canStreamDaprd | Both => canStreamDaprd || canStreamApp end.

(** ** What a stream keeps *)

Definition keep_last {A} (n : nat) (l : list A) : list A := drop (length l - n) l.

(** The unbounded log a stream stands for: every text its sources delivered,
    and how many of them came before the view was last emptied. *)
Record StreamLog := { sl_all : list text; sl_start : nat; sl_live : bool }.

Definition log_event (l : StreamLog) (e : StreamEvent) : StreamLog :=
  match e with
  | EPath path =>
      {| sl_all := l.(sl_all); sl_start := length l.(sl_all);
         sl_live := match path with None | Some "" => false | Some _ => true end |}
  | EClear => {| sl_all := l.(sl_all); sl_start := length l.(sl_all); sl_live := l.(sl_live) |}
  | EMessage data =>
      if l.(sl_live) then {| sl_all := l.(sl_all) ++ [data]; sl_start := l.(sl_start); sl_live := true |} else l
  | EOpen | EError _ => l
  end.
Definition stream_log (es : list StreamEvent) : StreamLog :=
  fold_left log_event es {| sl_all := []; sl_start := 0; sl_live := false |}.

(** The lines of a log, numbered. *)
Definition numbered (texts : list text) : list LogLine :=
  imap (fun i t => {| ll_seq := Z.of_nat i; ll_text := t; ll_level := parseLogLevel t |}) texts.

Lemma numbered_length texts : length (numbered texts) = length texts.
Proof. apply length_imap. Qed.

Lemma numbered_snoc texts t :
  numbered (texts ++ [t]) =
  (numbered texts ++ [{| ll_seq := Z.of_nat (length texts); ll_text := t; ll_level := parseLogLevel t |}])%list.
Proof. unfold numbered. rewrite imap_app. cbn. by rewrite Nat.add_0_r. Qed.

Lemma keep_last_all {A} n (l : list A) : (length l <= n)%nat -> keep_last n l = l.
Proof. intros H. unfold keep_last. by replace (length l - n)%nat with 0%nat by lia. Qed.

Lemma keep_last_length {A} n (l : list A) : length (keep_last n l) = Nat.min n (length l).
Proof. unfold keep_last. rewrite length_drop. lia. Qed.

(** Keeping the last of what was kept is keeping the last of everything. *)
Lemma keep_last_snoc {A} n (l : list A) x : keep_last n (keep_last n l ++ [x]) = keep_last n (l ++ [x]).
Proof.
  unfold keep_last. rewrite !length_app, length_drop. cbn [length].
  rewrite !drop_app, drop_drop, length_drop.
  f_equal; f_equal; lia.
Qed.

Lemma capped_keep_last {A} cap (l : list A) :
  (if (cap <? length l)%nat then drop (length l - cap) l else l) = keep_last cap l.
Proof.
  destruct (Nat.ltb_spec cap (length l)); [done|]. by rewrite keep_last_all.
Qed.

(** What the hook's state says of the log. *)
Record stream_shows (cap : nat) (s : LogStream) (l : StreamLog) : Prop := {
  shows_lines : s.(sr_lines) = keep_last cap (drop l.(sl_start) (numbered l.(sl_all)));
  shows_revision : s.(sr_revision) = Z.of_nat (length l.(sl_all));
  shows_seq : s.(sr_seq) = Z.of_nat (length l.(sl_all));
  shows_live : s.(sr_source) = l.(sl_live);
  shows_start : (l.(sl_start) <= length l.(sl_all))%nat
}.

Lemma shows_emptied cap texts : [] = keep_last cap (drop (length texts) (numbered texts)).
Proof. by rewrite drop_ge by (rewrite numbered_length; lia). Qed.

Lemma stream_event_shows cap s l e :
  stream_shows cap s l -> stream_shows cap (stream_event cap s e) (log_event l e).
Proof.
  intros [Hl Hr Hs Hv Hst]. destruct e as [path| | |data|closed]; cbn.
  - destruct path as [[|]|]; split; cbn; try apply shows_emptied; auto with lia.
  - split; cbn; try apply shows_emptied; auto with lia.
  - destruct (sr_source s) eqn:E; split; cbn; congruence.
  - rewrite <- Hv. destruct (sr_source s) eqn:E; [|split; congruence].
    split; cbn [sl_all sl_start sl_live sr_lines sr_revision sr_seq sr_source onmessage];
      try (rewrite length_app; cbn; lia); [|done].
    rewrite capped_keep_last, Hl, Hs, keep_last_snoc, numbered_snoc.
    by rewrite drop_app_le by (rewrite numbered_length; lia).
  - destruct (sr_source s) eqn:E; split; cbn; congruence.
Qed.

Lemma stream_run_shows cap es : stream_shows cap (stream_run cap es) (stream_log es).
Proof.
  unfold stream_run, stream_log.
  assert (G : forall s l, stream_shows cap s l ->
    stream_shows cap (fold_left (stream_event cap) es s) (fold_left log_event es l)).
  { induction es as [|e es IH]; intros s l H; [done|]. apply IH. by apply stream_event_shows. }
  apply G. by split.
Qed.

Lemma numbered_seqs start texts :
  ll_seq <$> drop start (numbered texts) = Z.of_nat <$> seq start (length texts - start).
Proof.
  revert start. induction texts as [|t texts IH] using rev_ind; intros start.
  - by destruct start.
  - rewrite numbered_snoc, length_app. cbn [length].
    destruct (decide (start <= length texts)%nat) as [H|H].
    + rewrite drop_app_le by (rewrite numbered_length; lia). rewrite fmap_app, IH.
      replace (length texts + 1 - start)%nat with (length texts - start + 1)%nat by lia.
      rewrite seq_app, fmap_app. cbn. do 3 f_equal. lia.
    + rewrite drop_ge by (rewrite length_app, numbered_length; cbn; lia).
      by replace (length texts + 1 - start)%nat with 0%nat by lia.
Qed.

(** C36: A log stream refines an unbounded log: after any sequence of path
    changes, clears and source events, the lines shown are the last [cap] of
    those received since the view was emptied, each with its own level; the
    sequence numbers are consecutive and never reused, so no two rows share
    one; and [revision] counts every line ever received, also at the cap. *)
Theorem log_stream_refines_log (cap : nat) (es : list StreamEvent) :
  let s := stream_run cap es in
  let l := stream_log es in
  s.(sr_lines) = keep_last cap (drop l.(sl_start) (numbered l.(sl_all)))
  /\ s.(sr_revision) = Z.of_nat (length l.(sl_all))
  /\ (length s.(sr_lines) <= cap)%nat
  /\ NoDup (ll_seq <$> s.(sr_lines))
  /\ Forall (fun line => ll_seq line < s.(sr_seq) /\ ll_level line = parseLogLevel line.(ll_text)) s.(sr_lines).
Proof.
  cbn zeta. destruct (stream_run_shows cap es) as [Hl Hr Hs _ Hst]. rewrite Hl, Hs.
  split; [done|]. split; [done|]. split; [rewrite keep_last_length; lia|].
  unfold keep_last. rewrite drop_drop. set (n := (_ + _)%nat).
  split.
  - rewrite numbered_seqs. apply NoDup_fmap; [apply _|apply NoDup_seq].
  - apply Forall_drop, Forall_lookup_2. intros i line H.
    unfold numbered in H. rewrite list_lookup_imap in H.
    destruct (_ !! i) as [t|] eqn:E; [|done]. injection H as <-. apply lookup_lt_Some in E. cbn. split; [lia|done].
Qed.

(** ** The merged view *)

(** Earlier time first, then earlier arrival. *)
Definition time_lt (a b : option Z) : Prop :=
  match a, b with None, Some _ => True | Some a, Some b => a < b | _, None => False end.
Definition shown_before (a b : MergedLine) : Prop :=
  time_lt a.(mg_sortTime) b.(mg_sortTime)
  \/ a.(mg_sortTime) = b.(mg_sortTime) /\ a.(mg_arrival) < b.(mg_arrival).

Lemma compare_merged_spec a b :
  compare_merged a b < 0 <-> shown_before a b.
Proof.
  unfold compare_merged, shown_before, time_lt.
  destruct (mg_sortTime a) as [ta|], (mg_sortTime b) as [tb|]; try (split; [|intros [|[? ?]]]; auto with lia; congruence).
  destruct (Z.eqb_spec ta tb) as [->|Hne].
  - split; [auto with lia|]. intros [|[_ ?]]; lia.
  - split; [auto with lia|]. intros [|[[= ?] ?]]; lia.
Qed.

Lemma compare_merged_anti a b : compare_merged a b = - compare_merged b a.
Proof.
  unfold compare_merged. destruct (mg_sortTime a) as [ta|], (mg_sortTime b) as [tb|]; try lia.
  rewrite (Z.eqb_sym tb ta). destruct (ta =? tb); lia.
Qed.

Lemma shown_before_trans a b c : shown_before a b -> shown_before b c -> shown_before a c.
Proof.
  unfold shown_before, time_lt.
  destruct (mg_sortTime a) as [ta|], (mg_sortTime b) as [tb|], (mg_sortTime c) as [tc|]; intros [|[E ?]] [|[E' ?]];
    try congruence; try injection E as E; try injection E' as E'; subst; auto with lia; try (by left; lia); try tauto.
  all: right; split; [done|lia].
Qed.

Lemma shown_before_irrefl a : ~ shown_before a a.
Proof. unfold shown_before, time_lt. destruct (mg_sortTime a); intros [|[_ ?]]; lia. Qed.

Lemma compare_merged_zero a b : compare_merged a b = 0 -> a.(mg_sortTime) = b.(mg_sortTime) /\ a.(mg_arrival) = b.(mg_arrival).
Proof.
  unfold compare_merged. destruct (mg_sortTime a) as [ta|], (mg_sortTime b) as [tb|]; try lia; [|split; [done|lia]].
  destruct (Z.eqb_spec ta tb) as [->|]; [split; [done|lia]|lia].
Qed.

Lemma compare_merged_consistent : consistent compare_merged (fun _ => True).
Proof.
  split.
  - intros x y _ _. rewrite (compare_merged_anti y x). lia.
  - intros x y _ _. rewrite (compare_merged_anti y x). lia.
  - intros x y z _ _ _ Hxy Hyz.
    destruct (decide (compare_merged x y = 0)) as [Ez%compare_merged_zero|Hnz].
    { destruct Ez as [Et Ea]. unfold compare_merged in *. by rewrite Et, Ea. }
    destruct (decide (compare_merged y z = 0)) as [Ez%compare_merged_zero|Hnz'].
    { destruct Ez as [Et Ea]. unfold compare_merged in *. by rewrite <- Et, <- Ea. }
    assert (shown_before x z); [|by apply Z.lt_le_incl, compare_merged_spec].
    apply (shown_before_trans _ y); apply compare_merged_spec; lia.
Qed.

(** A strictly sorted list is the only one of its elements. *)
Lemma strictly_sorted_unique {A} (R : A -> A -> Prop) (Hirr : forall x y, R x y -> R y x -> False) l1 : forall l2,
  StronglySorted R l1 -> StronglySorted R l2 -> l1 ≡ₚ l2 -> l1 = l2.
Proof.
  induction l1 as [|x l1 IH]; intros l2 H1 H2 P; [by apply Permutation_nil_l in P|].
  destruct l2 as [|y l2]; [by apply Permutation_nil_r in P|].
  apply StronglySorted_inv in H1 as [H1 F1], H2 as [H2 F2]. rewrite Forall_forall in F1, F2.
  assert (x = y) as ->.
  { assert (Hx : x ∈ y :: l2) by (rewrite <- P; by left). assert (Hy : y ∈ x :: l1) by (rewrite P; by left).
    apply elem_of_cons in Hx as [->|Hx]; [done|]. apply elem_of_cons in Hy as [->|Hy]; [done|].
    destruct (Hirr x y); auto. }
  f_equal. apply IH; [done|done|]. by apply Permutation_cons_inv in P.
Qed.

Lemma tag_from_lines src base step lines : forall last i, mg_line <$> tag_from last i lines src base step = lines.
Proof. induction lines as [|line lines IH]; intros last i; cbn; [done|]. by rewrite IH. Qed.

Lemma tag_from_src src base step lines : forall last i,
  Forall (fun m => m.(mg_src) = src) (tag_from last i lines src base step).
Proof. induction lines as [|line lines IH]; intros last i; cbn; constructor; [done|apply IH]. Qed.

Lemma tag_from_arrival src base step lines : forall last i m, 0 < step -> m ∈ tag_from last i lines src base step ->
  exists j, i <= j /\ m.(mg_arrival) = base + j * step.
Proof.
  induction lines as [|line lines IH]; intros last i m Hs; cbn; [by intros ?%elem_of_nil|].
  intros [->|H]%elem_of_cons; [by exists i|]. destruct (IH _ _ _ Hs H) as (j & Hj & E). exists j. split; [lia|done].
Qed.

(** The last time read at or before a line. *)
Definition carried (lines : list LogLine) : option Z :=
  fold_left (fun last line => match parseLogTime line.(ll_text) with Some t => Some t | None => last end) lines None.

Lemma tag_from_carries src base step lines : forall last i k m,
  tag_from last i lines src base step !! k = Some m ->
  m.(mg_sortTime) =
    fold_left (fun last line => match parseLogTime line.(ll_text) with Some t => Some t | None => last end)
      (take (S k) lines) last.
Proof.
  induction lines as [|line lines IH]; intros last i k m; cbn; [done|].
  destruct k as [|k]; cbn.
  - by intros [= <-].
  - apply IH.
Qed.

(** The clock of a stream never goes back. *)
Definition times (lines : list LogLine) : list Z := omap (fun line => parseLogTime line.(ll_text)) lines.
Definition clock_ascends (lines : list LogLine) : Prop := StronglySorted Z.le (times lines).

Lemma tag_from_ascends src base step lines : forall last i m,
  clock_ascends lines -> (forall t, last = Some t -> Forall (Z.le t) (times lines)) ->
  m ∈ tag_from last i lines src base step -> ~ time_lt m.(mg_sortTime) last.
Proof.
  unfold clock_ascends, times.
  induction lines as [|line lines IH]; intros last i m Ha Hl; cbn; [by intros ?%elem_of_nil|].
  cbn in Ha, Hl. destruct (parseLogTime (ll_text line)) as [t|] eqn:E; cbn in Ha, Hl.
  - apply StronglySorted_inv in Ha as [Ha Ft].
    assert (Ht : ~ time_lt (Some t) last).
    { destruct last as [t0|]; cbn; [|tauto]. pose proof (Hl _ eq_refl) as F. inversion F; lia. }
    intros [->|H]%elem_of_cons; [done|].
    apply IH in H; [|done|by intros ? [= <-]].
    destruct (mg_sortTime m) as [tm|], last; cbn in *; try tauto; lia.
  - intros [->|H]%elem_of_cons; [destruct last; cbn; [lia|tauto]|]. by apply IH in H.
Qed.

Lemma tag_from_sorted src base step lines : forall last i, 0 < step ->
  clock_ascends lines -> (forall t, last = Some t -> Forall (Z.le t) (times lines)) ->
  StronglySorted shown_before (tag_from last i lines src base step).
Proof.
  induction lines as [|line lines IH]; intros last i Hs Ha Hl; cbn; [constructor|].
  set (last' := match parseLogTime _ with Some t => Some t | None => last end).
  assert (Ha' : clock_ascends lines).
  { revert Ha. unfold clock_ascends, times. cbn. destruct (parseLogTime _); [by intros [? _]%StronglySorted_inv|done]. }
  assert (Hl' : forall t, last' = Some t -> Forall (Z.le t) (times lines)).
  { subst last'. revert Ha Hl. unfold clock_ascends, times. cbn.
    destruct (parseLogTime _); [intros [_ F]%StronglySorted_inv _ ? [= <-]; exact F|]. intros _ Hl t Et. by apply Hl. }
  constructor; [by apply IH|]. apply Forall_forall. intros m Hm.
  pose proof (tag_from_ascends _ _ _ _ _ _ _ Ha' Hl' Hm) as Ht.
  destruct (tag_from_arrival _ _ _ _ _ _ _ Hs Hm) as (j & Hj & Ej).
  unfold shown_before. cbn [mg_sortTime mg_arrival]. rewrite Ej.
  destruct last' as [t|], (mg_sortTime m) as [tm|]; cbn in *; try tauto.
  - destruct (Z.lt_trichotomy t tm) as [|[->|]]; [by left|right; split; [done|nia]|lia].
  - right. split; [done|nia].
Qed.

Lemma tag_from_arrivals_nodup src base step lines : forall last i, 0 < step ->
  NoDup (mg_arrival <$> tag_from last i lines src base step).
Proof.
  induction lines as [|line lines IH]; intros last i Hs; cbn; constructor; [|by apply IH].
  intros (m & E & H)%list_elem_of_fmap. destruct (tag_from_arrival _ _ _ _ _ _ _ Hs H) as (j & Hj & E').
  rewrite E' in E. nia.
Qed.

Definition tagged_both (d a : list LogLine) : list MergedLine := (tagStream d NDaprd 0 2 ++ tagStream a NApp 1 2)%list.

Lemma tagged_both_arrivals d a : NoDup (mg_arrival <$> tagged_both d a).
Proof.
  unfold tagged_both, tagStream. rewrite fmap_app. apply NoDup_app. split; [by apply tag_from_arrivals_nodup|].
  split; [|by apply tag_from_arrivals_nodup].
  intros x (m & -> & H)%list_elem_of_fmap (m' & E & H')%list_elem_of_fmap.
  apply tag_from_arrival in H as (j & _ & Ej); [|done]. apply tag_from_arrival in H' as (j' & _ & Ej'); [|done]. lia.
Qed.

Lemma sorted_weak_strict l : StronglySorted (fun a b => compare_merged a b <= 0) l -> NoDup (mg_arrival <$> l) ->
  StronglySorted shown_before l.
Proof.
  induction 1 as [|x l Hs IH Hall]; intros N; constructor; apply NoDup_cons in N as [Hx N]; [by apply IH|].
  rewrite Forall_forall in *. intros m Hm. apply compare_merged_spec.
  destruct (decide (compare_merged x m = 0)) as [[_ Ea]%compare_merged_zero|Hnz]; [|specialize (Hall _ Hm); cbn in Hall; lia].
  destruct Hx. rewrite Ea. by apply list_elem_of_fmap_2.
Qed.

Lemma sorted_filter {A} (R : A -> A -> Prop) (P : A -> Prop) `{forall x, Decision (P x)} l :
  StronglySorted R l -> StronglySorted R (filter P l).
Proof.
  induction 1 as [|x l Hs IH Hall]; [constructor|]. rewrite filter_cons. destruct (decide (P x)); [|done].
  constructor; [done|]. apply Forall_forall. intros y [_ Hy]%list_elem_of_filter. by eapply Forall_forall in Hall.
Qed.

Definition from (n : StreamName) (l : list MergedLine) : list MergedLine := filter (fun m => m.(mg_src) = n) l.

Lemma from_all n l : Forall (fun m => m.(mg_src) = n) l -> from n l = l.
Proof. intros H. by apply list_filter_all. Qed.
Lemma from_none n n' l : n <> n' -> Forall (fun m => m.(mg_src) = n') l -> from n l = [].
Proof.
  intros Hne H. induction H as [|m l E H IH]; [done|]. unfold from in *. rewrite filter_cons, decide_False by congruence. done.
Qed.

(** The rows of a stream whose clock ascends stay as they were. *)
Lemma sorted_keeps_stream n all rows :
  StronglySorted shown_before all -> from n all ≡ₚ rows -> StronglySorted shown_before rows -> from n all = rows.
Proof.
  intros Hs P Hr. apply (strictly_sorted_unique shown_before); [|by apply sorted_filter|done|done].
  intros x y Hxy Hyx. apply (shown_before_irrefl x). by apply (shown_before_trans x y x).
Qed.

Lemma from_tagged n d a :
  from n (tagged_both d a) =
  match n with NDaprd => tagStream d NDaprd 0 2 | NApp => tagStream a NApp 1 2 end.
Proof.
  unfold tagged_both, from. rewrite filter_app. fold (from n (tagStream d NDaprd 0 2)) (from n (tagStream a NApp 1 2)).
  destruct n.
  - rewrite (from_all NDaprd), (from_none NDaprd NApp); [by rewrite app_nil_r|done|apply tag_from_src|apply tag_from_src].
  - rewrite (from_none NApp NDaprd), (from_all NApp); [done|apply tag_from_src|done|apply tag_from_src].
Qed.

(** Sorted rows come from an ascending clock. *)
Lemma tag_from_time src base step lines t : forall last i,
  t ∈ times lines -> exists m, m ∈ tag_from last i lines src base step /\ m.(mg_sortTime) = Some t.
Proof.
  induction lines as [|line lines IH]; intros last i; unfold times in *; cbn; [by intros ?%elem_of_nil|].
  destruct (parseLogTime (ll_text line)) as [t'|] eqn:E; cbn.
  - intros [->|H]%elem_of_cons; [eexists; split; [left|done]|].
    destruct (IH (Some t') (i + 1) H) as (m & Hm & Em). exists m. split; [by right|done].
  - intros H. destruct (IH last (i + 1) H) as (m & Hm & Em). exists m. split; [by right|done].
Qed.

Lemma tag_from_sorted_ascends src base step lines : forall last i,
  StronglySorted shown_before (tag_from last i lines src base step) -> clock_ascends lines.
Proof.
  unfold clock_ascends. induction lines as [|line lines IH]; intros last i; cbn; [constructor|].
  intros [Hs Hf]%StronglySorted_inv. specialize (IH _ _ Hs). unfold times in *. cbn.
  destruct (parseLogTime (ll_text line)) as [t|]; [|done]. constructor; [done|].
  apply Forall_forall. intros t' Ht'. rewrite Forall_forall in Hf.
  destruct (tag_from_time src base step lines t' (Some t) (i + 1) Ht') as (m & Hm & Em).
  destruct (Hf m Hm) as [H|[H _]]; cbn [mg_sortTime] in H; rewrite Em in H; [cbn in H; lia|injection H as ->; lia].
Qed.

(** A permutation that looks the same is the same. *)
Lemma same_look {A B} (f : A -> B) (l l' : list A) : NoDup (f <$> l') -> l ≡ₚ l' -> f <$> l = f <$> l' -> l = l'.
Proof.
  intros N P E. apply list_eq. intros k.
  assert (Ek : f <$> l !! k = f <$> l' !! k) by (by rewrite <- !list_lookup_fmap, E).
  destruct (l !! k) as [x|] eqn:Hx, (l' !! k) as [y|] eqn:Hy; try done. injection Ek as Ek. f_equal.
  assert (Hin : x ∈ l') by (rewrite <- P; by eapply list_elem_of_lookup_2).
  apply list_elem_of_lookup in Hin as [j Hj].
  assert (Ej : (f <$> l') !! j = Some (f x)) by (by rewrite list_lookup_fmap, Hj).
  assert (Ey : (f <$> l') !! k = Some (f x)) by (rewrite list_lookup_fmap, Hy; cbn; congruence).
  rewrite (NoDup_lookup _ j k _ N Ej Ey) in Hj. congruence.
Qed.

(** The rows of a stream keep its order exactly when its clock ascends. *)
Lemma stream_in_view n all d a (lines := match n with NDaprd => d | NApp => a end) :
  StronglySorted shown_before all -> all ≡ₚ tagged_both d a -> NoDup (ll_seq <$> lines) ->
  mg_line <$> from n all = lines <-> clock_ascends lines.
Proof.
  intros Hs P N. assert (Hp : from n all ≡ₚ from n (tagged_both d a)) by (by apply filter_Permutation).
  rewrite from_tagged in Hp.
  assert (Hl : mg_line <$> match n with NDaprd => tagStream d NDaprd 0 2 | NApp => tagStream a NApp 1 2 end = lines)
    by (destruct n; apply tag_from_lines).
  split.
  - intros E. assert (Hn : NoDup lines) by (exact (NoDup_fmap_1 _ _ N)).
    rewrite <- Hl in Hn, E. apply (same_look mg_line _ _ Hn Hp) in E.
    pose proof (sorted_filter shown_before (fun m => mg_src m = n) all Hs) as S. fold (from n all) in S. rewrite E in S.
    destruct n; by apply tag_from_sorted_ascends in S.
  - intros Ha. rewrite (sorted_keeps_stream n all _ Hs Hp); [done|]. destruct n; apply tag_from_sorted; by try lia.
Qed.

Lemma row_keys_nodup d a : NoDup (ll_seq <$> d) -> NoDup (ll_seq <$> a) -> NoDup (row_key <$> tagged_both d a).
Proof.
  intros Hd Ha. unfold tagged_both. rewrite fmap_app.
  assert (G : forall lines src base step, NoDup (ll_seq <$> lines) ->
    row_key <$> tagStream lines src base step = (fun s => (src, s)) <$> (ll_seq <$> lines)).
  { intros lines src base step _. unfold tagStream. generalize (None : option Z) 0.
    induction lines as [|line lines IH]; intros last i; cbn; [done|]. by rewrite IH. }
  rewrite !G by done. apply NoDup_app. split; [by apply NoDup_fmap_2; [intros ?? [=]|]|].
  split; [|by apply NoDup_fmap_2; [intros ?? [=]|]].
  intros k (s & -> & _)%list_elem_of_fmap (s' & [=] & _)%list_elem_of_fmap.
Qed.

(** C37: The page's view of both streams is, cut to its newest [LINE_CAP] rows,
    all rows of both streams, ordered by the time they carry and by arrival
    where times are equal; the rows of a stream keep that stream's order exactly
    when its own clock never goes back (the clock has no date: after midnight it
    does); a row's time is the last one read at or before it in its stream; and
    no two rows are rendered under the same key, as no stream repeats a sequence
    number. *)
Theorem merged_view_in_order (d a : list LogLine) :
  NoDup (ll_seq <$> d) -> NoDup (ll_seq <$> a) ->
  exists all,
    merged_view Both d a = keep_last LINE_CAP all
    /\ all ≡ₚ (tagStream d NDaprd 0 2 ++ tagStream a NApp 1 2)%list
    /\ StronglySorted shown_before all
    /\ (mg_line <$> from NDaprd all = d <-> clock_ascends d)
    /\ (mg_line <$> from NApp all = a <-> clock_ascends a)
    /\ (forall k m, tagStream d NDaprd 0 2 !! k = Some m -> m.(mg_sortTime) = carried (take (S k) d))
    /\ (forall k m, tagStream a NApp 1 2 !! k = Some m -> m.(mg_sortTime) = carried (take (S k) a))
    /\ NoDup (row_key <$> merged_view Both d a).
Proof.
  intros Hd Ha. set (all := js_sort compare_merged (tagged_both d a)). exists all.
  assert (P : all ≡ₚ tagged_both d a) by apply js_sort_perm.
  assert (So : StronglySorted shown_before all).
  { apply sorted_weak_strict; [|rewrite P; apply tagged_both_arrivals].
    apply (js_sort_sorted compare_merged (fun _ => True)); [apply compare_merged_consistent|by apply Forall_true]. }
  assert (E : merged_view Both d a = keep_last LINE_CAP all) by apply capped_keep_last.
  split; [done|]. split; [done|]. split; [done|].
  split; [exact (stream_in_view NDaprd all d a So P Hd)|]. split; [exact (stream_in_view NApp all d a So P Ha)|].
  do 2 (split; [intros k m H; by apply tag_from_carries in H|]).
  rewrite E. unfold keep_last. rewrite fmap_drop.
  eapply sublist_NoDup; [|apply sublist_drop]. rewrite P. by apply row_keys_nodup.
Qed.

Definition sample_line (seq : Z) (t : string) : LogLine :=
  {| ll_seq := seq; ll_text := u t; ll_level := parseLogLevel (u t) |}.
Definition sample_daprd : list LogLine := [sample_line 0 "starting"; sample_line 1 "12:00:01.5 up"].
Definition sample_app : list LogLine := [sample_line 0 "12:00:01 hello"; sample_line 1 "12:00:02 bye"].

Lemma merged_view_in_order_witness :
  map row_key (merged_view Both sample_daprd sample_app) = [(NDaprd, 0); (NApp, 0); (NDaprd, 1); (NApp, 1)]
  /\ exists all, merged_view Both sample_daprd sample_app = keep_last LINE_CAP all
     /\ mg_line <$> from NDaprd all = sample_daprd.
Proof.
  split; [vm_compute; reflexivity|].
  assert (N : NoDup [0; 1]) by (by apply (bool_decide_unpack _)).
  destruct (merged_view_in_order sample_daprd sample_app) as (all & E & _ & _ & D & _); [exact N|exact N|].
  exists all. split; [exact E|]. apply D. vm_compute. repeat constructor; discriminate.
Defined.

(** The clock token has no date: lines written after midnight are shown above
    those written before it, and at the cap they are the ones dropped. *)
Theorem midnight_reorders_view :
  let d := [sample_line 0 "2024-01-01T23:59:59 last"; sample_line 1 "2024-01-02T00:00:01 first"] in
  mg_line <$> merged_view Both d [] = rev d.
Proof. vm_compute. reflexivity. Qed.
