(* ===== verification/RunCode.v ===== *)
(** * Run codes

    [runtime/share.ts]: a tape as a text a player can paste.  Compression, the
    UTF-8 codec and the JSON grammar are the platform's: the class [Platform]
    holds them, [PlatformLaws] what is documented of them. *)

From S2P Require Import Prelude JsNum Types Json RuntimeTypes RngFacts Binary64 Validate Tape Persistence Text Base64.
#[local] Open Scope Z_scope.

(** ** Definitions *)

Definition RUN_CODE_PREFIX : text := u "RPL1.".
Definition MAX_RUN_CODE : Z := 256 * 1024.
Definition MAX_TAPE_JSON : Z := 4 * 1024 * 1024.

(** What a (de)compression stream delivers: chunks, then its end or an error. *)
Record Stream := { st_chunks : list (list Z); st_fails : bool }.

Class Platform := {
  encode_json : json -> list Z;
  decode_json : list Z -> option json;
  deflate_raw : list Z -> Stream;
  inflate_raw : list Z -> Stream
}.

(** The reading loop: [None] is a throw, ["too large"] or the stream's own. A
    missing limit is infinity. *)
Fixpoint read_chunks (limit : option Z) (size : Z) (chunks : list (list Z)) (fails : bool)
    : option (list (list Z) * Z) :=
  match chunks with
  | [] => if fails then None else Some ([], size)
  | value :: chunks =>
      let size := size + Z.of_nat (length value) in
      if match limit with Some limit => limit <? size | None => false end then None
      else
        match read_chunks limit size chunks fails with
        | Some (read, size) => Some (value :: read, size)
        | None => None
        end
  end.

(** [out.set(c, offset)] of a typed array. *)
Definition array_set (c : list Z) (offset : nat) (out : list Z) : list Z :=
  take offset out ++ c ++ drop (offset + length c) out.

Fixpoint copy_chunks (chunks : list (list Z)) (offset : nat) (out : list Z) : list Z :=
  match chunks with
  | [] => out
  | c :: chunks => copy_chunks chunks (offset + length c) (array_set c offset out)
  end.

Definition pipe (stream : Stream) (limit : option Z) : option (list Z) :=
  match read_chunks limit 0 stream.(st_chunks) stream.(st_fails) with
  | Some (chunks, size) => Some (copy_chunks chunks 0 (replicate (Z.to_nat size) 0))
  | None => None
  end.

(** [String.fromCharCode] of slices of 0x8000 bytes; the fuel is the number of
    bytes left. *)
Fixpoint char_codes (fuel : nat) (bytes : list Z) : text :=
  match fuel with
  | O => []
  | S fuel =>
      match bytes with
      | [] => []
      | _ => take (Z.to_nat 32768) bytes ++ char_codes fuel (drop (Z.to_nat 32768) bytes)
      end
  end.

Definition replace_char (a b : Z) (t : text) : text := map (fun c => if c =? a then b else c) t.

Definition toBase64Url (bytes : list Z) : text :=
  let bin := char_codes (length bytes) bytes in
  drop_while_end (Z.eqb PAD) (replace_char 47 95 (replace_char 43 45 (btoa bin))).

Definition fromBase64Url (t : text) : option (list Z) :=
  let b64 := replace_char 95 47 (replace_char 45 43 t) in
  atob (b64 ++ replicate ((4 - length b64 mod 4) mod 4) PAD).

Section RunCodes.
Context `{Platform}.

(** [None]: compression failed, the promise rejects. *)
Definition encodeRun (tape : Tape) : option text :=
  match pipe (deflate_raw (encode_json (json_of_tape tape))) None with
  | Some bytes => Some (RUN_CODE_PREFIX ++ toBase64Url bytes)
  | None => None
  end.

Definition shareableRunCode (tape : Tape) : option (option text) :=
  match encodeRun tape with
  | Some code => Some (if MAX_RUN_CODE <? Z.of_nat (length code) then None else Some code)
  | None => None
  end.

Definition remove_spaces (t : text) : text := List.filter (fun c => negb (js_space c)) t.

Definition decodeRun (code : text) : option Tape :=
  let clean := remove_spaces code in
  if negb (starts_with clean RUN_CODE_PREFIX) || (MAX_RUN_CODE <? Z.of_nat (length clean)) then None
  else
    bytes ← fromBase64Url (drop (length RUN_CODE_PREFIX) clean);
    json ← pipe (inflate_raw bytes) (Some MAX_TAPE_JSON);
    data ← decode_json json;
    if isTape (Some data) then Some (tape_of_json data) else None.
End RunCodes.

(** ** Piping *)

(** Reading keeps every chunk, in order, and adds their sizes up. *)
Lemma read_chunks_spec limit chunks : forall size fails read total,
  read_chunks limit size chunks fails = Some (read, total) ->
  read = chunks /\ total = size + Z.of_nat (length (concat chunks)) /\ fails = false
  /\ match limit with Some l => chunks <> [] -> total <= l | None => True end.
Proof.
  induction chunks as [|c chunks IH]; intros size fails read total; cbn [read_chunks concat].
  - destruct fails; [done|]. intros [= <- <-]. split_and!; [done|simpl; lia|done|by destruct limit].
  - destruct (match limit with Some _ => _ | None => _ end) eqn:L; [done|].
    destruct (read_chunks _ _ _ _) as [[r t]|] eqn:E; [|done]. intros [= <- <-].
    apply IH in E as (-> & -> & -> & Hl). rewrite length_app.
    split_and!; [done|lia|done|]. destruct limit as [l|]; [|done]. intros _.
    apply Z.ltb_ge in L. destruct chunks; [simpl; lia|by apply Hl].
Qed.

(** Copying each chunk to its offset puts them one after the other. *)
Lemma copy_chunks_concat chunks : forall pre,
  copy_chunks chunks (length pre) (pre ++ replicate (length (concat chunks)) 0) = pre ++ concat chunks.
Proof.
  induction chunks as [|c chunks IH]; intros pre; cbn [copy_chunks concat]; [done|].
  unfold array_set. rewrite length_app, replicate_add, take_app_length, drop_app_ge by lia.
  replace (length pre + length c - length pre)%nat with (length (replicate (length c) 0)) at 1
    by (rewrite length_replicate; lia).
  rewrite drop_app_length, app_assoc, <- length_app, IH. by rewrite app_assoc.
Qed.

Lemma copy_all chunks : copy_chunks chunks 0 (replicate (length (concat chunks)) 0) = concat chunks.
Proof. exact (copy_chunks_concat chunks []). Qed.

Lemma pipe_spec stream limit bytes :
  pipe stream limit = Some bytes ->
  bytes = concat stream.(st_chunks) /\ stream.(st_fails) = false
  /\ match limit with Some l => 0 <= l -> Z.of_nat (length bytes) <= l | None => True end.
Proof.
  unfold pipe. destruct (read_chunks _ _ _ _) as [[r t]|] eqn:E; [|done]. intros [= <-].
  apply read_chunks_spec in E as (-> & -> & Hf & Hl).
  rewrite Z.add_0_l, Nat2Z.id. rewrite copy_all. split_and!; [done|done|].
  destruct limit as [l|]; [|done]. intros Hl0. destruct (st_chunks stream) eqn:C; [done|].
  specialize (Hl ltac:(done)). lia.
Qed.

Lemma read_chunks_within limit chunks : forall size,
  match limit with Some l => size + Z.of_nat (length (concat chunks)) <= l | None => True end ->
  read_chunks limit size chunks false = Some (chunks, size + Z.of_nat (length (concat chunks))).
Proof.
  induction chunks as [|c chunks IH]; intros size Hl; cbn [read_chunks concat] in *; [simpl; by rewrite Z.add_0_r|].
  rewrite length_app in *.
  assert (E : match limit with Some l => l <? size + Z.of_nat (length c) | None => false end = false).
  { destruct limit as [l|]; [|done]. apply Z.ltb_ge. lia. }
  rewrite E, IH; [do 2 f_equal; lia|]. destruct limit; [lia|done].
Qed.

Lemma pipe_within stream limit :
  stream.(st_fails) = false ->
  match limit with Some l => Z.of_nat (length (concat stream.(st_chunks))) <= l | None => True end ->
  pipe stream limit = Some (concat stream.(st_chunks)).
Proof.
  intros Hf Hl. unfold pipe. rewrite Hf, read_chunks_within; [|done].
  rewrite Z.add_0_l, Nat2Z.id. f_equal. apply copy_all.
Qed.

(** ** Base64url *)

Lemma char_codes_id fuel : forall bytes, (length bytes <= fuel)%nat -> char_codes fuel bytes = bytes.
Proof.
  induction fuel as [|fuel IH]; intros [|b bytes] Hl; cbn [length char_codes] in *; [done|lia|done|].
  rewrite IH; [apply take_drop|]. rewrite length_drop. cbn [length]. lia.
Qed.

(** The URL-safe digit of a value, and the digits it has. *)
Definition url_digit (v : Z) : Z :=
  let c := digit v in let c := if c =? 43 then 45 else c in if c =? 47 then 95 else c.
Definition url_char (c : Z) : bool := is_word c || (c =? 45).
Definition url_ok (v : Z) : bool :=
  let c := url_digit v in let b := if c =? 45 then 43 else c in
  ((if b =? 95 then 47 else b) =? digit v) && url_char c && negb (PAD =? c) && negb (js_space c).

Lemma url_checked v : 0 <= v < 64 -> url_ok v = true.
Proof. intros Hv. apply (forall_below 64 url_ok); [vm_compute; reflexivity|lia]. Qed.

Lemma url_digits vs :
  replace_char 47 95 (replace_char 43 45 (map digit vs)) = map url_digit vs.
Proof. unfold replace_char. rewrite !map_map. done. Qed.

Lemma url_digits_back vs : Forall (fun v => 0 <= v < 64) vs ->
  replace_char 95 47 (replace_char 45 43 (map url_digit vs)) = map digit vs.
Proof.
  unfold replace_char. rewrite !map_map. induction 1 as [|v vs Hv Hvs IH]; [done|]. cbn [map].
  rewrite IH. f_equal. apply url_checked in Hv. unfold url_ok in Hv.
  apply andb_true_iff in Hv as [[[H%Z.eqb_eq _]%andb_true_iff _]%andb_true_iff _]. done.
Qed.

Lemma strip_url vs (pad : text) : Forall (fun v => 0 <= v < 64) vs -> Forall (eq PAD) pad ->
  drop_while_end (Z.eqb PAD) (map url_digit vs ++ pad) = map url_digit vs.
Proof.
  intros Hv Hp. unfold drop_while_end. rewrite rev_app_distr, <- map_rev.
  assert (E : forall l : text, drop_while (Z.eqb PAD) (rev pad ++ l) = drop_while (Z.eqb PAD) l).
  { intros l. apply Forall_rev in Hp. induction Hp as [|c p Hc Hp' IH]; [done|]. cbn [app drop_while].
    subst c. by rewrite Z.eqb_refl. }
  rewrite E. apply Forall_rev in Hv. rewrite <- (rev_involutive (map url_digit vs)), <- map_rev. f_equal.
  destruct Hv as [|v l Hv Hl]; [done|]. cbn [map drop_while]. apply url_checked in Hv. unfold url_ok in Hv.
  apply andb_true_iff in Hv as [[_ H%negb_true_iff]%andb_true_iff _]. by rewrite H.
Qed.

Lemma padding_pads bytes : Forall (eq PAD) (padding bytes).
Proof. induction bytes using by_three; cbn; by repeat constructor. Qed.

Lemma replace_padding bytes : replace_char 47 95 (replace_char 43 45 (padding bytes)) = padding bytes.
Proof.
  unfold replace_char. rewrite map_map. induction (padding_pads bytes) as [|c l <- Hl IH]; [done|].
  cbn [map]. by rewrite IH.
Qed.

Lemma toBase64Url_digits bytes : Forall byte bytes -> toBase64Url bytes = map url_digit (sextets bytes).
Proof.
  intros H. unfold toBase64Url. rewrite char_codes_id by done. rewrite btoa_sextets.
  unfold replace_char. rewrite !map_app. fold (replace_char 43 45 (map digit (sextets bytes))).
  fold (replace_char 43 45 (padding bytes)).
  fold (replace_char 47 95 (replace_char 43 45 (map digit (sextets bytes)))).
  fold (replace_char 47 95 (replace_char 43 45 (padding bytes))).
  rewrite url_digits, replace_padding. apply strip_url; [by apply sextets_range|apply padding_pads].
Qed.

Lemma padding_repeat bytes :
  replicate ((4 - length (sextets bytes) mod 4) mod 4) PAD = padding bytes.
Proof.
  induction bytes as [| | |a b c l IH] using by_three; [done..|]. cbn [sextets padding length app].
  rewrite <- IH. replace (Datatypes.S (S (S (S (length (sextets l))))))
    with (length (sextets l) + 1 * 4)%nat by lia. by rewrite Nat.Div0.mod_add.
Qed.

Lemma fromBase64Url_back bytes : Forall byte bytes -> fromBase64Url (toBase64Url bytes) = Some bytes.
Proof.
  intros H. rewrite toBase64Url_digits by done. unfold fromBase64Url.
  rewrite url_digits_back by (by apply sextets_range). rewrite length_map, padding_repeat, <- btoa_sextets.
  by apply atob_btoa.
Qed.

Lemma toBase64Url_safe bytes : Forall byte bytes -> Forall (fun c => url_char c = true) (toBase64Url bytes).
Proof.
  intros H. rewrite toBase64Url_digits by done. apply sextets_range in H. apply Forall_map.
  eapply Forall_impl; [exact H|]. intros v Hv%url_checked. unfold url_ok in Hv.
  by apply andb_true_iff in Hv as [[[_ Hc]%andb_true_iff _]%andb_true_iff _].
Qed.

Lemma toBase64Url_spaceless bytes : Forall byte bytes ->
  remove_spaces (toBase64Url bytes) = toBase64Url bytes.
Proof.
  intros H. rewrite toBase64Url_digits by done. apply sextets_range in H. unfold remove_spaces.
  induction H as [|v vs Hv Hvs IH]; [done|]. cbn [map List.filter]. apply url_checked in Hv. unfold url_ok in Hv.
  apply andb_true_iff in Hv as [_ Hc]. by rewrite Hc, IH.
Qed.

Lemma remove_spaces_idem t : remove_spaces (remove_spaces t) = remove_spaces t.
Proof.
  unfold remove_spaces. induction t as [|c t IH]; [done|]. cbn [List.filter].
  destruct (negb (js_space c)) eqn:E; [|done]. cbn [List.filter]. by rewrite E, IH.
Qed.

(** ** Codes *)

(** What is documented of the platform: compression inverts, both texts do,
    and streams carry bytes. *)
Class PlatformLaws `{Platform} (ok : Tape -> Prop) := {
  encode_bytes : forall v, Forall byte (encode_json v);
  deflate_total : forall b, (deflate_raw b).(st_fails) = false;
  deflate_bytes : forall b, Forall byte b -> Forall byte (concat (deflate_raw b).(st_chunks));
  inflate_total : forall b, Forall byte b -> (inflate_raw (concat (deflate_raw b).(st_chunks))).(st_fails) = false;
  inflate_deflate : forall b,
    Forall byte b -> concat (inflate_raw (concat (deflate_raw b).(st_chunks))).(st_chunks) = b;
  decode_encode : forall t, ok t -> decode_json (encode_json (json_of_tape t)) = Some (json_of_tape t)
}.

(** A tape the recorder can write. *)
Definition shareable (t : Tape) : Prop := tape_safe t /\ tape_plain t /\ tape_wf t.

(** ** Whitespace is ignored *)

Lemma decodeRun_clean `{Platform} code : decodeRun (remove_spaces code) = decodeRun code.
Proof. unfold decodeRun. by rewrite remove_spaces_idem. Qed.

Lemma prefix_plain t : remove_spaces (RUN_CODE_PREFIX ++ t) = RUN_CODE_PREFIX ++ remove_spaces t.
Proof. reflexivity. Qed.

Lemma encodeRun_code `{Platform} ok `{!PlatformLaws ok} tape :
  encodeRun tape
  = Some (RUN_CODE_PREFIX ++ toBase64Url (concat (deflate_raw (encode_json (json_of_tape tape))).(st_chunks))).
Proof. unfold encodeRun. rewrite pipe_within; [done|apply deflate_total|done]. Qed.

Lemma shared_code_opens `{Platform} ok `{!PlatformLaws ok} (tape : Tape) (code : text) :
  ok tape -> shareable tape ->
  Z.of_nat (length (encode_json (json_of_tape tape))) <= MAX_TAPE_JSON ->
  shareableRunCode tape = Some (Some code) -> decodeRun code = Some tape.
Proof.
  intros Hok (Hs & Hp & Hw) Hl Hc. revert Hc. unfold shareableRunCode. rewrite (encodeRun_code ok).
  set (z := concat _). pose proof (encode_bytes (json_of_tape tape)) as Hb.
  assert (Hz : Forall byte z) by by apply deflate_bytes.
  destruct (MAX_RUN_CODE <? _) eqn:L; [done|]. intros E. apply (inj Some), (inj Some) in E. subst code.
  unfold decodeRun. rewrite prefix_plain, toBase64Url_spaceless, L, starts_with_app by done.
  cbn [negb orb]. rewrite drop_app_length, fromBase64Url_back by done. cbn [mbind option_bind].
  rewrite pipe_within; [|by apply inflate_total|by unfold z; rewrite inflate_deflate].
  cbn [mbind option_bind]. unfold z. rewrite inflate_deflate, decode_encode by done. cbn [mbind option_bind].
  rewrite (proj2 (isTape_written tape Hs)) by done. by rewrite tape_roundtrip.
Qed.

(** C16: A run code that is shared is a run code that opens: for every tape a
    recorder can write, whatever code [shareableRunCode] hands out decodes to
    exactly that tape, also after the code has been broken over lines or padded
    with blanks, provided its JSON is within the limit the decoder accepts. *)
Theorem shared_code_decodes `{Platform} ok `{!PlatformLaws ok} (tape : Tape) (code pasted : text) :
  ok tape -> shareable tape ->
  Z.of_nat (length (encode_json (json_of_tape tape))) <= MAX_TAPE_JSON ->
  shareableRunCode tape = Some (Some code) ->
  remove_spaces pasted = remove_spaces code ->
  decodeRun pasted = Some tape.
Proof.
  intros Hok Hs Hl Hc Hpaste. rewrite <- decodeRun_clean, Hpaste, decodeRun_clean.
  by apply (shared_code_opens ok).
Qed.

(** C19: The decoder is safe on any pasted text: it accepts only a text with
    the prefix and at most [MAX_RUN_CODE] characters of it, never holds more
    than [MAX_TAPE_JSON] bytes of decompressed JSON, and returns only values
    that pass the tape check; all else is [None]. *)
Theorem decodeRun_accepts_only `{Platform} (code : text) (tape : Tape) :
  decodeRun code = Some tape ->
  exists body bytes json data,
    remove_spaces code = RUN_CODE_PREFIX ++ body
    /\ Z.of_nat (length (remove_spaces code)) <= MAX_RUN_CODE
    /\ fromBase64Url body = Some bytes
    /\ json = concat (inflate_raw bytes).(st_chunks) /\ Z.of_nat (length json) <= MAX_TAPE_JSON
    /\ decode_json json = Some data /\ isTape (Some data) = true /\ tape = tape_of_json data.
Proof.
  unfold decodeRun. destruct (starts_with _ _) eqn:P; [|done].
  apply starts_with_true in P as [body E]. rewrite E.
  destruct (MAX_RUN_CODE <? _) eqn:L; [done|]. cbn [negb orb]. apply Z.ltb_ge in L.
  rewrite drop_app_length. destruct (fromBase64Url body) as [bytes|] eqn:B; [|done]. cbn [mbind option_bind].
  destruct (pipe _ _) as [json|] eqn:J; [|done]. cbn [mbind option_bind].
  destruct (decode_json json) as [data|] eqn:D; [|done]. cbn [mbind option_bind].
  destruct (isTape (Some data)) eqn:T; [|done]. intros [= <-].
  apply pipe_spec in J as (-> & _ & Hl). exists body, bytes, (concat (inflate_raw bytes).(st_chunks)), data.
  split_and!; try done. apply Hl. unfold MAX_TAPE_JSON. lia.
Qed.

(** ** Witnesses *)

(** A platform that stores, in chunks: its JSON is two bytes that stand for one tape. *)
Definition one_tape : Tape := {| tp_date := "2026-01-31"%string;
  tp_inputs := [(3, Jump); (9, JumpEnd)]; tp_impure := [of_Z 7; of_Z (W32 - 1)]; tp_chaos := [];
  tp_restarts := []; tp_liveTick := 40 |}.
#[local] Instance one_platform : Platform := {
  encode_json := fun _ => [123; 125];
  decode_json := fun b => if bool_decide (b = [123; 125]) then Some (json_of_tape one_tape) else None;
  deflate_raw := fun b => {| st_chunks := [take 1 b; drop 1 b]; st_fails := false |};
  inflate_raw := fun b => {| st_chunks := [b]; st_fails := false |} }.
#[local] Instance one_laws : PlatformLaws (eq one_tape).
Proof.
  split; cbn -[json_of_tape one_tape]; intros; rewrite ?app_nil_r, ?take_drop; try done.
  - repeat constructor; done.
  - by subst t.
Qed.

Lemma one_tape_u32 : Forall u32 one_tape.(tp_impure).
Proof.
  apply Forall_cons. split; [exists 7; split; [unfold W32; lia|done]|].
  apply Forall_cons. split; [exists (W32 - 1); split; [unfold W32; lia|done]|constructor].
Qed.

Lemma one_tape_shareable : shareable one_tape.
Proof.
  split_and!; [split_and!|split_and!|split_and!]; try exact one_tape_u32; try constructor; try done;
    simpl; try lia; repeat constructor; simpl; unfold safe_int; try lia; vm_compute; reflexivity.
Qed.

Lemma shared_code_decodes_witness : decodeRun (u "RPL1." ++ [10] ++ u "e30" ++ [32]) = Some one_tape.
Proof.
  apply (shared_code_decodes (eq one_tape) one_tape (u "RPL1.e30"));
    [reflexivity|exact one_tape_shareable|vm_compute; discriminate|vm_compute; reflexivity|vm_compute; reflexivity].
Defined.

Lemma one_tape_decodes : decodeRun (u "RPL1.e30") = Some (tape_of_json (json_of_tape one_tape)).
Proof. vm_compute. reflexivity. Qed.

Lemma decodeRun_accepts_only_witness :
  exists body bytes json data,
    remove_spaces (u "RPL1.e30") = RUN_CODE_PREFIX ++ body
    /\ Z.of_nat (length (remove_spaces (u "RPL1.e30"))) <= MAX_RUN_CODE
    /\ fromBase64Url body = Some bytes
    /\ json = concat (inflate_raw bytes).(st_chunks) /\ Z.of_nat (length json) <= MAX_TAPE_JSON
    /\ decode_json json = Some data /\ isTape (Some data) = true
    /\ tape_of_json (json_of_tape one_tape) = tape_of_json data.
Proof. exact (decodeRun_accepts_only (u "RPL1.e30") _ one_tape_decodes). Defined.
