(* ===== verification/Loop.v ===== *)
(** * Frames, keys and days

    [runtime/loop.ts]: animation frames into ticks, with the browser's
    [requestAnimationFrame] and the frame callback as parameters;
    [runtime/keys.ts]: keyboard events into commands; [runtime/daily.ts]: the
    key of the daily seed. *)

From Stdlib Require Import Ascii.
From S2P Require Import Prelude JsNum Decimal Types RuntimeTypes Json Text.
#[local] Open Scope Z_scope.

(** ** loop.ts *)

Definition MAX_TICKS_PER_FRAME : Z := 5.
Definition TICK_MS : num := (1000 / of_Z TICK_HZ)%float.

Section Loops.
(** [onFrame] runs on the caller's state and may stop the loop; [raf] hands
    out the id of the frame it asks for. *)
Context {W : Type} (onFrame : num -> num -> W -> W * bool) (raf : W -> Z * W) (caf : Z -> W -> W).

(** The closure's variables, and the frame the browser still owes. *)
Record Loop := {
  lp_last : option num;
  lp_acc : num;
  lp_stopped : bool;
  lp_id : Z;
  lp_world : W
}.

Definition startLoop (w : W) : Loop :=
  let (id, w) := raf w in
  {| lp_last := None; lp_acc := 0; lp_stopped := false; lp_id := id; lp_world := w |}.

(** [stop]. *)
Definition stop_loop (l : Loop) : Loop :=
  {| l with lp_stopped := true; lp_world := caf l.(lp_id) l.(lp_world) |}.

(** The ticks a frame runs and the time it leaves. *)
Definition frame_ticks (now : num) (l : Loop) : num * num :=
  let acc := (l.(lp_acc) + match l.(lp_last) with None => 0 | Some last => now - last end)%float in
  let ticks := num_floor (acc / TICK_MS)%float in
  let acc := (acc - ticks * TICK_MS)%float in
  if (of_Z MAX_TICKS_PER_FRAME <? ticks)%float then (of_Z MAX_TICKS_PER_FRAME, 0%float) else (ticks, acc).

Definition frame (now : num) (l : Loop) : Loop :=
  if l.(lp_stopped) then l
  else
    let (ticks, acc) := frame_ticks now l in
    let l := {| l with lp_last := Some now; lp_acc := acc |} in
    let (w, stops) := onFrame ticks (acc / TICK_MS)%float l.(lp_world) in
    let l := {| l with lp_world := w |} in
    let l := if stops : bool then stop_loop l else l in
    if l.(lp_stopped) then l else let (id, w) := raf l.(lp_world) in {| l with lp_id := id; lp_world := w |}.
End Loops.

Arguments Loop : clear implicits.

(** ** keys.ts *)

(** ASCII lower case; no other letter's lower case is a key of the game. *)
Definition lower_ascii (c : ascii) : ascii :=
  let n := N_of_ascii c in if (65 <=? n)%N && (n <=? 90)%N then ascii_of_N (n + 32) else c.

Definition key_name (key : string) : string :=
  match key with String c EmptyString => String (lower_ascii c) EmptyString | _ => key end.

(** [none] is [null]. *)
Definition keyToCommand (key : string) (repeat down : bool) : option Command :=
  let key := key_name key in
  let eq := String.eqb key in
  if negb down then
    if eq "ArrowDown"%string || eq "s"%string then Some CSlideEnd
    else if eq " "%string || eq "ArrowUp"%string || eq "w"%string then Some CJumpEnd
    else None
  else if repeat then None
  else if eq " "%string || eq "ArrowUp"%string || eq "w"%string then Some CJump
  else if eq "ArrowDown"%string || eq "s"%string then Some CSlideStart
  else if eq "Enter"%string then Some CConfirm
  else if eq "Escape"%string then Some CCancel
  else if eq "p"%string then Some CPause
  else None.

(** ** daily.ts *)

(** The civil date of a day counted from 1970-01-01: years run from March, so
    that the leap day is the last of its year. *)
Definition civil (days : Z) : Z * Z * Z :=
  let z := days + 719468 in
  let era := z / 146097 in
  let doe := z mod 146097 in
  let yoe := (doe - doe / 1460 + doe / 36524 - doe / 146096) / 365 in
  let doy := doe - (365 * yoe + yoe / 4 - yoe / 100) in
  let mp := (5 * doy + 2) / 153 in
  let d := doy - (153 * mp + 2) / 5 + 1 in
  let m := if mp <? 10 then mp + 3 else mp - 9 in
  (yoe + era * 400 + (if m <=? 2 then 1 else 0), m, d).

(** The date part of [toISOString]: years outside 0..9999 have a sign and six
    digits. *)
Definition iso_date (ms : Z) : string :=
  let '(y, m, d) := civil (ms / 86400000) in
  let year := if (0 <=? y) && (y <=? 9999) then padded 4 y
              else if y <? 0 then ("-" ++ padded 6 (- y))%string else ("+" ++ padded 6 y)%string in
  (year ++ "-" ++ padded 2 m ++ "-" ++ padded 2 d)%string.

(** [now] is a time value; what [slice(0, 10)] keeps is within the date part. *)
Definition utcDate (now : Z) : string := String.substring 0 10 (iso_date now).

(** ** The calendar *)

(** The reference: the day of a civil date, by the lengths of the months and the
    leap years before it. *)
Definition is_leap (y : Z) : bool := (y mod 4 =? 0) && (negb (y mod 100 =? 0) || (y mod 400 =? 0)).
Definition month_days (y m : Z) : Z :=
  if m =? 2 then if is_leap y then 29 else 28
  else if (m =? 4) || (m =? 6) || (m =? 9) || (m =? 11) then 30 else 31.
(** Days before month [m] of year [y]. *)
Definition days_before_month (y m : Z) : Z :=
  fold_left (fun n k => n + month_days y (Z.of_nat k)) (seq 1 (Z.to_nat (m - 1))) 0.
Definition days_before_year (y : Z) : Z := 365 * y + (y + 3) / 4 - (y + 99) / 100 + (y + 399) / 400.
Definition day_of_date (y m d : Z) : Z := days_before_year y + days_before_month y m + (d - 1) - 719528.

(** The day of its 400-year era a March-based year begins on. *)
Definition year_start (yoe : Z) : Z := if yoe =? 400 then 146097 else 365 * yoe + yoe / 4 - yoe / 100.
(** The formula of [civil] for 365 times the year of a day of the era. *)
Definition year_days (doe : Z) : Z := doe - doe / 1460 + doe / 36524 - doe / 146096.
Definition month_start (mp : Z) : Z := (153 * mp + 2) / 5.
Definition month_of (mp : Z) : Z := if mp <? 10 then mp + 3 else mp - 9.
Definition year_of (yoe mp : Z) : Z := yoe + (if month_of mp <=? 2 then 1 else 0).

(** The years and months of one era are checked; the others repeat them. *)
Definition year_ok (yoe : Z) : bool :=
  (365 * yoe <=? year_days (year_start yoe)) && (year_days (year_start (yoe + 1) - 1) <? 365 * (yoe + 1))
  && (year_start (yoe + 1) - year_start yoe <=? 366) && (year_start yoe <? year_start (yoe + 1)).
Definition month_ok (k : Z) : bool :=
  let yoe := k / 12 in let mp := k mod 12 in
  (day_of_date (year_of yoe mp) (month_of mp) 1 + 719468 =? year_start yoe + month_start mp)
  && ((if mp =? 11 then year_start (yoe + 1) - year_start yoe else month_start (mp + 1)) - month_start mp
      =? month_days (year_of yoe mp) (month_of mp)).

Fixpoint check_from (fuel : nat) (k : Z) (f : Z -> bool) : bool :=
  match fuel with O => true | S fuel => if f k then check_from fuel (k + 1) f else false end.

Lemma check_from_sound f fuel : forall k,
  check_from fuel k f = true -> forall v, k <= v < k + Z.of_nat fuel -> f v = true.
Proof.
  induction fuel as [|fuel IH]; intros k H v Hv; [lia|]. cbn [check_from] in H. destruct (f k) eqn:E; [|done].
  destruct (decide (v = k)) as [->|]; [done|]. apply (IH (k + 1)); [done|lia].
Qed.

Lemma years_checked : check_from 400 0 year_ok = true.
Proof. vm_compute. reflexivity. Qed.
Lemma months_checked : check_from 4800 0 month_ok = true.
Proof. vm_compute. reflexivity. Qed.

Lemma year_days_mono a b : 0 <= a -> a <= b < 146097 -> year_days a <= year_days b.
Proof.
  intros H0 [H1 H2]. revert H2. pattern b. apply Zlt_lower_bound_ind with (z := a); [|done].
  clear b H1. intros b IH Hb H2. destruct (decide (b = a)) as [->|]; [lia|].
  transitivity (year_days (b - 1)); [apply IH; lia|]. unfold year_days. clear IH.
  Z.to_euclidean_division_equations; lia.
Qed.

(** The year of a day of the era. *)
Lemma year_of_day doe : 0 <= doe < 146097 ->
  let yoe := year_days doe / 365 in
  0 <= yoe < 400 /\ year_start yoe <= doe < year_start (yoe + 1).
Proof.
  intros H.
  assert (X : exists k, 0 <= k < 400 /\ year_start k <= doe < year_start (k + 1)).
  { assert (G : forall n, (n <= 400)%nat -> doe < year_start (Z.of_nat n) ->
      exists k, 0 <= k < Z.of_nat n /\ year_start k <= doe < year_start (k + 1)).
    { induction n as [|n IH]; intros Hn Hd; [change (year_start (Z.of_nat 0)) with 0 in Hd; lia|].
      destruct (Z.lt_ge_cases doe (year_start (Z.of_nat n))) as [Hl|Hg].
      - destruct (IH ltac:(lia) Hl) as (k & ? & ?). exists k. lia.
      - exists (Z.of_nat n). replace (Z.of_nat n + 1) with (Z.of_nat (S n)) by lia. lia. }
    apply (G 400%nat); [lia|]. change (year_start (Z.of_nat 400)) with 146097. lia. }
  destruct X as (k & Hk & Hs & He). pose proof (check_from_sound _ _ _ years_checked k ltac:(lia)) as C.
  unfold year_ok in C. bool_to_prop. destruct C as [[[C1 C2] C3] C4].
  assert (E1 : 365 * k <= year_days doe).
  { etransitivity; [exact C1|]. apply year_days_mono; [|lia]. unfold year_start.
    destruct (k =? 400); [lia|]. Z.to_euclidean_division_equations; lia. }
  assert (E2 : year_days doe < 365 * (k + 1)).
  { eapply Z.le_lt_trans; [apply (year_days_mono _ (year_start (k + 1) - 1)); [lia|]|exact C2].
    split; [lia|]. unfold year_start. destruct (k + 1 =? 400) eqn:E; [lia|].
    Z.to_euclidean_division_equations; lia. }
  cbv zeta. replace (year_days doe / 365) with k by (Z.to_euclidean_division_equations; lia). lia.
Qed.

Lemma month_of_day doy : 0 <= doy < 366 ->
  let mp := (5 * doy + 2) / 153 in 0 <= mp < 12 /\ month_start mp <= doy < month_start (mp + 1).
Proof. intros H. unfold month_start. cbv zeta. Z.to_euclidean_division_equations; lia. Qed.

Lemma civil_in_era doe : 0 <= doe < 146097 ->
  let '(y, m, d) := civil (doe - 719468) in
  1 <= m <= 12 /\ 1 <= d <= month_days y m /\ day_of_date y m d = doe - 719468.
Proof.
  intros H. unfold civil. cbv zeta. replace (doe - 719468 + 719468) with doe by lia.
  rewrite (Z.div_small doe), (Z.mod_small doe) by lia.
  fold (year_days doe). destruct (year_of_day doe H) as [Hy Hd]. set (yoe := year_days doe / 365) in *.
  pose proof (check_from_sound _ _ _ years_checked yoe ltac:(lia)) as C. unfold year_ok in C. bool_to_prop.
  destruct C as [[_ C] _].
  assert (S0 : year_start yoe = 365 * yoe + yoe / 4 - yoe / 100).
  { unfold year_start. destruct (Z.eqb_spec yoe 400); lia. }
  rewrite <- S0. set (doy := doe - year_start yoe). destruct (month_of_day doy ltac:(lia)) as [Hm Hdm].
  set (mp := (5 * doy + 2) / 153) in *. fold (month_start mp).
  assert (K1 : (12 * yoe + mp) / 12 = yoe) by (Z.to_euclidean_division_equations; lia).
  assert (K2 : (12 * yoe + mp) mod 12 = mp) by (Z.to_euclidean_division_equations; lia).
  pose proof (check_from_sound _ _ _ months_checked (12 * yoe + mp) ltac:(lia)) as D. unfold month_ok in D.
  rewrite K1, K2 in D. cbv zeta in D. bool_to_prop. destruct D as [D1 D2].
  fold (month_of mp). replace (yoe + 0 * 400) with yoe by lia. fold (year_of yoe mp).
  assert (M : 1 <= month_of mp <= 12) by (unfold month_of; destruct (Z.ltb_spec mp 10); lia).
  assert (L : day_of_date (year_of yoe mp) (month_of mp) (doy - month_start mp + 1)
              = day_of_date (year_of yoe mp) (month_of mp) 1 + (doy - month_start mp)) by (unfold day_of_date; lia).
  rewrite L. destruct (Z.eqb_spec mp 11); lia.
Qed.

(** A day [e] eras later is the same date 400 [e] years later. *)
Lemma civil_era e z : civil (z + e * 146097) = let '(y, m, d) := civil z in (y + 400 * e, m, d).
Proof.
  unfold civil. cbv zeta. replace (z + e * 146097 + 719468) with (z + 719468 + e * 146097) by lia.
  rewrite Z_mod_plus_full, Z_div_plus_full by lia. f_equal. f_equal. lia.
Qed.

Lemma is_leap_era e y : is_leap (y + 400 * e) = is_leap y.
Proof.
  unfold is_leap.
  replace (y + 400 * e) with (y + (100 * e) * 4) at 1 by lia.
  replace (y + 400 * e) with (y + (4 * e) * 100) at 1 by lia.
  replace (y + 400 * e) with (y + e * 400) by lia. by rewrite !Z_mod_plus_full.
Qed.

Lemma month_days_era e y m : month_days (y + 400 * e) m = month_days y m.
Proof. unfold month_days. by rewrite is_leap_era. Qed.

Lemma day_of_date_era e y m d : day_of_date (y + 400 * e) m d = day_of_date y m d + e * 146097.
Proof.
  unfold day_of_date.
  assert (E : days_before_month (y + 400 * e) m = days_before_month y m).
  { unfold days_before_month. generalize (seq 1 (Z.to_nat (m - 1))). intros l. generalize 0.
    induction l as [|k l IH]; intros n; [done|]. cbn [fold_left]. by rewrite month_days_era, IH. }
  rewrite E. unfold days_before_year. Z.to_euclidean_division_equations; lia.
Qed.

Lemma civil_correct days :
  let '(y, m, d) := civil days in 1 <= m <= 12 /\ 1 <= d <= month_days y m /\ day_of_date y m d = days.
Proof.
  pose proof (Z.div_mod (days + 719468) 146097 ltac:(lia)) as E.
  pose proof (Z.mod_pos_bound (days + 719468) 146097 ltac:(lia)) as B.
  set (e := (days + 719468) / 146097) in *. set (doe := (days + 719468) mod 146097) in *.
  replace days with (doe - 719468 + e * 146097) by lia. rewrite civil_era.
  apply civil_in_era in B. destruct (civil (doe - 719468)) as [[y m] d].
  rewrite day_of_date_era, month_days_era. lia.
Qed.

Lemma padded_matches w n rest mask :
  matches_mask (replicate w true ++ mask) (String.list_ascii_of_string (padded w n ++ rest))
  = matches_mask mask (String.list_ascii_of_string rest).
Proof.
  revert n rest mask. induction w as [|w IH]; intros n rest mask; [done|]. cbn [padded].
  rewrite string_app_assoc. replace (replicate (S w) true ++ mask) with (replicate w true ++ (true :: mask))
    by (rewrite replicate_S_end, <- app_assoc; done).
  rewrite IH.
  transitivity (is_digit (ascii_of_N (Z.to_N (48 + n mod 10)))
    && matches_mask mask (String.list_ascii_of_string rest)); [reflexivity|].
  pose proof (Z.mod_pos_bound n 10 ltac:(lia)) as Hd.
  assert (D : is_digit (ascii_of_N (Z.to_N (48 + n mod 10))) = true).
  { set (k := n mod 10) in *.
    assert (C : k = 0 \/ k = 1 \/ k = 2 \/ k = 3 \/ k = 4 \/ k = 5 \/ k = 6 \/ k = 7 \/ k = 8 \/ k = 9) by lia.
    repeat (destruct C as [->|C]; [done|]). by rewrite C. }
  by rewrite D.
Qed.

(** The date key of a daily seed is right: for every time in the years 0 to
    9999 it has the form the tape check demands, and the year, month and day it
    prints are the civil date of that UTC day: a month of the year, a day of
    that month (leap years included), and exactly the day counted. *)
Theorem utcDate_is_the_day (now : Z) :
  let '(y, m, d) := civil (now / 86400000) in
  0 <= y <= 9999 ->
  utcDate now = (padded 4 y ++ "-" ++ padded 2 m ++ "-" ++ padded 2 d)%string
  /\ is_date (utcDate now) = true
  /\ 1 <= m <= 12 /\ 1 <= d <= month_days y m /\ day_of_date y m d = now / 86400000.
Proof.
  pose proof (civil_correct (now / 86400000)) as C. unfold utcDate, iso_date.
  destruct (civil (now / 86400000)) as [[y m] d]. intros Hy.
  rewrite (proj2 (Z.leb_le 0 y)), (proj2 (Z.leb_le y 9999)) by lia. cbn [andb].
  assert (E : String.substring 0 10 (padded 4 y ++ "-" ++ padded 2 m ++ "-" ++ padded 2 d)
              = (padded 4 y ++ "-" ++ padded 2 m ++ "-" ++ padded 2 d)%string) by reflexivity.
  rewrite E. split; [done|]. split; [|done]. unfold is_date.
  change date_mask with (replicate 4 true ++ (false :: (replicate 2 true ++ (false :: replicate 2 true ++ [])))).
  assert (D : forall t mask, matches_mask (false :: mask) (String.list_ascii_of_string ("-" ++ t))
    = matches_mask mask (String.list_ascii_of_string t)) by reflexivity.
  rewrite padded_matches, D, padded_matches, D.
  assert (A : forall s, (s ++ "")%string = s).
  { induction s as [|c s IH]; [reflexivity|]. exact (f_equal (String c) IH). }
  rewrite <- (A (padded 2 d)). by rewrite padded_matches.
Qed.

Lemma utcDate_is_the_day_witness :
  utcDate 951782400000 = "2000-02-29"%string /\ is_date (utcDate 951782400000) = true.
Proof.
  destruct (utcDate_is_the_day 951782400000) as (E & D & _); [vm_compute; split; discriminate|].
  split; [rewrite E; reflexivity|exact D].
Defined.
