(* ===== verification/ApiTypes.v ===== *)
(** * API data

    [types/workflow.ts], [types/api.ts]: what the backend's list endpoints
    return. Optional fields are options: an absent field is [None]. Texts are
    [string]s (code units below 256). *)

From S2P Require Import Prelude JsNum.
#[local] Open Scope Z_scope.

(** ** types/workflow.ts *)

Inductive WorkflowStatus := Pending | Running | Completed | Failed | Terminated | Suspended.
#[export] Instance WorkflowStatus_eq_dec : EqDecision WorkflowStatus.
Proof. solve_decision. Defined.

Record WorkflowSummary := {
  wf_appId : string;
  wf_instanceId : string;
  wf_name : string;
  wf_status : WorkflowStatus;
  wf_parentInstanceId : option string;
  wf_createdAt : option string;
  wf_lastUpdatedAt : option string
}.

Record WorkflowFailureDetails := {
  fd_errorType : option string;
  fd_message : option string;
  fd_stackTrace : option string
}.

Record WorkflowHistoryEvent := {
  ev_sequenceId : Z;
  ev_timestamp : string;
  ev_type : string;
  ev_name : option string;
  ev_instanceId : option string;
  ev_scheduledId : option Z;
  ev_input : option string;
  ev_output : option string;
  ev_failureDetails : option WorkflowFailureDetails
}.

Record WorkflowExecution := {
  we_summary : WorkflowSummary;
  we_input : option string;
  we_output : option string;
  we_customStatus : option string;
  we_replayCount : Z;
  we_failureDetails : option WorkflowFailureDetails;
  we_history : list WorkflowHistoryEvent
}.

Record StateStore := {
  ss_id : string;
  ss_name : string;
  ss_type : string;
  ss_source : string;
  ss_path : string;
  ss_active : bool;
  ss_connection : string;
  ss_updatedAt : option string;
  ss_secretIssue : option string
}.

(** ** types/api.ts *)

Inductive HealthStatus := Healthy | Starting | Unhealthy | UnknownHealth.
#[export] Instance HealthStatus_eq_dec : EqDecision HealthStatus.
Proof. solve_decision. Defined.

Inductive ProcStatus := ProcRunning | ProcStopped.
#[export] Instance ProcStatus_eq_dec : EqDecision ProcStatus.
Proof. solve_decision. Defined.

Inductive AppSource := SrcStandalone | SrcCompose | SrcAspire | SrcTestcontainers.
#[export] Instance AppSource_eq_dec : EqDecision AppSource.
Proof. solve_decision. Defined.

Record ComponentRef := { cr_name : string; cr_type : string; cr_version : option string }.

Record AppSummary := {
  ap_appId : string;
  ap_instanceKey : option string;
  ap_health : HealthStatus;
  ap_runtime : string;
  ap_isAspire : option bool;
  ap_label : option string;
  ap_testcontainersSession : option string;
  ap_namespace : option string;
  ap_source : option AppSource;
  ap_composeProject : option string;
  ap_sidecarReachable : option bool;
  ap_httpPort : Z;
  ap_grpcPort : Z;
  ap_appPort : Z;
  ap_appProtocol : option string;
  ap_daprdPid : Z;
  ap_appPid : Z;
  ap_cliPid : Z;
  ap_appStatus : option ProcStatus;
  ap_daprdStatus : option ProcStatus;
  ap_appStartedAt : option string;
  ap_daprdStartedAt : option string;
  ap_sidecarOrphaned : option bool;
  ap_age : string;
  ap_created : string;
  ap_runTemplate : string;
  ap_components : option (list ComponentRef);
  ap_httpEndpoints : option (list string)
}.
