(* ===== verification/Apps.v ===== *)
(** * Application labels

    The small functions that say how an instance is shown:
    [lib/appDisplayState.ts], [lib/runtimeSwatch.ts], [lib/modeLabel.ts],
    [lib/modeToken.ts], [lib/runtimeToken.ts], [lib/appKey.ts],
    [lib/storeTypes.ts], [lib/parseEnum.ts]. *)

From S2P Require Import Prelude JsNum Text ApiTypes.
#[local] Open Scope string_scope.

(** ** Health *)

Definition health_name (h : HealthStatus) : string :=
  match h with Healthy => "healthy" | Starting => "starting" | Unhealthy => "unhealthy" | UnknownHealth => "unknown" end.

Definition ledClass (health : HealthStatus) : string :=
  match health with
  | Healthy => "ok"
  | Starting => "warn"
  | Unhealthy => "bad"
  | UnknownHealth => "warn"
  end.

Record DisplayState := { ds_label : string; ds_led : string; ds_hint : option string }.

Definition appDisplayState (app : AppSummary) : DisplayState :=
  if bool_decide (app.(ap_appStatus) = Some ProcStopped) && bool_decide (app.(ap_daprdStatus) = Some ProcStopped) then
    {| ds_label := "stopped"; ds_led := "off"; ds_hint := None |}
  else if default false app.(ap_sidecarOrphaned) then
    {| ds_label := "orphaned"; ds_led := "warn";
       ds_hint := Some "sidecar has no supervising dapr CLI and no app — safe to stop" |}
  else if bool_decide (app.(ap_health) = Healthy) && bool_decide (app.(ap_appStatus) = Some ProcStopped) then
    {| ds_label := "app down"; ds_led := "warn"; ds_hint := Some "app process is not running" |}
  else {| ds_label := health_name app.(ap_health); ds_led := ledClass app.(ap_health); ds_hint := None |}.

(** ** Runtimes *)

Definition runtimeSwatch (runtime : string) : string :=
  let r := toLowerCase (u runtime) in
  let includes_ t := includes r (u t) in
  if includes_ "go" then "#00ADD8"
  else if includes_ "python" || includes_ "py" then "#3776AB"
  else if includes_ "node" || includes_ "js" then "#539E43"
  else if includes_ ".net" || includes_ "dotnet" then "#8330FF"
  else if includes_ "java" then "#ED8B00"
  else if includes_ "rust" then "#CE422B"
  else "var(--faint)".

Definition KNOWN : list string := ["go"; "python"; "node"; "dotnet"; "java"; "rust"].

Definition runtimeToken (runtime : option string) : option text :=
  match runtime with
  | None | Some EmptyString => None
  | Some runtime =>
      let r := toLowerCase (trim (u runtime)) in
      if existsb (text_eqb r) (map u KNOWN) then Some r else None
  end.

(** ** Discovery modes *)

Definition is_aspire (app : AppSummary) : bool :=
  default false app.(ap_isAspire) || bool_decide (app.(ap_source) = Some SrcAspire).

Definition modeLabel (app : AppSummary) : string :=
  if is_aspire app then "Aspire"
  else
    match app.(ap_source) with
    | Some SrcCompose => "Compose"
    | Some SrcTestcontainers => "TestContainers"
    | Some SrcStandalone => "Dapr run"
    | _ => "—"
    end.

Definition modeToken (app : AppSummary) : option string :=
  if is_aspire app then Some "aspire"
  else
    match app.(ap_source) with
    | Some SrcCompose => Some "compose"
    | Some SrcTestcontainers => Some "test-containers"
    | Some SrcStandalone => Some "dapr-run"
    | _ => None
    end.

(** ** Keys, stores, enumerations *)

Definition appKey (app : AppSummary) : string :=
  match app.(ap_instanceKey) with Some EmptyString | None => app.(ap_appId) | Some key => key end.

Definition SUPPORTED_STORE_TYPES : list string := ["state.redis"; "state.sqlite"; "state.postgresql"; "state.mongodb"].

Definition LABELS : list (string * string) :=
  [("state.redis", "Redis"); ("state.sqlite", "SQLite"); ("state.postgresql", "PostgreSQL");
   ("state.mongodb", "MongoDB")].

Definition storeTypeLabel (type : string) : string :=
  match List.find (fun kv => String.eqb kv.1 type) LABELS with Some kv => kv.2 | None => type end.

Definition implFor (type : string) : string :=
  if String.prefix "state." type then String.substring 6 (String.length type - 6) type else type.

Definition parseEnum (value : option string) (allowed : list string) (fallback : string) : string :=
  match value with
  | Some v => if existsb (String.eqb v) allowed then v else fallback
  | None => fallback
  end.

(** ** Facts *)

(** The state shown for an instance is the one the two process halves
    determine, with the stated precedence: stopped (both halves) before
    orphaned before app down before plain sidecar health; and a row is green
    only for a healthy sidecar that has a supervisor and whose app is not
    known to be stopped. *)
Theorem appDisplayState_precedence (app : AppSummary) :
  let stopped := app.(ap_appStatus) = Some ProcStopped /\ app.(ap_daprdStatus) = Some ProcStopped in
  let orphaned := app.(ap_sidecarOrphaned) = Some true in
  let down := app.(ap_health) = Healthy /\ app.(ap_appStatus) = Some ProcStopped in
  let shown := appDisplayState app in
  (stopped -> shown.(ds_label) = "stopped" /\ shown.(ds_led) = "off")
  /\ (~ stopped -> orphaned -> shown.(ds_label) = "orphaned" /\ shown.(ds_led) = "warn")
  /\ (~ stopped -> ~ orphaned -> down -> shown.(ds_label) = "app down" /\ shown.(ds_led) = "warn")
  /\ (~ stopped -> ~ orphaned -> ~ down -> shown.(ds_label) = health_name app.(ap_health))
  /\ (shown.(ds_led) = "ok" <->
      app.(ap_health) = Healthy /\ app.(ap_appStatus) <> Some ProcStopped /\ ~ orphaned).
Proof.
  cbv zeta. unfold appDisplayState.
  destruct (decide (ap_appStatus app = Some ProcStopped)) as [A|A];
    destruct (decide (ap_daprdStatus app = Some ProcStopped)) as [D|D];
    destruct (ap_sidecarOrphaned app) as [[|]|] eqn:O; destruct (ap_health app) eqn:H;
    rewrite ?A; rewrite ?bool_decide_true, ?bool_decide_false by done;
    rewrite ?(bool_decide_false (ap_appStatus app = _) A) by done; cbn; split_and!; naive_solver.
Qed.
