(* ===== verification/AppPages.v ===== *)
(** * The application pages

    [pages/Applications.tsx]: the list and its counts; [pages/AppDetail.tsx]:
    which lifecycle actions are offered for an instance, and the way from a
    click to a request, with [hooks/useAppAction.ts].  The server's capabilities
    are a record; an answer of the server is an event. *)

From S2P Require Import Prelude JsNum Text ApiTypes Apps.
#[local] Open Scope Z_scope.
#[local] Open Scope string_scope.

(** ** Data *)

(** [lib/capabilities.ts]: what the server injected, everything on when it
    injected nothing. *)
Record Capabilities := {
  cap_lifecycle : bool;
  cap_controlPlane : bool;
  cap_logs : bool;
  cap_workflows : bool;
  cap_state : option bool;
  cap_secretReveal : option bool;
  cap_mode : option string
}.

Definition FULL : Capabilities := {|
  cap_lifecycle := true; cap_controlPlane := true; cap_logs := true; cap_workflows := true;
  cap_state := Some true; cap_secretReveal := Some true; cap_mode := Some "" |}.
Definition getCapabilities (injected : option Capabilities) : Capabilities := default FULL injected.

Record AppDetail := {
  ad_summary : AppSummary;
  ad_resourcePaths : list string;
  ad_configPath : string;
  ad_appLogPath : string;
  ad_daprdLogPath : string;
  ad_command : string;
  ad_runtimeVersion : string;
  ad_metadataOk : bool;
  ad_composeService : option string;
  ad_daprdContainerId : option string;
  ad_daprdContainerName : option string;
  ad_appContainerId : option string;
  ad_appContainerName : option string;
  ad_enabledFeatures : option (list string);
  ad_actors : option (list (string * Z));
  ad_subscriptions : option (list (string * string));
  ad_placement : option string
}.

Inductive AppTarget := TargetApp | TargetDaprd | TargetAll.
Inductive AppLifecycleAction := ActStart | ActStop | ActRestart.
#[export] Instance AppTarget_eq_dec : EqDecision AppTarget.
Proof. solve_decision. Defined.
#[export] Instance AppLifecycleAction_eq_dec : EqDecision AppLifecycleAction.
Proof. solve_decision. Defined.

Inductive Request := Lifecycle (target : AppTarget) (action : AppLifecycleAction) | Forget.
#[export] Instance Request_eq_dec : EqDecision Request.
Proof. solve_decision. Defined.

(** ** The list *)

Definition status_is (s : option ProcStatus) (x : ProcStatus) : bool := bool_decide (s = Some x).
Definition source_is (a : AppSummary) (x : AppSource) : bool := bool_decide (a.(ap_source) = Some x).

Definition isStopped (a : AppSummary) : bool :=
  status_is a.(ap_appStatus) ProcStopped && status_is a.(ap_daprdStatus) ProcStopped.

Definition count {A} (f : A -> bool) (l : list A) : nat := length (List.filter f l).
Definition label_in (labels : list string) (a : AppSummary) : bool :=
  existsb (String.eqb (appDisplayState a).(ds_label)) labels.

Record Stats := {
  st_running : nat;
  st_healthy : nat;
  st_starting : nat;
  st_unhealthy : nat;
  st_components : nat;
  st_inactive : nat
}.

Definition stats (apps : list AppSummary) : Stats := {|
  st_running := count (fun a => negb (isStopped a)) apps;
  st_healthy := count (label_in ["healthy"]) apps;
  st_starting := count (label_in ["starting"]) apps;
  st_unhealthy := count (label_in ["unhealthy"; "app down"; "orphaned"]) apps;
  st_components := fold_left (fun n a => (n + length (default [] a.(ap_components)))%nat) apps 0%nat;
  st_inactive := count isStopped apps |}.

(** The row's Remove button, its second line and its unreachable mark. *)
Definition row_removable (caps : Capabilities) (a : AppSummary) : bool := caps.(cap_lifecycle) && isStopped a.
Definition unreachable (a : AppSummary) : bool :=
  source_is a SrcCompose && bool_decide (a.(ap_sidecarReachable) = Some false) && negb (status_is a.(ap_daprdStatus) ProcStopped).
Definition secondary (a : AppSummary) : option string :=
  if negb (String.eqb (appKey a) a.(ap_appId)) then Some (appKey a)
  else match a.(ap_label) with
       | Some label => if negb (String.eqb label "") && negb (String.eqb label a.(ap_appId)) then Some label else None
       | None => None
       end.
Definition clear_inactive_offered (caps : Capabilities) (apps : list AppSummary) : bool :=
  caps.(cap_lifecycle) && (0 <? (stats apps).(st_inactive))%nat.

(** ** What the detail page offers *)

Definition is_compose (a : AppSummary) : bool := source_is a SrcCompose.
Definition is_testcontainers (a : AppSummary) : bool := source_is a SrcTestcontainers.
Definition aspire (a : AppSummary) : bool := default false a.(ap_isAspire).
Definition running (s : option ProcStatus) : bool := status_is s ProcRunning.
Definition stopped (s : option ProcStatus) : bool := status_is s ProcStopped.
Definition anyRunning (a : AppSummary) : bool := running a.(ap_appStatus) || running a.(ap_daprdStatus).
Definition allStopped (a : AppSummary) : bool :=
  (stopped a.(ap_appStatus) || stopped a.(ap_daprdStatus)) && negb (running a.(ap_appStatus)) && negb (running a.(ap_daprdStatus)).
Definition orphaned (a : AppSummary) : bool := default false a.(ap_sidecarOrphaned).
Definition removable (a : AppSummary) : bool := stopped a.(ap_appStatus) && stopped a.(ap_daprdStatus).

(** [dapr run] supervises both halves: its sidecar panel acts on the whole. *)
Definition daprdTarget (a : AppSummary) : AppTarget := if is_compose a || aspire a then TargetDaprd else TargetAll.

Definition when {A} (b : bool) (l : list A) : list A := if b then l else [].

Definition panelActions (caps : Capabilities) (a : AppSummary) (target : AppTarget) (status : option ProcStatus) : list Request :=
  if negb caps.(cap_lifecycle) || is_testcontainers a then []
  else when (running status) (when (is_compose a) [Lifecycle target ActRestart] ++ [Lifecycle target ActStop])
       ++ when (stopped status && is_compose a) [Lifecycle target ActStart].

Definition headerActions (caps : Capabilities) (a : AppSummary) : list Request :=
  when (caps.(cap_lifecycle) && negb (is_testcontainers a) && anyRunning a)
    (when (is_compose a) [Lifecycle TargetAll ActRestart] ++ [Lifecycle TargetAll ActStop])
  ++ when (caps.(cap_lifecycle) && removable a) [Forget]
  ++ when (caps.(cap_lifecycle) && is_compose a && allStopped a) [Lifecycle TargetAll ActStart].

(** Every button of the page that asks for something. *)
Definition offered_requests (caps : Capabilities) (a : AppSummary) : list Request :=
  headerActions caps a ++ panelActions caps a TargetApp a.(ap_appStatus)
  ++ panelActions caps a (daprdTarget a) a.(ap_daprdStatus).

Definition appPidDisplay (number_text : Z -> string) (d : AppDetail) : string :=
  if negb d.(ad_metadataOk) then "unknown"
  else if (d.(ad_summary).(ap_appPid) =? 0)%Z then "—" else number_text d.(ad_summary).(ap_appPid).

(** ** From a click to a request *)

(** [throwIfNotOK]: the message of an answer that is no success; [error] is the
    text of the body's [error], if there is one. *)
Definition throwIfNotOK (number_text : Z -> string) (status : Z) (error : option string) : option string :=
  if (200 <=? status)%Z && (status <=? 299)%Z then None
  else Some (default ("request failed: " ++ number_text status) error).

(** The answer to a request: a response, or no response at all. *)
Inductive Answer := Response (status : Z) (error : option string) | NoResponse (message : string).
Definition failure (number_text : Z -> string) (a : Answer) : option string :=
  match a with Response status error => throwIfNotOK number_text status error | NoResponse message => Some message end.

Record DetailState := {
  dt_app : AppSummary;
  dt_confirm : option (Request * bool);   (* the request, and whether the instance was orphaned then *)
  dt_action : option (Request * bool);    (* the lifecycle request under way *)
  dt_forget : bool;                       (* whether the removal is under way *)
  dt_toast : option string;
  dt_home : bool;                         (* whether the page was left for the list *)
  dt_sent : list Request
}.

Inductive AppPageEvent :=
  | DPoll (app : AppSummary)
  | DClick (r : Request)
  | DConfirm
  | DCancel
  | DActionAnswer (a : Answer)
  | DForgetAnswer (a : Answer).

(** A button is disabled while a lifecycle request is under way; Remove also
    while a removal is. *)
Definition enabled (s : DetailState) (r : Request) : bool :=
  match s.(dt_action) with Some _ => false | None => match r with Forget => negb s.(dt_forget) | _ => true end end.

Section Detail.
Context (caps : Capabilities) (number_text : Z -> string).

Definition detail_step (s : DetailState) (e : AppPageEvent) : DetailState :=
  match e with
  | DPoll app => {| s with dt_app := app |}
  | DClick r =>
      if bool_decide (r ∈ offered_requests caps s.(dt_app)) && enabled s r
         && match s.(dt_confirm) with None => true | Some _ => false end
      then {| s with dt_confirm := Some (r, orphaned s.(dt_app)) |} else s
  | DConfirm =>
      match s.(dt_confirm) with
      | Some (Lifecycle t a, o) =>
          {| s with dt_confirm := None; dt_action := Some (Lifecycle t a, o); dt_sent := Lifecycle t a :: s.(dt_sent) |}
      | Some (Forget, _) => {| s with dt_confirm := None; dt_forget := true; dt_sent := Forget :: s.(dt_sent) |}
      | None => s
      end
  | DCancel => {| s with dt_confirm := None |}
  | DActionAnswer a =>
      match s.(dt_action) with
      | Some (r, o) =>
          match failure number_text a with
          | Some message => {| s with dt_action := None; dt_toast := Some message |}
          | None =>
              {| s with dt_action := None;
                        dt_home := s.(dt_home) || o && match r with Lifecycle _ ActStop => true | _ => false end |}
          end
      | None => s
      end
  | DForgetAnswer a =>
      if s.(dt_forget) then
        match failure number_text a with
        | Some message => {| s with dt_forget := false; dt_toast := Some message |}
        | None => {| s with dt_forget := false; dt_home := true |}
        end
      else s
  end.

Definition opened_detail (app : AppSummary) : DetailState := {|
  dt_app := app; dt_confirm := None; dt_action := None; dt_forget := false; dt_toast := None; dt_home := false; dt_sent := [] |}.
Definition detail_run (app : AppSummary) (es : list AppPageEvent) : DetailState := fold_left detail_step es (opened_detail app).

(** ** The counts of the list *)

Lemma count_add {A} (f g h : A -> bool) l :
  (forall a, (Nat.b2n (f a) + Nat.b2n (g a) = Nat.b2n (h a))%nat) -> (count f l + count g l = count h l)%nat.
Proof.
  intros H. unfold count. induction l as [|a l IH]; [done|]. specialize (H a). cbn.
  destruct (f a), (g a), (h a); cbn in *; lia.
Qed.

Lemma count_all {A} (l : list A) : count (fun _ => true) l = length l.
Proof. unfold count. by induction l as [|a l IH]; cbn; [|rewrite IH]. Qed.

Lemma labels_split a :
  (Nat.b2n (label_in ["healthy"] a) + Nat.b2n (label_in ["starting"] a)
   + Nat.b2n (label_in ["unhealthy"; "app down"; "orphaned"] a) + Nat.b2n (label_in ["unknown"] a) + Nat.b2n (isStopped a) = 1)%nat.
Proof.
  unfold label_in, appDisplayState, isStopped, status_is.
  destruct (bool_decide (ap_appStatus a = Some ProcStopped) && bool_decide (ap_daprdStatus a = Some ProcStopped)); [done|].
  destruct (default false (ap_sidecarOrphaned a)); [done|].
  destruct (bool_decide (ap_health a = Healthy) && bool_decide (ap_appStatus a = Some ProcStopped)); [done|].
  by destruct (ap_health a).
Qed.

(** The cards account for every instance: running and inactive ones are all of
    them, and each is inactive, of unknown health, or on one of the three health
    cards, the one its row shows. *)
Theorem stats_add_up (apps : list AppSummary) :
  let s := stats apps in
  (s.(st_running) + s.(st_inactive) = length apps)%nat
  /\ (s.(st_healthy) + s.(st_starting) + s.(st_unhealthy) + count (label_in ["unknown"]) apps + s.(st_inactive) = length apps)%nat.
Proof.
  cbv zeta. cbn [stats st_running st_healthy st_starting st_unhealthy st_inactive]. split.
  - rewrite (count_add _ _ (fun _ => true)); [apply count_all|]. intros a. by destruct (isStopped a).
  - unfold count. induction apps as [|a l IH]; [done|]. pose proof (labels_split a) as H. cbn [List.filter length].
    destruct (label_in ["healthy"] a), (label_in ["starting"] a), (label_in ["unhealthy"; "app down"; "orphaned"] a),
      (label_in ["unknown"] a), (isStopped a); cbn in *; lia.
Qed.

(** ** What is offered makes sense *)

Lemma elem_when {A} (b : bool) (l : list A) x : x ∈ when b l <-> b = true /\ x ∈ l.
Proof. destruct b; cbn; [tauto|]. split; [by intros ?%elem_of_nil|by intros []]. Qed.

(** What a target's halves must be for an action. *)
Definition target_status (a : AppSummary) (t : AppTarget) (p : option ProcStatus -> bool) : bool :=
  match t with
  | TargetApp => p a.(ap_appStatus)
  | TargetDaprd => p a.(ap_daprdStatus)
  | TargetAll => p a.(ap_appStatus) || p a.(ap_daprdStatus)
  end.

Lemma panel_requests a target status r :
  r ∈ panelActions caps a target status ->
  caps.(cap_lifecycle) = true /\ is_testcontainers a = false
  /\ exists act, r = Lifecycle target act
     /\ match act with
        | ActStop => running status = true
        | ActRestart => running status = true /\ is_compose a = true
        | ActStart => stopped status = true /\ is_compose a = true
        end.
Proof.
  unfold panelActions. destruct (cap_lifecycle caps), (is_testcontainers a); cbn [negb orb]; try by intros ?%elem_of_nil.
  intros H. split_and!; [done|done|]. rewrite elem_of_app, !elem_when, elem_of_app, elem_when, !list_elem_of_singleton in H.
  destruct H as [[Hr [[Hc ->]| ->]]|[[Hs Hc]%andb_true_iff ->]]; eexists; (split; [reflexivity|]); done.
Qed.

(** C28: The lifecycle actions offered for an instance fit its state.  Nothing is
    offered without the capability; start and restart only for compose; stop and
    restart only where a half of the target runs, start only where one is
    stopped and none runs; removal only when both halves are stopped; and an
    orphaned sidecar, which compose never has, offers nothing but stop and,
    once stopped, removal. *)
Theorem offered_actions_fit (a : AppSummary) (r : Request) :
  r ∈ offered_requests caps a ->
  caps.(cap_lifecycle) = true
  /\ match r with
     | Forget => isStopped a = true
     | Lifecycle t act =>
         is_testcontainers a = false
         /\ match act with
            | ActStop => target_status a t running = true
            | ActRestart => target_status a t running = true /\ is_compose a = true
            | ActStart => target_status a t stopped = true /\ target_status a t running = false /\ is_compose a = true
            end
     end
  /\ (orphaned a = true -> is_compose a = false -> match r with Lifecycle _ ActStop | Forget => True | _ => False end).
Proof.
  assert (Ex : forall s, stopped s = true -> running s = false).
  { unfold stopped, running, status_is. by intros [[]|]. }
  assert (Tc : is_compose a = true -> is_testcontainers a = false).
  { unfold is_compose, is_testcontainers, source_is. rewrite bool_decide_eq_true, bool_decide_eq_false. congruence. }
  unfold offered_requests, headerActions. rewrite !elem_of_app, !elem_when, elem_of_app, elem_when, !list_elem_of_singleton.
  intros [[[H [[Hc ->]| ->]]|[[H ->]|[H ->]]]|[H|H]].
  - rewrite !andb_true_iff, negb_true_iff in H. destruct H as [[H1 H2] H3]. split_and!; [done|done|done|done|congruence].
  - rewrite !andb_true_iff, negb_true_iff in H. destruct H as [[H1 H2] H3]. by split_and!.
  - apply andb_true_iff in H as [H1 H2]. by split_and!.
  - rewrite !andb_true_iff in H. destruct H as [[H1 H2] H3]. unfold allStopped in H3.
    rewrite !andb_true_iff, !negb_true_iff in H3. destruct H3 as [[H3 H4] H5].
    split_and!; [done|by apply Tc|done| |done|congruence]. cbn. by rewrite H4, H5.
  - apply panel_requests in H as (H1 & H2 & act & -> & H3).
    destruct act; split_and!; try done; try (by apply H3); try (by intros _ H4; destruct H3; congruence). apply Ex, H3.
  - apply panel_requests in H as (H1 & H2 & act & -> & H3). unfold daprdTarget.
    destruct act; (destruct (is_compose a) eqn:Ec; cbn [orb];
      [|try (by destruct H3)]); try (destruct (aspire a)); cbn [target_status];
      split_and!; try done; try (by apply H3); try (by apply Ex, H3); try (by rewrite H3, orb_true_r).
Qed.

(** ** Requests are offered, clicked and confirmed *)

(** A click on [r], offered for the instance as it was shown then, in the
    events [es] of the page of [app]. *)
Definition clicked_offered (app : AppSummary) (es : list AppPageEvent) (r : Request) : Prop :=
  exists es1 es2, es = (es1 ++ DClick r :: es2)%list /\ r ∈ offered_requests caps (detail_run app es1).(dt_app).

(** The same, followed by a confirmation. *)
Definition confirmed (app : AppSummary) (es : list AppPageEvent) (r : Request) : Prop :=
  exists es1 es2 es3, es = (es1 ++ DClick r :: es2 ++ DConfirm :: es3)%list
    /\ r ∈ offered_requests caps (detail_run app es1).(dt_app).

Record detail_ok (app : AppSummary) (es : list AppPageEvent) (s : DetailState) : Prop := {
  dk_confirm : forall r o, s.(dt_confirm) = Some (r, o) ->
    clicked_offered app es r /\ match r with Lifecycle _ _ => s.(dt_action) = None | Forget => s.(dt_forget) = false end;
  dk_sent : Forall (confirmed app es) s.(dt_sent);
  dk_action : forall r o, s.(dt_action) = Some (r, o) -> r ∈ s.(dt_sent)
}.

Lemma clicked_more app es e r : clicked_offered app es r -> clicked_offered app (es ++ [e])%list r.
Proof. intros (es1 & es2 & -> & H). exists es1, (es2 ++ [e])%list. split; [|done]. by rewrite <- app_assoc. Qed.

Lemma confirmed_more app es e r : confirmed app es r -> confirmed app (es ++ [e])%list r.
Proof.
  intros (es1 & es2 & es3 & -> & H). exists es1, es2, (es3 ++ [e])%list. split; [|done].
  rewrite <- app_assoc. cbn. by rewrite <- app_assoc.
Qed.

Lemma clicked_confirmed app es r : clicked_offered app es r -> confirmed app (es ++ [DConfirm])%list r.
Proof. intros (es1 & es2 & -> & H). exists es1, es2, []. split; [|done]. by rewrite <- app_assoc. Qed.

Lemma detail_run_snoc app es e :
  detail_run app (es ++ [e])%list = detail_step (detail_run app es) e.
Proof. unfold detail_run. by rewrite fold_left_app. Qed.

Lemma detail_run_ok app es : detail_ok app es (detail_run app es).
Proof.
  induction es as [|e es [IC IS IA]] using rev_ind; [by constructor|]. rewrite detail_run_snoc.
  set (s := detail_run app es) in *.
  assert (Sent : Forall (confirmed app (es ++ [e])%list) s.(dt_sent)).
  { eapply Forall_impl; [exact IS|]. intros r. apply confirmed_more. }
  assert (Same : forall r o, s.(dt_confirm) = Some (r, o) -> clicked_offered app (es ++ [e])%list r).
  { intros r o H. apply clicked_more. by eapply IC. }
  destruct e as [a|r| | |a|a]; cbn [detail_step].
  - constructor; [|done|done]. intros r o H. split; [by eapply Same|by apply (IC r o)].
  - destruct (_ && _ && _) eqn:E.
    + rewrite !andb_true_iff, bool_decide_eq_true in E. destruct E as [[Hr He] _]. constructor; [|done|done].
      intros r' o [= <- _]. split; [by exists es, []|]. unfold enabled in He. cbn.
      destruct (dt_action s); [done|]. destruct r; [done|]. by apply negb_true_iff.
    + constructor; [|done|done]. intros r' o H. split; [by eapply Same|by apply (IC r' o)].
  - destruct (dt_confirm s) as [[[t act|] o]|] eqn:Ec.
    + constructor; [done| |].
      * constructor; [|done]. by apply clicked_confirmed, (IC _ o).
      * intros r' o' [= <- _]. by left.
    + constructor; [done| |].
      * constructor; [|done]. by apply clicked_confirmed, (IC _ o).
      * intros r' o' H. right. by apply (IA r' o').
    + constructor; [|done|done]. by rewrite Ec.
  - by constructor.
  - case_eq (dt_action s); [intros [r o] Ea|intros Ea].
    + destruct (failure number_text a); constructor; try done; cbn; intros r' o' H; (split; [by eapply Same|]);
        destruct r'; try done; by destruct (IC _ o' H).
    + constructor; [|done|done]. intros r' o' H. split; [by eapply Same|by apply (IC r' o')].
  - case_eq (dt_forget s); intros Ef.
    + destruct (failure number_text a); constructor; try done; cbn; intros r' o' H; (split; [by eapply Same|]);
        destruct r'; try done; by destruct (IC _ o' H).
    + constructor; [|done|done]. intros r' o' H. split; [by eapply Same|by apply (IC r' o')].
Qed.

(** Every request the detail page sends was offered for the instance shown
    when its button was clicked, and confirmed afterwards; and no lifecycle
    request is confirmed while another is under way. *)
Theorem requests_confirmed (app : AppSummary) (es : list AppPageEvent) :
  Forall (confirmed app es) (detail_run app es).(dt_sent)
  /\ forall t a o, (detail_run app es).(dt_confirm) = Some (Lifecycle t a, o) ->
       (detail_run app es).(dt_action) = None.
Proof.
  destruct (detail_run_ok app es) as [IC IS _]. split; [done|]. intros t a o H. by apply (IC _ _ H).
Qed.
End Detail.

Definition sample_app (source : AppSource) (app_status daprd_status : ProcStatus) : AppSummary := {|
  ap_appId := "orders"; ap_instanceKey := None; ap_health := Healthy; ap_runtime := "go"; ap_isAspire := None;
  ap_label := None; ap_testcontainersSession := None; ap_namespace := None; ap_source := Some source;
  ap_composeProject := None; ap_sidecarReachable := None; ap_httpPort := 3500; ap_grpcPort := 50001; ap_appPort := 8080;
  ap_appProtocol := None; ap_daprdPid := 1; ap_appPid := 2; ap_cliPid := 3; ap_appStatus := Some app_status;
  ap_daprdStatus := Some daprd_status; ap_appStartedAt := None; ap_daprdStartedAt := None; ap_sidecarOrphaned := None;
  ap_age := ""; ap_created := ""; ap_runTemplate := ""; ap_components := None; ap_httpEndpoints := None |}.

Lemma offered_actions_fit_witness :
  offered_requests FULL (sample_app SrcCompose ProcStopped ProcRunning)
  = [Lifecycle TargetAll ActRestart; Lifecycle TargetAll ActStop; Lifecycle TargetApp ActStart;
     Lifecycle TargetDaprd ActRestart; Lifecycle TargetDaprd ActStop]
  /\ target_status (sample_app SrcCompose ProcStopped ProcRunning) TargetApp stopped = true.
Proof.
  split; [vm_compute; reflexivity|].
  destruct (offered_actions_fit FULL (sample_app SrcCompose ProcStopped ProcRunning) (Lifecycle TargetApp ActStart))
    as (_ & (_ & H & _) & _); [vm_compute; do 2 right; left|exact H].
Defined.
