(* ===== verification/ControlPlane.v ===== *)
(** * The control plane page

    [pages/ControlPlane.tsx] with [types/controlplane.ts] and the request of
    [hooks/useControlPlane.ts]: what the page says, how services are grouped,
    and which actions are offered and sent. *)

From S2P Require Import Prelude Text.
#[local] Open Scope string_scope.

(** ** Data *)

Inductive ServiceStatus := SvcRunning | SvcStopped | SvcUnknown.

Record ControlPlaneService := {
  cs_name : string;
  cs_status : ServiceStatus;
  cs_healthy : bool;
  cs_ports : list string;
  cs_memoryHuman : string;
  cs_logPath : string;
  cs_actionable : bool;
  cs_composeProject : option string
}.

Record ControlPlaneList := {
  cl_runtime : string;
  cl_available : bool;
  cl_reachable : bool;
  cl_controlPlanePresent : bool;
  cl_services : list ControlPlaneService
}.

Inductive ControlPlaneAction := CpStart | CpStop | CpRestart.
Definition action_text (a : ControlPlaneAction) : string :=
  match a with CpStart => "start" | CpStop => "stop" | CpRestart => "restart" end.

(** ** What the page shows *)

(** [s.composeProject] as a condition. *)
Definition project_of (s : ControlPlaneService) : option string :=
  match s.(cs_composeProject) with Some EmptyString | None => None | p => p end.

Definition initServices (services : list ControlPlaneService) : list ControlPlaneService :=
  List.filter (fun s => match project_of s with None => true | Some _ => false end) services.

(** [[...new Set(names)]]: each name where it is first met. *)
Definition distinct (names : list string) : list string :=
  fold_left (fun seen n => if bool_decide (n ∈ seen) then seen else seen ++ [n])%list names [].

Definition composeProjects (services : list ControlPlaneService) : list string := distinct (omap project_of services).

Definition project_services (project : string) (services : list ControlPlaneService) : list ControlPlaneService :=
  List.filter (fun s => bool_decide (s.(cs_composeProject) = Some project)) services.

Inductive ControlPlaneView :=
  | CpLoading
  | CpNoRuntime
  | CpNotRunning
  | CpAbsent (message : string)
  | CpCards (init : list ControlPlaneService) (groups : list (string * list ControlPlaneService)).

Definition noControlPlaneCopy (mode : option string) : string :=
  match mode with
  | Some "test-containers" => "Control-plane detection is not available in test-containers mode yet."
  | Some "compose" => "No compose-managed placement/scheduler containers were found."
  | _ => "No Dapr control plane found. Run dapr init to start it."
  end.

Definition control_plane_view (mode : option string) (isLoading : bool) (data : option ControlPlaneList) : ControlPlaneView :=
  if isLoading then CpLoading
  else match data with
       | None => CpNoRuntime
       | Some d =>
           if negb d.(cl_available) then CpNoRuntime
           else if negb d.(cl_reachable) then CpNotRunning
           else if negb d.(cl_controlPlanePresent) then CpAbsent (noControlPlaneCopy mode)
           else CpCards (initServices d.(cl_services))
                  (map (fun p => (p, project_services p d.(cl_services))) (composeProjects d.(cl_services)))
       end.

(** [ServiceCard]: the buttons of a service. *)
Definition service_actions (s : ControlPlaneService) : list ControlPlaneAction :=
  if s.(cs_actionable) then
    match s.(cs_status) with SvcStopped => [CpStart] | SvcRunning => [CpRestart; CpStop] | SvcUnknown => [] end
  else [].

(** ** Actions *)

Record ControlPlanePage := {
  cpp_data : option ControlPlaneList;
  cpp_confirm : option (string * ControlPlaneAction);
  cpp_sent : list (string * ControlPlaneAction)
}.

Inductive ControlPlaneEvent :=
  | CpPoll (data : option ControlPlaneList)
  | CpClick (name : string) (act : ControlPlaneAction)
  | CpConfirm
  | CpCancel.

(** The cards on screen. *)
Definition shown_services (v : ControlPlaneView) : list ControlPlaneService :=
  match v with CpCards init groups => init ++ flat_map snd groups | _ => [] end.

Definition page_services (p : ControlPlanePage) : list ControlPlaneService :=
  shown_services (control_plane_view None false p.(cpp_data)).

Definition offers (p : ControlPlanePage) (name : string) (act : ControlPlaneAction) : bool :=
  existsb (fun s => String.eqb s.(cs_name) name
                    && existsb (fun a => String.eqb (action_text a) (action_text act)) (service_actions s)) (page_services p).

(** The dialog is only there while the cards are: the other pages of the view
    return before it is rendered. *)
Definition dialog_shown (p : ControlPlanePage) : bool :=
  match control_plane_view None false p.(cpp_data) with CpCards _ _ => true | _ => false end.

Definition control_plane_step (p : ControlPlanePage) (e : ControlPlaneEvent) : ControlPlanePage :=
  match e with
  | CpPoll data => {| p with cpp_data := data |}
  | CpClick name act =>
      if offers p name act && match p.(cpp_confirm) with None => true | Some _ => false end
      then {| p with cpp_confirm := Some (name, act) |} else p
  | CpConfirm =>
      match p.(cpp_confirm) with
      | Some request =>
          if dialog_shown p then {| p with cpp_confirm := None; cpp_sent := request :: p.(cpp_sent) |} else p
      | None => p
      end
  | CpCancel => if dialog_shown p then {| p with cpp_confirm := None |} else p
  end.

(** ** Every service has one card *)

Lemma distinct_spec names : NoDup (distinct names) /\ forall n, n ∈ distinct names <-> n ∈ names.
Proof.
  unfold distinct. assert (G : forall seen, NoDup seen ->
    NoDup (fold_left (fun seen n => if bool_decide (n ∈ seen) then seen else seen ++ [n])%list names seen)
    /\ forall n, n ∈ fold_left (fun seen n => if bool_decide (n ∈ seen) then seen else seen ++ [n])%list names seen
       <-> n ∈ seen \/ n ∈ names).
  { induction names as [|x names IH]; intros seen Hn; cbn [fold_left].
    - split; [done|]. intros n. split; [by left|]. intros [H|H%elem_of_nil]; done.
    - case_bool_decide as Hx.
      + destruct (IH seen Hn) as [H1 H2]. split; [done|]. intros n. rewrite H2, elem_of_cons. naive_solver.
      + destruct (IH (seen ++ [x])%list) as [H1 H2].
        { apply NoDup_app. split_and!; [done| |apply NoDup_singleton]. by intros y Hy ->%list_elem_of_singleton. }
        split; [done|]. intros n. rewrite H2, elem_of_app, list_elem_of_singleton, elem_of_cons. tauto. }
  destruct (G [] (NoDup_nil_2)) as [H1 H2]. split; [done|]. intros n. rewrite H2. split; [|by right].
  intros [H%elem_of_nil|H]; done.
Qed.

(** Grouping by a key splits a list into the parts of its distinct keys. *)
Lemma grouped_perm {A} (key : A -> option string) (names : list string) (l : list A) :
  NoDup names -> (forall a k, a ∈ l -> key a = Some k -> k ∈ names) ->
  List.filter (fun a => match key a with None => true | Some _ => false end) l
  ++ flat_map (fun k => List.filter (fun a => bool_decide (key a = Some k)) l) names ≡ₚ l.
Proof.
  intros Hn. induction l as [|a l IH]; intros Hk; cbn [List.filter].
  - induction names; cbn; [done|]. apply IHnames; [by apply NoDup_cons in Hn as [_ Hn]|]. by intros ? ? ?%elem_of_nil.
  - specialize (IH (fun b k H => Hk b k (list_elem_of_further _ _ _ H))). destruct (key a) as [k|] eqn:Ek.
    + assert (Hin : k ∈ names) by (apply (Hk a); [left|done]).
      apply list_elem_of_split in Hin as (n1 & n2 & ->). rewrite !flat_map_app in IH |- *. cbn [flat_map] in IH |- *.
      rewrite (bool_decide_true (Some k = Some k)) by done.
      assert (Skip : forall ns, k ∉ ns ->
        flat_map (fun k0 => if bool_decide (Some k = Some k0) then a :: List.filter (fun a0 => bool_decide (key a0 = Some k0)) l
                            else List.filter (fun a0 => bool_decide (key a0 = Some k0)) l) ns
        = flat_map (fun k0 => List.filter (fun a0 => bool_decide (key a0 = Some k0)) l) ns).
      { induction ns as [|k0 ns IHn]; [done|]. rewrite not_elem_of_cons. intros [H1 H2]. cbn.
        rewrite bool_decide_false by congruence. by rewrite IHn. }
      apply NoDup_app in Hn as (_ & H1 & [H2 _]%NoDup_cons).
      rewrite !Skip; [|done|intros H; by apply (H1 k H); left].
      etransitivity; [|exact (perm_skip a IH)]. cbn. solve_Permutation.
    + cbn. rewrite IH. done.
Qed.

Lemma project_filter project services :
  project <> "" ->
  project_services project services = List.filter (fun s => bool_decide (project_of s = Some project)) services.
Proof.
  intros Hp. unfold project_services. apply filter_ext. intros s. unfold project_of.
  destruct (cs_composeProject s) as [[|c n]|]; try done. apply bool_decide_ext. split; [|done]. by intros [= <-].
Qed.

(** The cards are the services: each service the server lists has one card,
    alone or under its compose project; the headings are distinct, and none is
    empty. *)
Theorem cards_are_services (mode : option string) (d : ControlPlaneList) init groups :
  control_plane_view mode false (Some d) = CpCards init groups ->
  init ++ flat_map snd groups ≡ₚ d.(cl_services)
  /\ NoDup (map fst groups) /\ Forall (fun g => g.2 <> []) groups.
Proof.
  cbn. destruct (cl_available d), (cl_reachable d), (cl_controlPlanePresent d); try done. intros [= <- <-].
  destruct (distinct_spec (omap project_of (cl_services d))) as [Hn Hin].
  assert (Ne : forall p, p ∈ composeProjects (cl_services d) -> p <> "" /\ exists s, s ∈ cl_services d /\ project_of s = Some p).
  { intros p (s & Hs & Hp)%Hin%list_elem_of_omap. split; [|by exists s]. unfold project_of in Hp.
    destruct (cs_composeProject s) as [[|c n]|]; try done. by injection Hp as <-. }
  split_and!.
  - rewrite flat_map_concat_map, map_map, <- flat_map_concat_map. cbn [snd].
    rewrite <- (grouped_perm project_of (composeProjects (cl_services d)) (cl_services d)) at 3; [|done|].
    + unfold initServices. apply Permutation_app_head. rewrite !flat_map_concat_map.
      apply reflexive_eq. f_equal. apply map_ext_in. intros p Hp%list_elem_of_In. by apply project_filter, Ne.
    + intros s p Hs Hp. apply Hin, list_elem_of_omap. by exists s.
  - rewrite map_map. cbn [fst]. by rewrite map_id.
  - apply Forall_forall. intros [p ss] Hg. apply list_elem_of_fmap in Hg as (p' & [= -> ->] & Hp). cbn.
    destruct (Ne p' Hp) as [Hp' (s & Hs & E)]. rewrite project_filter by done. intros E'.
    assert (Hs' : s ∈ List.filter (fun s => bool_decide (project_of s = Some p')) (cl_services d)).
    { apply list_elem_of_In, filter_In. split; [by apply list_elem_of_In|]. by apply bool_decide_eq_true. }
    rewrite E' in Hs'. by apply elem_of_nil in Hs'.
Qed.

Definition sample_service (name : string) (status : ServiceStatus) (project : option string) : ControlPlaneService := {|
  cs_name := name; cs_status := status; cs_healthy := true; cs_ports := []; cs_memoryHuman := ""; cs_logPath := "";
  cs_actionable := true; cs_composeProject := project |}.
Definition sample_list : ControlPlaneList := {|
  cl_runtime := "docker"; cl_available := true; cl_reachable := true; cl_controlPlanePresent := true;
  cl_services := [sample_service "placement" SvcRunning (Some "shop"); sample_service "scheduler" SvcStopped None;
                  sample_service "redis" SvcRunning (Some "shop")] |}.

Lemma cards_are_services_witness :
  shown_services (control_plane_view None false (Some sample_list)) ≡ₚ sample_list.(cl_services)
  /\ map cs_name (shown_services (control_plane_view None false (Some sample_list))) = ["scheduler"; "placement"; "redis"].
Proof.
  split; [|vm_compute; reflexivity].
  apply (cards_are_services None sample_list (initServices sample_list.(cl_services))
           (map (fun p => (p, project_services p sample_list.(cl_services))) (composeProjects sample_list.(cl_services)))).
  reflexivity.
Defined.

(** ** Actions are offered and confirmed *)

Definition control_plane_run (es : list ControlPlaneEvent) : ControlPlanePage :=
  fold_left control_plane_step es {| cpp_data := None; cpp_confirm := None; cpp_sent := [] |}.

Definition clicked (es : list ControlPlaneEvent) (r : string * ControlPlaneAction) : Prop :=
  exists es1 es2, es = (es1 ++ CpClick r.1 r.2 :: es2)%list /\ offers (control_plane_run es1) r.1 r.2 = true.

(** Every request the page sends was a button of a card when it was clicked. *)
Theorem control_plane_requests_offered (es : list ControlPlaneEvent) :
  Forall (clicked es) (control_plane_run es).(cpp_sent)
  /\ forall r, (control_plane_run es).(cpp_confirm) = Some r -> clicked es r.
Proof.
  induction es as [|e es [IS IC]] using rev_ind; [by split|].
  assert (More : forall r, clicked es r -> clicked (es ++ [e])%list r).
  { intros r (es1 & es2 & -> & H). exists es1, (es2 ++ [e])%list. split; [by rewrite <- app_assoc|done]. }
  assert (IS' : Forall (clicked (es ++ [e])%list) (control_plane_run es).(cpp_sent)).
  { eapply Forall_impl; [exact IS|exact More]. }
  assert (E : control_plane_run (es ++ [e])%list = control_plane_step (control_plane_run es) e).
  { unfold control_plane_run. by rewrite fold_left_app. }
  rewrite E. destruct e as [data|name act| |]; cbn [control_plane_step].
  - split; [done|]. intros r H. by apply More, IC.
  - destruct (offers _ _ _) eqn:Ho; cbn [andb]; [|split; [done|]; intros r H; by apply More, IC].
    destruct (cpp_confirm _) eqn:Ec; (split; [done|]); [rewrite Ec; intros r' [= <-]; by apply More, IC|].
    intros r [= <-]. by exists es, [].
  - destruct (cpp_confirm _) as [r|] eqn:Ec; [|split; [done|]; by rewrite Ec].
    destruct (dialog_shown _); (split; [|]); try done; [constructor; [|done]; by apply More, IC|].
    rewrite Ec. intros r' [= <-]. by apply More, IC.
  - destruct (dialog_shown _); (split; [done|]); [done|]. intros r H. by apply More, IC.
Qed.
