(* ===== verification/Dedupe.v ===== *)
(** * Lists without duplicates

    [lib/dedupeWorkflows.ts] and [lib/dedupeStores.ts], against reference
    definitions by filtering and grouping. *)

From S2P Require Import Prelude JsNum JsMap ApiTypes.
#[local] Open Scope string_scope.

(** ** Definitions *)

Definition workflow_key (wf : WorkflowSummary) : string := wf.(wf_appId) ++ "/" ++ wf.(wf_instanceId).

(** The loop; [seen] is a [Set] the body only asks and adds to. *)
Fixpoint dedupe_loop (seen : list string) (items : list WorkflowSummary) : list WorkflowSummary :=
  match items with
  | [] => []
  | wf :: items =>
      let key := workflow_key wf in
      if bool_decide (key ∈ seen) then dedupe_loop seen items else wf :: dedupe_loop (key :: seen) items
  end.
Definition dedupeWorkflows (items : list WorkflowSummary) : list WorkflowSummary := dedupe_loop [] items.

Definition store_key (s : StateStore) : string :=
  s.(ss_name) ++ "|" ++ s.(ss_type) ++ "|" ++ s.(ss_connection).

(** One pass of the loop on [indexByKey] and [out]. *)
Definition dedupe_store (acc : JsMap string nat * list StateStore) (s : StateStore) :=
  let (indexByKey, out) := acc in
  let key := store_key s in
  match map_get key indexByKey with
  | None => (map_set key (length out) indexByKey, (out ++ [s])%list)
  | Some existing =>
      if s.(ss_active) && negb (match out !! existing with Some o => o.(ss_active) | None => false end)
      then (indexByKey, <[existing := s]> out) else acc
  end.
Definition dedupeStores (stores : list StateStore) : list StateStore :=
  (fold_left dedupe_store stores ([], [])).2.

(** ** Workflows *)

(** The reference: of every key, the first item. *)
Fixpoint first_of_key (items : list WorkflowSummary) : list WorkflowSummary :=
  match items with
  | [] => []
  | wf :: items => wf :: filter (fun w => workflow_key w <> workflow_key wf) (first_of_key items)
  end.

Lemma dedupe_loop_spec items : forall seen,
  dedupe_loop seen items = filter (fun w => workflow_key w ∉ seen) (first_of_key items).
Proof.
  induction items as [|wf items IH]; intros seen; [done|]. cbn [dedupe_loop first_of_key].
  rewrite filter_cons. destruct (bool_decide (workflow_key wf ∈ seen)) eqn:B.
  - apply bool_decide_eq_true in B. rewrite decide_False by (intros Hn; exact (Hn B)). rewrite IH, list_filter_filter.
    apply list_filter_iff. intros w. enough (workflow_key w ∉ seen -> workflow_key w <> workflow_key wf) by tauto.
    intros Hw Heq. by rewrite Heq in Hw.
  - apply bool_decide_eq_false in B. rewrite decide_True by done. rewrite IH, list_filter_filter. f_equal.
    apply list_filter_iff. intros w. rewrite not_elem_of_cons. tauto.
Qed.

Lemma first_of_key_nodup items : NoDup (workflow_key <$> first_of_key items).
Proof.
  induction items as [|wf items IH]; cbn [first_of_key fmap list_fmap]; constructor.
  - rewrite list_elem_of_fmap. intros (w & E & [Hw _]%list_elem_of_filter). congruence.
  - eapply sublist_NoDup; [exact IH|].
    apply sublist_fmap, sublist_filter.
Qed.

Lemma first_of_key_sublist items : first_of_key items `sublist_of` items.
Proof.
  induction items as [|wf items IH]; cbn [first_of_key]; constructor.
  etransitivity; [apply sublist_filter|done].
Qed.

Lemma first_of_key_keys items k : k ∈ workflow_key <$> items -> k ∈ workflow_key <$> first_of_key items.
Proof.
  induction items as [|wf items IH]; cbn [first_of_key fmap list_fmap]; [done|].
  intros [->|H]%elem_of_cons; [by left|]. destruct (decide (k = workflow_key wf)) as [->|Hne]; [by left|].
  right. apply IH, list_elem_of_fmap in H as (w & -> & Hw). apply list_elem_of_fmap. exists w.
  split; [done|]. by apply list_elem_of_filter.
Qed.

(** [dedupeWorkflows] is the reference "of every app/instance key, the
    first row": no key is shown twice, no key is lost, and the rows stay in
    their order. *)
Theorem dedupeWorkflows_first_of_key (items : list WorkflowSummary) :
  dedupeWorkflows items = first_of_key items
  /\ NoDup (workflow_key <$> dedupeWorkflows items)
  /\ dedupeWorkflows items `sublist_of` items
  /\ (forall k, k ∈ workflow_key <$> items <-> k ∈ workflow_key <$> dedupeWorkflows items).
Proof.
  assert (E : dedupeWorkflows items = first_of_key items).
  { unfold dedupeWorkflows. rewrite dedupe_loop_spec. apply list_filter_all.
    apply Forall_forall. intros w _. apply not_elem_of_nil. }
  rewrite E. split_and!; [done|apply first_of_key_nodup|apply first_of_key_sublist|].
  intros k. split; [apply first_of_key_keys|]. intros (w & -> & Hw)%list_elem_of_fmap.
  apply list_elem_of_fmap. exists w. split; [done|]. eapply elem_of_sublist; [done|apply first_of_key_sublist].
Qed.

(** ** Stores *)

Definition has_key (k : string) (s : StateStore) : bool := String.eqb (store_key s) k.

(** The keys in order of first appearance. *)
Definition add_key (ks : list string) (k : string) : list string :=
  if decide (k ∈ ks) then ks else (ks ++ [k])%list.
Definition group_keys (stores : list StateStore) : list string := fold_left add_key (store_key <$> stores) [].

(** The reference representative of a group: its first active member if there
    is one, else its first member. *)
Definition representative (stores : list StateStore) (k : string) : option StateStore :=
  match List.find (fun s => has_key k s && s.(ss_active)) stores with
  | Some s => Some s
  | None => List.find (has_key k) stores
  end.

Lemma group_keys_snoc stores s : group_keys (stores ++ [s]) = add_key (group_keys stores) (store_key s).
Proof. unfold group_keys. by rewrite fmap_app, fold_left_app. Qed.

Lemma group_keys_nodup stores : NoDup (group_keys stores).
Proof.
  induction stores as [|s stores IH] using rev_ind; [constructor|]. rewrite group_keys_snoc. unfold add_key.
  case_decide as Hk; [done|]. apply NoDup_app. split_and!; [done| |apply NoDup_singleton].
  intros x Hx ->%list_elem_of_singleton. done.
Qed.

Lemma group_keys_elem stores k : k ∈ group_keys stores <-> k ∈ store_key <$> stores.
Proof.
  induction stores as [|s stores IH] using rev_ind; [done|].
  rewrite group_keys_snoc, fmap_app, elem_of_app, <- IH. change (store_key <$> [s]) with [store_key s].
  rewrite list_elem_of_singleton. unfold add_key. case_decide; [naive_solver|].
  by rewrite elem_of_app, list_elem_of_singleton.
Qed.

Lemma has_key_spec k s : has_key k s = true <-> store_key s = k.
Proof. apply String.eqb_eq. Qed.

Lemma find_no_key (f : StateStore -> bool) stores k :
  k ∉ store_key <$> stores -> (forall s, f s = true -> has_key k s = true) -> List.find f stores = None.
Proof.
  intros Hk Hf. induction stores as [|s stores IH]; [done|].
  cbn [fmap list_fmap] in Hk. apply not_elem_of_cons in Hk as [Hne Hk]. cbn.
  destruct (f s) eqn:E; [|by apply IH]. apply Hf, has_key_spec in E. congruence.
Qed.

(** A store of another key changes no representative. *)
Lemma representative_other stores s k : store_key s <> k ->
  representative (stores ++ [s]) k = representative stores k.
Proof.
  intros Hne. unfold representative. rewrite !find_app. cbn.
  assert (E : has_key k s = false) by (apply not_true_iff_false; by rewrite has_key_spec).
  rewrite E. cbn. repeat case_match; congruence.
Qed.

Lemma representative_new stores s : store_key s ∉ store_key <$> stores ->
  representative (stores ++ [s]) (store_key s) = Some s.
Proof.
  intros Hk. unfold representative. rewrite !find_app.
  rewrite !(find_no_key _ stores (store_key s)) by (done || intros ?; rewrite ?andb_true_iff; naive_solver). cbn.
  rewrite (proj2 (has_key_spec _ s)) by done. cbn. by destruct (ss_active s).
Qed.

Lemma representative_again stores s o :
  representative stores (store_key s) = Some o ->
  representative (stores ++ [s]) (store_key s)
  = Some (if s.(ss_active) && negb o.(ss_active) then s else o).
Proof.
  unfold representative. rewrite !find_app. cbn. rewrite (proj2 (has_key_spec _ s)) by done. cbn.
  destruct (List.find (fun _ => _ && _) stores) as [a|] eqn:Fa.
  - intros [= <-]. apply find_some in Fa as [_ [_ Ha]%andb_true_iff]. rewrite Ha. by rewrite andb_false_r.
  - intros Fo. rewrite Fo. apply find_some in Fo as [Hin Hk].
    pose proof (find_none _ _ Fa o Hin) as Hn. cbn in Hn. rewrite Hk in Hn. cbn in Hn. rewrite Hn.
    by destruct (ss_active s).
Qed.

(** What the loop keeps: [out] holds the representatives of the groups seen, in
    order, and [indexByKey] their positions. *)
Record dedupe_inv (stores : list StateStore) (acc : JsMap string nat * list StateStore) : Prop := {
  di_index : forall k i, map_get k acc.1 = Some i <-> group_keys stores !! i = Some k;
  di_out : Forall2 (fun k o => representative stores k = Some o) (group_keys stores) acc.2
}.

Lemma dedupe_inv_new stores acc s :
  dedupe_inv stores acc -> store_key s ∉ group_keys stores ->
  dedupe_inv (stores ++ [s]) (map_set (store_key s) (length acc.2) acc.1, (acc.2 ++ [s])%list).
Proof.
  intros [Hi Ho] Hk. pose proof (Forall2_length _ _ _ Ho) as Hl.
  split; cbn [fst snd]; rewrite group_keys_snoc; unfold add_key; rewrite decide_False by done.
  - intros k i. destruct (decide (k = store_key s)) as [->|Hne].
    + rewrite map_get_set_eq, <- Hl, lookup_app_Some. split.
      * intros [= <-]. right. split; [lia|]. by rewrite Nat.sub_diag.
      * intros [H|[Hge H]]; [by apply list_elem_of_lookup_2 in H|].
        apply list_lookup_singleton_Some in H as [H _]. f_equal. lia.
    + rewrite map_get_set_ne, Hi, lookup_app_Some by done. split; [by left|]. intros [H|[_ H]]; [done|].
      apply list_lookup_singleton_Some in H as [_ H]. congruence.
  - apply Forall2_app.
    + eapply Forall2_impl_in; [exact Ho|]. intros k o Hin Hr. rewrite representative_other; [done|].
      intros <-. done.
    + repeat constructor. apply representative_new. by rewrite <- group_keys_elem.
Qed.

Lemma dedupe_inv_again stores acc s i o :
  dedupe_inv stores acc -> map_get (store_key s) acc.1 = Some i -> acc.2 !! i = Some o ->
  dedupe_inv (stores ++ [s])
    (if s.(ss_active) && negb o.(ss_active) then (acc.1, <[i := s]> acc.2) else acc).
Proof.
  intros [Hi Ho] Hk Hx. pose proof (proj1 (Hi _ _) Hk) as Hg.
  assert (Hin : store_key s ∈ group_keys stores) by by eapply list_elem_of_lookup_2.
  assert (Hr : representative stores (store_key s) = Some o) by by eapply Forall2_lookup_lr in Ho.
  pose proof (representative_again stores s o Hr) as Hr'.
  assert (Hrest : forall k o', k <> store_key s -> representative stores k = Some o' ->
    representative (stores ++ [s]) k = Some o') by (intros; by rewrite representative_other).
  assert (Hold : Forall2 (fun k o => k <> store_key s -> representative (stores ++ [s]) k = Some o)
    (group_keys stores) acc.2) by (eapply Forall2_impl; [exact Ho|]; naive_solver).
  assert (Hall : forall l, l !! i = Some (if s.(ss_active) && negb o.(ss_active) then s else o) ->
    (forall j, j <> i -> l !! j = acc.2 !! j) -> length l = length acc.2 ->
    Forall2 (fun k o => representative (stores ++ [s]) k = Some o) (group_keys stores) l).
  { intros l Hli Hlj Hll. pose proof (Forall2_length _ _ _ Ho) as Hlen.
    apply Forall2_same_length_lookup_2; [lia|]. intros j k x Hj Hxj.
    destruct (decide (j = i)) as [->|Hne]; [by simplify_eq|].
    rewrite Hlj in Hxj by done. eapply (Forall2_lookup_lr _ _ _ _ _ _ Hold Hj Hxj).
    intros ->. pose proof (NoDup_lookup _ _ _ _ (group_keys_nodup stores) Hj Hg). done. }
  split; rewrite group_keys_snoc; unfold add_key; rewrite decide_True by done.
  - by destruct (_ && _).
  - destruct (_ && _) eqn:B; cbn [snd]; apply Hall; try done.
    + apply list_lookup_insert_eq. by eapply lookup_lt_Some.
    + intros j Hj. by apply list_lookup_insert_ne.
    + by rewrite length_insert.
Qed.

Lemma dedupe_inv_fold stores : dedupe_inv stores (fold_left dedupe_store stores ([], [])).
Proof.
  induction stores as [|s stores IH] using rev_ind; [split; [done|constructor]|].
  rewrite fold_left_app. cbn [fold_left]. set (acc := fold_left _ _ _) in *.
  unfold dedupe_store. destruct acc as [index out] eqn:E.
  destruct (map_get (store_key s) index) as [i|] eqn:Hk.
  - pose proof (di_index _ _ IH (store_key s) i) as Hg. cbn [fst] in Hg. apply Hg in Hk as Hg'.
    destruct (Forall2_lookup_l _ _ _ _ _ (di_out _ _ IH) Hg') as (o & Ho & _). cbn [snd] in Ho.
    pose proof (dedupe_inv_again _ _ s i o IH Hk Ho) as H. cbn [fst snd] in H. by rewrite Ho.
  - apply (dedupe_inv_new _ _ _ IH). intros Hin. apply list_elem_of_lookup in Hin as [i Hi].
    apply (di_index _ _ IH) in Hi. cbn in Hi. congruence.
Qed.

(** [dedupeStores] is the reference grouping: one store per
    name/type/connection, in the order the groups first appear, and it is the
    group's first active member when it has one, its first member otherwise. *)
Theorem dedupeStores_representatives (stores : list StateStore) :
  Forall2 (fun k o => representative stores k = Some o) (group_keys stores) (dedupeStores stores)
  /\ store_key <$> dedupeStores stores = group_keys stores
  /\ NoDup (group_keys stores)
  /\ (forall k, k ∈ group_keys stores <-> k ∈ store_key <$> stores).
Proof.
  pose proof (di_out _ _ (dedupe_inv_fold stores)) as H.
  split_and!; [exact H| |apply group_keys_nodup|apply group_keys_elem].
  unfold dedupeStores. induction H as [|k o ks l Hr H IH]; [done|]. cbn. f_equal; [|done].
  apply has_key_spec. unfold representative in Hr. repeat case_match; simplify_eq.
  - eapply find_some in H0 as [_ [? _]%andb_true_iff]. done.
  - eapply find_some in Hr as [_ ?]. done.
Qed.
