(* ===== verification/WorkflowsPage.v ===== *)
(** * The workflows page

    [pages/Workflows.tsx] with [hooks/useWorkflows.ts] and the mechanism of
    [components/ConfirmRemoveDialog.tsx]: filters, paging, selection, the store
    selector and removal.  Every handler is a function of the page's state and
    of what the list query shows at that moment.  Handlers that only open or
    close a panel are kept; rendering is left out. *)

From Stdlib Require Import Ascii.
From stdpp Require Import pretty.
From S2P Require Import Prelude JsNum JsMap JsSort Text ApiTypes Apps Dedupe Paging.
#[local] Open Scope string_scope.
#[local] Open Scope Z_scope.

(** ** hooks/useWorkflows.ts *)

Record WorkflowsParams := {
  wq_appId : option string;
  wq_status : option (list WorkflowStatus);
  wq_search : option string;
  wq_page : option string;
  wq_limit : option Z;
  wq_store : option string;
  wq_includeChildren : option bool;
  wq_enabled : bool
}.

Definition status_name (s : WorkflowStatus) : string :=
  match s with
  | Pending => "Pending" | Running => "Running" | Completed => "Completed"
  | Failed => "Failed" | Terminated => "Terminated" | Suspended => "Suspended"
  end.

(** [URLSearchParams] under construction: the pairs [set] so far. *)
Definition Query : Type := JsMap string string.
Definition set_when (key : string) (value : option string) (q : Query) : Query :=
  match value with None | Some "" => q | Some v => map_set key v q end.

Definition queryString (p : WorkflowsParams) : Query :=
  let q := set_when "appId" p.(wq_appId) [] in
  let q := match p.(wq_status) with
           | None | Some [] => q
           | Some l => map_set "status" (String.concat "," (map status_name l)) q
           end in
  let q := set_when "search" p.(wq_search) q in
  let q := set_when "page" p.(wq_page) q in
  let q := match p.(wq_limit) with None | Some 0 => q | Some n => map_set "limit" (pretty n) q end in
  let q := set_when "store" p.(wq_store) q in
  match p.(wq_includeChildren) with Some false => map_set "includeChildren" "false" q | _ => q end.

(** [['workflows', store, qs]]; the first entry is left out. *)
Definition QueryKey : Type := string * Query.
Definition workflows_key (p : WorkflowsParams) : QueryKey := (default "" p.(wq_store), queryString p).

Definition keepPreviousWithinStore {T} (store : string) (prev : option T) (prevQuery : option QueryKey) : option T :=
  match prevQuery with
  | Some key => if String.eqb key.1 store then prev else None
  | None => None
  end.

(** ** components/ConfirmRemoveDialog.tsx *)

Definition TERMINAL : list WorkflowStatus := [Completed; Failed; Terminated].

Definition mechanismFor (status : option WorkflowStatus) (force : bool) : string :=
  if force then "Force delete"
  else match status with
       | Some s => if bool_decide (s ∈ TERMINAL) then "Purge" else "Terminate + Purge"
       | None => "Terminate + Purge"
       end.

Definition mechanism_counts (statuses : list (option WorkflowStatus)) (force : bool) : JsMap string Z :=
  fold_left (fun counts status =>
    let m := mechanismFor status force in map_set m (default 0 (map_get m counts) + 1) counts) statuses [].

(** ** The page's state *)

Record WfPage := {
  wp_activeStatus : option WorkflowStatus;
  wp_selectedApp : string;
  wp_searchInput : string;
  wp_debouncedSearch : string;
  wp_showChildren : bool;
  wp_paging : Paging;
  wp_selectedStore : option string;
  wp_confirmDialogOpen : bool;
  wp_dialogInitialForce : bool;
  wp_removeStatus : option (Z * Z);
  wp_defaultApplied : bool
}.

Definition ALL_STATUSES : list WorkflowStatus := [Running; Completed; Failed; Terminated; Suspended].

(** [parseEnum(urlStatus, ALL_STATUSES, '')]. *)
Definition parse_status (value : string) : option WorkflowStatus :=
  List.find (fun s => String.eqb (status_name s) value) ALL_STATUSES.

Definition initial_page (urlStatus urlSearch : string) (urlPage : option string) (urlApp : string) : WfPage := {|
  wp_activeStatus := parse_status urlStatus;
  wp_selectedApp := urlApp;
  wp_searchInput := urlSearch;
  wp_debouncedSearch := urlSearch;
  wp_showChildren := true;
  wp_paging := first_page urlPage;
  wp_selectedStore := None;
  wp_confirmDialogOpen := false;
  wp_dialogInitialForce := false;
  wp_removeStatus := None;
  wp_defaultApplied := false
|}.

(** The query of the list at a page token. *)
Definition params_at (page : option string) (st : WfPage) : WorkflowsParams := {|
  wq_appId := if String.eqb st.(wp_selectedApp) "" then None else Some st.(wp_selectedApp);
  wq_status := (fun s => [s]) <$> st.(wp_activeStatus);
  wq_search := if String.eqb st.(wp_debouncedSearch) "" then None else Some st.(wp_debouncedSearch);
  wq_page := page;
  wq_limit := None;
  wq_store := st.(wp_selectedStore);
  wq_includeChildren := Some st.(wp_showChildren);
  wq_enabled := bool_decide (is_Some st.(wp_selectedStore))
|}.
Definition page_params (st : WfPage) : WorkflowsParams := params_at st.(wp_paging).(pg_page) st.

(** The URL the filters are mirrored to. *)
Definition mirrored_params (st : WfPage) : Query :=
  set_when "app" (Some st.(wp_selectedApp))
    (set_when "page" st.(wp_paging).(pg_page)
      (set_when "search" (Some st.(wp_debouncedSearch))
        (set_when "status" (status_name <$> st.(wp_activeStatus)) []))).

Definition View : Type := ListView WorkflowSummary.

Definition items (v : View) : list WorkflowSummary :=
  if v.(vw_isError) then [] else dedupeWorkflows (default [] (lr_items <$> v.(vw_data))).
Definition row_keys (v : View) : list string := map workflow_key (items v).

Definition with_paging (p : Paging) (st : WfPage) : WfPage := {|
  wp_activeStatus := st.(wp_activeStatus); wp_selectedApp := st.(wp_selectedApp);
  wp_searchInput := st.(wp_searchInput); wp_debouncedSearch := st.(wp_debouncedSearch);
  wp_showChildren := st.(wp_showChildren); wp_paging := p; wp_selectedStore := st.(wp_selectedStore);
  wp_confirmDialogOpen := st.(wp_confirmDialogOpen); wp_dialogInitialForce := st.(wp_dialogInitialForce);
  wp_removeStatus := st.(wp_removeStatus); wp_defaultApplied := st.(wp_defaultApplied) |}.

(** The filters, set together; the paging is the caller's. *)
Definition with_filters (status : option WorkflowStatus) (app : string) (children : bool) (p : Paging) (st : WfPage)
    : WfPage := {|
  wp_activeStatus := status; wp_selectedApp := app;
  wp_searchInput := st.(wp_searchInput); wp_debouncedSearch := st.(wp_debouncedSearch);
  wp_showChildren := children; wp_paging := p; wp_selectedStore := st.(wp_selectedStore);
  wp_confirmDialogOpen := st.(wp_confirmDialogOpen); wp_dialogInitialForce := st.(wp_dialogInitialForce);
  wp_removeStatus := st.(wp_removeStatus); wp_defaultApplied := st.(wp_defaultApplied) |}.

Definition with_search (input debounced : string) (p : Paging) (st : WfPage) : WfPage := {|
  wp_activeStatus := st.(wp_activeStatus); wp_selectedApp := st.(wp_selectedApp);
  wp_searchInput := input; wp_debouncedSearch := debounced;
  wp_showChildren := st.(wp_showChildren); wp_paging := p; wp_selectedStore := st.(wp_selectedStore);
  wp_confirmDialogOpen := st.(wp_confirmDialogOpen); wp_dialogInitialForce := st.(wp_dialogInitialForce);
  wp_removeStatus := st.(wp_removeStatus); wp_defaultApplied := st.(wp_defaultApplied) |}.

Definition with_store (store : option string) (app : string) (p : Paging) (st : WfPage) : WfPage := {|
  wp_activeStatus := st.(wp_activeStatus); wp_selectedApp := app;
  wp_searchInput := st.(wp_searchInput); wp_debouncedSearch := st.(wp_debouncedSearch);
  wp_showChildren := st.(wp_showChildren); wp_paging := p; wp_selectedStore := store;
  wp_confirmDialogOpen := st.(wp_confirmDialogOpen); wp_dialogInitialForce := st.(wp_dialogInitialForce);
  wp_removeStatus := st.(wp_removeStatus); wp_defaultApplied := st.(wp_defaultApplied) |}.

Definition with_dialog (open force : bool) (status : option (Z * Z)) (p : Paging) (st : WfPage) : WfPage := {|
  wp_activeStatus := st.(wp_activeStatus); wp_selectedApp := st.(wp_selectedApp);
  wp_searchInput := st.(wp_searchInput); wp_debouncedSearch := st.(wp_debouncedSearch);
  wp_showChildren := st.(wp_showChildren); wp_paging := p; wp_selectedStore := st.(wp_selectedStore);
  wp_confirmDialogOpen := open; wp_dialogInitialForce := force;
  wp_removeStatus := status; wp_defaultApplied := st.(wp_defaultApplied) |}.

(** ** Handlers *)

Definition setStatus (s : option WorkflowStatus) (st : WfPage) : WfPage :=
  with_filters s st.(wp_selectedApp) st.(wp_showChildren) (resetPaging st.(wp_paging)) st.
Definition onAppChange (app : string) (st : WfPage) : WfPage :=
  with_filters st.(wp_activeStatus) app st.(wp_showChildren) (resetPaging st.(wp_paging)) st.
Definition onShowChildren (checked : bool) (st : WfPage) : WfPage :=
  with_filters st.(wp_activeStatus) st.(wp_selectedApp) checked (resetPaging st.(wp_paging)) st.

Definition onSearchInput (value : string) (st : WfPage) : WfPage :=
  with_search value st.(wp_debouncedSearch) (resetPaging st.(wp_paging)) st.
(** The debounce timer, 250 ms after the last change of the input. *)
Definition onDebounce (st : WfPage) : WfPage :=
  with_search st.(wp_searchInput) st.(wp_searchInput) st.(wp_paging) st.

Definition onStoreChange (id : string) (st : WfPage) : WfPage :=
  with_store (Some id) "" (resetPaging st.(wp_paging)) st.

(** [storeList?.find((s) => s.active) ?? storeList?.[0]]. *)
Definition active_store (storeList : list StateStore) : option StateStore :=
  match List.find ss_active storeList with Some s => Some s | None => head storeList end.

Definition listed_store (stores : list StateStore) (id : string) : bool :=
  existsb (fun s => String.eqb s.(ss_id) id) stores.

(** The effect that chooses a store, with what the browser's storage holds. *)
Definition resolve_store (storeList : list StateStore) (persisted : option string) (st : WfPage) : WfPage :=
  let displayStores := dedupeStores storeList in
  match displayStores with
  | [] => st
  | first :: _ =>
      if match st.(wp_selectedStore) with Some id => listed_store displayStores id | None => false end then st
      else
        let fromPersisted :=
          match persisted with
          | None | Some "" => None
          | Some id => if listed_store displayStores id then Some id else None
          end in
        let fallback := match active_store storeList with Some s => s.(ss_id) | None => first.(ss_id) end in
        with_store (Some (default fallback fromPersisted)) st.(wp_selectedApp) st.(wp_paging) st
  end.

(** The running app that loaded the active store. *)
Definition activeAppId (activeStore : option StateStore) (apps : list AppSummary) : option string :=
  store ← activeStore;
  head (js_sort compare_strings
    (map ap_appId (List.filter (fun a => existsb (fun c => String.eqb c.(cr_name) store.(ss_name))
      (default [] a.(ap_components))) apps))).

(** The effect that applies the default app once; [ready]: the store, the app
    ids, the apps and the stores are all known. *)
Definition apply_default (urlApp : string) (ready : bool) (activeApp : option string) (appIds : list string)
    (st : WfPage) : WfPage :=
  let done_ app st := {|
    wp_activeStatus := st.(wp_activeStatus); wp_selectedApp := app;
    wp_searchInput := st.(wp_searchInput); wp_debouncedSearch := st.(wp_debouncedSearch);
    wp_showChildren := st.(wp_showChildren); wp_paging := st.(wp_paging); wp_selectedStore := st.(wp_selectedStore);
    wp_confirmDialogOpen := st.(wp_confirmDialogOpen); wp_dialogInitialForce := st.(wp_dialogInitialForce);
    wp_removeStatus := st.(wp_removeStatus); wp_defaultApplied := true |} in
  if st.(wp_defaultApplied) then st
  else if negb (String.eqb urlApp "") then done_ st.(wp_selectedApp) st
  else if negb ready then st
  else
    match activeApp with
    | Some app =>
        if negb (String.eqb app "") && set_has app appIds then done_ app st else done_ st.(wp_selectedApp) st
    | None => done_ st.(wp_selectedApp) st
    end.

(** A disabled button fires no click. *)
Definition onPrev (v : View) (st : WfPage) : WfPage :=
  if v.(vw_isPlaceholderData) then st else with_paging (go_prev st.(wp_paging)) st.
Definition onNext (v : View) (st : WfPage) : WfPage :=
  if v.(vw_isError) || v.(vw_isPlaceholderData) || negb (has_next v) then st
  else with_paging (go_next (view_token v) (Z.of_nat (length (items v))) st.(wp_paging)) st.

Definition toggleRow (v : View) (key : string) (st : WfPage) : WfPage :=
  if v.(vw_isPlaceholderData) then st else with_paging (toggle_row key st.(wp_paging)) st.
Definition toggleAll (v : View) (st : WfPage) : WfPage :=
  if v.(vw_isPlaceholderData) then st else with_paging (toggle_all (row_keys v) st.(wp_paging)) st.

Definition openRemoval (force : bool) (st : WfPage) : WfPage := with_dialog true force None st.(wp_paging) st.
Definition onBulkPurge : WfPage -> WfPage := openRemoval false.
Definition onBulkForceDelete : WfPage -> WfPage := openRemoval true.
Definition onCancel (st : WfPage) : WfPage :=
  with_dialog false st.(wp_dialogInitialForce) st.(wp_removeStatus) st.(wp_paging) st.
Definition onDismiss (st : WfPage) : WfPage :=
  with_dialog st.(wp_confirmDialogOpen) st.(wp_dialogInitialForce) None st.(wp_paging) st.

(** [key.split('/')]. *)
Fixpoint split_slash (s : string) : list string :=
  match s with
  | EmptyString => [""]
  | String c s =>
      match split_slash s with
      | [] => []
      | part :: parts =>
          if Ascii.eqb c "/"%char then "" :: part :: parts else String c part :: parts
      end
  end.
(** [const [appId, instanceId] = key.split('/')]. *)
Definition split_key (key : string) : string * option string :=
  match split_slash key with a :: i :: _ => (a, Some i) | [a] => (a, None) | [] => ("", None) end.

(** The body of the removal request. *)
Record RemovalRequest := {
  rr_ids : list (string * option string);
  rr_force : bool;
  rr_store : option string
}.
Definition onConfirmRemove (force : bool) (st : WfPage) : RemovalRequest :=
  {| rr_ids := map split_key st.(wp_paging).(pg_selected); rr_force := force; rr_store := st.(wp_selectedStore) |}.

(** The answer: which removals went well. *)
Definition onRemoved (results : list bool) (st : WfPage) : WfPage :=
  with_dialog false st.(wp_dialogInitialForce)
    (Some (Z.of_nat (length (List.filter id results)), Z.of_nat (length (List.filter negb results))))
    (clear_selection st.(wp_paging)) st.

(** What the dialog lists. *)
Definition dialogTargets (v : View) (st : WfPage) : list (string * option string * option WorkflowStatus) :=
  map (fun key =>
    let '(appId, instanceId) := split_key key in
    (appId, instanceId,
     wf_status <$> List.find (fun w => String.eqb w.(wf_appId) appId && bool_decide (Some w.(wf_instanceId) = instanceId))
       (items v))) st.(wp_paging).(pg_selected).

(** ** Rows *)

Definition detailPath (appId instanceId : string) (encode : string -> string) (st : WfPage) : string :=
  let base := "/workflows/" ++ appId ++ "/" ++ instanceId in
  match st.(wp_selectedStore) with
  | None | Some "" => base
  | Some store => base ++ "?store=" ++ encode store
  end.

(** "name — type · connection", the type without its prefix. *)
Definition storeOptionLabel (s : StateStore) : text :=
  let typeShort := default (u s.(ss_type)) (last (split_on 46 (u s.(ss_type)))) in
  let head :=
    (u s.(ss_name) ++ [32; 8212; 32]
       ++ (if String.eqb s.(ss_connection) "" then typeShort else typeShort ++ [32; 183; 32] ++ u s.(ss_connection)))%list in
  if s.(ss_active) then (head ++ u " (active)")%list else head.

(** The duration column. [None] of [parse] is [NaN]. *)
Definition dash : text := [8212].
Definition duration_text (ms : Z) : text :=
  let sec := ms / 1000 in
  if sec <? 60 then u (pretty sec ++ "s")
  else
    let min := sec / 60 in
    let remSec := sec mod 60 in
    if min <? 60 then u (if 0 <? remSec then pretty min ++ "m " ++ pretty remSec ++ "s" else pretty min ++ "m")
    else
      let hr := min / 60 in
      let remMin := min mod 60 in
      u (if 0 <? remMin then pretty hr ++ "h " ++ pretty remMin ++ "m" else pretty hr ++ "h").
Definition row_duration (parse : string -> option Z) (now : Z) (createdAt endAt : option string) : text :=
  match createdAt with
  | None | Some "" => dash
  | Some created =>
      let end_ := match endAt with None | Some "" => Some now | Some t => parse t end in
      match parse created, end_ with
      | Some start, Some end_ => if end_ - start <? 0 then dash else duration_text (end_ - start)
      | _, _ => u "NaNh"
      end
  end.

(** ** Events *)

Inductive WfEvent :=
  | ESetStatus (s : option WorkflowStatus)
  | ESelectApp (app : string)
  | EShowChildren (checked : bool)
  | ESearch (value : string)
  | EDebounce
  | EStore (id : string)
  | EStores (storeList : list StateStore) (persisted : option string)
  | EDefaultApp (urlApp : string) (ready : bool) (activeApp : option string) (appIds : list string)
  | EPrev
  | ENext
  | EToggleRow (key : string)
  | EToggleAll
  | EBulkPurge
  | EBulkForceDelete
  | ECancel
  | EDismiss
  | ERemoved (results : list bool).

Definition wf_event (v : View) (st : WfPage) (e : WfEvent) : WfPage :=
  match e with
  | ESetStatus s => setStatus s st
  | ESelectApp app => onAppChange app st
  | EShowChildren checked => onShowChildren checked st
  | ESearch value => onSearchInput value st
  | EDebounce => onDebounce st
  | EStore id => onStoreChange id st
  | EStores storeList persisted => resolve_store storeList persisted st
  | EDefaultApp urlApp ready activeApp appIds => apply_default urlApp ready activeApp appIds st
  | EPrev => onPrev v st
  | ENext => onNext v st
  | EToggleRow key => toggleRow v key st
  | EToggleAll => toggleAll v st
  | EBulkPurge => onBulkPurge st
  | EBulkForceDelete => onBulkForceDelete st
  | ECancel => onCancel st
  | EDismiss => onDismiss st
  | ERemoved results => onRemoved results st
  end.

(** ** What paging and removal act on *)

Lemma dedupeWorkflows_in w l : w ∈ dedupeWorkflows l -> w ∈ l.
Proof.
  unfold dedupeWorkflows. rewrite dedupe_loop_spec. intros [_ H]%list_elem_of_filter.
  eapply elem_of_sublist; [exact H|apply first_of_key_sublist].
Qed.

Section Served.
(** The backend: the answers it gives to a list query; and the page token of
    the address the page was opened with. *)
Context (served : QueryKey -> ListResult WorkflowSummary -> Prop) (urlPage : option string).

(** What the caching library promises of a view: nothing for a query that was
    never enabled; a placeholder is what [keepPreviousWithinStore] lets through
    of an earlier answer; anything else answers the present query. *)
Definition valid_view (st : WfPage) (v : View) : Prop :=
  match v.(vw_data) with
  | None => True
  | Some r =>
      (page_params st).(wq_enabled) = true
      /\ if v.(vw_isPlaceholderData) then
           exists key r', served key r'
             /\ keepPreviousWithinStore (workflows_key (page_params st)).1 (Some r') (Some key) = Some r
         else served (workflows_key (page_params st)) r
  end.

(** A cursor the backend issued under the filters of [st]. *)
Definition issued (st : WfPage) (token : string) : Prop :=
  exists page r, served (workflows_key (params_at page st)) r /\ lr_nextToken r = Some token.
Definition known (st : WfPage) (token : string) : Prop := urlPage = Some token \/ issued st token.
(** The key of a row the backend listed on a page, under the filters of [st]. *)
Definition listed (st : WfPage) (page : option string) (key : string) : Prop :=
  exists r w, served (workflows_key (params_at page st)) r /\ w ∈ lr_items r /\ workflow_key w = key.

(** The user does not page or select while a typed search is still to be
    applied; the automatic choices of a store and an app come before paging. *)
Definition untouched (st : WfPage) : Prop := st.(wp_paging) = first_page None \/ st.(wp_paging) = first_page urlPage.
Definition orderly (st : WfPage) (v : View) (e : WfEvent) : Prop :=
  match e with
  | ENext | EToggleAll => st.(wp_searchInput) = st.(wp_debouncedSearch)
  | EToggleRow key => st.(wp_searchInput) = st.(wp_debouncedSearch) /\ key ∈ row_keys v
  | EStores storeList persisted =>
      wp_selectedStore (resolve_store storeList persisted st) = st.(wp_selectedStore) \/ untouched st
  | EDefaultApp urlApp ready activeApp appIds =>
      wp_selectedApp (apply_default urlApp ready activeApp appIds st) = st.(wp_selectedApp) \/ untouched st
  | _ => True
  end.

Inductive reach : WfPage -> Prop :=
  | reach_load urlStatus urlSearch urlApp : reach (initial_page urlStatus urlSearch urlPage urlApp)
  | reach_event st v e : reach st -> valid_view st v -> orderly st v e -> reach (wf_event v st e).

(** The paging is of the present filters; while a search waits, it is fresh. *)
Definition coherent (st : WfPage) : Prop :=
  paging_ok (known st) (listed st) st.(wp_paging)
  /\ (st.(wp_searchInput) <> st.(wp_debouncedSearch) -> untouched st).

Lemma fresh_coherent st : untouched st -> coherent st.
Proof.
  intros H. split; [|done]. destruct H as [->| ->]; [apply first_page_ok|].
  destruct (first_page_ok (known st) (listed st)) as [_ Hh Hs N Ho Hf]. split; [|done..].
  unfold first_page, cursor_ok. cbn. destruct urlPage as [t|] eqn:E; [by left|done].
Qed.

Lemma reset_coherent st p : st.(wp_paging) = resetPaging p -> coherent st.
Proof. intros E. apply fresh_coherent. left. by rewrite E. Qed.

(** Same filters, same backend. *)
Definition same_filters (st st' : WfPage) : Prop :=
  forall page, params_at page st' = params_at page st.

Lemma coherent_same st st' : same_filters st st' ->
  paging_ok (known st) (listed st) st'.(wp_paging) -> paging_ok (known st') (listed st') st'.(wp_paging).
Proof.
  intros Hf. apply paging_ok_impl.
  - intros t [?|(page & r & S & E)]; [by left|right]. exists page, r. by rewrite Hf.
  - intros page k (r & w & S & E). exists r, w. by rewrite Hf.
Qed.

Lemma keep_coherent st st' : coherent st -> same_filters st st' ->
  st'.(wp_paging) = st.(wp_paging) -> st'.(wp_searchInput) = st.(wp_searchInput) ->
  st'.(wp_debouncedSearch) = st.(wp_debouncedSearch) -> coherent st'.
Proof.
  intros [Ho Hu] Hf Hp Hi Hd. split; [apply (coherent_same st); [done|by rewrite Hp]|].
  rewrite Hi, Hd. unfold untouched. by rewrite Hp.
Qed.

(** Paging under the filters in force. *)
Lemma paging_coherent st p : coherent st -> st.(wp_searchInput) = st.(wp_debouncedSearch) ->
  paging_ok (known st) (listed st) p -> coherent (with_paging p st).
Proof. intros _ Hs Hp. split; [by apply (coherent_same st)|]. by cbn. Qed.

(** The keys a view shows, and its cursor, are of the present filters. *)
Lemma valid_rows st v : valid_view st v -> v.(vw_isPlaceholderData) = false ->
  Forall (listed st st.(wp_paging).(pg_page)) (row_keys v).
Proof.
  intros Hv Hp. unfold row_keys, items. destruct (vw_isError v); [constructor|].
  unfold valid_view in Hv. destruct (vw_data v) as [r|]; [|constructor]. rewrite Hp in Hv. destruct Hv as [_ Hv].
  apply Forall_forall. intros k (w & -> & Hw)%list_elem_of_fmap. exists r, w. split; [exact Hv|]. split; [|done].
  by apply dedupeWorkflows_in in Hw.
Qed.

Lemma valid_cursor st v : valid_view st v -> v.(vw_isPlaceholderData) = false ->
  forall t, view_token v = Some t -> known st t.
Proof.
  intros Hv Hp t. unfold view_token, valid_view in *. destruct (vw_data v) as [r|]; [|done]. rewrite Hp in Hv.
  intros E. right. destruct Hv as [_ Hv]. exists (pg_page (wp_paging st)), r. split; [exact Hv|exact E].
Qed.

Lemma resolve_keeps stores persisted st :
  wp_selectedStore (resolve_store stores persisted st) = st.(wp_selectedStore) ->
  same_filters st (resolve_store stores persisted st)
  /\ wp_paging (resolve_store stores persisted st) = st.(wp_paging)
  /\ wp_searchInput (resolve_store stores persisted st) = st.(wp_searchInput)
  /\ wp_debouncedSearch (resolve_store stores persisted st) = st.(wp_debouncedSearch).
Proof.
  unfold resolve_store. destruct (dedupeStores stores); [done|].
  destruct (match wp_selectedStore st with Some id => _ | None => false end); [done|].
  cbn. intros E. split; [|done]. intros page. unfold params_at. cbn. by rewrite <- E.
Qed.

Lemma default_keeps urlApp ready activeApp appIds st :
  wp_selectedApp (apply_default urlApp ready activeApp appIds st) = st.(wp_selectedApp) ->
  same_filters st (apply_default urlApp ready activeApp appIds st)
  /\ wp_paging (apply_default urlApp ready activeApp appIds st) = st.(wp_paging)
  /\ wp_searchInput (apply_default urlApp ready activeApp appIds st) = st.(wp_searchInput)
  /\ wp_debouncedSearch (apply_default urlApp ready activeApp appIds st) = st.(wp_debouncedSearch).
Proof.
  unfold apply_default. destruct (wp_defaultApplied st); [done|]. destruct (negb _); [done|].
  destruct (negb ready); [done|]. destruct activeApp as [app|]; [|done]. destruct (_ && _); [|done].
  cbn. intros E. split; [|done]. intros page. unfold params_at. cbn. by rewrite E.
Qed.

Lemma untouched_kept st st' : untouched st -> st'.(wp_paging) = st.(wp_paging) -> untouched st'.
Proof. unfold untouched. intros H ->. exact H. Qed.

Lemma event_coherent st v e : coherent st -> valid_view st v -> orderly st v e -> coherent (wf_event v st e).
Proof.
  intros C Hv Ho. pose proof C as [Hp Hu].
  destruct e as [s|app|checked|value| |id|stores persisted|urlApp ready activeApp appIds| | |key| | | | | |results];
    cbn [wf_event orderly] in *; try (by apply (reset_coherent _ st.(wp_paging))); try (by apply (keep_coherent st)).
  - (* the debounce timer *)
    destruct (decide (wp_searchInput st = wp_debouncedSearch st)) as [E|E]; [|by apply fresh_coherent, Hu].
    apply (keep_coherent st); try done. intros page. unfold params_at. cbn. by rewrite E.
  - destruct Ho as [E|E].
    + destruct (resolve_keeps _ _ _ E) as (Hf & E1 & E2 & E3). by apply (keep_coherent st).
    + apply fresh_coherent, (untouched_kept st); [done|]. unfold resolve_store.
      destruct (dedupeStores stores); [done|]. by destruct (match wp_selectedStore st with Some id => _ | None => false end).
  - destruct Ho as [E|E].
    + destruct (default_keeps _ _ _ _ _ E) as (Hf & E1 & E2 & E3). by apply (keep_coherent st).
    + apply fresh_coherent, (untouched_kept st); [done|]. unfold apply_default.
      repeat (case_match; try done).
  - unfold onPrev. destruct (vw_isPlaceholderData v); [done|].
    split; [apply (coherent_same st); [done|]; by apply go_prev_ok|].
    intros E. destruct (Hu E) as [Hun|Hun]; [left|right]; cbn; by rewrite Hun.
  - unfold onNext. destruct (vw_isError v); [done|]. destruct (vw_isPlaceholderData v) eqn:Ep; [done|].
    destruct (negb (has_next v)); [done|]. cbn [orb].
    apply (paging_coherent st); [done|done|]. apply go_next_ok; [done|lia|by apply valid_cursor].
  - destruct Ho as [Hs Hk]. unfold toggleRow. destruct (vw_isPlaceholderData v) eqn:Ep; [done|].
    apply (paging_coherent st); [done|done|]. apply toggle_row_ok; [done|].
    pose proof (valid_rows st v Hv Ep) as F. rewrite Forall_forall in F. by apply F.
  - unfold toggleAll. destruct (vw_isPlaceholderData v) eqn:Ep; [done|].
    apply (paging_coherent st); [done|done|]. apply toggle_all_ok; [done|by apply valid_rows].
  - (* a removal's answer *)
    split; [apply (coherent_same st); [done|]; by apply clear_selection_ok|].
    intros E. destruct (Hu E) as [Hun|Hun]; [left|right]; cbn; by rewrite Hun.
Qed.

Lemma reach_coherent st : reach st -> coherent st.
Proof. induction 1 as [|st v e _ IH Hv Ho]; [apply fresh_coherent; by right|by apply event_coherent]. Qed.
End Served.

(** ** Keys and ids *)

Fixpoint no_slash (s : string) : bool :=
  match s with EmptyString => true | String c s => negb (Ascii.eqb c "/"%char) && no_slash s end.

Lemma split_slash_plain s : no_slash s = true -> split_slash s = [s].
Proof.
  induction s as [|c s IH]; cbn; [done|]. intros [Hc H]%andb_true_iff. rewrite (IH H).
  by destruct (Ascii.eqb c _).
Qed.

Lemma split_slash_app a b : no_slash a = true -> split_slash (a ++ "/" ++ b) = a :: split_slash b.
Proof.
  assert (Hb : split_slash b <> []).
  { induction b as [|c b IH]; cbn; [done|]. destruct (split_slash b); [by destruct IH|]. by destruct (Ascii.eqb c _). }
  induction a as [|c a IH]; intros H.
  - change (split_slash (String "/"%char b) = "" :: split_slash b). cbn. by destruct (split_slash b).
  - change (split_slash (String c (a ++ "/" ++ b)) = String c a :: split_slash b).
    apply andb_true_iff in H as [Hc H]. cbn [split_slash]. rewrite (IH H). by destruct (Ascii.eqb c _).
Qed.

Definition plain_ids (w : WorkflowSummary) : Prop := no_slash w.(wf_appId) = true /\ no_slash w.(wf_instanceId) = true.
Definition row_ids (w : WorkflowSummary) : string * option string := (w.(wf_appId), Some w.(wf_instanceId)).

Lemma split_row_key w : plain_ids w -> split_key (workflow_key w) = row_ids w.
Proof.
  intros [Ha Hi]. unfold split_key, workflow_key. by rewrite split_slash_app, split_slash_plain.
Qed.

Lemma row_ids_key w w' : row_ids w = row_ids w' -> workflow_key w = workflow_key w'.
Proof. unfold row_ids, workflow_key. by intros [= -> ->]. Qed.

(** C34: In every state the page reaches while its user waits for a typed search
    to be applied before paging or selecting, and whose automatic choices of a
    store and an application come before paging: a removal asks, in the selected
    store, for as many workflows as are selected, in their order; each is one row
    the backend listed under the filters, store and page now shown, and is asked
    for by its own ids where these have no slash (the key is cut at its first
    two); no workflow is asked for twice if no id has one; every cursor the page
    holds, for this page or one to go back to, was issued under those filters or
    is that of the address the page was opened with; and the offset shown starts
    at the first row. *)
Theorem removal_targets_listed_rows (served : QueryKey -> ListResult WorkflowSummary -> Prop)
    (urlPage : option string) (st : WfPage) (Hst : reach served urlPage st) (force : bool) :
  let req := onConfirmRemove force st in
  let p := st.(wp_paging) in
  rr_store req = st.(wp_selectedStore)
  /\ NoDup p.(pg_selected)
  /\ Forall2 (fun key ids => exists r w, served (workflows_key (page_params st)) r /\ w ∈ lr_items r
        /\ key = workflow_key w /\ (plain_ids w -> ids = row_ids w)) p.(pg_selected) (rr_ids req)
  /\ ((forall key r w, served key r -> w ∈ lr_items r -> plain_ids w) -> NoDup (rr_ids req))
  /\ cursor_ok (known served urlPage st) p.(pg_page)
  /\ Forall (fun h => cursor_ok (known served urlPage st) h.1) p.(pg_history)
  /\ (p.(pg_history) = [] -> p.(pg_pageOffset) = 0).
Proof.
  destruct (reach_coherent _ _ _ Hst) as [[Hp Hh Hs N _ Hf] _]. cbn zeta. cbn [onConfirmRemove rr_store rr_ids].
  rewrite Forall_forall in Hs.
  assert (Hrow : forall key, key ∈ pg_selected (wp_paging st) -> exists r w,
    served (workflows_key (page_params st)) r /\ w ∈ lr_items r /\ key = workflow_key w
    /\ (plain_ids w -> split_key key = row_ids w)).
  { intros key Hk. destruct (Hs key Hk) as (r & w & S & Hw & <-). exists r, w. split_and!; [done..|]. apply split_row_key. }
  split_and!; [done|done| | |done|done|].
  - apply Forall2_fmap_r, Forall_Forall2_diag, Forall_forall. exact Hrow.
  - intros Hplain. apply NoDup_fmap_2_strong; [|done]. intros k k' Hk Hk' E.
    destruct (Hrow k Hk) as (r & w & S & Hw & -> & E1), (Hrow k' Hk') as (r' & w' & S' & Hw' & -> & E2).
    apply row_ids_key. rewrite <- E1, <- E2; [done|exact (Hplain _ _ _ S' Hw')|exact (Hplain _ _ _ S Hw)].
  - intros E. rewrite E in Hf. by injection Hf.
Qed.

(** ** A page at work *)

Definition sample_row (instanceId : string) : WorkflowSummary :=
  {| wf_appId := "shop"; wf_instanceId := instanceId; wf_name := "order"; wf_status := Completed;
     wf_parentInstanceId := None; wf_createdAt := None; wf_lastUpdatedAt := None |}.
Definition sample_answer : ListResult WorkflowSummary :=
  {| lr_items := [sample_row "i1"; sample_row "i2"]; lr_nextToken := Some "t2" |}.
Definition sample_served (_ : QueryKey) (r : ListResult WorkflowSummary) : Prop := r = sample_answer.
Definition sample_view : View :=
  {| vw_data := Some sample_answer; vw_isError := false; vw_isPlaceholderData := false |}.
Definition no_view : View := {| vw_data := None; vw_isError := false; vw_isPlaceholderData := false |}.
Definition sample_store : StateStore :=
  {| ss_id := "s1"; ss_name := "statestore"; ss_type := "state.redis"; ss_source := "auto"; ss_path := "";
     ss_active := true; ss_connection := ""; ss_updatedAt := None; ss_secretIssue := None |}.

(** The store is chosen, the next page opened, its second row selected. *)
Definition sample_loaded : WfPage := wf_event no_view (initial_page "" "" None "") (EStores [sample_store] None).
Definition sample_paged : WfPage := wf_event sample_view sample_loaded ENext.
Definition sample_selected : WfPage := wf_event sample_view sample_paged (EToggleRow "shop/i2").

Lemma sample_reached : reach sample_served None sample_selected.
Proof.
  apply reach_event; [apply reach_event; [apply reach_event; [apply reach_load| |] | |] | |].
  - exact I.
  - right. left. reflexivity.
  - split; vm_compute; reflexivity.
  - vm_compute. reflexivity.
  - split; vm_compute; reflexivity.
  - split; [vm_compute; reflexivity|]. apply (bool_decide_unpack _). vm_compute. exact I.
Qed.

Lemma removal_targets_listed_rows_witness :
  rr_ids (onConfirmRemove false sample_selected) = [("shop", Some "i2")]
  /\ NoDup (rr_ids (onConfirmRemove false sample_selected))
  /\ exists r w, sample_served (workflows_key (page_params sample_selected)) r
       /\ w ∈ lr_items r /\ (plain_ids w -> ("shop", Some "i2") = row_ids w).
Proof.
  assert (P : forall key r w, sample_served key r -> w ∈ lr_items r -> plain_ids w).
  { intros key r w E Hw. rewrite E in Hw. cbn in Hw.
    apply elem_of_cons in Hw as [Hw|Hw]; [rewrite Hw; vm_compute; split; reflexivity|].
    apply list_elem_of_singleton in Hw. rewrite Hw. vm_compute. split; reflexivity. }
  split; [vm_compute; reflexivity|].
  destruct (removal_targets_listed_rows sample_served None sample_selected sample_reached false)
    as (_ & _ & R & N & _).
  split; [by apply N|].
  destruct (Forall2_lookup_l _ _ _ 0 "shop/i2" R eq_refl) as (ids & E & r & w & S & Hw & _ & H).
  vm_compute in E. injection E as <-. by exists r, w.
Defined.

(** The ids are cut out of the key at its first two slashes: a selected
    instance whose id has one is not the instance the removal asks for. *)
Theorem slash_in_id_removes_another (w : WorkflowSummary) (instance rest : string) :
  no_slash w.(wf_appId) = true -> no_slash instance = true -> w.(wf_instanceId) = instance ++ "/" ++ rest ->
  split_key (workflow_key w) = (w.(wf_appId), Some instance)
  /\ split_key (workflow_key w) <> row_ids w.
Proof.
  intros Ha Hi Hw. assert (E : split_key (workflow_key w) = (wf_appId w, Some instance)).
  { unfold split_key, workflow_key. rewrite Hw, split_slash_app, split_slash_app by done. done. }
  split; [done|]. rewrite E. unfold row_ids. rewrite Hw. intros [= H]. revert H.
  clear. induction instance as [|c s IH]; [done|]. intros [= H]. by apply IH.
Qed.

(** Within the debounce a page can still be turned: the cursor, issued for the
    old search, then goes with the new one. *)
Theorem typed_search_keeps_old_cursor :
  let typed := wf_event sample_view sample_loaded (ESearch "late") in
  let turned := wf_event sample_view typed ENext in
  let applied := wf_event no_view turned EDebounce in
  queryString (page_params typed) = [("store", "s1")]
  /\ queryString (page_params applied) = [("search", "late"); ("page", "t2"); ("store", "s1")].
Proof. vm_compute. split; reflexivity. Qed.

(** The default app is applied without a reset: a page already turned, and the
    rows already selected, stay. *)
Theorem default_app_keeps_paging :
  let st := wf_event sample_view sample_selected (EDefaultApp "" true (Some "shop") ["shop"]) in
  queryString (page_params st) = [("appId", "shop"); ("page", "t2"); ("store", "s1")]
  /\ st.(wp_paging).(pg_selected) = ["shop/i2"].
Proof. vm_compute. split; reflexivity. Qed.
