(* ===== verification/StatePage.v ===== *)
(** * The state page

    [pages/State.tsx] with [hooks/useStateRecords.ts] and [types/state.ts]: the
    records of a state store, their paging, selection and deletion.  The page
    is written like the workflows page, with two differences the theorems here
    turn on: its query keeps no earlier rows on screen, and a record's key is
    sent as it is. *)

From stdpp Require Import pretty.
From S2P Require Import Prelude JsNum Decimal JsMap Text Base64 ApiTypes Dedupe Paging.
#[local] Open Scope string_scope.
#[local] Open Scope Z_scope.

(** ** types/state.ts *)

Inductive StateKind := KApp | KWorkflow | KActor.
Inductive StateEncoding := EncText | EncBase64.
#[export] Instance StateEncoding_eq_dec : EqDecision StateEncoding.
Proof. solve_decision. Defined.

Record StateItem := {
  si_key : string;
  si_appId : string;
  si_logicalKey : string;
  si_kind : StateKind;
  si_preview : text;
  si_encoding : StateEncoding;
  si_size : Z;
  si_etag : option string;
  si_ttlExpiresAt : option string;
  si_contentType : option string
}.

(** ** hooks/useStateRecords.ts *)

Record StateRecordsParams := {
  sq_appId : option string;
  sq_search : option string;
  sq_page : option string;
  sq_limit : option Z;
  sq_store : option string;
  sq_includeInternal : bool;
  sq_enabled : bool
}.

Definition set_param (key : string) (value : option string) (q : JsMap string string) : JsMap string string :=
  match value with None | Some "" => q | Some v => map_set key v q end.

Definition state_query (p : StateRecordsParams) : JsMap string string :=
  let q := set_param "appId" p.(sq_appId) [] in
  let q := set_param "search" p.(sq_search) q in
  let q := set_param "page" p.(sq_page) q in
  let q := match p.(sq_limit) with None | Some 0 => q | Some n => map_set "limit" (pretty n) q end in
  let q := set_param "store" p.(sq_store) q in
  if p.(sq_includeInternal) then map_set "includeInternal" "true" q else q.

(** ** The rows *)

(** One decimal below 100, none above. *)
Definition round_size (n : num) : string := if (n <? 100)%float then toFixed 1 n else toFixed 0 n.
Definition formatSize (bytes : Z) : string :=
  if bytes <? 1024 then pretty bytes ++ " B"
  else
    let kb := (of_Z bytes / 1024)%float in
    if (kb <? 1024)%float then round_size kb ++ " KB" else round_size (kb / 1024)%float ++ " MB".

Definition cellValue (rec : StateItem) (decode : bool) : text :=
  if negb decode || negb (bool_decide (rec.(si_encoding) = EncBase64)) then rec.(si_preview)
  else default rec.(si_preview) (decodeBase64Preview rec.(si_preview)).

(** ** The page's state *)

Record StatePage := {
  sp_selectedApp : string;
  sp_searchInput : string;
  sp_debouncedSearch : string;
  sp_includeInternal : bool;
  sp_decodeBase64 : bool;
  sp_paging : Paging;
  sp_expandedKey : option string;
  sp_confirmOpen : bool;
  sp_createOpen : bool;
  sp_deleteStatus : option (Z * Z);
  sp_selectedStore : option string
}.

Definition initial_state_page (urlApp urlSearch : string) (urlPage : option string) : StatePage := {|
  sp_selectedApp := urlApp;
  sp_searchInput := urlSearch;
  sp_debouncedSearch := urlSearch;
  sp_includeInternal := false;
  sp_decodeBase64 := false;
  sp_paging := first_page urlPage;
  sp_expandedKey := None;
  sp_confirmOpen := false;
  sp_createOpen := false;
  sp_deleteStatus := None;
  sp_selectedStore := None
|}.

Definition records_params (page : option string) (st : StatePage) : StateRecordsParams := {|
  sq_appId := if String.eqb st.(sp_selectedApp) "" then None else Some st.(sp_selectedApp);
  sq_search := if String.eqb st.(sp_debouncedSearch) "" then None else Some st.(sp_debouncedSearch);
  sq_page := page;
  sq_limit := None;
  sq_store := st.(sp_selectedStore);
  sq_includeInternal := st.(sp_includeInternal);
  sq_enabled := bool_decide (is_Some st.(sp_selectedStore))
|}.
Definition records_query (st : StatePage) : JsMap string string :=
  state_query (records_params st.(sp_paging).(pg_page) st).

Definition RecordsView : Type := ListView StateItem.
Definition records (v : RecordsView) : list StateItem :=
  if v.(vw_isError) then [] else default [] (lr_items <$> v.(vw_data)).
Definition record_keys (v : RecordsView) : list string := map si_key (records v).
Definition hasBase64 (v : RecordsView) : bool :=
  existsb (fun r => bool_decide (r.(si_encoding) = EncBase64)) (records v).

(** ** Handlers *)

(** A change of everything the query depends on, the paging given. *)
Definition with_query (app input debounced : string) (internal : bool) (store : option string) (p : Paging)
    (expanded : option string) (st : StatePage) : StatePage := {|
  sp_selectedApp := app; sp_searchInput := input; sp_debouncedSearch := debounced;
  sp_includeInternal := internal; sp_decodeBase64 := st.(sp_decodeBase64); sp_paging := p;
  sp_expandedKey := expanded; sp_confirmOpen := st.(sp_confirmOpen); sp_createOpen := st.(sp_createOpen);
  sp_deleteStatus := st.(sp_deleteStatus); sp_selectedStore := store |}.

(** Paging, selection and the expanded row alone. *)
Definition with_rows (p : Paging) (expanded : option string) (st : StatePage) : StatePage :=
  with_query st.(sp_selectedApp) st.(sp_searchInput) st.(sp_debouncedSearch) st.(sp_includeInternal)
    st.(sp_selectedStore) p expanded st.

Definition with_panels (decode confirm create : bool) (status : option (Z * Z)) (p : Paging) (st : StatePage)
    : StatePage := {|
  sp_selectedApp := st.(sp_selectedApp); sp_searchInput := st.(sp_searchInput);
  sp_debouncedSearch := st.(sp_debouncedSearch); sp_includeInternal := st.(sp_includeInternal);
  sp_decodeBase64 := decode; sp_paging := p; sp_expandedKey := st.(sp_expandedKey);
  sp_confirmOpen := confirm; sp_createOpen := create; sp_deleteStatus := status;
  sp_selectedStore := st.(sp_selectedStore) |}.

Definition app_change (app : string) (st : StatePage) : StatePage :=
  with_query app st.(sp_searchInput) st.(sp_debouncedSearch) st.(sp_includeInternal) st.(sp_selectedStore)
    (resetPaging st.(sp_paging)) None st.
Definition search_input (value : string) (st : StatePage) : StatePage :=
  with_query st.(sp_selectedApp) value st.(sp_debouncedSearch) st.(sp_includeInternal) st.(sp_selectedStore)
    (resetPaging st.(sp_paging)) None st.
Definition search_debounced (st : StatePage) : StatePage :=
  with_query st.(sp_selectedApp) st.(sp_searchInput) st.(sp_searchInput) st.(sp_includeInternal)
    st.(sp_selectedStore) st.(sp_paging) st.(sp_expandedKey) st.
Definition internal_change (checked : bool) (st : StatePage) : StatePage :=
  with_query st.(sp_selectedApp) st.(sp_searchInput) st.(sp_debouncedSearch) checked st.(sp_selectedStore)
    (resetPaging st.(sp_paging)) None st.
Definition store_change (id : string) (st : StatePage) : StatePage :=
  with_query "" st.(sp_searchInput) st.(sp_debouncedSearch) st.(sp_includeInternal) (Some id)
    (resetPaging st.(sp_paging)) None st.

Definition has_store (stores : list StateStore) (id : string) : bool :=
  existsb (fun s => String.eqb s.(ss_id) id) stores.

(** The effect that chooses a store; the active store is the one marked active,
    or the first. *)
Definition choose_store (storeList : list StateStore) (persisted : option string) (st : StatePage) : StatePage :=
  let displayStores := dedupeStores storeList in
  let activeStore := match List.find ss_active storeList with Some s => Some s | None => head storeList end in
  match displayStores with
  | [] => st
  | first :: _ =>
      if match st.(sp_selectedStore) with Some id => has_store displayStores id | None => false end then st
      else
        let fromPersisted :=
          match persisted with
          | None | Some "" => None
          | Some id => if has_store displayStores id then Some id else None
          end in
        let fallback := match activeStore with Some s => s.(ss_id) | None => first.(ss_id) end in
        with_query st.(sp_selectedApp) st.(sp_searchInput) st.(sp_debouncedSearch) st.(sp_includeInternal)
          (Some (default fallback fromPersisted)) st.(sp_paging) st.(sp_expandedKey) st
  end.

(** The buttons' clicks; a disabled button fires none. *)
Definition prev_click (st : StatePage) : StatePage :=
  match st.(sp_paging).(pg_history) with [] => st | _ => with_rows (go_prev st.(sp_paging)) None st end.
Definition next_click (v : RecordsView) (st : StatePage) : StatePage :=
  if v.(vw_isError) || negb (has_next v) then st
  else with_rows (go_next (view_token v) (Z.of_nat (length (records v))) st.(sp_paging)) None st.

Definition row_click (key : string) (st : StatePage) : StatePage :=
  with_rows st.(sp_paging) (if bool_decide (st.(sp_expandedKey) = Some key) then None else Some key) st.
Definition check_row (key : string) (st : StatePage) : StatePage :=
  with_rows (toggle_row key st.(sp_paging)) st.(sp_expandedKey) st.
Definition check_all (v : RecordsView) (st : StatePage) : StatePage :=
  with_rows (toggle_all (record_keys v) st.(sp_paging)) st.(sp_expandedKey) st.

(** The panels around the table. *)
Inductive Panel := POpenDelete | PCancelDelete | POpenCreate | PCloseCreate | PDismiss | PDecode (checked : bool).
Definition panel_event (e : Panel) (st : StatePage) : StatePage :=
  let '(d, cf, cr, ds) := (st.(sp_decodeBase64), st.(sp_confirmOpen), st.(sp_createOpen), st.(sp_deleteStatus)) in
  match e with
  | POpenDelete => with_panels d true cr None st.(sp_paging) st
  | PCancelDelete => with_panels d false cr ds st.(sp_paging) st
  | POpenCreate => with_panels d cf true ds st.(sp_paging) st
  | PCloseCreate => with_panels d cf false ds st.(sp_paging) st
  | PDismiss => with_panels d cf cr None st.(sp_paging) st
  | PDecode checked => with_panels checked cf cr ds st.(sp_paging) st
  end.

(** The request of [onConfirmDelete] and its answer. *)
Definition delete_request (st : StatePage) : list string * option string :=
  (st.(sp_paging).(pg_selected), st.(sp_selectedStore)).
Definition deleted (results : list bool) (st : StatePage) : StatePage :=
  with_panels st.(sp_decodeBase64) false st.(sp_createOpen)
    (Some (Z.of_nat (length (List.filter id results)), Z.of_nat (length (List.filter negb results))))
    (clear_selection st.(sp_paging)) st.

Inductive StateEvent :=
  | SApp (app : string)
  | SSearch (value : string)
  | SDebounce
  | SInternal (checked : bool)
  | SStore (id : string)
  | SStores (storeList : list StateStore) (persisted : option string)
  | SPrev
  | SNext
  | SRow (key : string)
  | SCheck (key : string)
  | SCheckAll
  | SPanel (e : Panel)
  | SDeleted (results : list bool).

Definition state_event (v : RecordsView) (st : StatePage) (e : StateEvent) : StatePage :=
  match e with
  | SApp app => app_change app st
  | SSearch value => search_input value st
  | SDebounce => search_debounced st
  | SInternal checked => internal_change checked st
  | SStore id => store_change id st
  | SStores storeList persisted => choose_store storeList persisted st
  | SPrev => prev_click st
  | SNext => next_click v st
  | SRow key => row_click key st
  | SCheck key => check_row key st
  | SCheckAll => check_all v st
  | SPanel e => panel_event e st
  | SDeleted results => deleted results st
  end.

(** ** What paging and deletion act on *)

Section Served.
(** The backend's answers to a list query. *)
Context (served : JsMap string string -> ListResult StateItem -> Prop).

(** No earlier rows stand in: what the caching library shows answers the
    present query, and nothing is asked before a store is chosen. *)
Definition valid_records (st : StatePage) (v : RecordsView) : Prop :=
  match v.(vw_data) with
  | None => True
  | Some r => sq_enabled (records_params st.(sp_paging).(pg_page) st) = true /\ served (records_query st) r
  end.

Definition issued (st : StatePage) (token : string) : Prop :=
  exists page r, served (state_query (records_params page st)) r /\ lr_nextToken r = Some token.
Definition listed (st : StatePage) (page : option string) (key : string) : Prop :=
  exists r i, served (state_query (records_params page st)) r /\ i ∈ lr_items r /\ si_key i = key.

Definition untouched (st : StatePage) : Prop := st.(sp_paging) = first_page None /\ st.(sp_expandedKey) = None.
(** As on the workflows page: no paging, selecting or expanding while a typed
    search waits, and the automatic choice of a store comes first. *)
Definition orderly (st : StatePage) (v : RecordsView) (e : StateEvent) : Prop :=
  match e with
  | SNext | SCheckAll => st.(sp_searchInput) = st.(sp_debouncedSearch)
  | SCheck key | SRow key => st.(sp_searchInput) = st.(sp_debouncedSearch) /\ key ∈ record_keys v
  | SStores storeList persisted =>
      sp_selectedStore (choose_store storeList persisted st) = st.(sp_selectedStore) \/ untouched st
  | _ => True
  end.

Inductive reach : StatePage -> Prop :=
  | reach_load urlApp urlSearch : reach (initial_state_page urlApp urlSearch None)
  | reach_event st v e : reach st -> valid_records st v -> orderly st v e -> reach (state_event v st e).

Record coherent (st : StatePage) : Prop := {
  co_paging : paging_ok (issued st) (listed st) st.(sp_paging);
  co_expanded : forall key, st.(sp_expandedKey) = Some key -> listed st st.(sp_paging).(pg_page) key;
  co_waiting : st.(sp_searchInput) <> st.(sp_debouncedSearch) -> untouched st
}.

Lemma record_fresh_coherent st : untouched st -> coherent st.
Proof. intros [H E]. split; [rewrite H; apply first_page_ok|by rewrite E|done]. Qed.

Lemma fresh_rows st : untouched st -> st.(sp_paging) = first_page None.
Proof. by intros []. Qed.

Definition same_query (st st' : StatePage) : Prop := forall page, records_params page st' = records_params page st.

Lemma issued_same st st' t : same_query st st' -> issued st t -> issued st' t.
Proof. intros Hf (page & r & S & E). exists page, r. by rewrite Hf. Qed.
Lemma listed_same st st' page k : same_query st st' -> listed st page k -> listed st' page k.
Proof. intros Hf (r & i & S & E). exists r, i. by rewrite Hf. Qed.

(** New rows under the query in force. *)
Lemma rows_coherent st st' : same_query st st' ->
  paging_ok (issued st) (listed st) st'.(sp_paging) ->
  (forall key, st'.(sp_expandedKey) = Some key -> listed st st'.(sp_paging).(pg_page) key) ->
  (st'.(sp_searchInput) <> st'.(sp_debouncedSearch) -> untouched st') -> coherent st'.
Proof.
  intros Hf Hp He Hw. split; [|intros key E; by apply (listed_same st), He|done].
  eapply paging_ok_impl; [| |exact Hp]; eauto using issued_same, listed_same.
Qed.

Lemma record_keep_coherent st st' : coherent st -> same_query st st' ->
  st'.(sp_paging) = st.(sp_paging) -> st'.(sp_expandedKey) = st.(sp_expandedKey) ->
  st'.(sp_searchInput) = st.(sp_searchInput) -> st'.(sp_debouncedSearch) = st.(sp_debouncedSearch) -> coherent st'.
Proof.
  intros [Hp He Hw] Hf E1 E2 E3 E4. apply (rows_coherent st); [done|by rewrite E1|rewrite E1, E2; done|].
  rewrite E3, E4. unfold untouched. by rewrite E1, E2.
Qed.

Lemma valid_keys st v : valid_records st v -> Forall (listed st st.(sp_paging).(pg_page)) (record_keys v).
Proof.
  unfold valid_records, record_keys, records. destruct (vw_isError v); [constructor|].
  destruct (vw_data v) as [r|]; [|constructor]. intros [_ Hv].
  apply Forall_forall. intros k (i & -> & Hi)%list_elem_of_fmap. by exists r, i.
Qed.

Lemma valid_token st v t : valid_records st v -> view_token v = Some t -> issued st t.
Proof.
  unfold valid_records, view_token. destruct (vw_data v) as [r|]; [|done]. intros [_ Hv] E. cbn in E.
  by exists (pg_page (sp_paging st)), r.
Qed.

Lemma choose_store_rows storeList persisted st :
  sp_paging (choose_store storeList persisted st) = st.(sp_paging)
  /\ sp_expandedKey (choose_store storeList persisted st) = st.(sp_expandedKey)
  /\ sp_searchInput (choose_store storeList persisted st) = st.(sp_searchInput)
  /\ sp_debouncedSearch (choose_store storeList persisted st) = st.(sp_debouncedSearch)
  /\ (sp_selectedStore (choose_store storeList persisted st) = st.(sp_selectedStore) ->
      same_query st (choose_store storeList persisted st)).
Proof.
  unfold choose_store. destruct (dedupeStores storeList); [done|].
  destruct (match sp_selectedStore st with Some id => _ | None => false end); [done|].
  cbn. split_and!; [done..|]. intros E page. unfold records_params. cbn. by rewrite <- E.
Qed.

Lemma prev_coherent st : coherent st -> coherent (prev_click st).
Proof.
  intros C. pose proof C as [Hp He Hw]. unfold prev_click. destruct (pg_history (sp_paging st)) eqn:E; [done|].
  apply (rows_coherent st); [done|by apply go_prev_ok|done|].
  intros Hn. destruct (Hw Hn) as [Hf _]. rewrite Hf in E. done.
Qed.

Lemma next_coherent st v : coherent st -> valid_records st v -> st.(sp_searchInput) = st.(sp_debouncedSearch) ->
  coherent (next_click v st).
Proof.
  intros C Hv Hs. pose proof C as [Hp He Hw]. unfold next_click. destruct (_ || _); [done|].
  apply (rows_coherent st); [done| |done|by cbn].
  apply go_next_ok; [done|lia|]. intros t. by apply valid_token.
Qed.

(** A change of the selection that keeps the page. *)
Lemma selection_coherent st s : coherent st -> st.(sp_searchInput) = st.(sp_debouncedSearch) ->
  paging_ok (issued st) (listed st) s -> pg_page s = pg_page st.(sp_paging) ->
  coherent (with_rows s st.(sp_expandedKey) st).
Proof.
  intros [Hp He Hw] Hs Hok Hpage. apply (rows_coherent st); [done|done| |by cbn].
  intros key E. cbn. rewrite Hpage. by apply He.
Qed.

Lemma check_all_page rows p : pg_page (toggle_all rows p) = pg_page p.
Proof. unfold toggle_all. by destruct (_ && _). Qed.

Lemma record_event_coherent st v e : coherent st -> valid_records st v -> orderly st v e -> coherent (state_event v st e).
Proof.
  intros C Hv Ho. pose proof C as [Hp He Hw].
  destruct e as [app|value| |checked|id|stores persisted| | |key|key| |panel|results]; cbn [state_event orderly] in *;
    try (by apply record_fresh_coherent).
  - destruct (decide (sp_searchInput st = sp_debouncedSearch st)) as [E|E].
    + apply (record_keep_coherent st); try done. intros page. unfold records_params. cbn. by rewrite E.
    + apply record_fresh_coherent. by apply Hw.
  - destruct (choose_store_rows stores persisted st) as (E1 & E2 & E3 & E4 & Hf). destruct Ho as [E|[U1 U2]].
    + apply (record_keep_coherent st); auto.
    + apply record_fresh_coherent. split; congruence.
  - by apply prev_coherent.
  - by apply next_coherent.
  - destruct Ho as [Hs Hk]. apply (rows_coherent st); [done|done| |by cbn].
    intros k. cbn. destruct (bool_decide _); [done|]. intros [= <-].
    pose proof (valid_keys st v Hv) as F. rewrite Forall_forall in F. by apply F.
  - destruct Ho as [Hs Hk]. apply selection_coherent; [done|done| |done]. apply toggle_row_ok; [done|].
    pose proof (valid_keys st v Hv) as F. rewrite Forall_forall in F. by apply F.
  - apply selection_coherent; [done|done| |apply check_all_page]. apply toggle_all_ok; [done|by apply valid_keys].
  - by destruct panel; apply (record_keep_coherent st).
  - apply (rows_coherent st); [done|by apply clear_selection_ok|done|].
    intros E. destruct (Hw E) as [E1 E2]. split; [|done]. cbn. by rewrite E1.
Qed.

Lemma record_reach_coherent st : reach st -> coherent st.
Proof. induction 1 as [|st v e _ IH Hv Ho]; [by apply record_fresh_coherent|by apply record_event_coherent]. Qed.
End Served.

(** In every state the state page reaches under the same conditions, a
    deletion is sent for the selected keys, each once and unchanged, in the
    store shown, and each is the key of a record the backend listed under the
    filters and page now shown; the expanded row is one of them too; and every
    cursor held was issued under those filters. *)
Theorem deletion_targets_listed_records (served : JsMap string string -> ListResult StateItem -> Prop)
    (st : StatePage) (Hst : reach served st) :
  let '(sent, store) := delete_request st in
  let p := st.(sp_paging) in
  store = st.(sp_selectedStore)
  /\ sent = p.(pg_selected) /\ NoDup sent
  /\ (forall key, key ∈ sent \/ st.(sp_expandedKey) = Some key ->
        exists r i, served (records_query st) r /\ i ∈ lr_items r /\ si_key i = key)
  /\ cursor_ok (issued served st) p.(pg_page)
  /\ Forall (fun h => cursor_ok (issued served st) h.1) p.(pg_history)
  /\ (p.(pg_history) = [] -> p.(pg_pageOffset) = 0).
Proof.
  destruct (record_reach_coherent _ _ Hst) as [[Hp Hh Hs N _ Hf] He _]. cbn. rewrite Forall_forall in Hs.
  split_and!; [done|done|done| |done|done|].
  - intros key [Hk|Hk]; [by apply Hs|by apply He].
  - intros E. rewrite E in Hf. by injection Hf.
Qed.

(** *** A page at work *)

Definition sample_item (key : string) : StateItem :=
  {| si_key := key; si_appId := "shop"; si_logicalKey := key; si_kind := KApp; si_preview := []; si_encoding := EncText;
     si_size := 1; si_etag := None; si_ttlExpiresAt := None; si_contentType := None |}.
Definition sample_answer : ListResult StateItem :=
  {| lr_items := [sample_item "shop||a/b"; sample_item "shop||c"]; lr_nextToken := None |}.
Definition sample_served (_ : JsMap string string) (r : ListResult StateItem) : Prop := r = sample_answer.
Definition shown (answer : option (ListResult StateItem)) : RecordsView :=
  {| vw_data := answer; vw_isError := false; vw_isPlaceholderData := false |}.
Definition sample_store : StateStore :=
  {| ss_id := "s1"; ss_name := "statestore"; ss_type := "state.redis"; ss_source := "auto"; ss_path := "";
     ss_active := true; ss_connection := ""; ss_updatedAt := None; ss_secretIssue := None |}.
Definition sample_loaded : StatePage := state_event (shown None) (initial_state_page "" "" None) (SStores [sample_store] None).
Definition sample_selected : StatePage := state_event (shown (Some sample_answer)) sample_loaded SCheckAll.

Lemma record_sample_reached : reach sample_served sample_selected.
Proof.
  apply reach_event; [apply reach_event; [apply reach_load|exact I|]|split|].
  - right. split; reflexivity.
  - vm_compute. reflexivity.
  - vm_compute. reflexivity.
  - reflexivity.
Qed.

Lemma deletion_targets_listed_records_witness :
  delete_request sample_selected = (["shop||a/b"; "shop||c"], Some "s1")
  /\ exists r i, sample_served (records_query sample_selected) r /\ i ∈ lr_items r /\ si_key i = "shop||a/b".
Proof.
  split; [vm_compute; reflexivity|].
  destruct (deletion_targets_listed_records sample_served sample_selected record_sample_reached) as (_ & _ & _ & R & _).
  apply R. left. vm_compute. left.
Defined.

(** The size column is wider than its widest announced text: just below 100 KB
    the one decimal rounds up to eight characters. *)
Theorem size_cell_overflows : formatSize 102399 = "100.0 KB".
Proof. vm_compute. reflexivity. Qed.
