(* ===== verification/RecordDialog.v ===== *)
(** * Writing a state record

    [components/NewStateRecordDialog.tsx] with [postRecord] and the mutation of
    [hooks/useStateRecords.ts]: a form over a request that the server refuses
    with a 409 when the key exists.  The caching library's mutation is what it
    shows of its last request: nothing, under way, answered or failed; [reset]
    forgets it, and the answer of a forgotten request shows nowhere. *)

From S2P Require Import Prelude Text.
#[local] Open Scope Z_scope.

(** ** Data *)

Record CreateStatePayload := { cp_appId : text; cp_key : text; cp_value : text; cp_overwrite : bool }.

Record StateWriteError := { we_message : string; we_status : Z }.

(** What the server answers: the status, and the [error] text of the body when
    there is one ([None] also for a body that is not JSON), or the stored key. *)
Inductive WriteAnswer :=
  | Written (key : text)
  | Refused (status : Z) (error : option string).

(** [postRecord]: how an answer comes back to the caller. [number_text] is
    [String(status)]. *)
Definition postRecord (number_text : Z -> string) (a : WriteAnswer) : StateWriteError + text :=
  match a with
  | Written key => inr key
  | Refused status error =>
      inl {| we_message := default (String.append "request failed: " (number_text status)) error; we_status := status |}
  end.

(** A request is known by the payload it was sent with. *)
Inductive Mutation :=
  | MIdle
  | MPending (vars : CreateStatePayload)
  | MSuccess (vars : CreateStatePayload) (key : text)
  | MError (vars : CreateStatePayload) (err : StateWriteError).

Record RecordForm := {
  nr_appId : text;
  nr_key : text;
  nr_value : text;
  nr_create : Mutation;
  nr_sent : list CreateStatePayload   (* every request sent, the last one first *)
}.

(** ** Operations *)

Definition isPending (m : Mutation) : bool := match m with MPending _ => true | _ => false end.
Definition isError (m : Mutation) : bool := match m with MError _ _ => true | _ => false end.
Definition isSuccess (m : Mutation) : bool := match m with MSuccess _ _ => true | _ => false end.

(** The effect on [open] and [defaultAppId]. *)
Definition open_record_dialog (defaultAppId : option text) (f : RecordForm) : RecordForm := {|
  nr_appId := default [] defaultAppId; nr_key := []; nr_value := []; nr_create := MIdle; nr_sent := f.(nr_sent) |}.

Definition blank_record : RecordForm :=
  {| nr_appId := []; nr_key := []; nr_value := []; nr_create := MIdle; nr_sent := [] |}.

Definition payload (f : RecordForm) (overwrite : bool) : CreateStatePayload := {|
  cp_appId := trim f.(nr_appId); cp_key := trim f.(nr_key); cp_value := f.(nr_value); cp_overwrite := overwrite |}.

Definition submit (f : RecordForm) (overwrite : bool) : RecordForm :=
  {| f with nr_create := MPending (payload f overwrite); nr_sent := payload f overwrite :: f.(nr_sent) |}.

(** [editKeyPart], on either half of the key. *)
Definition retire (f : RecordForm) : RecordForm :=
  if isError f.(nr_create) then {| f with nr_create := MIdle |} else f.
Definition edit_appId (f : RecordForm) (v : text) : RecordForm := {| (retire f) with nr_appId := v |}.
Definition edit_key (f : RecordForm) (v : text) : RecordForm := {| (retire f) with nr_key := v |}.

Definition conflict (f : RecordForm) : bool :=
  match f.(nr_create) with MError _ e => e.(we_status) =? 409 | _ => false end.

Definition canSave (f : RecordForm) : bool :=
  negb (text_eqb (trim f.(nr_appId)) []) && negb (text_eqb (trim f.(nr_key)) []) && negb (text_eqb f.(nr_value) []).

(** The key shown under the form. *)
Definition composed (f : RecordForm) : text :=
  let key := trim f.(nr_key) in
  trim f.(nr_appId) ++ match key with [] => [] | _ => u "||" ++ key end.

(** ** Events

    The form shows one button: Overwrite on a conflict, Save otherwise; after a
    success it shows neither, nor the fields.  An answer is the answer of the
    request the library is waiting for. *)

Inductive RecordEvent :=
  | REAppId (v : text)
  | REKey (v : text)
  | REValue (v : text)
  | RESave
  | REOverwrite
  | REAnswer (a : WriteAnswer)
  | REReopen (defaultAppId : option text).

Section Events.
Context (number_text : Z -> string).

Definition record_event (f : RecordForm) (e : RecordEvent) : RecordForm :=
  let fields := negb (isSuccess f.(nr_create)) in
  match e with
  | REAppId v => if fields then edit_appId f v else f
  | REKey v => if fields then edit_key f v else f
  | REValue v => if fields then {| f with nr_value := v |} else f
  | RESave => if fields && negb (conflict f) && canSave f && negb (isPending f.(nr_create)) then submit f false else f
  | REOverwrite => if conflict f && negb (isPending f.(nr_create)) then submit f true else f
  | REAnswer a =>
      match f.(nr_create) with
      | MPending vars =>
          {| f with nr_create := match postRecord number_text a with
                                 | inl err => MError vars err
                                 | inr key => MSuccess vars key
                                 end |}
      | _ => f
      end
  | REReopen d => open_record_dialog d f
  end.

Definition record_events (es : list RecordEvent) : RecordForm := fold_left record_event es blank_record.

(** Whether an event edits the key while a request is under way. *)
Definition edits_key_pending (f : RecordForm) (e : RecordEvent) : bool :=
  match e with REAppId _ | REKey _ => isPending f.(nr_create) | _ => false end.

(** ** Overwriting *)

Definition same_key (f : RecordForm) (vars : CreateStatePayload) : Prop :=
  vars.(cp_appId) = trim f.(nr_appId) /\ vars.(cp_key) = trim f.(nr_key).

(** The key was edited while the last request, of [vars], was under way. *)
Definition edited_meanwhile (es : list RecordEvent) (vars : CreateStatePayload) : Prop :=
  exists es1 e es2, es = es1 ++ e :: es2
    /\ (record_events es1).(nr_create) = MPending vars
    /\ edits_key_pending (record_events es1) e = true
    /\ (record_events es1).(nr_sent) = (record_events es).(nr_sent).

(** What the last request was about. *)
Definition about_last (es : list RecordEvent) (vars : CreateStatePayload) : Prop :=
  head (record_events es).(nr_sent) = Some vars /\ (same_key (record_events es) vars \/ edited_meanwhile es vars).
Definition answer_is_about (es : list RecordEvent) : Prop :=
  match (record_events es).(nr_create) with MPending vars | MError vars _ => about_last es vars | _ => True end.

Lemma record_snoc es e : record_events (es ++ [e]) = record_event (record_events es) e.
Proof. unfold record_events. by rewrite fold_left_app. Qed.

(** Events that send nothing and keep the key. *)
Lemma about_kept es e vars :
  about_last es vars -> (record_events (es ++ [e])).(nr_sent) = (record_events es).(nr_sent) ->
  (same_key (record_events es) vars -> same_key (record_events (es ++ [e])) vars \/ edited_meanwhile (es ++ [e]) vars) ->
  about_last (es ++ [e]) vars.
Proof.
  intros [Hh Hk] Hs Hkey. split; [by rewrite Hs|]. destruct Hk as [Hk|(es1 & e1 & es2 & E & H1 & H2 & H3)]; [by apply Hkey|].
  right. exists es1, e1, (es2 ++ [e]). rewrite Hs. split_and!; try done. by rewrite E, <- app_assoc.
Qed.

Lemma retired f : isPending f.(nr_create) = false ->
  match (retire f).(nr_create) with MPending _ | MError _ _ => False | _ => True end.
Proof. unfold retire. destruct f as [a k v [] s]; by cbn. Qed.

(** An edit of the key, which retires a conflict. *)
Lemma edit_about es e w :
  answer_is_about es -> record_event (record_events es) e = w -> w.(nr_sent) = (record_events es).(nr_sent) ->
  w.(nr_create) = (retire (record_events es)).(nr_create) ->
  edits_key_pending (record_events es) e = isPending (record_events es).(nr_create) ->
  answer_is_about (es ++ [e]).
Proof.
  intros IH Hw Hs Hc He. unfold answer_is_about in *. pose proof (retired (record_events es)) as R.
  rewrite record_snoc, Hw, Hc.
  destruct (nr_create (record_events es)) as [|vars|vars key|vars err] eqn:M;
    try (specialize (R eq_refl); by destruct (nr_create (retire (record_events es)))).
  assert (Er : nr_create (retire (record_events es)) = MPending vars) by (unfold retire; by rewrite M).
  rewrite Er. apply about_kept; [done|by rewrite record_snoc, Hw|]. intros _. right.
  exists es, e, []. rewrite record_snoc, Hw, Hs. by split_and!.
Qed.

Lemma record_about es : answer_is_about es.
Proof.
  induction es as [|e es IH] using rev_ind; [done|].
  destruct (isSuccess (record_events es).(nr_create)) eqn:Hsu.
  { unfold answer_is_about in *. rewrite record_snoc. unfold record_event, conflict. rewrite Hsu.
    destruct (nr_create (record_events es)) eqn:M; try done. by destruct e; cbn; rewrite ?M. }
  assert (Keep : forall f', record_events (es ++ [e]) = f' -> f'.(nr_create) = (record_events es).(nr_create) ->
    f'.(nr_sent) = (record_events es).(nr_sent) ->
    f'.(nr_appId) = (record_events es).(nr_appId) -> f'.(nr_key) = (record_events es).(nr_key) -> answer_is_about (es ++ [e])).
  { intros f' Ef Ec Es Ea Ek. unfold answer_is_about in *. rewrite Ef, Ec.
    destruct (nr_create (record_events es)); try done; (apply about_kept; [done|by rewrite Ef|]);
      intros [H1 H2]; left; unfold same_key; rewrite Ef, Ea, Ek; by split. }
  assert (Sent : forall b, record_events (es ++ [e]) = submit (record_events es) b -> answer_is_about (es ++ [e])).
  { intros b Ef. unfold answer_is_about, about_last. rewrite Ef. cbn. split; [done|]. by left. }
  destruct e as [v|v|v| | |a|d]; pose proof (record_snoc es) as Sn.
  - apply (edit_about es _ (edit_appId (record_events es) v)); try done; [by cbn; rewrite Hsu|].
    cbn. unfold retire. by destruct (isError _).
  - apply (edit_about es _ (edit_key (record_events es) v)); try done; [by cbn; rewrite Hsu|].
    cbn. unfold retire. by destruct (isError _).
  - specialize (Sn (REValue v)). cbn in Sn. rewrite Hsu in Sn. by eapply Keep.
  - specialize (Sn RESave). cbn in Sn. destruct (_ && _); [by eapply Sent|by eapply Keep].
  - specialize (Sn REOverwrite). cbn in Sn. destruct (_ && _); [by eapply Sent|by eapply Keep].
  - specialize (Sn (REAnswer a)). cbn in Sn. unfold answer_is_about in *.
    destruct (nr_create (record_events es)) as [|vars|vars key|vars err] eqn:M; rewrite ?Sn, ?M; try done.
    + cbn. destruct (postRecord number_text a); [|done]. apply about_kept; [done|by rewrite Sn|].
      intros H. left. unfold same_key in *. by rewrite Sn.
    + apply about_kept; [done|by rewrite Sn|]. intros H. left. by rewrite Sn.
  - unfold answer_is_about. by rewrite Sn.
Qed.

(** The last request was refused with a 409, and was for the key now in the
    form, unless the key was edited while it was under way. *)
Definition refused_before (es : list RecordEvent) : Prop :=
  exists vars err, (record_events es).(nr_create) = MError vars err /\ err.(we_status) = 409
    /\ head (record_events es).(nr_sent) = Some vars
    /\ (same_key (record_events es) vars \/ edited_meanwhile es vars).

(** C29: A record is only overwritten after the server has refused to write it:
    whatever is typed, clicked and answered, when Overwrite sends a request, the
    last request sent was answered with a 409, and it was for the very key that is sent now, unless the user edited the
    key while that request was under way (an edit after the answer takes
    Overwrite away). *)
Theorem overwrites_refused_key_only (es : list RecordEvent) :
  let f := record_events es in
  let f' := record_events (es ++ [REOverwrite]) in
  f'.(nr_sent) = f.(nr_sent) \/ (f'.(nr_sent) = payload f true :: f.(nr_sent) /\ refused_before es).
Proof.
  cbv zeta. rewrite record_snoc. cbn [record_event].
  destruct (conflict (record_events es) && negb _) eqn:E; [right|by left].
  split; [done|]. apply andb_true_iff in E as [E _]. pose proof (record_about es) as A.
  unfold conflict, answer_is_about in *.
  destruct (nr_create (record_events es)) as [|vars|vars key|vars err] eqn:M; try discriminate.
  destruct A as [Hh Hk]. exists vars, err. split_and!; [exact M|lia|done|done].
Qed.

(** Every request that may not overwrite is complete. *)
Definition complete (p : CreateStatePayload) : Prop :=
  p.(cp_appId) <> [] /\ p.(cp_key) <> [] /\ p.(cp_value) <> [].

Lemma canSave_complete f b : canSave f = true -> complete (payload f b).
Proof.
  unfold canSave. rewrite !andb_true_iff, !negb_true_iff. intros [[H1 H2] H3].
  split_and!; cbn; intros E; [rewrite E in H1|rewrite E in H2|rewrite E in H3]; discriminate.
Qed.

Theorem creations_are_complete (es : list RecordEvent) :
  Forall (fun p => p.(cp_overwrite) = true \/ complete p) (record_events es).(nr_sent).
Proof.
  apply (fold_left_inv (fun f => Forall (fun p => p.(cp_overwrite) = true \/ complete p) f.(nr_sent))); [|constructor].
  intros f e _ H. destruct e as [v|v|v| | |a|d]; cbn [record_event].
  - destruct (negb _); [|done]. unfold edit_appId, retire. by destruct (isError _).
  - destruct (negb _); [|done]. unfold edit_key, retire. by destruct (isError _).
  - by destruct (negb _).
  - destruct (_ && _ && _ && _) eqn:E; [|done]. rewrite !andb_true_iff in E. destruct E as [[_ E] _].
    constructor; [|done]. right. by apply canSave_complete.
  - destruct (_ && _); [|done]. constructor; [by left|done].
  - by destruct (nr_create f).
  - done.
Qed.
End Events.

(** ** Examples *)

Definition sample_record_events : list RecordEvent :=
  [REAppId (u "orders "); REKey (u "cart-1"); REValue (u "{}"); RESave; REAnswer (Refused 409 (Some "key exists"%string))].

Lemma overwrites_refused_key_only_witness :
  let run := record_events (fun _ => ""%string) in
  refused_before (fun _ => ""%string) sample_record_events
  /\ (run (sample_record_events ++ [REOverwrite])).(nr_sent)
     = [{| cp_appId := u "orders"; cp_key := u "cart-1"; cp_value := u "{}"; cp_overwrite := true |};
        {| cp_appId := u "orders"; cp_key := u "cart-1"; cp_value := u "{}"; cp_overwrite := false |}].
Proof.
  cbv zeta. split; [|vm_compute; reflexivity].
  destruct (overwrites_refused_key_only (fun _ => ""%string) sample_record_events) as [H|[_ H]];
    [vm_compute in H; discriminate|exact H].
Defined.

(** A key typed while the request is under way keeps the conflict of the old
    one: Overwrite then writes over a record nobody was told of. *)
Theorem late_conflict_overwrites_another (number_text : Z -> string) :
  let f := record_events number_text
    [REAppId (u "orders"); REKey (u "cart-1"); REValue (u "{}"); RESave; REKey (u "cart-2");
     REAnswer (Refused 409 (Some "key exists"%string)); REOverwrite] in
  map (fun p => (p.(cp_key), p.(cp_overwrite))) f.(nr_sent) = [(u "cart-2", true); (u "cart-1", false)].
Proof. reflexivity. Qed.

(** Overwrite does not check the fields: the value can be cleared meanwhile. *)
Theorem overwrite_sends_empty_value (number_text : Z -> string) :
  let f := record_events number_text
    [REAppId (u "orders"); REKey (u "cart-1"); REValue (u "{}"); RESave;
     REAnswer (Refused 409 None); REValue []; REOverwrite] in
  map (fun p => (p.(cp_value), p.(cp_overwrite))) f.(nr_sent) = [([], true); (u "{}", false)].
Proof. reflexivity. Qed.
