(* ===== verification/Reveal.v ===== *)
(** * Revealed secrets

    [hooks/useSecretReveal.ts]: a secret is shown on demand and hidden again
    after [REVEAL_TTL_MS].  The hook's state, the browser's timers and the
    requests under way are one record; a timer is its id, the time it is due
    and the field its callback hides.  The server's answers are events. *)

From stdpp Require Import pretty.
From S2P Require Import Prelude JsMap.
#[local] Open Scope string_scope.
#[local] Open Scope Z_scope.

(** ** Data *)

Definition REVEAL_TTL_MS : Z := 30000.

Record Timer := { tm_id : nat; tm_due : Z; tm_field : string }.
#[export] Instance Timer_eq_dec : EqDecision Timer.
Proof. solve_decision. Defined.

Record Pane := {
  pn_resourceId : string;
  pn_values : JsMap string string;
  pn_errors : JsMap string string;
  pn_timers : JsMap string nat;
  (** The world: the clock, the next timer id, the timers set, and the
      requests not yet answered, with the resource they were made for. *)
  pn_now : Z;
  pn_next : nat;
  pn_pending : list Timer;
  pn_inflight : list (string * string)
}.

Definition mount (resourceId : string) (now : Z) : Pane := {|
  pn_resourceId := resourceId; pn_values := []; pn_errors := []; pn_timers := [];
  pn_now := now; pn_next := 0; pn_pending := []; pn_inflight := [] |}.

(** What the hook itself writes. *)
Definition set_hook (values errors : JsMap string string) (timers : JsMap string nat) (pending : list Timer) (p : Pane)
    : Pane := {|
  pn_resourceId := p.(pn_resourceId); pn_values := values; pn_errors := errors; pn_timers := timers;
  pn_now := p.(pn_now); pn_next := p.(pn_next); pn_pending := pending; pn_inflight := p.(pn_inflight) |}.

Definition clearTimeout (id : option nat) (pending : list Timer) : list Timer :=
  match id with None => pending | Some id => filter (fun t => tm_id t <> id) pending end.

(** ** Operations *)

Definition clearAll (p : Pane) : Pane :=
  set_hook [] [] [] (fold_left (fun pending id => clearTimeout (Some id) pending) (values p.(pn_timers)) p.(pn_pending)) p.

(** The effect's cleanup runs [clearAll] before another resource is shown. *)
Definition show_resource (resourceId : string) (p : Pane) : Pane :=
  let p := clearAll p in
  {| pn_resourceId := resourceId; pn_values := p.(pn_values); pn_errors := p.(pn_errors);
     pn_timers := p.(pn_timers); pn_now := p.(pn_now); pn_next := p.(pn_next);
     pn_pending := p.(pn_pending); pn_inflight := p.(pn_inflight) |}.

Definition hide (field : string) (p : Pane) : Pane :=
  set_hook (map_delete field p.(pn_values)) p.(pn_errors) (map_delete field p.(pn_timers))
    (clearTimeout (map_get field p.(pn_timers)) p.(pn_pending)) p.

(** [reveal] up to its first [await]. *)
Definition reveal (field : string) (p : Pane) : Pane :=
  {| pn_resourceId := p.(pn_resourceId); pn_values := p.(pn_values);
     pn_errors := map_delete field p.(pn_errors); pn_timers := p.(pn_timers); pn_now := p.(pn_now);
     pn_next := p.(pn_next); pn_pending := p.(pn_pending);
     pn_inflight := (p.(pn_inflight) ++ [(p.(pn_resourceId), field)])%list |}.

(** [revealFailureReason]: [detail] is the body's [error] when it is a text. *)
Definition revealFailureReason (status : Z) (detail : option string) : string :=
  if status =? 403 then "unavailable when served off-host"
  else if status =? 404 then "no resolved value for this field"
  else "status " ++ pretty status ++ match detail with Some e => ": " ++ e | None => "" end.

(** How a request ends: a value, a refusal, or an exception. *)
Inductive Answer :=
  | AValue (value : string)
  | ARefused (status : Z) (detail : option string)
  | AThrown (message : option string).

(** The rest of [reveal], when the [i]th request under way is answered. *)
Definition with_inflight (inflight : list (string * string)) (p : Pane) : Pane := {|
  pn_resourceId := p.(pn_resourceId); pn_values := p.(pn_values); pn_errors := p.(pn_errors);
  pn_timers := p.(pn_timers); pn_now := p.(pn_now); pn_next := p.(pn_next);
  pn_pending := p.(pn_pending); pn_inflight := inflight |}.

Definition show_value (field value : string) (p : Pane) : Pane :=
  let timer := {| tm_id := p.(pn_next); tm_due := p.(pn_now) + REVEAL_TTL_MS; tm_field := field |} in
  {| pn_resourceId := p.(pn_resourceId); pn_values := map_set field value p.(pn_values);
     pn_errors := p.(pn_errors); pn_timers := map_set field p.(pn_next) p.(pn_timers);
     pn_now := p.(pn_now); pn_next := S p.(pn_next); pn_pending := (p.(pn_pending) ++ [timer])%list;
     pn_inflight := p.(pn_inflight) |}.

Definition show_error (field reason : string) (p : Pane) : Pane :=
  set_hook p.(pn_values) (map_set field reason p.(pn_errors)) p.(pn_timers) p.(pn_pending) p.

Definition answered (i : nat) (a : Answer) (p : Pane) : Pane :=
  match p.(pn_inflight) !! i with
  | None => p
  | Some (_, field) =>
      let p := with_inflight (delete i p.(pn_inflight)) p in
      match a with
      | AValue value => show_value field value p
      | ARefused status detail => show_error field (revealFailureReason status detail) p
      | AThrown message => show_error field (default "network error" message) p
      end
  end.

(** ** Time *)

(** A timer that is still set and due runs its callback once. *)
Definition fire (t : Timer) (p : Pane) : Pane :=
  if bool_decide (t ∈ p.(pn_pending)) && (tm_due t <=? p.(pn_now)) then
    hide (tm_field t) (set_hook p.(pn_values) p.(pn_errors) p.(pn_timers) (clearTimeout (Some (tm_id t)) p.(pn_pending)) p)
  else p.

(** [ms] pass: the timers due by then fire, in the order they were set. *)
Definition elapse (ms : Z) (p : Pane) : Pane :=
  let p := {|
    pn_resourceId := p.(pn_resourceId); pn_values := p.(pn_values); pn_errors := p.(pn_errors);
    pn_timers := p.(pn_timers); pn_now := p.(pn_now) + ms; pn_next := p.(pn_next);
    pn_pending := p.(pn_pending); pn_inflight := p.(pn_inflight) |} in
  fold_left (fun p t => fire t p) p.(pn_pending) p.

Inductive RevealEvent :=
  | VReveal (field : string)
  | VAnswer (i : nat) (a : Answer)
  | VHide (field : string)
  | VResource (resourceId : string)
  | VElapse (ms : Z).

Definition reveal_event (p : Pane) (e : RevealEvent) : Pane :=
  match e with
  | VReveal field => reveal field p
  | VAnswer i a => answered i a p
  | VHide field => hide field p
  | VResource resourceId => show_resource resourceId p
  | VElapse ms => elapse ms p
  end.

(** Time does not run backwards. *)
Definition forward (e : RevealEvent) : Prop := match e with VElapse ms => 0 <= ms | _ => True end.

(** ** What holds of a pane *)

(** [late]: the timers that may be overdue, none outside [elapse]; [loose]: the
    fields whose timer has fired and whose value is about to be hidden. *)
Record pane_ok (late : Timer -> Prop) (loose : string -> Prop) (p : Pane) : Prop := {
  ok_ids : forall t, t ∈ p.(pn_pending) -> (tm_id t < p.(pn_next))%nat;
  ok_timer_ids : forall f id, map_get f p.(pn_timers) = Some id -> (id < p.(pn_next))%nat;
  (** A field's timer hides that field. *)
  ok_owner : forall f t, map_get f p.(pn_timers) = Some (tm_id t) -> t ∈ p.(pn_pending) -> tm_field t = f;
  (** A shown value has its timer set. *)
  ok_armed : forall f, f ∈ keys p.(pn_values) -> loose f \/
    exists t, t ∈ p.(pn_pending) /\ map_get f p.(pn_timers) = Some (tm_id t);
  ok_due : forall t, t ∈ p.(pn_pending) ->
    (late t \/ p.(pn_now) < tm_due t) /\ tm_due t <= p.(pn_now) + REVEAL_TTL_MS;
  ok_values : NoDup (keys p.(pn_values));
  ok_timers : NoDup (keys p.(pn_timers))
}.

Lemma elem_clearTimeout id t pending :
  t ∈ clearTimeout id pending <-> t ∈ pending /\ (forall i, id = Some i -> tm_id t <> i).
Proof.
  destruct id as [i|]; cbn; [|naive_solver]. rewrite list_elem_of_filter. split; [intros [H1 H2]; naive_solver|naive_solver].
Qed.

Lemma elem_keys_delete {V} f g (m : JsMap string V) : NoDup (keys m) -> f ∈ keys (map_delete g m) -> f <> g /\ f ∈ keys m.
Proof.
  intros N. rewrite <- !map_has_in. unfold map_has. rewrite !bool_decide_eq_true. intros H.
  destruct (decide (f = g)) as [->|Hne]; [by rewrite map_get_delete_eq in H by done; destruct H|].
  by rewrite map_get_delete_ne in H by done.
Qed.

Definition no_field (_ : string) : Prop := False.

(** Hiding a field touches no other field's timer. *)
Lemma hide_ok late f p : pane_ok late (eq f) p -> pane_ok late no_field (hide f p).
Proof.
  intros [H1 H2 H3 H4 H5 H6 H7]. unfold hide.
  assert (G : forall g id, map_get g (map_delete f p.(pn_timers)) = Some id -> g <> f /\ map_get g p.(pn_timers) = Some id).
  { intros g id H. destruct (decide (g = f)) as [->|Hne]; [by rewrite map_get_delete_eq in H|].
    by rewrite map_get_delete_ne in H. }
  split; cbn.
  - intros t [Ht _]%elem_clearTimeout. auto.
  - intros g id [_ H]%G. eauto.
  - intros g t [_ H]%G [Ht _]%elem_clearTimeout. auto.
  - intros g [Hne Hg]%elem_keys_delete; [|done]. right. destruct (H4 g Hg) as [E|(t & Ht & Et)]; [by destruct Hne|].
    exists t. split.
    + apply elem_clearTimeout. split; [done|]. intros i E Ei. subst i.
      apply Hne. rewrite <- (H3 g t Et Ht). by apply H3.
    + by rewrite map_get_delete_ne.
  - intros t [Ht _]%elem_clearTimeout. auto.
  - by apply keys_delete_nodup.
  - by apply keys_delete_nodup.
Qed.

Lemma ok_loosen late loose loose' p : (forall f, loose f -> loose' f) -> pane_ok late loose p -> pane_ok late loose' p.
Proof.
  intros Hl [H1 H2 H3 H4 H5 H6 H7]. split; try done. intros f Hf. destruct (H4 f Hf) as [|H]; [left; auto|by right].
Qed.

Lemma hide_tight late f p : pane_ok late no_field p -> pane_ok late no_field (hide f p).
Proof. intros H. apply hide_ok. by eapply ok_loosen; [|exact H]. Qed.

(** A timer that goes off leaves at most its own field loose. *)
Lemma expire_ok late t p : pane_ok late no_field p -> t ∈ p.(pn_pending) ->
  pane_ok late (eq (tm_field t))
    (set_hook p.(pn_values) p.(pn_errors) p.(pn_timers) (clearTimeout (Some (tm_id t)) p.(pn_pending)) p).
Proof.
  intros [H1 H2 H3 H4 H5 H6 H7] Ht. split; cbn -[clearTimeout]; try done.
  - intros t' [Ht' _]%elem_clearTimeout. auto.
  - intros g t' H [Ht' _]%elem_clearTimeout. auto.
  - intros g Hg. destruct (H4 g Hg) as [[]|(t' & Ht' & Et)].
    destruct (decide (tm_id t' = tm_id t)) as [E|Hne].
    + left. apply H3; [by rewrite <- E|done].
    + right. exists t'. split; [|done]. apply elem_clearTimeout. split; [done|]. by intros j [= <-].
  - intros t' [Ht' _]%elem_clearTimeout. auto.
Qed.

Lemma fire_ok late t p : pane_ok late no_field p -> pane_ok late no_field (fire t p).
Proof.
  intros H. unfold fire. destruct (_ && _) eqn:E; [|done].
  apply andb_true_iff in E as [Ht%bool_decide_eq_true _]. by apply hide_ok, expire_ok.
Qed.

Lemma fire_now t p : pn_now (fire t p) = pn_now p.
Proof. unfold fire. by destruct (_ && _). Qed.

(** After [fire], the timer is not overdue any more, and none was added. *)
Lemma fire_pending t p t' : t' ∈ (fire t p).(pn_pending) -> t' ∈ p.(pn_pending) /\ (t' = t -> pn_now p < tm_due t).
Proof.
  unfold fire. destruct (bool_decide (t ∈ pn_pending p)) eqn:E1, (Z.leb_spec (tm_due t) (pn_now p)) as [E2|E2]; cbn [andb].
  - cbn -[clearTimeout]. intros [[Ht' Hn]%elem_clearTimeout _]%elem_clearTimeout. split; [done|].
    intros ->. by destruct (Hn (tm_id t)).
  - done.
  - intros H. split; [done|]. intros ->. by apply bool_decide_eq_false in E1.
  - done.
Qed.

Lemma fire_all_ok l : forall p, pane_ok (fun t => t ∈ l) no_field p ->
  pane_ok (fun _ => False) no_field (fold_left (fun p t => fire t p) l p).
Proof.
  induction l as [|t l IH]; intros p H; cbn.
  - destruct H as [H1 H2 H3 H4 H5 H6 H7]. split; try done.
    intros t Ht. destruct (H5 t Ht) as [[Hl|]]; [by apply elem_of_nil in Hl|auto].
  - apply IH. pose proof (fire_ok _ t p H) as [H1 H2 H3 H4 H5 H6 H7]. split; try done.
    intros t' Ht'. destruct (fire_pending t p t' Ht') as [_ Hd]. destruct (H5 t' Ht') as [[[->|Hl]%elem_of_cons|]]; auto.
    split; [|done]. right. rewrite fire_now. auto.
Qed.

Lemma elapse_ok ms p : 0 <= ms -> pane_ok (fun _ => False) no_field p -> pane_ok (fun _ => False) no_field (elapse ms p).
Proof.
  intros Hms [H1 H2 H3 H4 H5 H6 H7]. apply fire_all_ok. split; cbn; try done.
  intros t Ht. destruct (H5 t Ht) as [_ Hd]. split; [by left|lia].
Qed.

Lemma elapse_clears ms p : REVEAL_TTL_MS <= ms -> pane_ok (fun _ => False) no_field p ->
  (elapse ms p).(pn_pending) = [] /\ (elapse ms p).(pn_values) = [].
Proof.
  intros Hms H. assert (Hp : (elapse ms p).(pn_pending) = []).
  { apply elem_of_nil_inv. intros t Ht.
    assert (G : forall l q, t ∈ (fold_left (fun p t => fire t p) l q).(pn_pending) ->
      t ∈ q.(pn_pending) /\ (t ∈ l -> pn_now q < tm_due t)).
    { clear. induction l as [|t' l IH]; intros q; cbn; [intros; split; [done|by intros ?%elem_of_nil]|].
      intros [Hq Hl]%IH. apply fire_pending in Hq as [Hq Hd]. rewrite fire_now in Hl. split; [done|].
      intros [->|Ht]%elem_of_cons; auto. }
    apply G in Ht as [Ht Hd]. cbn in Ht, Hd. specialize (Hd Ht). destruct (ok_due _ _ _ H t Ht) as [_ Hle]. lia. }
  split; [done|]. assert (0 <= ms) as Hms0 by (unfold REVEAL_TTL_MS in Hms; lia).
  pose proof (elapse_ok ms p Hms0 H) as H'. destruct (pn_values (elapse ms p)) as [|[f v] m] eqn:E; [done|].
  destruct (ok_armed _ _ _ H' f) as [[]|(t & Ht & _)]; [rewrite E; by left|]. rewrite Hp in Ht. by apply elem_of_nil in Ht.
Qed.

Lemma clear_fold_sub ids : forall pending t,
  t ∈ fold_left (fun pending id => clearTimeout (Some id) pending) ids pending -> t ∈ pending.
Proof.
  induction ids as [|id ids IH]; intros pending t; cbn -[clearTimeout]; [done|].
  by intros [H _]%IH%elem_clearTimeout.
Qed.

Lemma clearAll_ok late p : pane_ok late no_field p -> pane_ok late no_field (clearAll p).
Proof.
  intros [H1 H2 H3 H4 H5 H6 H7].
  split; cbn -[clearTimeout]; try done; try (by constructor); try (intros t Ht%clear_fold_sub; auto).
  by intros f Hf%elem_of_nil.
Qed.

Lemma show_value_ok f v p : pane_ok (fun _ => False) no_field p -> pane_ok (fun _ => False) no_field (show_value f v p).
Proof.
  intros [H1 H2 H3 H4 H5 H6 H7]. unfold show_value.
  set (timer := {| tm_id := _; tm_due := _; tm_field := f |}).
  assert (P : forall t, t ∈ (pn_pending p ++ [timer])%list -> t ∈ pn_pending p \/ t = timer).
  { intros t [H|H]%elem_of_app; [by left|]. right. by apply list_elem_of_singleton in H. }
  split; cbn.
  - intros t [Ht| ->]%P; [specialize (H1 t Ht)|cbn]; lia.
  - intros g id. destruct (decide (g = f)) as [->|Hne]; [rewrite map_get_set_eq; intros [= <-]; lia|].
    rewrite map_get_set_ne by done. intros Hg%H2. lia.
  - intros g t. destruct (decide (g = f)) as [->|Hne].
    + rewrite map_get_set_eq. intros [= E] [Ht| ->]%P; [|done]. specialize (H1 t Ht). lia.
    + rewrite map_get_set_ne by done. intros E [Ht| ->]%P; [by apply H3|]. apply H2 in E. cbn in E. lia.
  - intros g [->|Hg]%elem_keys_set; right.
    + exists timer. split; [by apply elem_of_app; right; left|]. by rewrite map_get_set_eq.
    + destruct (decide (g = f)) as [->|Hne].
      { exists timer. split; [by apply elem_of_app; right; left|]. by rewrite map_get_set_eq. }
      destruct (H4 g Hg) as [[]|(t & Ht & Et)]. exists t. split; [by apply elem_of_app; left|]. by rewrite map_get_set_ne.
  - intros t [Ht| ->]%P; [by apply H5|]. cbn. unfold REVEAL_TTL_MS. split; [right|]; lia.
  - by apply keys_set_nodup.
  - by apply keys_set_nodup.
Qed.

Lemma event_ok p e : forward e -> pane_ok (fun _ => False) no_field p -> pane_ok (fun _ => False) no_field (reveal_event p e).
Proof.
  intros Hf H. destruct e as [field|i a|field|resourceId|ms]; cbn [reveal_event].
  - by destruct H.
  - unfold answered. destruct (pn_inflight p !! i) as [[r field]|]; [|done].
    assert (H' : pane_ok (fun _ => False) no_field (with_inflight (delete i (pn_inflight p)) p)) by (by destruct H).
    destruct a; [by apply show_value_ok| |]; by destruct H'.
  - by apply hide_tight.
  - pose proof (clearAll_ok _ _ H) as H'. by destruct H'.
  - by apply elapse_ok.
Qed.

Definition pane_run (resourceId : string) (now : Z) (es : list RevealEvent) : Pane :=
  fold_left reveal_event es (mount resourceId now).

Lemma run_ok resourceId now es : Forall forward es -> pane_ok (fun _ => False) no_field (pane_run resourceId now es).
Proof.
  unfold pane_run. intros H.
  assert (G : forall p, pane_ok (fun _ => False) no_field p -> pane_ok (fun _ => False) no_field (fold_left reveal_event es p)).
  { induction H as [|e es He Hes IH]; intros p Hp; [done|]. apply IH. by apply event_ok. }
  apply G. split; cbn; try done; try (by constructor); by intros ? ?%elem_of_nil.
Qed.

(** C35: A revealed secret does not stay: whatever is revealed, answered, hidden
    or shown next, in any order, every value on screen has a timer of its own
    still to go off, at most [REVEAL_TTL_MS] from now, which hides exactly that
    field; and once that long has passed without an answer, nothing is shown. *)
Theorem revealed_values_expire (resourceId : string) (now : Z) (es : list RevealEvent) (ms : Z) :
  Forall forward es -> REVEAL_TTL_MS <= ms ->
  let p := pane_run resourceId now es in
  (forall field, field ∈ keys p.(pn_values) ->
     exists t, t ∈ p.(pn_pending) /\ map_get field p.(pn_timers) = Some (tm_id t)
       /\ tm_field t = field /\ p.(pn_now) < tm_due t <= p.(pn_now) + REVEAL_TTL_MS)
  /\ (elapse ms p).(pn_values) = [].
Proof.
  intros He Hms. cbn zeta. pose proof (run_ok resourceId now es He) as H.
  split; [|by apply elapse_clears].
  intros field Hf. destruct (ok_armed _ _ _ H field Hf) as [[]|(t & Ht & Et)]. exists t.
  destruct (ok_due _ _ _ H t Ht) as [[[]|Hd] Hd']. split_and!; [done|done|by apply (ok_owner _ _ _ H)|done|done].
Qed.

Definition sample_events : list RevealEvent :=
  [VReveal "password"; VReveal "password"; VAnswer 0 (AValue "s3cret"); VElapse 5000; VAnswer 0 (AValue "s3cret")].

Lemma revealed_values_expire_witness :
  (pane_run "a" 0 sample_events).(pn_values) = [("password", "s3cret")]
  /\ (elapse 30000 (pane_run "a" 0 sample_events)).(pn_values) = [].
Proof.
  split; [vm_compute; reflexivity|].
  apply (revealed_values_expire "a" 0 sample_events 30000); [|vm_compute; discriminate].
  repeat constructor; discriminate.
Defined.

(** The answer of a request made for the resource shown before arrives after
    the change, and is shown in the next resource's pane. *)
Theorem late_answer_outlives_its_pane :
  let p := pane_run "a" 0 [VReveal "password"; VResource "b"; VAnswer 0 (AValue "s3cret of a")] in
  p.(pn_resourceId) = "b" /\ p.(pn_values) = [("password", "s3cret of a")].
Proof. vm_compute. split; reflexivity. Qed.
