(* ===== verification/Konami.v ===== *)
(** * The hidden key sequence

    [hooks/useKonami.ts] with [lib/isEditableTarget.ts]: a listener that keeps
    the last keys typed and fires when they are the sequence. *)

From S2P Require Import Prelude Text.
#[local] Open Scope string_scope.

(** ** Definitions *)

(** What the code asks of an event's target: [None] is no element. *)
Record Target := {
  tg_contentEditable : bool;
  tg_attribute : option string;
  tg_tagName : string
}.
Definition isEditableTarget (t : option Target) : bool :=
  match t with
  | None => false
  | Some t =>
      if t.(tg_contentEditable) || bool_decide (t.(tg_attribute) = Some "true") then true
      else existsb (String.eqb t.(tg_tagName)) ["INPUT"; "TEXTAREA"; "SELECT"]
  end.

Definition MODIFIERS : list text := map u ["Shift"; "Control"; "Alt"; "Meta"].
Definition KONAMI : list text :=
  map u ["arrowup"; "arrowup"; "arrowdown"; "arrowdown"; "arrowleft"; "arrowright"; "arrowleft"; "arrowright"; "b"; "a"].

Definition GLYPH : list (text * text) :=
  [(u "arrowup", [8593%Z]); (u "arrowdown", [8595%Z]); (u "arrowleft", [8592%Z]); (u "arrowright", [8594%Z])].
Definition toUpperCase (t : text) : text := map (fun c => if is_lower c then (c - 32)%Z else c) t.
(** The sequence as shown: the keys it has are the arrows and ASCII letters. *)
Definition konami_glyph (k : text) : text :=
  match List.find (fun g => text_eqb g.1 k) GLYPH with Some g => g.2 | None => toUpperCase k end.
Fixpoint konamiLabel (keys : list text) : text :=
  match keys with
  | [] => []
  | [k] => konami_glyph k
  | k :: keys => (konami_glyph k ++ 32%Z :: konamiLabel keys)%list
  end.

Record KeyDown := { kd_key : text; kd_repeat : bool; kd_target : option Target }.

(** [slice(-n)]. *)
Definition slice_last {A} (n : nat) (l : list A) : list A := drop (length l - n) l.

(** The listener: the keys kept, and whether it fires. *)
Definition onKeyDown (recent : list text) (e : KeyDown) : list text * bool :=
  if e.(kd_repeat) || bool_decide (e.(kd_key) ∈ MODIFIERS) || isEditableTarget e.(kd_target) then (recent, false)
  else
    let recent := slice_last (length KONAMI) (recent ++ [toLowerCase e.(kd_key)])%list in
    if (length recent =? length KONAMI)%nat && forallb (fun kk => text_eqb kk.1 kk.2) (combine recent KONAMI)
    then ([], true) else (recent, false).

Definition listen (es : list KeyDown) : list text * list bool :=
  fold_left (fun st e => let '(recent, fired) := onKeyDown st.1 e in (recent, (st.2 ++ [fired])%list)) es ([], []).

(** ** Reference *)

Definition counts (e : KeyDown) : bool :=
  negb (e.(kd_repeat) || bool_decide (e.(kd_key) ∈ MODIFIERS) || isEditableTarget e.(kd_target)).

(** Every key typed since the last match; a key completes the sequence when the
    last ones are it. *)
Definition typed_event (since : list text) (e : KeyDown) : list text * bool :=
  if counts e then
    let since := (since ++ [toLowerCase e.(kd_key)])%list in
    if bool_decide (slice_last (length KONAMI) since = KONAMI) then ([], true) else (since, false)
  else (since, false).
Definition typed (es : list KeyDown) : list text * list bool :=
  fold_left (fun st e => let '(since, fired) := typed_event st.1 e in (since, (st.2 ++ [fired])%list)) es ([], []).

(** ** Equivalence *)

Lemma slice_last_snoc {A} n (l : list A) x : slice_last n (slice_last n l ++ [x]) = slice_last n (l ++ [x]).
Proof.
  unfold slice_last. rewrite !length_app, length_drop. cbn [length].
  rewrite !drop_app, drop_drop, length_drop. f_equal; f_equal; lia.
Qed.

Lemma same_keys (l : list text) : forall l', length l = length l' ->
  forallb (fun kk => text_eqb kk.1 kk.2) (combine l l') = true <-> l = l'.
Proof.
  induction l as [|x l IH]; intros [|y l'] E; try done. injection E as E. cbn.
  rewrite andb_true_iff, (IH _ E). unfold text_eqb. rewrite bool_decide_eq_true. naive_solver.
Qed.

Lemma key_step since e :
  (onKeyDown (slice_last (length KONAMI) since) e).1 = slice_last (length KONAMI) (typed_event since e).1
  /\ (onKeyDown (slice_last (length KONAMI) since) e).2 = (typed_event since e).2.
Proof.
  unfold onKeyDown, typed_event, counts. destruct (_ || _ || _); [done|]. cbn [negb].
  rewrite slice_last_snoc. set (l := slice_last _ (since ++ _)).
  assert (E : (length l =? length KONAMI)%nat && forallb (fun kk => text_eqb kk.1 kk.2) (combine l KONAMI)
              = bool_decide (l = KONAMI)).
  { apply Bool.eq_true_iff_eq. rewrite andb_true_iff, Nat.eqb_eq, bool_decide_eq_true.
    split; [intros [Hl H]; by apply same_keys|intros ->; split; [done|by apply same_keys]]. }
  rewrite E. by destruct (bool_decide _).
Qed.

Lemma listen_snoc es e :
  listen (es ++ [e]) = let '(recent, fired) := onKeyDown (listen es).1 e in (recent, ((listen es).2 ++ [fired])%list).
Proof. unfold listen. by rewrite fold_left_app. Qed.
Lemma typed_snoc es e :
  typed (es ++ [e]) = let '(since, fired) := typed_event (typed es).1 e in (since, ((typed es).2 ++ [fired])%list).
Proof. unfold typed. by rewrite fold_left_app. Qed.

(** The bounded buffer misses no match and invents none: the listener fires at
    exactly the keys that complete the sequence since the last match. *)
Theorem konami_fires_on_sequence (es : list KeyDown) :
  (listen es).2 = (typed es).2 /\ (listen es).1 = slice_last (length KONAMI) (typed es).1
  /\ (length (listen es).1 <= length KONAMI)%nat.
Proof.
  assert (G : (listen es).1 = slice_last (length KONAMI) (typed es).1 /\ (listen es).2 = (typed es).2).
  { induction es as [|e es [IH1 IH2]] using rev_ind; [done|]. rewrite listen_snoc, typed_snoc, IH1, IH2.
    destruct (key_step (typed es).1 e) as [E1 E2].
    destruct (onKeyDown _ e) as [r f], (typed_event (typed es).1 e) as [r' f']. cbn in *. by subst. }
  destruct G as [G1 G2]. split_and!; [done|done|]. rewrite G1. unfold slice_last. rewrite length_drop. lia.
Qed.
