(* ===== verification/Telemetry.v ===== *)
(** * Telemetry

    [lib/telemetry.ts]: calls of the RUM SDK, buffered until it is loaded and
    dropped when telemetry is off; [hooks/useDiscoveryTelemetry.ts]: what was
    discovered, kept in the SDK's global context.  The SDK is the list of calls
    it has received; the values passed along are of any type [X]. *)

From S2P Require Import Prelude JsMap JsSort Text ApiTypes Apps Paging.
#[local] Open Scope string_scope.
#[local] Open Scope Z_scope.

(** ** lib/telemetry.ts *)

Section Calls.
Context {X : Type}.

Inductive RumCall :=
  | AddAction (name : string) (context : option X)
  | AddError (error : X) (context : option X)
  | StartView (name : string)
  | SetGlobalContext (key : string) (value : X)
  | RemoveGlobalContext (key : string).

(** The module's variables; [tl_enabled]: the server's flag is exactly [true].
    [tl_received]: what the SDK was called with. *)
Record Telemetry := {
  tl_enabled : bool;
  tl_rum : bool;
  tl_buffered : list RumCall;
  tl_received : list RumCall
}.

Definition fresh (enabled : bool) : Telemetry :=
  {| tl_enabled := enabled; tl_rum := false; tl_buffered := []; tl_received := [] |}.

Definition runOrBuffer (fn : RumCall) (t : Telemetry) : Telemetry :=
  if t.(tl_rum) then
    {| tl_enabled := t.(tl_enabled); tl_rum := true; tl_buffered := t.(tl_buffered);
       tl_received := (t.(tl_received) ++ [fn])%list |}
  else if t.(tl_enabled) then
    {| tl_enabled := true; tl_rum := false; tl_buffered := (t.(tl_buffered) ++ [fn])%list;
       tl_received := t.(tl_received) |}
  else t.

(** The version sent along: none for a build that reports none. *)
Definition rum_version (version : option string) : option string :=
  match version with None | Some "" => None | Some v => if String.eqb v "dev" then None else Some v end.

(** [initTelemetry] before the SDK's module is there: whether it is asked for. *)
Definition init_imports (t : Telemetry) : bool := t.(tl_enabled).
(** ... and once it is. *)
Definition init_loaded (t : Telemetry) : Telemetry :=
  {| tl_enabled := t.(tl_enabled); tl_rum := true; tl_buffered := [];
     tl_received := (t.(tl_received) ++ t.(tl_buffered))%list |}.

Definition trackAction (name : string) (context : option X) := runOrBuffer (AddAction name context).
Definition trackError (error : X) (context : option X) := runOrBuffer (AddError error context).
Definition trackView (name : string) := runOrBuffer (StartView name).
Definition setTelemetryContext (key : string) (value : X) := runOrBuffer (SetGlobalContext key value).
Definition removeTelemetryContext (key : string) := runOrBuffer (RemoveGlobalContext key).

(** What happens to the module: a call, or the SDK's arrival, which only an
    import that was asked for brings. *)
Inductive TelemetryEvent := TCall (fn : RumCall) | TLoaded.
Definition telemetry_event (t : Telemetry) (e : TelemetryEvent) : Telemetry :=
  match e with
  | TCall fn => runOrBuffer fn t
  | TLoaded => if init_imports t then init_loaded t else t
  end.
Definition telemetry_run (enabled : bool) (es : list TelemetryEvent) : Telemetry :=
  fold_left telemetry_event es (fresh enabled).

Definition calls_of (es : list TelemetryEvent) : list RumCall :=
  omap (fun e => match e with TCall fn => Some fn | TLoaded => None end) es.
Definition is_loaded (e : TelemetryEvent) : bool := match e with TLoaded => true | TCall _ => false end.

(** C38: When telemetry is off the SDK is never loaded and never called, and
    nothing is kept for it. When it is on, the SDK has received nothing before
    it is loaded, and from then on exactly the calls that were made, from the
    first one on, each once and in order. *)
Theorem telemetry_delivers (enabled : bool) (es : list TelemetryEvent) :
  let t := telemetry_run enabled es in
  if enabled then
    if existsb is_loaded es then t.(tl_received) = calls_of es /\ t.(tl_buffered) = []
    else t.(tl_received) = [] /\ t.(tl_buffered) = calls_of es
  else t.(tl_received) = [] /\ t.(tl_buffered) = [] /\ t.(tl_rum) = false.
Proof.
  cbn zeta. unfold telemetry_run.
  assert (G : (fold_left telemetry_event es (fresh enabled)).(tl_enabled) = enabled
    /\ (fold_left telemetry_event es (fresh enabled)).(tl_rum) = (enabled && existsb is_loaded es)
    /\ if enabled then
         if existsb is_loaded es then (fold_left telemetry_event es (fresh enabled)).(tl_received) = calls_of es
           /\ (fold_left telemetry_event es (fresh enabled)).(tl_buffered) = []
         else (fold_left telemetry_event es (fresh enabled)).(tl_received) = []
           /\ (fold_left telemetry_event es (fresh enabled)).(tl_buffered) = calls_of es
       else (fold_left telemetry_event es (fresh enabled)).(tl_received) = []
         /\ (fold_left telemetry_event es (fresh enabled)).(tl_buffered) = []).
  { induction es as [|e es IH] using rev_ind; [by destruct enabled|].
    unfold calls_of in *. rewrite fold_left_app, existsb_app, omap_app. cbn [fold_left existsb].
    set (t := fold_left telemetry_event es (fresh enabled)) in *. destruct IH as (E1 & E2 & E3).
    destruct e as [fn|]; cbn [telemetry_event omap list_omap is_loaded orb].
    - rewrite orb_false_r. unfold runOrBuffer. rewrite E1, E2.
      destruct enabled, (existsb is_loaded es); cbn; destruct E3 as [-> ->]; done.
    - rewrite orb_true_r, app_nil_r. unfold init_imports. rewrite E1.
      destruct enabled; cbn; [|done]. destruct (existsb is_loaded es); destruct E3 as [-> ->]; rewrite ?app_nil_r; done. }
  destruct G as (_ & E2 & E3). destruct enabled; [done|]. destruct E3. done.
Qed.
End Calls.
Arguments RumCall : clear implicits.
Arguments Telemetry : clear implicits.
Arguments TelemetryEvent : clear implicits.

(** ** hooks/useDiscoveryTelemetry.ts *)

Definition normalizeModeFilter (mode : option string) : string :=
  match mode with None | Some "" => "all" | Some mode => mode end.

(** A set of texts, in insertion order. *)
Definition add_token (tokens : list text) (t : option text) : list text :=
  match t with
  | None | Some [] => tokens
  | Some t => if decide (t ∈ tokens) then tokens else (tokens ++ [t])%list
  end.

Definition distinctTokens (data : option (list AppSummary)) (fn : AppSummary -> option text) : list text :=
  js_sort compare_texts (fold_left (fun tokens app => add_token tokens (fn app)) (default [] data) []).

(** [tokens.join(',')]. *)
Fixpoint join_tokens (tokens : list text) : text :=
  match tokens with
  | [] => []
  | [t] => t
  | t :: tokens => (t ++ 44 :: join_tokens tokens)%list
  end.

(** The effect of [useDistinctSetContext]; [last] is the key of its last run,
    nothing before the first. *)
Definition sync_property (property : string) (fn : AppSummary -> option text) (last : option (option text))
    (data : option (list AppSummary)) : option (option text) * list (RumCall (list text)) :=
  let tokens := distinctTokens data fn in
  let key := match data with None => None | Some _ => Some (join_tokens tokens) end in
  if bool_decide (last = Some key) then (last, [])
  else (Some key, match key with None => [] | Some _ => [SetGlobalContext property tokens] end).

(** What one property is told over successive answers of the apps query. *)
Definition sync_run (property : string) (fn : AppSummary -> option text) (datas : list (option (list AppSummary)))
    : option (option text) * list (RumCall (list text)) :=
  fold_left (fun st data =>
    let '(last, calls) := sync_property property fn st.1 data in (last, (st.2 ++ calls)%list)) datas (None, []).

Definition mode_text (app : AppSummary) : option text := u <$> modeToken app.
Definition runtime_text (app : AppSummary) : option text := runtimeToken (Some app.(ap_runtime)).

(** ** What the context says *)

(** A token the join can be read back from. *)
Definition token_ok (t : text) : Prop := t <> [] /\ 44 ∉ t.

Lemma split_join_token t rest : 44 ∉ t -> split_on 44 (t ++ 44 :: rest) = t :: split_on 44 rest.
Proof.
  induction t as [|c t IH]; intros Ht; cbn.
  - pose proof (split_on_nonempty 44 rest). by destruct (split_on 44 rest).
  - apply not_elem_of_cons in Ht as [Hc Ht]. rewrite (IH Ht). rewrite (proj2 (Z.eqb_neq c 44)) by congruence. done.
Qed.

Lemma split_token t : 44 ∉ t -> split_on 44 t = [t].
Proof.
  induction t as [|c t IH]; intros Ht; cbn; [done|]. apply not_elem_of_cons in Ht as [Hc Ht].
  rewrite (IH Ht). by rewrite (proj2 (Z.eqb_neq c 44)) by congruence.
Qed.

Lemma split_join_tokens tokens : tokens <> [] -> Forall token_ok tokens -> split_on 44 (join_tokens tokens) = tokens.
Proof.
  intros Hne H. induction H as [|t tokens [Ht Hc] H IH]; [done|]. cbn [join_tokens].
  destruct tokens as [|t' tokens]; [by apply split_token|]. rewrite split_join_token by done. by rewrite IH.
Qed.

Lemma join_tokens_inj l l' : Forall token_ok l -> Forall token_ok l' -> join_tokens l = join_tokens l' -> l = l'.
Proof.
  intros H H' E. destruct l as [|t l], l' as [|t' l']; [done| | |].
  - exfalso. destruct l'; cbn in E; apply Forall_cons in H' as [[Hn _] _]; [by subst|]. by destruct t'.
  - exfalso. destruct l; cbn in E; apply Forall_cons in H as [[Hn _] _]; [by subst|]. by destruct t.
  - rewrite <- (split_join_tokens (t :: l)), <- (split_join_tokens (t' :: l')) by done. by rewrite E.
Qed.

Lemma add_token_spec tokens t : NoDup tokens ->
  NoDup (add_token tokens t) /\ forall x, x ∈ add_token tokens t <-> x ∈ tokens \/ x <> [] /\ t = Some x.
Proof.
  intros N. unfold add_token. destruct t as [[|c t]|]; [naive_solver| |naive_solver].
  destruct (decide (_ ∈ tokens)) as [H|H].
  - split; [done|]. intros x. split; [by left|]. intros [|[_ [= <-]]]; done.
  - split.
    + apply NoDup_app. split; [done|]. split; [by intros x Hx ->%list_elem_of_singleton|apply NoDup_singleton].
    + intros x. rewrite elem_of_app, list_elem_of_singleton. naive_solver.
Qed.

Lemma distinct_fold fn apps : forall tokens, NoDup tokens ->
  NoDup (fold_left (fun tokens app => add_token tokens (fn app)) apps tokens)
  /\ forall x, x ∈ fold_left (fun tokens app => add_token tokens (fn app)) apps tokens
       <-> x ∈ tokens \/ x <> [] /\ exists app : AppSummary, app ∈ apps /\ fn app = Some x.
Proof.
  induction apps as [|app apps IH]; intros tokens N; cbn.
  - split; [done|]. intros x. split; [by left|]. intros [|(_ & app & []%elem_of_nil & _)]; done.
  - destruct (add_token_spec tokens (fn app) N) as [N' S']. destruct (IH _ N') as [N'' S''].
    split; [done|]. intros x. rewrite S'', S'. setoid_rewrite elem_of_cons. naive_solver.
Qed.

Lemma distinctTokens_elem data fn x :
  x ∈ distinctTokens data fn <-> x <> [] /\ exists app, app ∈ default [] data /\ fn app = Some x.
Proof.
  unfold distinctTokens. rewrite js_sort_perm.
  destruct (distinct_fold fn (default [] data) []) as [_ S]; [apply NoDup_nil_2|]. rewrite S. set_solver.
Qed.

Lemma distinctTokens_sorted data fn :
  NoDup (distinctTokens data fn) /\ StronglySorted (fun a b => compare_texts a b <= 0) (distinctTokens data fn).
Proof.
  unfold distinctTokens. split.
  - rewrite js_sort_perm. apply distinct_fold, NoDup_nil_2.
  - apply (js_sort_sorted compare_texts (fun _ => True)); [apply compare_texts_consistent|by apply Forall_true].
Qed.

Section Sync.
Context (property : string) (fn : AppSummary -> option text).
Context (Hfn : forall app t, fn app = Some t -> t <> [] -> 44 ∉ t).

Lemma distinctTokens_ok data : Forall token_ok (distinctTokens data fn).
Proof. apply Forall_forall. intros t [Hn (app & _ & E)]%distinctTokens_elem. split; [done|by apply (Hfn app)]. Qed.

(** The last call told the tokens of the key last seen. *)
Definition told (st : option (option text) * list (RumCall (list text))) : Prop :=
  forall key, st.1 = Some (Some key) ->
    exists tokens, last st.2 = Some (SetGlobalContext property tokens) /\ join_tokens tokens = key /\ Forall token_ok tokens.

Lemma sync_told st data : told st ->
  told ((sync_property property fn st.1 data).1, (st.2 ++ (sync_property property fn st.1 data).2)%list)
  /\ (sync_property property fn st.1 data).1
     = Some (match data with None => None | Some _ => Some (join_tokens (distinctTokens data fn)) end).
Proof.
  intros T. unfold sync_property, told. destruct (bool_decide _) eqn:E; cbn [fst snd].
  - apply bool_decide_eq_true in E. rewrite app_nil_r. split; [exact T|done].
  - split; [|done]. destruct data as [apps|]; intros key [= <-].
    exists (distinctTokens (Some apps) fn). rewrite last_snoc. split; [done|]. split; [done|apply distinctTokens_ok].
Qed.

Lemma run_told datas data :
  told (sync_run property fn (datas ++ [data]))
  /\ (sync_run property fn (datas ++ [data])).1
     = Some (match data with None => None | Some _ => Some (join_tokens (distinctTokens data fn)) end).
Proof.
  assert (T : told (sync_run property fn datas)).
  { induction datas as [|d datas IH] using rev_ind; [by intros key|].
    unfold sync_run in *. rewrite fold_left_app. cbn. set (st := fold_left _ datas _) in *.
    pose proof (proj1 (sync_told st d IH)) as H. by destruct (sync_property property fn st.1 d). }
  unfold sync_run in *. rewrite fold_left_app. cbn. set (st := fold_left _ datas _) in *.
  pose proof (sync_told st data T) as H. by destruct (sync_property property fn st.1 data).
Qed.
End Sync.

(** After every answer of the apps query the telemetry context holds, under
    the property's name, exactly the non-empty tokens of the apps of that
    answer, each once and sorted - although the effect is keyed on their join
    and skips answers that leave it unchanged. *)
Theorem discovery_context_current (property : string) (fn : AppSummary -> option text)
    (Hfn : forall app t, fn app = Some t -> t <> [] -> 44 ∉ t)
    (datas : list (option (list AppSummary))) (apps : list AppSummary) :
  exists tokens,
    last (sync_run property fn (datas ++ [Some apps])%list).2 = Some (SetGlobalContext property tokens)
    /\ (forall t, t ∈ tokens <-> t <> [] /\ exists app, app ∈ apps /\ fn app = Some t)
    /\ NoDup tokens /\ StronglySorted (fun a b => compare_texts a b <= 0) tokens.
Proof.
  destruct (run_told property fn Hfn datas (Some apps)) as [T E]. destruct (T _ E) as (tokens & L & J & Ok).
  apply join_tokens_inj in J; [|done|by apply distinctTokens_ok]. subst tokens.
  exists (distinctTokens (Some apps) fn). split; [done|]. split; [apply distinctTokens_elem|apply distinctTokens_sorted].
Qed.

(** Both properties' tokens are of a closed vocabulary without commas. *)
Lemma mode_tokens_plain app t : mode_text app = Some t -> t <> [] -> 44 ∉ t.
Proof.
  unfold mode_text, modeToken. intros H _.
  destruct (is_aspire app), (ap_source app) as [[]|]; cbn in H; try done; injection H as <-; vm_compute;
    intros Hin; repeat (apply elem_of_cons in Hin as [Hin|Hin]; [discriminate|]); by apply elem_of_nil in Hin.
Qed.

Lemma runtime_tokens_plain app t : runtime_text app = Some t -> t <> [] -> 44 ∉ t.
Proof.
  unfold runtime_text, runtimeToken. intros H _. destruct (ap_runtime app) as [|c r]; [done|].
  destruct (existsb _ _) eqn:E; [|done]. injection H as <-. apply existsb_exists in E as (k & Hk & E).
  apply bool_decide_eq_true in E. rewrite E. clear E. cbn in Hk.
  repeat (destruct Hk as [<-|Hk]; [vm_compute; intros Hin;
    repeat (apply elem_of_cons in Hin as [Hin|Hin]; [discriminate|]); by apply elem_of_nil in Hin|]). done.
Qed.

Definition sample_app (source : AppSource) : AppSummary :=
  {| ap_appId := "a"; ap_instanceKey := None; ap_health := Healthy; ap_runtime := "go"; ap_isAspire := None;
     ap_label := None; ap_testcontainersSession := None; ap_namespace := None; ap_source := Some source;
     ap_composeProject := None; ap_sidecarReachable := None; ap_httpPort := 0; ap_grpcPort := 0; ap_appPort := 0;
     ap_appProtocol := None; ap_daprdPid := 0; ap_appPid := 0; ap_cliPid := 0; ap_appStatus := None;
     ap_daprdStatus := None; ap_appStartedAt := None; ap_daprdStartedAt := None; ap_sidecarOrphaned := None;
     ap_age := ""; ap_created := ""; ap_runTemplate := ""; ap_components := None; ap_httpEndpoints := None |}.

Lemma discovery_context_current_witness :
  (sync_run "modes" mode_text [None; Some [sample_app SrcCompose]; Some [sample_app SrcCompose; sample_app SrcCompose]]).2
    = [SetGlobalContext "modes" [u "compose"]]
  /\ exists tokens, last (sync_run "modes" mode_text ([None] ++ [Some [sample_app SrcCompose]])%list).2
       = Some (SetGlobalContext "modes" tokens).
Proof.
  split; [vm_compute; reflexivity|].
  destruct (discovery_context_current "modes" mode_text mode_tokens_plain [None] [sample_app SrcCompose]) as (tokens & H & _).
  exists tokens. exact H.
Defined.
