(* ===== verification/History.v ===== *)
(** * Workflow histories

    [lib/eventOrder.ts]: the order in which a history is shown;
    [lib/pairing.ts]: which completion belongs to which start. [Date.parse] of
    a timestamp is a parameter: a time value, or [None] for [NaN]. *)

From S2P Require Import Prelude JsNum JsMap JsSort ApiTypes.
#[local] Open Scope string_scope.
#[local] Open Scope Z_scope.

(** ** lib/eventOrder.ts *)

Definition TERMINAL_EXEC_TYPES : list string := ["ExecutionCompleted"; "ExecutionFailed"; "ExecutionTerminated"].

Definition has (set : list string) (x : string) : bool := existsb (String.eqb x) set.

Definition pinRank (event : WorkflowHistoryEvent) : Z :=
  if String.eqb event.(ev_type) "ExecutionStarted" then 0
  else if has TERMINAL_EXEC_TYPES event.(ev_type) then 2
  else 1.

Inductive HistoryOrder := Asc | Desc.

Section EventOrder.
Context (Date_parse : string -> option Z).

(** The comparator on events with their index. *)
Definition compare_events (a b : WorkflowHistoryEvent * nat) : Z :=
  let rankA := pinRank a.1 in
  let rankB := pinRank b.1 in
  if negb (rankA =? rankB) then rankA - rankB
  else
    match Date_parse a.1.(ev_timestamp), Date_parse b.1.(ev_timestamp) with
    | Some ta, Some tb => if negb (ta =? tb) then ta - tb else Z.of_nat a.2 - Z.of_nat b.2
    | _, _ => Z.of_nat a.2 - Z.of_nat b.2
    end.

Definition sortHistoryForDisplay (history : list WorkflowHistoryEvent) : list WorkflowHistoryEvent :=
  (js_sort compare_events (imap (fun index event => (event, index)) history)).*1.

Definition orderHistoryForDisplay (history : list WorkflowHistoryEvent) (order : HistoryOrder)
    : list WorkflowHistoryEvent :=
  let ascending := sortHistoryForDisplay history in
  match order with Desc => rev ascending | Asc => ascending end.
End EventOrder.

(** ** lib/pairing.ts *)

Definition START_TYPES : list string := ["TaskScheduled"; "TimerCreated"; "SubOrchestrationCreated"].
Definition END_TYPES : list string :=
  ["TaskCompleted"; "TaskFailed"; "TimerFired"; "SubOrchestrationCompleted"; "SubOrchestrationFailed"].

Inductive PairRole := RStart | REnd.

Record PairInfo := {
  pairId : Z;
  role : PairRole;
  partnerIndex : option nat;
  durationMs : option Z
}.

Definition is_start (event : WorkflowHistoryEvent) : bool :=
  has START_TYPES event.(ev_type) && (0 <=? event.(ev_sequenceId)).
Definition end_of (event : WorkflowHistoryEvent) : option Z :=
  if has END_TYPES event.(ev_type) then event.(ev_scheduledId) else None.

(** [stack.pop()]: the last element and what is left in the shared array. *)
Definition pop {A} (stack : list A) : option (A * list A) :=
  match rev stack with [] => None | x :: rest => Some (x, rev rest) end.

Section Pairing.
Context (Date_parse : string -> option Z) (ascending : list WorkflowHistoryEvent).

Definition timestamp_at (i : nat) : option Z :=
  event ← ascending !! i; Date_parse event.(ev_timestamp).

Definition elapsed_ms (startIndex index : nat) : option Z :=
  match timestamp_at startIndex, timestamp_at index with
  | Some start, Some end_ => if end_ <? start then None else Some (end_ - start)
  | _, _ => None
  end.

(** The state of the pass: the result and the stacks of open starts. *)
Definition PairState : Type := JsMap nat PairInfo * JsMap Z (list nat).

Definition pair_event (st : PairState) (index : nat) (event : WorkflowHistoryEvent) : PairState :=
  let (result, open) := st in
  if is_start event then
    let stack := default [] (map_get event.(ev_sequenceId) open) in
    (result, map_set event.(ev_sequenceId) (stack ++ [index])%list open)
  else
    match end_of event with
    | None => st
    | Some pairId =>
        match map_get pairId open ≫= pop with
        | None =>
            (map_set index {| pairId := pairId; role := REnd; partnerIndex := None; durationMs := None |} result,
             open)
        | Some (startIndex, stack) =>
            let open := map_set pairId stack open in
            let durationMs := elapsed_ms startIndex index in
            let result := map_set startIndex
              {| pairId := pairId; role := RStart; partnerIndex := Some index; durationMs := None |} result in
            (map_set index
              {| pairId := pairId; role := REnd; partnerIndex := Some startIndex; durationMs := durationMs |} result,
             open)
        end
    end.

Definition pair_events (n : nat) : PairState :=
  fold_left (fun st index => match ascending !! index with Some event => pair_event st index event | None => st end)
    (seq 0 n) ([], []).

(** What is left open is running. *)
Definition close_stack (result : JsMap nat PairInfo) (entry : Z * list nat) : JsMap nat PairInfo :=
  fold_left (fun result startIndex => map_set startIndex
    {| pairId := entry.1; role := RStart; partnerIndex := None; durationMs := None |} result) entry.2 result.

Definition buildPairIndex : JsMap nat PairInfo :=
  let (result, open) := pair_events (length ascending) in
  fold_left close_stack open result.
End Pairing.

(** ** The displayed order *)

Section EventOrderFacts.
Context (Date_parse : string -> option Z).

Definition parses (event : WorkflowHistoryEvent) : Prop := is_Some (Date_parse event.(ev_timestamp)).
Definition time_of (event : WorkflowHistoryEvent) : Z := default 0 (Date_parse event.(ev_timestamp)).

(** The order the page promises: the start of the execution first, its end
    last, the rest by time, and by position where the times are equal. *)
Definition shown_before (a b : WorkflowHistoryEvent * nat) : Prop :=
  pinRank a.1 < pinRank b.1
  \/ (pinRank a.1 = pinRank b.1
      /\ (time_of a.1 < time_of b.1 \/ (time_of a.1 = time_of b.1 /\ (a.2 < b.2)%nat))).

Lemma compare_events_spec a b : parses a.1 -> parses b.1 ->
  (compare_events Date_parse a b < 0 <-> shown_before a b)
  /\ (compare_events Date_parse a b = 0 ->
      pinRank a.1 = pinRank b.1 /\ time_of a.1 = time_of b.1 /\ a.2 = b.2)
  /\ (0 < compare_events Date_parse a b <-> shown_before b a).
Proof.
  intros [ta Ha] [tb Hb]. unfold compare_events, shown_before, time_of. rewrite Ha, Hb. cbn [default from_option id].
  destruct (Z.eqb_spec (pinRank a.1) (pinRank b.1)) as [Er|Er]; cbn [negb]; [|lia].
  destruct (Z.eqb_spec ta tb); cbn [negb]; unfold id; lia.
Qed.

Lemma compare_events_consistent : consistent (compare_events Date_parse) (fun x => parses x.1).
Proof.
  split; intros x y; intros.
  - destruct (compare_events_spec x y) as (? & ? & ?), (compare_events_spec y x) as (? & ? & ?); try done.
    unfold shown_before in *. lia.
  - destruct (compare_events_spec x y) as (? & ? & ?), (compare_events_spec y x) as (? & ? & ?); try done.
    unfold shown_before in *. lia.
  - destruct (compare_events_spec x y) as (? & ? & ?), (compare_events_spec y z) as (? & ? & ?),
      (compare_events_spec x z) as (? & ? & ?); try done.
    unfold shown_before in *. lia.
Qed.

Lemma sorted_strict (l : list (WorkflowHistoryEvent * nat)) :
  Forall (fun x => parses x.1) l -> NoDup l.*2 ->
  StronglySorted (fun a b => compare_events Date_parse a b <= 0) l -> StronglySorted shown_before l.
Proof.
  intros Hp Hn Hs. induction Hs as [|a l Hs IH Hall]; [constructor|].
  apply Forall_cons in Hp as [Ha Hp]. cbn in Hn. apply NoDup_cons in Hn as [Hin Hn].
  constructor; [by apply IH|]. rewrite Forall_forall in *. intros b Hb.
  destruct (compare_events_spec a b) as (H1 & H2 & _); [done|by apply Hp|]. specialize (Hall b Hb).
  apply H1. enough (compare_events Date_parse a b <> 0) by lia. intros (_ & _ & E)%H2.
  apply Hin. rewrite E. apply list_elem_of_fmap. by exists b.
Qed.

Definition indexed (history : list WorkflowHistoryEvent) : list (WorkflowHistoryEvent * nat) :=
  imap (fun index event => (event, index)) history.

Lemma indexed_snd history : (indexed history).*2 = seq 0 (length history).
Proof.
  unfold indexed. induction history as [|e h IH] using rev_ind; [done|].
  rewrite imap_app, fmap_app, IH, length_app, seq_app. cbn. by rewrite Nat.add_0_r.
Qed.

Lemma indexed_fst history : (indexed history).*1 = history.
Proof.
  unfold indexed. induction history as [|e h IH] using rev_ind; [done|]. by rewrite imap_app, fmap_app, IH.
Qed.

(** C40: A history whose timestamps can be read is shown in the promised order:
    every event exactly once, the start of the execution first, its end last,
    the rest by time and, at equal times, in their original order; and the
    descending view is its exact reverse. *)
Theorem history_shown_in_order (history : list WorkflowHistoryEvent) :
  Forall parses history ->
  exists shown,
    sortHistoryForDisplay Date_parse history = shown.*1
    /\ shown ≡ₚ indexed history
    /\ StronglySorted shown_before shown
    /\ orderHistoryForDisplay Date_parse history Asc = shown.*1
    /\ orderHistoryForDisplay Date_parse history Desc = rev (shown.*1).
Proof.
  intros Hp. exists (js_sort (compare_events Date_parse) (indexed history)).
  pose proof (js_sort_perm (compare_events Date_parse) (indexed history)) as P.
  assert (Hpi : Forall (fun x => parses x.1) (indexed history)).
  { assert (Hf : Forall parses (indexed history).*1) by (rewrite indexed_fst; exact Hp).
    apply (Forall_fmap fst) in Hf. exact Hf. }
  split_and!; [done|exact P| |done|done].
  apply sorted_strict.
  - by rewrite P.
  - rewrite P, indexed_snd. apply NoDup_seq.
  - apply (js_sort_sorted _ (fun x => parses x.1)); [apply compare_events_consistent|done].
Qed.
End EventOrderFacts.

(** Timestamps of one digit. *)
Definition digit_time (s : string) : option Z :=
  match s with
  | String c EmptyString => let n := Z.of_N (Ascii.N_of_ascii c) in
                            if (48 <=? n) && (n <=? 57) then Some (n - 48) else None
  | _ => None
  end.
Definition event_at (type time : string) : WorkflowHistoryEvent := {|
  ev_sequenceId := -1; ev_timestamp := time; ev_type := type; ev_name := None; ev_instanceId := None;
  ev_scheduledId := None; ev_input := None; ev_output := None; ev_failureDetails := None |}.

Lemma history_shown_in_order_witness :
  exists shown,
    sortHistoryForDisplay digit_time
      [event_at "ExecutionCompleted" "1"; event_at "TaskScheduled" "5"; event_at "TaskCompleted" "3";
       event_at "ExecutionStarted" "9"] = shown.*1
    /\ shown ≡ₚ indexed [event_at "ExecutionCompleted" "1"; event_at "TaskScheduled" "5";
                         event_at "TaskCompleted" "3"; event_at "ExecutionStarted" "9"]
    /\ StronglySorted (shown_before digit_time) shown.
Proof.
  destruct (history_shown_in_order digit_time
    [event_at "ExecutionCompleted" "1"; event_at "TaskScheduled" "5"; event_at "TaskCompleted" "3";
     event_at "ExecutionStarted" "9"]) as (shown & H1 & H2 & H3 & _).
  - repeat constructor; by eexists.
  - by exists shown.
Defined.

(** One unreadable timestamp between two readable ones takes the order away:
    the comparator is then no order at all: each of three events precedes the
    next, in a circle, so what [sort] does with them is left open. *)
Theorem unreadable_timestamp_unsorts :
  let a := event_at "TaskScheduled" "5" in
  let b := event_at "TaskScheduled" "?" in
  let c := event_at "TaskScheduled" "3" in
  compare_events digit_time (a, 0%nat) (b, 1%nat) < 0
  /\ compare_events digit_time (b, 1%nat) (c, 2%nat) < 0
  /\ compare_events digit_time (c, 2%nat) (a, 0%nat) < 0.
Proof. vm_compute. split_and!; done. Qed.

(** ** Pairs *)

Section PairingFacts.
Context (Date_parse : string -> option Z) (ascending : list WorkflowHistoryEvent).

(** A row whose event opens, or closes, the pairing id [k]. *)
Definition start_row (i : nat) (k : Z) : Prop :=
  exists e, ascending !! i = Some e /\ is_start e = true /\ e.(ev_sequenceId) = k.
Definition end_row (i : nat) (k : Z) : Prop :=
  exists e, ascending !! i = Some e /\ is_start e = false /\ end_of e = Some k.

Definition start_entry (k : Z) (partner : option nat) : PairInfo :=
  {| pairId := k; role := RStart; partnerIndex := partner; durationMs := None |}.
Definition end_entry (i : nat) (k : Z) (partner : option nat) : PairInfo :=
  {| pairId := k; role := REnd; partnerIndex := partner;
     durationMs := s ← partner; elapsed_ms Date_parse ascending s i |}.

(** What an entry of the result says: it describes its own row, and a partner
    has the matching entry. *)
Definition entry_ok (result : JsMap nat PairInfo) (i : nat) (info : PairInfo) : Prop :=
  (exists k j, start_row i k /\ info = start_entry k (Some j) /\ (i < j)%nat
               /\ map_get j result = Some (end_entry j k (Some i)))
  \/ (exists k, end_row i k /\ info = end_entry i k None)
  \/ (exists k j, end_row i k /\ info = end_entry i k (Some j) /\ (j < i)%nat
               /\ map_get j result = Some (start_entry k (Some i))).

Definition open_at (open : JsMap Z (list nat)) (k : Z) : list nat := default [] (map_get k open).

Record pair_inv (n : nat) (st : PairState) : Prop := {
  pi_entries : forall i info, map_get i st.1 = Some info -> (i < n)%nat /\ entry_ok st.1 i info;
  pi_open : forall k i, i ∈ open_at st.2 k -> (i < n)%nat /\ start_row i k /\ map_get i st.1 = None;
  pi_nodup : forall k, NoDup (open_at st.2 k);
  pi_starts : forall i k, (i < n)%nat -> start_row i k -> i ∈ open_at st.2 k \/ is_Some (map_get i st.1);
  pi_ends : forall i k, (i < n)%nat -> end_row i k -> is_Some (map_get i st.1);
  pi_greedy : forall k i j,
    i ∈ open_at st.2 k -> map_get j st.1 = Some (end_entry j k None) -> (j < i)%nat
}.

Lemma start_row_fun i k k' : start_row i k -> start_row i k' -> k = k'.
Proof. intros (e & He & _ & <-) (e' & He' & _ & <-). congruence. Qed.

Lemma start_not_end i k k' : start_row i k -> end_row i k' -> False.
Proof. intros (e & He & H & _) (e' & He' & H' & _). congruence. Qed.

Lemma open_at_set k st open k' : open_at (map_set k st open) k' = if decide (k' = k) then st else open_at open k'.
Proof.
  unfold open_at. case_decide as H; [subst; by rewrite map_get_set_eq|by rewrite map_get_set_ne].
Qed.

Lemma pop_spec {A} (l : list A) : match pop l with Some (x, l') => l = (l' ++ [x])%list | None => l = [] end.
Proof.
  unfold pop. destruct (rev l) as [|x r] eqn:E.
  - apply (f_equal (@rev A)) in E. by rewrite rev_involutive in E.
  - apply (f_equal (@rev A)) in E. rewrite rev_involutive in E. by rewrite E.
Qed.

(** Setting a fresh row keeps what the other entries say. *)
Lemma entry_ok_set result j info' i info :
  map_get j result = None -> entry_ok result i info -> entry_ok (map_set j info' result) i info.
Proof.
  intros Hj [(k & m & Hs & Hi & Hm & Hg)|[H|(k & m & Hs & Hi & Hm & Hg)]].
  - left. exists k, m. split_and!; try done. rewrite map_get_set_ne; [done|congruence].
  - right. left. exact H.
  - right; right. exists k, m. split_and!; try done. rewrite map_get_set_ne; [done|congruence].
Qed.

Lemma inv_fresh n st : pair_inv n st -> map_get n st.1 = None.
Proof.
  intros H. destruct (map_get n st.1) as [info|] eqn:E; [|done]. apply (pi_entries _ _ H) in E as [? _]. lia.
Qed.

Lemma inv_open n st e :
  pair_inv n st -> ascending !! n = Some e -> is_start e = true ->
  pair_inv (S n) (pair_event Date_parse ascending st n e).
Proof.
  intros I He Hs. pose proof (inv_fresh _ _ I) as Hfresh. destruct I as [I1 I2 I3 I4 I5 I6].
  assert (Hn : start_row n e.(ev_sequenceId)) by (by exists e).
  destruct st as [result open]. unfold pair_event. rewrite Hs.
  change (default [] (map_get (ev_sequenceId e) open)) with (open_at open (ev_sequenceId e)).
  cbn [fst snd] in *. split; cbn [fst snd].
  - intros i info Hi. destruct (I1 i info Hi). split; [lia|done].
  - intros k i. rewrite open_at_set. case_decide as Hk.
    + subst k. rewrite elem_of_app, list_elem_of_singleton. intros [Hi| ->].
      * destruct (I2 _ _ Hi) as (? & ? & ?). by split_and!; [lia|..].
      * by split_and!; [lia|..].
    + intros Hi. destruct (I2 _ _ Hi) as (? & ? & ?). by split_and!; [lia|..].
  - intros k. rewrite open_at_set. case_decide; [|done]. apply NoDup_app. split_and!; [done| |apply NoDup_singleton].
    intros i Hi ->%list_elem_of_singleton. destruct (I2 _ _ Hi) as (? & _). lia.
  - intros i k Hi Hrow. rewrite open_at_set. destruct (decide (i = n)) as [->|Hne].
    + left. pose proof (start_row_fun _ _ _ Hrow Hn) as ->. rewrite decide_True by done.
      apply elem_of_app. right. by left.
    + destruct (I4 i k ltac:(lia) Hrow) as [H|H]; [|by right]. left. case_decide; [|done]. subst k.
      apply elem_of_app. by left.
  - intros i k Hi Hrow. destruct (decide (i = n)) as [->|Hne]; [by destruct (start_not_end _ _ _ Hn Hrow)|].
    apply (I5 i k); [lia|done].
  - intros k i j. rewrite open_at_set. case_decide as Hk; [|by apply I6].
    rewrite elem_of_app, list_elem_of_singleton. intros [Hi| ->] Hj.
    + subst k. by apply (I6 (ev_sequenceId e)).
    + by apply I1 in Hj as [? _].
Qed.

Lemma inv_skip n st e :
  pair_inv n st -> ascending !! n = Some e -> is_start e = false -> end_of e = None -> pair_inv (S n) st.
Proof.
  intros [I1 I2 I3 I4 I5 I6] He Hs Hend. split; [..|done| | |exact I6].
  - intros i info Hi. destruct (I1 i info Hi). split; [lia|done].
  - intros k i Hi. destruct (I2 k i Hi) as (? & ? & ?). by split_and!; [lia|..].
  - intros i k Hi Hrow. apply I4; [|done]. destruct (decide (i = n)) as [->|]; [|lia].
    destruct Hrow as (e' & He' & ? & _). congruence.
  - intros i k Hi Hrow. apply (I5 i k); [|done]. destruct (decide (i = n)) as [->|]; [|lia].
    destruct Hrow as (e' & He' & ? & ?). congruence.
Qed.

Lemma inv_orphan n st e k :
  pair_inv n st -> ascending !! n = Some e -> is_start e = false -> end_of e = Some k ->
  open_at st.2 k = [] -> pair_inv (S n) (map_set n (end_entry n k None) st.1, st.2).
Proof.
  intros I He Hs Hend Hempty. pose proof (inv_fresh _ _ I) as Hfresh. destruct I as [I1 I2 I3 I4 I5 I6].
  assert (Hn : end_row n k) by (by exists e). split; cbn [fst snd]; [..|done| | |].
  - intros i info. destruct (decide (i = n)) as [->|Hne].
    + rewrite map_get_set_eq. intros [= <-]. split; [lia|]. right; left. by exists k.
    + rewrite map_get_set_ne by done. intros Hi. destruct (I1 i info Hi). split; [lia|]. by apply entry_ok_set.
  - intros k' i Hi. destruct (I2 k' i Hi) as (? & ? & ?). split_and!; [lia|done|].
    rewrite map_get_set_ne; [done|lia].
  - intros i k' Hi Hrow. destruct (decide (i = n)) as [->|Hne]; [by destruct (start_not_end _ _ _ Hrow Hn)|].
    rewrite map_get_set_ne by done. apply I4; [lia|done].
  - intros i k' Hi Hrow. destruct (decide (i = n)) as [->|Hne]; [rewrite map_get_set_eq; by eexists|].
    rewrite map_get_set_ne by done. apply (I5 i k'); [lia|done].
  - intros k' i j Hi. destruct (decide (j = n)) as [->|Hne]; [|by rewrite map_get_set_ne by done; apply I6].
    rewrite map_get_set_eq. intros [= <-]. rewrite Hempty in Hi. by apply elem_of_nil in Hi.
Qed.

Lemma inv_match n st e k s rest :
  pair_inv n st -> ascending !! n = Some e -> is_start e = false -> end_of e = Some k ->
  open_at st.2 k = (rest ++ [s])%list ->
  pair_inv (S n) (map_set n (end_entry n k (Some s)) (map_set s (start_entry k (Some n)) st.1),
                  map_set k rest st.2).
Proof.
  intros I He Hs Hend Hopen. pose proof (inv_fresh _ _ I) as Hfresh. destruct I as [I1 I2 I3 I4 I5 I6].
  assert (Hn : end_row n k) by (by exists e).
  assert (Hin : s ∈ open_at st.2 k) by (rewrite Hopen; apply elem_of_app; right; by left).
  destruct (I2 _ _ Hin) as (Hsn & Hsrow & Hsfresh).
  assert (Hfresh' : map_get n (map_set s (start_entry k (Some n)) st.1) = None)
    by (rewrite map_get_set_ne; [done|lia]).
  pose proof (I3 k) as Hnd. rewrite Hopen in Hnd. apply NoDup_app in Hnd as (Hnd & Hdis & _).
  split; cbn [fst snd].
  - intros i info. destruct (decide (i = n)) as [->|Hne].
    + rewrite map_get_set_eq. intros [= <-]. split; [lia|]. right; right. exists k, s.
      split_and!; try done. rewrite map_get_set_ne by lia. apply map_get_set_eq.
    + rewrite map_get_set_ne by done. destruct (decide (i = s)) as [->|Hne'].
      * rewrite map_get_set_eq. intros [= <-]. split; [lia|]. left. exists k, n.
        split_and!; try done. apply map_get_set_eq.
      * rewrite map_get_set_ne by done. intros Hi. destruct (I1 i info Hi). split; [lia|].
        apply entry_ok_set; [done|]. by apply entry_ok_set.
  - intros k' i. rewrite open_at_set. intros Hi.
    assert (Hold : i ∈ open_at st.2 k' /\ i <> s).
    { case_decide as Hk.
      - subst k'. rewrite Hopen, elem_of_app. split; [by left|]. intros ->. apply (Hdis s Hi). by left.
      - split; [done|]. intros ->. destruct (I2 _ _ Hi) as (_ & Hr & _).
        by pose proof (start_row_fun _ _ _ Hr Hsrow). }
    destruct Hold as [Hold Hne]. destruct (I2 _ _ Hold) as (? & ? & ?).
    split_and!; [lia|done|]. rewrite !map_get_set_ne; [done|done|lia].
  - intros k'. rewrite open_at_set. by case_decide.
  - intros i k' Hi Hrow. destruct (decide (i = n)) as [->|Hne]; [by destruct (start_not_end _ _ _ Hrow Hn)|].
    rewrite (map_get_set_ne i n) by done. destruct (decide (i = s)) as [->|Hne'].
    + right. rewrite map_get_set_eq. by eexists.
    + rewrite map_get_set_ne by done. rewrite open_at_set.
      destruct (I4 i k' ltac:(lia) Hrow) as [H|H]; [|by right]. left. case_decide; [|done]. subst k'.
      rewrite Hopen, elem_of_app, list_elem_of_singleton in H. by destruct H.
  - intros i k' Hi Hrow. destruct (decide (i = n)) as [->|Hne]; [rewrite map_get_set_eq; by eexists|].
    rewrite map_get_set_ne by done. destruct (decide (i = s)) as [->|Hne']; [rewrite map_get_set_eq; by eexists|].
    rewrite map_get_set_ne by done. apply (I5 i k'); [lia|done].
  - intros k' i j Hi. destruct (decide (j = n)) as [->|Hne]; [by rewrite map_get_set_eq|].
    rewrite map_get_set_ne by done. destruct (decide (j = s)) as [->|Hne']; [by rewrite map_get_set_eq|].
    rewrite map_get_set_ne by done. apply I6. rewrite open_at_set in Hi. case_decide; [|done]. subst k'.
    rewrite Hopen. apply elem_of_app. by left.
Qed.

Lemma inv_event n st e :
  pair_inv n st -> ascending !! n = Some e -> pair_inv (S n) (pair_event Date_parse ascending st n e).
Proof.
  intros I He. destruct (is_start e) eqn:Hs; [by apply inv_open|].
  destruct st as [result open]. unfold pair_event. rewrite Hs. destruct (end_of e) as [k|] eqn:Hend.
  - destruct (map_get k open) as [stack|] eqn:Hk; cbn [mbind option_bind].
    + pose proof (pop_spec stack) as Hp. destruct (pop stack) as [[s rest]|].
      * apply (inv_match n (result, open) e k s rest I He Hs Hend). unfold open_at. cbn [snd]. by rewrite Hk.
      * apply (inv_orphan n (result, open) e k I He Hs Hend). unfold open_at. cbn [snd]. by rewrite Hk.
    + apply (inv_orphan n (result, open) e k I He Hs Hend). unfold open_at. cbn [snd]. by rewrite Hk.
  - by eapply inv_skip.
Qed.

Lemma pair_events_inv n : (n <= length ascending)%nat -> pair_inv n (pair_events Date_parse ascending n).
Proof.
  unfold pair_events. induction n as [|n IH]; intros Hn.
  - split; cbn; [done|by intros k i Hi%elem_of_nil|constructor|lia|lia|by intros k i j Hi%elem_of_nil].
  - rewrite seq_S, fold_left_app. cbn [fold_left plus].
    destruct (lookup_lt_is_Some_2 ascending n ltac:(lia)) as [e He]. rewrite He.
    apply inv_event; [apply IH; lia|done].
Qed.

(** What is still open at the end is entered as an unmatched start. *)
Lemma close_stack_get k stack : forall result i,
  map_get i (close_stack result (k, stack))
  = if decide (i ∈ stack) then Some (start_entry k None) else map_get i result.
Proof.
  unfold close_stack. cbn [fst snd]. induction stack as [|j stack IH]; intros result i; cbn [fold_left].
  - by rewrite decide_False by apply not_elem_of_nil.
  - rewrite IH. destruct (decide (i ∈ stack)) as [H|H]; [by rewrite decide_True by (by right)|].
    destruct (decide (i = j)) as [->|Hne]; [by rewrite map_get_set_eq, decide_True by (by left)|].
    rewrite map_get_set_ne, decide_False by (done || by intros [?|?]%elem_of_cons). done.
Qed.

Lemma close_all_get open : NoDup open.*1 -> forall result i,
  (forall k k' s s', (k, s) ∈ open -> (k', s') ∈ open -> i ∈ s -> i ∈ s' -> k = k') ->
  (map_get i (fold_left close_stack open result) = map_get i result /\ (forall k s, (k, s) ∈ open -> i ∉ s))
  \/ (exists k s, (k, s) ∈ open /\ i ∈ s
       /\ map_get i (fold_left close_stack open result) = Some (start_entry k None)).
Proof.
  induction open as [|[k s] open IH]; intros Hnd result i Huniq; cbn [fold_left].
  - left. split; [done|]. by intros k s ?%elem_of_nil.
  - cbn in Hnd. apply NoDup_cons in Hnd as [Hk Hnd].
    destruct (IH Hnd (close_stack result (k, s)) i) as [[E Hno]|(k' & s' & Hin & Hi & E)].
    { intros k1 k2 s1 s2 H1 H2. apply Huniq; by right. }
    + rewrite E, close_stack_get. case_decide as Hi.
      * right. exists k, s. split_and!; [by left|done|done].
      * left. split; [done|]. intros k' s' [[= -> ->]|Hin]%elem_of_cons; [done|]. by eapply Hno.
    + right. exists k', s'. split_and!; [by right|done|done].
Qed.

(** The keys of [open] are distinct: it is a [Map]. *)
Lemma pair_event_keys st n e : NoDup st.2.*1 -> NoDup (pair_event Date_parse ascending st n e).2.*1.
Proof.
  destruct st as [result open]. unfold pair_event. intros H.
  destruct (is_start e); [by apply keys_set_nodup|].
  destruct (end_of e); [|done]. destruct (_ ≫= pop) as [[??]|]; [by apply keys_set_nodup|done].
Qed.

Lemma pair_events_keys n : NoDup (pair_events Date_parse ascending n).2.*1.
Proof.
  unfold pair_events. apply (fold_left_inv (fun st => NoDup st.2.*1)); [|constructor].
  intros st i _ H. destruct (ascending !! i); [by apply pair_event_keys|done].
Qed.

Lemma map_get_of_in {V} (m : JsMap Z V) k v : NoDup m.*1 -> (k, v) ∈ m -> map_get k m = Some v.
Proof.
  induction m as [|[k' v'] m IH]; intros Hn Hin; [by apply elem_of_nil in Hin|]. cbn in *.
  apply NoDup_cons in Hn as [Hk Hn]. apply elem_of_cons in Hin as [[= -> ->]|Hin]; [by rewrite decide_True|].
  rewrite decide_False; [by apply IH|]. intros ->. apply Hk. apply list_elem_of_fmap. by exists (k', v).
Qed.

Lemma built_entry i :
  let final := buildPairIndex Date_parse ascending in
  let st := pair_events Date_parse ascending (length ascending) in
  (map_get i final = map_get i st.1 /\ (forall k, i ∉ open_at st.2 k))
  \/ (exists k, i ∈ open_at st.2 k /\ map_get i final = Some (start_entry k None)).
Proof.
  cbv zeta. unfold buildPairIndex.
  pose proof (pair_events_inv (length ascending) ltac:(lia)) as I.
  pose proof (pair_events_keys (length ascending)) as K.
  destruct (pair_events Date_parse ascending (length ascending)) as [result open]. cbn [fst snd] in *.
  destruct (close_all_get open K result i) as [[E Hno]|(k & s & Hin & Hi & E)].
  - intros k k' s s' Hs Hs' Hi Hi'. apply map_get_of_in in Hs, Hs'; [|done..].
    destruct (pi_open _ _ I k i) as (_ & R & _); [unfold open_at; cbn [snd]; by rewrite Hs|].
    destruct (pi_open _ _ I k' i) as (_ & R' & _); [unfold open_at; cbn [snd]; by rewrite Hs'|].
    by eapply start_row_fun.
  - left. split; [done|]. intros k Hi. unfold open_at in Hi. destruct (map_get k open) as [s|] eqn:Hk.
    + apply map_get_in in Hk. by apply (Hno k s).
    + by apply elem_of_nil in Hi.
  - right. exists k. split; [|done]. unfold open_at. cbn [snd]. apply map_get_of_in in Hin; [|done]. by rewrite Hin.
Qed.

(** The relation the page relies on. *)
Definition paired (final : JsMap nat PairInfo) (i : nat) (info : PairInfo) : Prop :=
  (exists k j, start_row i k /\ info = start_entry k (Some j) /\ (i < j)%nat /\ end_row j k
               /\ map_get j final = Some (end_entry j k (Some i)))
  \/ (exists k, start_row i k /\ info = start_entry k None)
  \/ (exists k, end_row i k /\ info = end_entry i k None)
  \/ (exists k j, end_row i k /\ info = end_entry i k (Some j) /\ (j < i)%nat /\ start_row j k
               /\ map_get j final = Some (start_entry k (Some i))).

Lemma entry_rows result n i info :
  (forall i info, map_get i result = Some info -> (i < n)%nat /\ entry_ok result i info) ->
  map_get i result = Some info ->
  (exists k p, info = start_entry k p /\ start_row i k) \/ (exists k p, info = end_entry i k p /\ end_row i k).
Proof.
  intros H Hi. destruct (H i info Hi) as [_ [(k & j & ? & -> & _)|[(k & ? & ->)|(k & j & ? & -> & _)]]];
    [left|right|right]; by do 2 eexists.
Qed.

(** What was stored while the rows were gone through is still there at the end. *)
Lemma built_keeps j info :
  map_get j (pair_events Date_parse ascending (length ascending)).1 = Some info ->
  map_get j (buildPairIndex Date_parse ascending) = Some info.
Proof.
  pose proof (pair_events_inv (length ascending) ltac:(lia)) as I. intros Hj.
  destruct (built_entry j) as [[-> _]|(k & Hk & _)]; [done|].
  destruct (pi_open _ _ I _ _ Hk) as (_ & _ & ?). congruence.
Qed.

(** Every entry describes its row and is matched by its partner's. *)
Lemma built_paired i info :
  map_get i (buildPairIndex Date_parse ascending) = Some info -> paired (buildPairIndex Date_parse ascending) i info.
Proof.
  pose proof (pair_events_inv (length ascending) ltac:(lia)) as I. intros Hi.
  assert (Rows : forall i info, map_get i (pair_events Date_parse ascending (length ascending)).1 = Some info -> _)
    by (intros i' info' Hi'; exact (entry_rows _ _ i' info' (pi_entries _ _ I) Hi')).
  destruct (built_entry i) as [[E _]|(k & Hk & E)]; rewrite E in Hi.
  - destruct (pi_entries _ _ I i info Hi) as [_ [(k & j & H1 & H2 & H3 & H4)|[H|(k & j & H1 & H2 & H3 & H4)]]].
    + left. exists k, j. split_and!; try done; [|by apply built_keeps].
      destruct (Rows _ _ H4) as [(?&?&?&?)|(?&?&[=]&?)]; [done|by subst].
    + right; right; left. exact H.
    + right; right; right. exists k, j. split_and!; try done; [|by apply built_keeps].
      destruct (Rows _ _ H4) as [(?&?&[=]&?)|(?&?&?&?)]; [by subst|done].
  - injection Hi as <-. right; left. exists k. split; [|done]. by destruct (pi_open _ _ I _ _ Hk) as (_ & ? & _).
Qed.

(** The pair index is a greedy matching. An entry describes its own row; a
    completion is matched with an earlier start of the same pairing id, and the
    two name each other, so no row is in two pairs; every start and every
    completion has an entry; and an open start and an unmatched completion of
    the same id never coexist with the completion after the start. *)
Theorem buildPairIndex_matching :
  let final := buildPairIndex Date_parse ascending in
  (forall i info, map_get i final = Some info -> paired final i info)
  /\ (forall i k, start_row i k \/ end_row i k -> is_Some (map_get i final))
  /\ (forall i j k, map_get i final = Some (start_entry k None) ->
                    map_get j final = Some (end_entry j k None) -> (j < i)%nat).
Proof.
  cbv zeta. pose proof (pair_events_inv (length ascending) ltac:(lia)) as I. split_and!; [exact built_paired|..].
  - intros i k Hrow. destruct (built_entry i) as [[-> Hno]|(k' & _ & ->)]; [|by eexists].
    assert (Hi : (i < length ascending)%nat) by (destruct Hrow as [(e & He & _)|(e & He & _)]; by eapply lookup_lt_Some).
    destruct Hrow as [Hrow|Hrow]; [|by eapply (pi_ends _ _ I)].
    destruct (pi_starts _ _ I i k Hi Hrow) as [H|H]; [|done]. by destruct (Hno k).
  - intros i j k Hi Hj. destruct (built_entry i) as [[E _]|(k' & Hk & E)]; rewrite E in Hi.
    + destruct (pi_entries _ _ I i _ Hi) as [_ [(?&?&_&[=]&_)|[(?&_&[=])|(?&?&_&[=]&_)]]].
    + injection Hi as ->. destruct (built_entry j) as [[E' _]|(k'' & _ & E')]; rewrite E' in Hj; [|done].
      by apply (pi_greedy _ _ I k i j).
Qed.
End PairingFacts.
