(* ===== verification/Prefs.v ===== *)
(** * Preferences

    What the browser's storage keeps of the user's choices, every access of it
    guarded: [lib/safeStorage.ts], [lib/refresh.tsx], [lib/prefs.ts],
    [lib/newsSeen.ts], and the poll interval of [lib/connection.tsx]. *)

From stdpp Require Import pretty.
From S2P Require Import Prelude JsNum Json Text Persistence.
From S2P Require Import History.
#[local] Open Scope string_scope.
#[local] Open Scope Z_scope.

(** ** lib/safeStorage.ts *)

Section Prefs.
Context {St : Type} `{Storage St} `{JsText}.

Definition safeGet (key : string) (s : St) : option string := default None (getItem key s).
Definition safeSet (key value : string) (s : St) : St := default s (setItem key value s).

(** ** lib/refresh.tsx *)

Definition REFRESH_MS_KEY : string := "devdash.refreshMs".
Definition REFRESH_PAUSED_KEY : string := "devdash.refreshPaused".
Definition DEFAULT_INTERVAL_MS : Z := 3000.
Definition VALID_INTERVAL_MS : list Z := [1000; 3000; 5000; 10000; 0].

(** [parseInt(raw, 10)]: blanks, a sign, as many digits as there are; [None] is
    [NaN]. *)
Definition parse_digits (t : text) : option Z :=
  match take_while is_digit_unit t with [] => None | digits => Some (digits_value digits) end.
Definition parse_int (t : text) : option Z :=
  match trimStart t with
  | 45 :: t => Z.opp <$> parse_digits t
  | 43 :: t => parse_digits t
  | t => parse_digits t
  end.

Definition readIntervalMs (s : St) : Z :=
  match safeGet REFRESH_MS_KEY s with
  | Some raw =>
      match parse_int (u raw) with
      | Some parsed => if bool_decide (parsed ∈ VALID_INTERVAL_MS) then parsed else DEFAULT_INTERVAL_MS
      | None => DEFAULT_INTERVAL_MS
      end
  | None => DEFAULT_INTERVAL_MS
  end.
Definition readPaused (s : St) : bool := bool_decide (safeGet REFRESH_PAUSED_KEY s = Some "true").

(** The provider's state, beside the storage. *)
Record Refresh := { rf_intervalMs : Z; rf_paused : bool }.
Definition refresh_load (s : St) : Refresh := {| rf_intervalMs := readIntervalMs s; rf_paused := readPaused s |}.
Definition setInterval (ms : Z) (r : Refresh) (s : St) : Refresh * St :=
  ({| rf_intervalMs := ms; rf_paused := r.(rf_paused) |}, safeSet REFRESH_MS_KEY (pretty ms) s).
Definition setPaused (value : bool) (r : Refresh) (s : St) : Refresh * St :=
  ({| rf_intervalMs := r.(rf_intervalMs); rf_paused := value |},
   safeSet REFRESH_PAUSED_KEY (if value then "true" else "false") s).

(** [None] is [false]: no polling. *)
Definition refetchMs (r : Refresh) : option Z :=
  if r.(rf_paused) || (r.(rf_intervalMs) =? 0) then None else Some r.(rf_intervalMs).
Definition refetchMsAtLeast (r : Refresh) (floorMs : Z) : option Z :=
  (fun ms => Z.max ms floorMs) <$> refetchMs r.

(** ** lib/connection.tsx *)

Definition OFFLINE_FALLBACK_MS : Z := 30000.
Definition healthPollMs (r : Refresh) : Z :=
  match refetchMs r with Some ms => if ms =? 0 then OFFLINE_FALLBACK_MS else ms | None => OFFLINE_FALLBACK_MS end.

(** ** lib/prefs.ts *)

Inductive Theme := Light | Dark.
Definition theme_name (t : Theme) : string := match t with Light => "light" | Dark => "dark" end.
Definition THEME_KEY : string := "devdash.theme".
Definition getTheme (s : St) : Theme :=
  match safeGet THEME_KEY s with
  | Some v => if String.eqb v "light" then Light else if String.eqb v "dark" then Dark else Light
  | None => Light
  end.
Definition setTheme (t : Theme) (s : St) : St := safeSet THEME_KEY (theme_name t) s.

Definition HISTORY_ORDER_KEY : string := "devdash.workflowHistoryOrder".
Definition order_name (o : HistoryOrder) : string := match o with Asc => "asc" | Desc => "desc" end.
Definition getHistoryOrder (s : St) : HistoryOrder :=
  match safeGet HISTORY_ORDER_KEY s with
  | Some v => if String.eqb v "asc" then Asc else if String.eqb v "desc" then Desc else Asc
  | None => Asc
  end.
Definition setHistoryOrder (o : HistoryOrder) (s : St) : St := safeSet HISTORY_ORDER_KEY (order_name o) s.

(** ** lib/newsSeen.ts *)

Definition NEWS_KEY : string := "devdash.newsSeen".

(** The four slots in their order; an item is its URL. *)
Definition newsUrls (slots : list (option string)) : list string := omap id slots.

(** Membership of a [Set] of decoded values: objects and arrays are equal to
    nothing but themselves. *)
Definition same_value (a b : json) : bool :=
  match a, b with
  | JStr a, JStr b => String.eqb a b
  | JNum a, JNum b => (a =? b)%float
  | JBool a, JBool b => Bool.eqb a b
  | JNull, JNull => true
  | _, _ => false
  end.
Definition set_put (x : json) (s : list json) : list json := if existsb (same_value x) s then s else (s ++ [x])%list.

Definition getSeen (s : St) : list json :=
  match safeGet NEWS_KEY s with
  | None | Some "" => []
  | Some raw =>
      match parse raw with
      | Some (JArr parsed) => fold_left (fun s x => set_put x s) parsed []
      | _ => []
      end
  end.
Definition markSeen (urls : list string) (s : St) : St :=
  safeSet NEWS_KEY (stringify (JArr (fold_left (fun seen url => set_put (JStr url) seen) urls (getSeen s)))) s.
Definition hasUnseen (slots : list (option string)) (s : St) : bool :=
  existsb (fun url => negb (existsb (same_value (JStr url)) (getSeen s))) (newsUrls slots).
End Prefs.

(** ** What is read back *)

(** Whatever a storage holds, or refuses, the interval is one the picker has,
    the health check always polls, and a floor is kept. *)
Theorem intervals_in_range {St} `{Storage St} (s : St) (floorMs : Z) :
  let r := refresh_load s in
  r.(rf_intervalMs) ∈ VALID_INTERVAL_MS
  /\ 1000 <= healthPollMs r
  /\ (forall ms, refetchMsAtLeast r floorMs = Some ms -> floorMs <= ms /\ 1000 <= ms).
Proof.
  cbn zeta. assert (V : rf_intervalMs (refresh_load s) ∈ VALID_INTERVAL_MS).
  { cbn. unfold readIntervalMs. assert (DEFAULT_INTERVAL_MS ∈ VALID_INTERVAL_MS) by (right; left).
    destruct (safeGet _ s); [|done]. destruct (parse_int _); [|done]. by case_bool_decide. }
  split; [done|]. unfold healthPollMs, refetchMsAtLeast, refetchMs. revert V.
  generalize (rf_intervalMs (refresh_load s)) (rf_paused (refresh_load s)). intros ms paused V.
  assert (ms = 0 \/ 1000 <= ms) as [->|Hms].
  { unfold VALID_INTERVAL_MS in V. set_unfold. lia. }
  - rewrite orb_true_r. cbn. split; [done|intros ? [=]].
  - destruct paused; cbn; [split; [done|intros ? [=]]|].
    rewrite (proj2 (Z.eqb_neq ms 0)) by lia. cbn. rewrite (proj2 (Z.eqb_neq ms 0)) by lia.
    split; [done|]. intros ? [= <-]. lia.
Qed.

Definition is_text (j : json) : Prop := exists x, j = JStr x.

Lemma set_put_elem x s url : Forall is_text s ->
  Forall is_text (set_put (JStr x) s)
  /\ existsb (same_value (JStr url)) (set_put (JStr x) s) = String.eqb url x || existsb (same_value (JStr url)) s.
Proof.
  intros H. unfold set_put. destruct (existsb (same_value (JStr x)) s) eqn:E.
  - split; [done|]. destruct (String.eqb_spec url x) as [->|]; [by rewrite E|done].
  - split; [apply Forall_app; split; [done|repeat constructor; by exists x]|].
    rewrite existsb_app. cbn. rewrite orb_false_r. apply orb_comm.
Qed.

Lemma put_all_elem urls url : forall s, Forall is_text s ->
  Forall is_text (fold_left (fun seen url => set_put (JStr url) seen) urls s)
  /\ existsb (same_value (JStr url)) (fold_left (fun seen url => set_put (JStr url) seen) urls s)
     = existsb (same_value (JStr url)) s || existsb (String.eqb url) urls.
Proof.
  induction urls as [|x urls IH]; intros s H; cbn; [by rewrite orb_false_r|].
  destruct (set_put_elem x s url H) as [H' E]. destruct (IH _ H') as [H'' ->]. split; [done|].
  rewrite E. destruct (String.eqb url x), (existsb _ s), (existsb _ urls); done.
Qed.

(** Texts already distinct are read back as they are. *)
Lemma read_back_seen l url : Forall is_text l ->
  Forall is_text (fold_left (fun s x => set_put x s) l [])
  /\ existsb (same_value (JStr url)) (fold_left (fun s x => set_put x s) l []) = existsb (same_value (JStr url)) l.
Proof.
  assert (G : forall acc, Forall is_text acc -> Forall is_text l ->
    Forall is_text (fold_left (fun s x => set_put x s) l acc)
    /\ existsb (same_value (JStr url)) (fold_left (fun s x => set_put x s) l acc)
       = existsb (same_value (JStr url)) acc || existsb (same_value (JStr url)) l).
  { induction l as [|x l IH]; intros acc Ha Hl; cbn; [by rewrite orb_false_r|].
    apply Forall_cons in Hl as [[y ->] Hl]. destruct (set_put_elem y acc url Ha) as [H' E].
    destruct (IH _ H' Hl) as [H'' ->]. split; [done|]. rewrite E. cbn.
    destruct (String.eqb url y), (existsb _ acc), (existsb _ l); done. }
  intros Hl. apply (G []); [constructor|done].
Qed.

Definition array_text_law `{JsText} : Prop :=
  forall l, Forall is_text l -> stringify (JArr l) <> "" /\ parse (stringify (JArr l)) = Some (JArr l).

(** With a storage that works, every choice survives a reload on its own, and a
    news item is seen exactly when it was marked or had been seen before. *)
Theorem choices_survive `{JsText} (s : gmap string string) (r : Refresh) :
  array_text_law -> Forall is_text (getSeen s) ->
  (forall ms, ms ∈ VALID_INTERVAL_MS -> readIntervalMs (setInterval ms r s).2 = ms)
  /\ (forall b, readPaused (setPaused b r s).2 = b)
  /\ (forall ms b, readPaused (setInterval ms r s).2 = readPaused s
                   /\ readIntervalMs (setPaused b r s).2 = readIntervalMs s)
  /\ (forall t, getTheme (setTheme t s) = t) /\ (forall o, getHistoryOrder (setHistoryOrder o s) = o)
  /\ (forall slots urls, hasUnseen slots (markSeen urls s) = false <->
        forall url, url ∈ newsUrls slots ->
          url ∈ urls \/ existsb (same_value (JStr url)) (getSeen s) = true).
Proof.
  intros L T. split_and!.
  - intros ms Hms. unfold readIntervalMs, setInterval, safeGet, safeSet. cbn. rewrite lookup_insert_eq. cbn.
    unfold VALID_INTERVAL_MS in Hms. repeat (apply elem_of_cons in Hms as [->|Hms]; [vm_compute; reflexivity|]).
    by apply elem_of_nil in Hms.
  - intros b. unfold readPaused, setPaused, safeGet, safeSet. cbn. rewrite lookup_insert_eq. by destruct b.
  - intros ms b. unfold readPaused, readIntervalMs, setPaused, setInterval, safeGet, safeSet. cbn.
    by rewrite !lookup_insert_ne by done.
  - intros t. unfold getTheme, setTheme, safeGet, safeSet. cbn. rewrite lookup_insert_eq. by destruct t.
  - intros o. unfold getHistoryOrder, setHistoryOrder, safeGet, safeSet. cbn. rewrite lookup_insert_eq. by destruct o.
  - intros slots urls.
    assert (E : forall url, existsb (same_value (JStr url)) (getSeen (markSeen urls s))
                 = existsb (same_value (JStr url)) (getSeen s) || existsb (String.eqb url) urls).
    { intros url. unfold markSeen. destruct (put_all_elem urls url (getSeen s) T) as [T' E]. rewrite <- E.
      destruct (L _ T') as [Ln Lp]. unfold getSeen at 1. unfold safeGet, safeSet. cbn.
      rewrite lookup_insert_eq. cbn. destruct (stringify _) eqn:Es; [done|]. rewrite Lp.
      by apply read_back_seen. }
    unfold hasUnseen. split.
    + intros Hf url Hu. destruct (existsb (same_value (JStr url)) (getSeen s)) eqn:Eg; [by right|]. left.
      assert (Hn : existsb (same_value (JStr url)) (getSeen (markSeen urls s)) = true).
      { destruct (existsb _ (getSeen (markSeen urls s))) eqn:Ex; [done|]. exfalso.
        assert (existsb (fun url => negb (existsb (same_value (JStr url)) (getSeen (markSeen urls s)))) (newsUrls slots) = true);
          [|congruence]. apply existsb_exists. exists url. split; [by apply list_elem_of_In|by rewrite Ex]. }
      rewrite E, Eg in Hn. apply existsb_exists in Hn as (x & Hx & ->%String.eqb_eq). by apply list_elem_of_In.
    + intros Ha. apply not_true_is_false. intros (url & Hu & Hn)%existsb_exists. apply list_elem_of_In in Hu.
      apply negb_true_iff in Hn. rewrite E in Hn. apply orb_false_iff in Hn as [Hg Hm].
      destruct (Ha url Hu) as [Hin|Hg']; [|congruence].
      assert (existsb (String.eqb url) urls = true); [|congruence].
      apply existsb_exists. exists url. split; [by apply list_elem_of_In|apply String.eqb_refl].
Qed.
