(* ===== verification/DaprRef.v ===== *)
(** * Payload references

    [lib/daprRef.ts]: which workflow payloads are "$daprRef" envelopes, and
    [lib/payloadContent.ts]: what kind of content a loaded payload is.
    [JSON.parse], the UTF-8 decoder and the digest are parameters. *)

From Stdlib Require Import Ascii.
From S2P Require Import Prelude JsNum Json Text.
#[local] Open Scope string_scope.
#[local] Open Scope Z_scope.

(** ** lib/daprRef.ts *)

Record DaprRefStage := { dg_n : string; dg_m : option (list (string * string)) }.

Record DaprRef := {
  dr_store : string;
  dr_key : string;
  dr_size : num;
  dr_sha256 : string;
  dr_stages : option (list DaprRefStage)
}.

Inductive ParsedPayload :=
  | PData
  | PRef (ref : DaprRef)
  | PInvalid (reason : string).

Definition isObject (x : option json) : bool := match x with Some (JObj _) => true | _ => false end.

Definition nonEmpty (x : option json) : option string :=
  match x with Some (JStr s) => match trim (u s) with [] => None | _ => Some s end | _ => None end.

(** [Number.isSafeInteger]. *)
Definition isSafeInteger (n : num) : bool := isInteger n && (abs n <=? 9007199254740991)%float.

Definition size_ok (x : option json) : option num :=
  match x with Some (JNum n) => if isSafeInteger n && negb (n <? 0)%float then Some n else None | _ => None end.

(** [/^[0-9a-f]{64}$/]. *)
Definition is_hex (c : ascii) : bool :=
  let n := nat_of_ascii c in ((48 <=? n) && (n <=? 57) || (97 <=? n) && (n <=? 102))%nat.
Definition is_sha256 (s : string) : bool :=
  (String.length s =? 64)%nat && forallb is_hex (String.list_ascii_of_string s).
Definition sha_ok (x : option json) : option string :=
  match x with Some (JStr s) => if is_sha256 s then Some s else None | _ => None end.

Definition str_of (j : json) : option string := match j with JStr s => Some s | _ => None end.

(** The strings of a stage's [m]; [None] if a value is no string. *)
Definition stage_m (fields : list (string * json)) : option (list (string * string)) :=
  mapM (fun kv => v ← str_of kv.2; Some (kv.1, v)) fields.

(** The [for] loop over the stages. *)
Fixpoint read_stages (stages : list json) : list DaprRefStage + string :=
  match stages with
  | [] => inl []
  | s :: rest =>
      match (if isObject (Some s) then prop s "n" else None) with
      | Some (JStr n) =>
          let stage :=
            match prop s "m" with
            | None => inl {| dg_n := n; dg_m := None |}
            | Some (JObj fields) =>
                match stage_m fields with
                | Some m => inl {| dg_n := n; dg_m := Some m |}
                | None => inr "stage m must map strings to strings"
                end
            | Some _ => inr "stage m must map strings to strings"
            end in
          match stage with
          | inr e => inr e
          | inl stage => match read_stages rest with inl l => inl (stage :: l) | inr e => inr e end
          end
      | _ => inr "stages entries must have a string n"
      end
  end.

Definition read_ref (r : json) : ParsedPayload :=
  if negb (isObject (Some r)) then PInvalid "$daprRef must be an object"
  else if negb (is_n (prop r "v") 1) then PInvalid "v must be 1"
  else
    match nonEmpty (prop r "store") with
    | None => PInvalid "store must be a non-empty string"
    | Some store =>
    match nonEmpty (prop r "key") with
    | None => PInvalid "key must be a non-empty string"
    | Some key =>
    match size_ok (prop r "size") with
    | None => PInvalid "size must be a non-negative integer"
    | Some size =>
    match sha_ok (prop r "sha256") with
    | None => PInvalid "sha256 must be 64 lowercase hex characters"
    | Some sha256 =>
        let ref stages := {| dr_store := store; dr_key := key; dr_size := size; dr_sha256 := sha256;
                             dr_stages := stages |} in
        match prop r "stages" with
        | None => PRef (ref None)
        | Some (JArr stages) =>
            match read_stages stages with inl l => PRef (ref (Some l)) | inr e => PInvalid e end
        | Some _ => PInvalid "stages must be an array"
        end
    end end end end.

Definition brace : text := u "{".
Definition envelope_key : string := "$daprRef".

Section Parsing.
Context (JSON_parse : text -> option json).

Definition parseDaprRef (t : text) : ParsedPayload :=
  let t := trimStart t in
  if negb (starts_with t brace) then PData
  else
    match JSON_parse t with
    | None => if includes t (u envelope_key) then PInvalid "not valid JSON" else PData
    | Some (JObj [(k, r)]) => if String.eqb k envelope_key then read_ref r else PData
    | Some _ => PData
    end.
End Parsing.

(** ** lib/payloadContent.ts *)

Inductive PayloadContent :=
  | CJson (t : text)
  | CText (t : text)
  | CBinary (size : Z).

Inductive Integrity := Verified | Mismatch | Unverified.
Record LoadedPayload := { content : PayloadContent; integrity : Integrity }.

Definition hex_digit (n : Z) : Z := if n <? 10 then 48 + n else 87 + n.
(** [b.toString(16).padStart(2, '0')], joined. *)
Definition hex_bytes (digest : list Z) : text := concat (map (fun b => [hex_digit (b / 16); hex_digit (b mod 16)]) digest).

Section Payloads.
(** [digest] is missing where SubtleCrypto is; [decode] is the fatal UTF-8 decoder. *)
Context (digest : option (list Z -> list Z)) (decode : list Z -> option text) (JSON_parse : text -> option json).

Definition sha256Hex (d : list Z -> list Z) (bytes : list Z) : text := hex_bytes (d bytes).

Definition analyzePayload (bytes : list Z) (expectedSha256 : text) : LoadedPayload :=
  let integrity :=
    match digest with
    | None => Unverified
    | Some d => if text_eqb (sha256Hex d bytes) (toLowerCase expectedSha256) then Verified else Mismatch
    end in
  match decode bytes with
  | None => {| content := CBinary (Z.of_nat (length bytes)); integrity := integrity |}
  | Some t =>
      match JSON_parse t with
      | Some _ => {| content := CJson t; integrity := integrity |}
      | None => {| content := CText t; integrity := integrity |}
      end
  end.
End Payloads.

(** ** The envelopes *)

Definition json_of_stage (s : DaprRefStage) : json :=
  JObj (("n", JStr s.(dg_n))
        :: match s.(dg_m) with None => [] | Some m => [("m", JObj (map (fun kv => (kv.1, JStr kv.2)) m))] end).
Definition json_of_ref (r : DaprRef) : json := JObj [(envelope_key, JObj (
  [("v", JNum 1); ("store", JStr r.(dr_store)); ("key", JStr r.(dr_key)); ("size", JNum r.(dr_size));
   ("sha256", JStr r.(dr_sha256))]
  ++ match r.(dr_stages) with None => [] | Some l => [("stages", JArr (map json_of_stage l))] end))].

(** A reference the SDK may write. *)
Definition ref_wf (r : DaprRef) : Prop :=
  trim (u r.(dr_store)) <> [] /\ trim (u r.(dr_key)) <> []
  /\ isSafeInteger r.(dr_size) = true /\ (r.(dr_size) <? 0)%float = false /\ is_sha256 r.(dr_sha256) = true.

(** Where a JSON value says what a reference says, whatever else it holds. *)
Definition stage_reads (j : json) (s : DaprRefStage) : Prop :=
  isObject (Some j) = true /\ prop j "n" = Some (JStr s.(dg_n))
  /\ match s.(dg_m) with
     | None => prop j "m" = None
     | Some m => prop j "m" = Some (JObj (map (fun kv => (kv.1, JStr kv.2)) m))
     end.
Definition reads (j : json) (r : DaprRef) : Prop :=
  exists body, j = JObj [(envelope_key, body)]
  /\ isObject (Some body) = true /\ is_n (prop body "v") 1 = true
  /\ prop body "store" = Some (JStr r.(dr_store)) /\ prop body "key" = Some (JStr r.(dr_key))
  /\ prop body "size" = Some (JNum r.(dr_size)) /\ prop body "sha256" = Some (JStr r.(dr_sha256))
  /\ match r.(dr_stages) with
     | None => prop body "stages" = None
     | Some l => exists js, prop body "stages" = Some (JArr js) /\ Forall2 stage_reads js l
     end.

Lemma stage_m_iff fields m :
  stage_m fields = Some m <-> fields = map (fun kv => (kv.1, JStr kv.2)) m.
Proof.
  unfold stage_m. rewrite mapM_Some. split.
  - induction 1 as [|[k v] [k' s] fields m H F IH]; [done|]. cbn in *. rewrite <- IH.
    destruct v; try done. cbn in H. by injection H as -> ->.
  - intros ->. induction m as [|[k v] m IH]; constructor; done.
Qed.

Lemma read_stages_iff js l : read_stages js = inl l <-> Forall2 stage_reads js l.
Proof.
  revert l. induction js as [|j js IH]; intros l; cbn [read_stages].
  - split; [by intros [= <-]|by inversion 1].
  - unfold stage_reads at 1. split.
    + destruct (isObject (Some j)) eqn:O; [|done]. destruct (prop j "n") as [[]|] eqn:N; try done.
      intros H. destruct (prop j "m") as [m|] eqn:M.
      * destruct m as [| | | | |fields]; try done. destruct (stage_m fields) as [m|] eqn:E; [|done].
        apply stage_m_iff in E as ->. destruct (read_stages js) as [l'|] eqn:R; [|done]. injection H as <-.
        constructor; [by split_and!|by apply IH].
      * destruct (read_stages js) as [l'|] eqn:R; [|done]. injection H as <-.
        constructor; [by split_and!|by apply IH].
    + inversion 1 as [|? [n m] ? l' (O & N & M) F]; subst. cbn in *. rewrite O, N.
      apply IH in F. destruct m as [m|]; rewrite M; [|by rewrite F].
      by rewrite (proj2 (stage_m_iff _ m) eq_refl), F.
Qed.

Lemma nonEmpty_iff x s : nonEmpty x = Some s <-> x = Some (JStr s) /\ trim (u s) <> [].
Proof.
  unfold nonEmpty. destruct x as [[| | |s0| |]|]; try naive_solver.
  destruct (trim (u s0)) as [|c t] eqn:E; split; [done|intros [H1 H2]; congruence| |intros [H1 _]; congruence].
  intros [= <-]. split; [done|congruence].
Qed.

Lemma size_iff x n : size_ok x = Some n <->
  x = Some (JNum n) /\ isSafeInteger n = true /\ (n <? 0)%float = false.
Proof.
  unfold size_ok. destruct x as [[| |m| | |]|]; try naive_solver.
  destruct (isSafeInteger m) eqn:S, (m <? 0)%float eqn:L; cbn;
    (split; [intros E; first [discriminate E | injection E as <-; by split_and!]|intros (E & S' & L'); congruence]).
Qed.

Lemma sha_iff x s : sha_ok x = Some s <-> x = Some (JStr s) /\ is_sha256 s = true.
Proof.
  unfold sha_ok. destruct x as [[| | |s0| |]|]; try naive_solver. destruct (is_sha256 s0) eqn:E.
  - split; [intros [= <-]; done|intros [H _]; congruence].
  - split; [done|intros [H ?]; congruence].
Qed.

Lemma read_ref_iff body r :
  read_ref body = PRef r <-> ref_wf r /\ reads (JObj [(envelope_key, body)]) r.
Proof.
  unfold read_ref, ref_wf, reads. split.
  - destruct (isObject (Some body)) eqn:O; [|done]. destruct (is_n _ 1) eqn:V; [|done]. cbn [negb].
    destruct (nonEmpty (prop body "store")) as [store|] eqn:S; [|done]. apply nonEmpty_iff in S as [S1 S2].
    destruct (nonEmpty (prop body "key")) as [key|] eqn:K; [|done]. apply nonEmpty_iff in K as [K1 K2].
    destruct (size_ok _) as [n|] eqn:N; [|done]. apply size_iff in N as (N1 & N2 & N3).
    destruct (sha_ok _) as [sha|] eqn:H; [|done]. apply sha_iff in H as [H1 H2]. cbv zeta.
    destruct (prop body "stages") as [st|] eqn:G.
    + destruct st as [| | | |js|]; try done. destruct (read_stages js) as [l|] eqn:R; [|done].
      intros [= <-]. cbn. split; [done|]. exists body. split_and!; try done. exists js. split; [done|].
      by apply read_stages_iff.
    + intros [= <-]. cbn. split; [done|]. by exists body.
  - destruct r as [store key n sha stages]. cbn. intros ((S2 & K2 & N2 & N3 & H2) & b & [= <-] & O & V & S1 & K1 & N1 & H1 & G).
    rewrite O, V. cbn [negb].
    rewrite (proj2 (nonEmpty_iff _ store)), (proj2 (nonEmpty_iff _ key)), (proj2 (size_iff _ n)),
      (proj2 (sha_iff _ sha)) by done. cbv zeta. destruct stages as [l|]; [|by rewrite G].
    destruct G as (js & -> & F). by rewrite (proj2 (read_stages_iff js l)).
Qed.

Lemma reads_written r : reads (json_of_ref r) r.
Proof.
  unfold reads, json_of_ref. destruct r as [store key n sha stages]. cbn [dr_store dr_key dr_size dr_sha256 dr_stages].
  eexists. split; [reflexivity|]. destruct stages as [l|]; [|by split_and!].
  split_and!; try done. exists (map json_of_stage l). split; [done|].
  induction l as [|[sn [m|]] l IH]; constructor; done.
Qed.

(** Exactly the envelopes are references. [parseDaprRef] returns a
    reference if and only if the text is a JSON object with the one key
    [$daprRef] whose body has version 1, a non-blank store and key, a
    non-negative safe integer size, a 64-digit lowercase hash and, if any, an
    array of well-formed stages, and it returns what that body says; in
    particular every well-formed envelope reads back, and a payload is called
    invalid only when it claims to be an envelope. *)
Theorem parseDaprRef_exact (JSON_parse : text -> option json) (t : text) :
  (forall r, parseDaprRef JSON_parse t = PRef r <->
    starts_with (trimStart t) brace = true
    /\ exists j, JSON_parse (trimStart t) = Some j /\ reads j r /\ ref_wf r)
  /\ (forall r, starts_with (trimStart t) brace = true -> JSON_parse (trimStart t) = Some (json_of_ref r) ->
        ref_wf r -> parseDaprRef JSON_parse t = PRef r)
  /\ (forall reason, parseDaprRef JSON_parse t = PInvalid reason ->
        includes (trimStart t) (u envelope_key) = true
        \/ exists body, JSON_parse (trimStart t) = Some (JObj [(envelope_key, body)])).
Proof.
  assert (Iff : forall r, parseDaprRef JSON_parse t = PRef r <->
    starts_with (trimStart t) brace = true
    /\ exists j, JSON_parse (trimStart t) = Some j /\ reads j r /\ ref_wf r).
  { intros r. unfold parseDaprRef. destruct (starts_with (trimStart t) brace); cbn [negb]; [|naive_solver].
    destruct (JSON_parse (trimStart t)) as [j|]; [|destruct (includes _ _); naive_solver].
    assert (No : (forall body, j <> JObj [(envelope_key, body)]) -> ~ reads j r).
    { intros H (body & -> & _). by apply (H body). }
    destruct j as [| | | | |[|[k body] [|]]];
      try (split; [done|]; intros (_ & j' & [= <-] & Hr & _); exfalso; by apply No in Hr).
    destruct (String.eqb_spec k envelope_key) as [->|Hk].
    - rewrite read_ref_iff. naive_solver.
    - split; [done|]. intros (_ & j' & [= <-] & Hr & _). exfalso. apply No in Hr; [done|]. congruence. }
  split; [exact Iff|]. split.
  - intros r Hs Hj Hw. apply Iff. split; [done|]. exists (json_of_ref r). split_and!; try done. apply reads_written.
  - intros reason. unfold parseDaprRef. destruct (starts_with (trimStart t) brace); cbn [negb]; [|done].
    destruct (JSON_parse (trimStart t)) as [j|].
    + destruct j as [| | | | |[|[k body] [|]]]; try done.
      destruct (String.eqb_spec k envelope_key) as [->|Hk]; [|done]. intros _. right. by exists body.
    + destruct (includes _ _) eqn:E; [|done]. intros _. by left.
Qed.
