(* ===== verification/Clock.v ===== *)
(** * Durations and sizes as text

    [lib/wallclock.ts], [lib/uptime.ts], [lib/formatBytes.ts]. [Date.parse] is
    a parameter (a time value in milliseconds, [None] for [NaN]); quotients of
    integers below 2^53 that the source floors are integer quotients. *)

From S2P Require Import Prelude JsNum Decimal.
#[local] Open Scope Z_scope.

(** ** Definitions *)

Section Clock.
Context (Date_parse : string -> option Z).

(** [endedAt ? Date.parse(endedAt) : (now ?? Date.now())]. *)
Definition end_time (endedAt : option string) (now : option Z) (clock : Z) : option Z :=
  match endedAt with
  | None | Some EmptyString => Some (default clock now)
  | Some t => Date_parse t
  end.

Definition hms (secs : Z) : Z * Z * Z :=
  let h := secs / 3600 in
  let secs := secs - h * 3600 in
  let m := secs / 60 in
  (h, m, secs - m * 60).

(** A [NaN] end makes every part [NaN]. *)
Definition elapsed (createdAt : string) (endedAt : option string) (now : option Z) (clock : Z) : string :=
  match Date_parse createdAt with
  | None => ""
  | Some start =>
      match end_time endedAt now clock with
      | None => "NaN:NaN"
      | Some end_ =>
          let '(h, m, s) := hms (Z.max 0 ((end_ - start) / 1000)) in
          if 0 <? h then (pretty h ++ ":" ++ pad2 m ++ ":" ++ pad2 s)%string else (pad2 m ++ ":" ++ pad2 s)%string
      end
  end.

Definition tenths (ms : Z) : Z * Z * Z * Z :=
  (ms / 1000 / 3600, ms / 1000 mod 3600 / 60, ms / 1000 mod 60, ms mod 1000 / 100).

Definition elapsedTenths (createdAt : string) (endedAt : option string) (now : option Z) (clock : Z) : string :=
  match Date_parse createdAt with
  | None => ""
  | Some start =>
      match end_time endedAt now clock with
      | None => "NaN:NaN.NaN"
      | Some end_ =>
          let '(h, m, s, t) := tenths (Z.max 0 (end_ - start)) in
          if 0 <? h then (pretty h ++ ":" ++ pad2 m ++ ":" ++ pad2 s ++ "." ++ pretty t)%string
          else (pretty m ++ ":" ++ pad2 s ++ "." ++ pretty t)%string
      end
  end.

Definition formatOffset (fromTs toTs : option string) : string :=
  match fromTs, toTs with
  | None, _ | _, None | Some EmptyString, _ | _, Some EmptyString => ""
  | Some f, Some t =>
      match Date_parse f, Date_parse t with
      | Some from, Some to =>
          let totalSecs := (of_Z (Z.max 0 (to - from)) / 1000)%float in
          let secs := default 0 (floor_Z totalSecs) in
          let h := secs / 3600 in
          let m := secs mod 3600 / 60 in
          let s := num_rem totalSecs 60 in
          ("+" ++ (if (0 <? h)%Z then pretty h ++ "h" else "")
             ++ (if (0 <? h)%Z || (0 <? m)%Z then pretty m ++ "m" else "") ++ toFixed 2 s ++ "s")%string
      | _, _ => ""
      end
  end.

Definition uptime_parts (s : Z) : Z * Z * Z * Z :=
  let d := s / 86400 in
  let s := s - d * 86400 in
  let h := s / 3600 in
  let s := s - h * 3600 in
  let m := s / 60 in
  (d, h, m, s - m * 60).

Definition formatUptime (startedAt : string) (nowMs : Z) : option string :=
  match Date_parse startedAt with
  | None => None
  | Some t =>
      let '(d, h, m, s) := uptime_parts (Z.max 0 ((nowMs - t) / 1000)) in
      let ss := pad2 s in
      Some (if 0 <? d then (pretty d ++ "d " ++ pretty h ++ "h " ++ pretty m ++ "m")%string
            else if 0 <? h then (pretty h ++ "h " ++ pretty m ++ "m " ++ ss ++ "s")%string
            else if 0 <? m then (pretty m ++ "m " ++ ss ++ "s")%string
            else (pretty s ++ "s")%string)
  end.
End Clock.

Definition formatDuration (ms : num) : string :=
  if negb (is_finite ms) || (ms <? 0)%float then ""
  else if (ms <? 1000)%float then (pretty (default 0 (round_Z ms)) ++ "ms")%string
  else
    let totalSecs := (ms / 1000)%float in
    if (totalSecs <? 60)%float then
      if (totalSecs <? 10)%float then (toFixed 1 totalSecs ++ "s")%string
      else (pretty (default 0 (round_Z totalSecs)) ++ "s")%string
    else
      let m := default 0 (floor_Z (totalSecs / 60)%float) in
      let s := default 0 (round_Z (num_rem totalSecs 60)) in
      (pretty m ++ "m " ++ pad2 s ++ "s")%string.

Definition UNITS : list string := ["KiB"; "MiB"; "GiB"; "TiB"].

(** The loop, on the number and the unit it has reached; [Number(v.toFixed(1))]
    is compared by its tenths. *)
Fixpoint scale_unit (fuel : nat) (v : num) (i : nat) : num * nat :=
  match fuel with
  | O => (v, i)
  | S fuel =>
      if (10240 <=? fixed_Z 1 v) && (i <? length UNITS - 1)%nat then scale_unit fuel (v / 1024)%float (S i)
      else (v, i)
  end.

Definition formatBytes (n : Z) : string :=
  if n <? 1024 then (pretty n ++ " B")%string
  else
    let (v, i) := scale_unit (length UNITS) (of_Z n / 1024)%float 0 in
    (toFixed 1 v ++ " " ++ default "" (UNITS !! i))%string.

(** ** Clock times *)

Lemma hms_spec secs : 0 <= secs ->
  let '(h, m, s) := hms secs in h * 3600 + m * 60 + s = secs /\ 0 <= h /\ 0 <= m < 60 /\ 0 <= s < 60.
Proof. intros H. unfold hms. cbv zeta. Z.to_euclidean_division_equations; lia. Qed.

Lemma uptime_parts_spec secs : 0 <= secs ->
  let '(d, h, m, s) := uptime_parts secs in
  d * 86400 + h * 3600 + m * 60 + s = secs /\ 0 <= d /\ 0 <= h < 24 /\ 0 <= m < 60 /\ 0 <= s < 60.
Proof. intros H. unfold uptime_parts. cbv zeta. Z.to_euclidean_division_equations; lia. Qed.

Lemma tenths_spec ms : 0 <= ms ->
  let '(h, m, s, t) := tenths ms in
  h * 36000 + m * 600 + s * 10 + t = ms / 100 /\ 0 <= h /\ 0 <= m < 60 /\ 0 <= s < 60 /\ 0 <= t < 10.
Proof. intros H. unfold tenths. Z.to_euclidean_division_equations; lia. Qed.

(** Every clock the pages show is a valid reading of the elapsed time:
    whatever the two times (an end before the start counts as zero), the hours,
    minutes and seconds of [elapsed], with their tenths in [elapsedTenths] and
    the days of [formatUptime], add up to the time and stay in their ranges. *)
Theorem clock_fields (start end_ : Z) :
  let secs := Z.max 0 ((end_ - start) / 1000) in
  let ms := Z.max 0 (end_ - start) in
  (let '(h, m, s) := hms secs in
   h * 3600 + m * 60 + s = secs /\ 0 <= h /\ 0 <= m < 60 /\ 0 <= s < 60)
  /\ (let '(h, m, s, t) := tenths ms in
      h * 36000 + m * 600 + s * 10 + t = ms / 100 /\ 0 <= h /\ 0 <= m < 60 /\ 0 <= s < 60 /\ 0 <= t < 10)
  /\ (let '(d, h, m, s) := uptime_parts secs in
      d * 86400 + h * 3600 + m * 60 + s = secs /\ 0 <= d /\ 0 <= h < 24 /\ 0 <= m < 60 /\ 0 <= s < 60).
Proof.
  cbv zeta. split_and!; [apply (hms_spec (Z.max _ _))|apply (tenths_spec (Z.max _ _))|apply (uptime_parts_spec (Z.max _ _))];
    lia.
Qed.

(** ** Sizes *)

Lemma scale_unit_spec fuel : forall v i w j,
  (i <= 3)%nat -> (3 < fuel + i)%nat -> scale_unit fuel v i = (w, j) ->
  (i <= j <= 3)%nat /\ (fixed_Z 1 w < 10240 \/ j = 3%nat).
Proof.
  induction fuel as [|fuel IH]; intros v i w j Hi Hf; [lia|]. cbn [scale_unit].
  change (length UNITS - 1)%nat with 3%nat.
  destruct (Z.leb_spec 10240 (fixed_Z 1 v)) as [Hv|Hv]; cbn [andb]; [|intros [= <- <-]; lia].
  destruct (Nat.ltb_spec i 3); [|intros [= <- <-]; lia].
  intros H1. apply IH in H1; [lia|lia|lia].
Qed.

(** [formatBytes] ends in a unit it has, and never shows 1024.0 or more of
    a unit while a larger one is left: from 1024 bytes on it prints a number
    that rounds to less than 1024.0 followed by KiB, MiB, GiB or TiB, or any
    number of TiB. *)
Theorem formatBytes_unit (n : Z) :
  1024 <= n ->
  exists v i unit,
    formatBytes n = (toFixed 1 v ++ " " ++ unit)%string
    /\ UNITS !! i = Some unit /\ (fixed_Z 1 v < 10240 \/ unit = "TiB"%string).
Proof.
  intros Hn. unfold formatBytes. rewrite (proj2 (Z.ltb_ge n 1024)) by lia.
  destruct (scale_unit _ _ _) as [v i] eqn:E. apply scale_unit_spec in E as [[_ Hi] Hv]; [|cbn; lia|cbn; lia].
  destruct (lookup_lt_is_Some_2 UNITS i ltac:(cbn; lia)) as [unit Hu]. rewrite Hu. cbn [default from_option].
  exists v, i, unit. split_and!; [done|done|]. destruct Hv as [Hv| ->]; [by left|]. right. cbn in Hu. congruence.
Qed.

Lemma formatBytes_unit_witness :
  formatBytes 1048575 = "1.0 MiB"%string
  /\ exists v i unit, formatBytes 1048575 = (toFixed 1 v ++ " " ++ unit)%string
     /\ UNITS !! i = Some unit /\ (fixed_Z 1 v < 10240 \/ unit = "TiB"%string).
Proof. split; [vm_compute; reflexivity|apply (formatBytes_unit 1048575); lia]. Defined.

(** ** Rounding up to sixty *)

(** Half a second short of a minute, the seconds are rounded up on their own:
    the texts show sixty seconds. *)
Theorem sixty_seconds_shown :
  formatDuration 119600%float = "1m 60s"%string /\ formatDuration 59600%float = "60s"%string
  /\ formatOffset (fun t => if String.eqb t "from" then Some 0 else Some 59996) (Some "from"%string) (Some "to"%string)
     = "+60.00s"%string.
Proof. vm_compute. done. Qed.

(** An end that cannot be read is shown as such. *)
Theorem unreadable_end_shown_as_NaN (Date_parse : string -> option Z) (createdAt : string) (c : Ascii.ascii)
    (rest : string) (now : option Z) (clock start : Z) :
  Date_parse createdAt = Some start -> Date_parse (String c rest) = None ->
  elapsed Date_parse createdAt (Some (String c rest)) now clock = "NaN:NaN"%string.
Proof. intros H1 H2. unfold elapsed, end_time. by rewrite H1, H2. Qed.
