(* ===== verification/DetailPage.v ===== *)
(** * The workflow detail page

    The logic of [pages/WorkflowDetail.tsx]: how a history event is shown, which
    rows are highlighted, and the jump to the row the URL's hash names.
    [Date.parse] and the clock are parameters; rendering is left out. *)

From S2P Require Import Prelude JsNum Decimal JsMap JsSort Text ApiTypes Clock History.
From stdpp Require Import pretty.
#[local] Open Scope string_scope.
#[local] Open Scope Z_scope.

(** ** Events *)

Definition TERMINAL_STATUSES : list WorkflowStatus := [Completed; Failed; Terminated].
Definition isTerminal (status : WorkflowStatus) : bool := bool_decide (status ∈ TERMINAL_STATUSES).

Definition nodeClass (eventType : string) : string :=
  if String.eqb eventType "ExecutionStarted" then "n-start"
  else if String.eqb eventType "TaskScheduled" then "n-sched"
  else if String.eqb eventType "TaskCompleted" then "n-done"
  else if ends_with (u eventType) (u "Failed") && negb (starts_with (u eventType) (u "Execution")) then "n-fail"
  else if includes (u eventType) (u "Timer") then "n-timer"
  else if String.eqb eventType "SubOrchestrationCompleted" then "n-done"
  else if String.eqb eventType "ExecutionCompleted" then "n-end"
  else if String.eqb eventType "ExecutionFailed" || String.eqb eventType "ExecutionTerminated" then "n-endfail"
  else "n-start".

Definition eventAnchorId (canonicalIndex : nat) : string := "event-" ++ pretty canonicalIndex.

Definition event_id_tag (event : WorkflowHistoryEvent) : option string :=
  if 0 <=? event.(ev_sequenceId) then Some ("Event ID " ++ pretty event.(ev_sequenceId)) else None.

(** The chip of a paired row: its text, its title, and where it leads. The
    arrows are U+2191 and U+2193. *)
Record Chip := { ch_text : text; ch_title : string; ch_href : option string }.

Definition pair_chip (formatDuration : Z -> string) (pair : PairInfo) : Chip :=
  let id := (35 :: u (pretty pair.(pairId)))%list in
  match pair.(partnerIndex), pair.(role) with
  | None, RStart => {| ch_text := id; ch_title := "Awaiting result"; ch_href := None |}
  | None, REnd => {| ch_text := (id ++ [32; 8593])%list; ch_title := "No matching scheduled event"; ch_href := None |}
  | Some partner, RStart =>
      {| ch_text := (id ++ [32; 8595])%list; ch_title := "Jump to result";
         ch_href := Some ("#" ++ eventAnchorId partner) |}
  | Some partner, REnd =>
      let dur := match pair.(durationMs) with Some ms => formatDuration ms | None => "" end in
      {| ch_text := (id ++ [32; 8593] ++ (if String.eqb dur "" then [] else 32 :: u dur))%list;
         ch_title := "Jump to scheduled"; ch_href := Some ("#" ++ eventAnchorId partner) |}
  end.

(** The label of the last event, its parts set apart by a middle dot. *)
Definition lastEventLabel (event : WorkflowHistoryEvent) : text :=
  (u event.(ev_type)
   ++ (match event.(ev_name) with None | Some "" => [] | Some name => [32; 183; 32] ++ u name end)
   ++ (if 0 <=? event.(ev_sequenceId) then [32; 183; 32] ++ u "Event ID " ++ u (pretty event.(ev_sequenceId)) else []))%list.

Section Page.
Context (Date_parse : string -> option Z).

(** The row's time in the whole run. *)
Definition run_duration (execution : WorkflowExecution) (now : Z) : option string :=
  let s := execution.(we_summary) in
  match s.(wf_createdAt) with
  | None | Some "" => None
  | Some createdAt =>
      match s.(wf_lastUpdatedAt) with
      | Some lastUpdatedAt =>
          if negb (String.eqb lastUpdatedAt "") && isTerminal s.(wf_status)
          then Some (elapsed Date_parse createdAt (Some lastUpdatedAt) None now)
          else Some (elapsed Date_parse createdAt None (Some now) now)
      | None => Some (elapsed Date_parse createdAt None (Some now) now)
      end
  end.

(** The header's clock, at a second's tick. *)
Definition wall_clock (createdAt lastUpdatedAt : option string) (status : WorkflowStatus) (now : Z) : string :=
  match createdAt with
  | None | Some "" => ""
  | Some createdAt =>
      if isTerminal status then elapsedTenths Date_parse createdAt lastUpdatedAt None now
      else elapsedTenths Date_parse createdAt None (Some now) now
  end.

(** The rows shown: each event with its index in the canonical order. An event
    is found again by its identity, so the order shown does not matter. *)
Definition display_rows (history : list WorkflowHistoryEvent) (order : HistoryOrder)
    : list (WorkflowHistoryEvent * nat) :=
  let ascending := imap (fun i e => (e, i)) (sortHistoryForDisplay Date_parse history) in
  match order with Desc => rev ascending | Asc => ascending end.
Definition pair_index (history : list WorkflowHistoryEvent) : JsMap nat PairInfo :=
  buildPairIndex Date_parse (sortHistoryForDisplay Date_parse history).
End Page.

(** ** Selection *)

Record Selection := { sl_pairId : Z; sl_index : nat }.
#[export] Instance Selection_eq_dec : EqDecision Selection.
Proof. solve_decision. Defined.

(** The page's state: what is selected and the hash last acted on. *)
Record Detail := { dt_selection : option Selection; dt_lastHash : string }.

Definition togglePairSelection (pairId : Z) (index : nat) (d : Detail) : Detail :=
  let chosen := {| sl_pairId := pairId; sl_index := index |} in
  {| dt_selection := if bool_decide (d.(dt_selection) = Some chosen) then None else Some chosen;
     dt_lastHash := d.(dt_lastHash) |}.

Definition pair_selected (d : Detail) (row : option PairInfo) : bool :=
  match row, d.(dt_selection) with
  | Some p, Some s => p.(pairId) =? s.(sl_pairId)
  | _, _ => false
  end.
Definition is_active (d : Detail) (index : nat) : bool :=
  match d.(dt_selection) with Some s => (s.(sl_index) =? index)%nat | None => false end.

(** [/^event-(\d+)$/]. *)
Definition anchor_index (id : string) : option nat :=
  let t := u id in
  if starts_with t (u "event-") then
    let rest := drop 6 t in
    match rest with
    | [] => None
    | _ => if forallb is_digit_unit rest then Some (Z.to_nat (digits_value rest)) else None
    end
  else None.

(** [jumpToHash]: run by the effect whenever the pair index changes, and on
    [hashchange]. [exists_row]: the document has an element of that id. *)
Definition jumpToHash (hash : string) (exists_row : string -> bool) (index : JsMap nat PairInfo) (d : Detail) : Detail :=
  if String.eqb hash "" then {| dt_selection := d.(dt_selection); dt_lastHash := "" |}
  else if String.eqb hash d.(dt_lastHash) then d
  else if negb (exists_row hash) then d
  else
    {| dt_selection :=
         match anchor_index hash ≫= (fun i => p ← map_get i index; Some {| sl_pairId := p.(pairId); sl_index := i |}) with
         | Some s => Some s
         | None => d.(dt_selection)
         end;
       dt_lastHash := hash |}.

(** What happens while a page is open: a poll's answer changes the pair index,
    the user clicks a row or an anchor. *)
Inductive DetailEvent :=
  | DPoll (exists_row : string -> bool) (index : JsMap nat PairInfo)
  | DToggle (pairId : Z) (index : nat)
  | DHash (hash : string) (exists_row : string -> bool) (index : JsMap nat PairInfo).

(** The hash of the URL beside the page's state. *)
Definition detail_event (st : string * Detail) (e : DetailEvent) : string * Detail :=
  let '(hash, d) := st in
  match e with
  | DPoll exists_row index => (hash, jumpToHash hash exists_row index d)
  | DToggle pairId index => (hash, togglePairSelection pairId index d)
  | DHash hash' exists_row index => (hash', jumpToHash hash' exists_row index d)
  end.

(** A jump that was made, or is not wanted. *)
Definition settled (st : string * Detail) : Prop := st.1 = "" \/ st.2.(dt_lastHash) = st.1.

Lemma poll_settled exists_row index st : settled st -> settled (detail_event st (DPoll exists_row index))
  /\ dt_selection (detail_event st (DPoll exists_row index)).2 = dt_selection st.2
  /\ (detail_event st (DPoll exists_row index)).1 = st.1.
Proof.
  destruct st as [hash d]. unfold settled. cbn. intros [->|E]; unfold jumpToHash; [cbn; auto|].
  destruct (String.eqb_spec hash "") as [->|]; [cbn; auto|]. rewrite E, String.eqb_refl. auto.
Qed.

Definition is_poll (e : DetailEvent) : bool := match e with DPoll _ _ => true | _ => false end.
Definition is_toggle (e : DetailEvent) : bool := match e with DToggle _ _ => true | _ => false end.

(** Once the page has jumped to the row the hash names, polls of a running
    workflow, however they change the history and until the hash changes, leave
    the selection to the user's clicks alone. *)
Theorem polls_keep_selection (st : string * Detail) (es : list DetailEvent) :
  settled st -> Forall (fun e => is_poll e || is_toggle e = true) es ->
  dt_selection (fold_left detail_event es st).2 = dt_selection (fold_left detail_event (List.filter is_toggle es) st).2.
Proof.
  intros H Hes. assert (G : forall s s', settled s -> dt_selection s.2 = dt_selection s'.2 ->
    dt_selection (fold_left detail_event es s).2 = dt_selection (fold_left detail_event (List.filter is_toggle es) s').2);
    [|by apply G].
  clear H st. induction Hes as [|e es He _ IH]; intros s s' Hs E; [done|].
  destruct e as [ex index|pairId index|]; cbn [is_poll is_toggle orb] in He; [| |done]; cbn [List.filter is_toggle fold_left].
  - destruct (poll_settled ex index s Hs) as (P1 & P2 & _). apply IH; [done|congruence].
  - apply IH; [by destruct s|]. destruct s as [h d], s' as [h' d']. cbn in *. by rewrite E.
Qed.

(** Rows are highlighted by pairing id: where a history uses an id again, after
    its first use has completed, selecting one pair highlights both. *)
Theorem reused_id_highlights_both :
  let event type sequenceId scheduledId := {|
    ev_sequenceId := sequenceId; ev_timestamp := ""; ev_type := type; ev_name := None; ev_instanceId := None;
    ev_scheduledId := scheduledId; ev_input := None; ev_output := None; ev_failureDetails := None |} in
  let history := [event "TaskScheduled" 0 None; event "TaskCompleted" (-1) (Some 0);
                  event "TaskScheduled" 0 None; event "TaskCompleted" (-1) (Some 0)] in
  let index := buildPairIndex (fun _ => None) history in
  let d := togglePairSelection 0 0 {| dt_selection := None; dt_lastHash := "" |} in
  map (fun i => partnerIndex <$> map_get i index) (seq 0 4) = [Some (Some 1%nat); Some (Some 0%nat); Some (Some 3%nat); Some (Some 2%nat)]
  /\ map (fun i => pair_selected d (map_get i index)) (seq 0 4) = [true; true; true; true].
Proof. vm_compute. split; reflexivity. Qed.
