(* ===== verification/PayloadCard.v ===== *)
(** * Payload cards

    [components/PayloadView.tsx] with [hooks/useBinaryFile.ts]: a workflow
    payload is shown as it is, or, when it is a reference into a binary store,
    as a card that loads the file on demand.  What the two queries of a card
    hold at a moment is given; [encode] is [encodeURIComponent]. *)

From S2P Require Import Prelude JsNum Decimal Json Text ApiTypes Apps AppPages DaprRef Clock.
#[local] Open Scope Z_scope.
#[local] Open Scope string_scope.

(** ** The request *)

Record BinaryFileError := { bf_status : Z; bf_message : string; bf_size : option num }.

(** An answer of the server: the bytes, or a status with what a JSON body says. *)
Inductive FileAnswer :=
  | FileBytes (bytes : list Z)
  | FileRefused (status : Z) (error : option string) (size : option num).

Section Card.
Context (encode : string -> string) (number_text : num -> string).
Context (digest : option (list Z -> list Z)) (decode : list Z -> option text) (JSON_parse : text -> option json).

Definition file_url (appKey : string) (ref : DaprRef) : string :=
  "/apps/" ++ encode appKey ++ "/binarystore/" ++ encode ref.(dr_store) ++ "/file?key=" ++ encode ref.(dr_key)
  ++ "&size=" ++ number_text ref.(dr_size).

Definition fetchBinaryFile (ref : DaprRef) (a : FileAnswer) : BinaryFileError + LoadedPayload :=
  match a with
  | FileRefused status error size =>
      inl {| bf_status := status; bf_message := default ("request failed (" ++ pretty status ++ ")") error; bf_size := size |}
  | FileBytes bytes => inr (analyzePayload digest decode JSON_parse bytes (u ref.(dr_sha256)))
  end.

(** ** The card *)

Definition MAX_BYTES : num := 1048576%float.

Definition tooLarge (n : num) : string :=
  "Payload is " ++ formatBytes (default 0%Z (floor_Z n)) ++ " — too large to show here (limit 1 MiB)".

(** The query of the application list. *)
Record AppsQuery := { aq_data : option (list AppSummary); aq_isLoading : bool; aq_isError : bool }.

(** A stopped instance stays listed; only a live one can serve the file. *)
Definition serves (appId : string) (a : AppSummary) : bool :=
  String.eqb a.(ap_appId) appId && negb (bool_decide (a.(ap_sidecarReachable) = Some false))
  && negb (bool_decide (a.(ap_daprdStatus) = Some ProcStopped)).
Definition serving_app (apps : AppsQuery) (appId : string) : option AppSummary :=
  List.find (serves appId) (default [] apps.(aq_data)).
Definition serving_key (apps : AppsQuery) (appId : string) : option string := appKey <$> serving_app apps appId.

Fixpoint join_commas (l : list string) : string :=
  match l with [] => "" | [s] => s | s :: l => s ++ ", " ++ join_commas l end.

(** [blocked]: why the file cannot be loaded, or [None]. *)
Definition blocked (ref : DaprRef) (appId : string) (apps : AppsQuery) : option string :=
  match default [] ref.(dr_stages) with
  | (_ :: _) as stages => Some ("staged payloads (" ++ join_commas (map dg_n stages) ++ ") are not supported")
  | [] =>
      if (MAX_BYTES <? ref.(dr_size))%float then Some (tooLarge ref.(dr_size))
      else match serving_key apps appId with
           | Some EmptyString | None =>
               if apps.(aq_isLoading) then Some ""
               else if apps.(aq_isError) then Some "Couldn't load the app list"
               else Some ("Start " ++ appId ++ " to load this payload")
           | Some _ => None
           end
  end.

(** Whether the query runs: [enabled && appKey !== null]. *)
Definition query_enabled (show : bool) (ref : DaprRef) (appId : string) (apps : AppsQuery) : bool :=
  show && match blocked ref appId apps with None => true | Some _ => false end
  && match serving_key apps appId with Some _ => true | None => false end.

(** The query of the file. *)
Record FileQuery := { fq_data : option LoadedPayload; fq_error : option BinaryFileError; fq_isFetching : bool }.

Inductive CardView :=
  | Loaded (pill : Integrity) (content : PayloadContent)
  | Closed (can_load : bool) (reason : option string) (loading : bool) (error : option string).

Definition card_view (show : bool) (ref : DaprRef) (appId : string) (apps : AppsQuery) (q : FileQuery) : CardView :=
  match (if show then q.(fq_data) else None) with
  | Some p => Loaded p.(integrity) p.(content)
  | None =>
      let reason := blocked ref appId apps in
      let loading := show && q.(fq_isFetching) in
      let err := if show && negb q.(fq_isFetching) then q.(fq_error) else None in
      Closed (match reason with None => negb loading | Some _ => false end)
        (match reason with Some EmptyString => None | r => r end) loading
        ((fun e => if (e.(bf_status) =? 413)%Z then tooLarge (default ref.(dr_size) e.(bf_size)) else e.(bf_message)) <$> err)
  end.

(** [PayloadView]: the payload as data, with a note where it claims to be a
    reference, or the card. *)
Inductive PayloadShown := ShownData (note : option string) | ShownCard (ref : DaprRef).

Definition payload_view (value : text) : PayloadShown :=
  match parseDaprRef JSON_parse value with
  | PData => ShownData None
  | PInvalid reason => ShownData (Some reason)
  | PRef ref => ShownCard ref
  end.

(** ** What is requested and what is shown *)

(** A payload's file is only requested where it can be shown: the button
    was pressed, the payload is an envelope without stages and of at most a
    mebibyte, and the application is listed, reachable and not stopped; the
    request goes to that instance. *)
Theorem requests_are_servable (value : text) (ref : DaprRef) (show : bool) (appId : string) (apps : AppsQuery) :
  payload_view value = ShownCard ref -> query_enabled show ref appId apps = true ->
  show = true /\ default [] ref.(dr_stages) = [] /\ (MAX_BYTES <? ref.(dr_size))%float = false
  /\ parseDaprRef JSON_parse value = PRef ref
  /\ exists a, a ∈ default [] apps.(aq_data) /\ serving_key apps appId = Some (appKey a) /\ a.(ap_appId) = appId
       /\ a.(ap_sidecarReachable) <> Some false /\ a.(ap_daprdStatus) <> Some ProcStopped.
Proof.
  unfold payload_view, query_enabled, blocked, serving_key, serving_app.
  destruct (parseDaprRef JSON_parse value) as [|r|] eqn:Ep; try done. intros [= ->].
  rewrite !andb_true_iff. intros [[Hs Hb] Hk].
  destruct (default [] (dr_stages ref)); [|done]. destruct (MAX_BYTES <? dr_size ref)%float; [done|].
  destruct (List.find _ _) as [a|] eqn:Ea; [|done]. apply find_some in Ea as [Hin Ha]. apply list_elem_of_In in Hin.
  unfold serves in Ha. rewrite !andb_true_iff, !negb_true_iff, !bool_decide_eq_false, String.eqb_eq in Ha.
  destruct Ha as [[H1 H2] H3]. split_and!; try done. exists a. split_and!; try done.
Qed.

(** What is shown of a file is what its bytes are: the verified mark means that
    the bytes have the digest the reference names. *)
Theorem shown_file_is_verified (ref : DaprRef) (bytes : list Z) (appId : string) (apps : AppsQuery) (pill : Integrity)
    (c : PayloadContent) (p : LoadedPayload) :
  fetchBinaryFile ref (FileBytes bytes) = inr p ->
  card_view true ref appId apps {| fq_data := Some p; fq_error := None; fq_isFetching := false |} = Loaded pill c ->
  (pill = Verified <-> exists d, digest = Some d /\ sha256Hex d bytes = toLowerCase (u ref.(dr_sha256)))
  /\ (pill = Unverified <-> digest = None)
  /\ match c with
     | CJson t => decode bytes = Some t /\ is_Some (JSON_parse t)
     | CText t => decode bytes = Some t /\ JSON_parse t = None
     | CBinary n => decode bytes = None /\ n = Z.of_nat (length bytes)
     end.
Proof.
  cbn [fetchBinaryFile card_view fq_data]. intros [= <-] [= <- <-].
  set (i := match digest with
            | None => Unverified
            | Some d => if text_eqb (sha256Hex d bytes) (toLowerCase (u ref.(dr_sha256))) then Verified else Mismatch
            end).
  assert (E : integrity (analyzePayload digest decode JSON_parse bytes (u (dr_sha256 ref))) = i).
  { unfold analyzePayload. destruct (decode bytes) as [t|]; [by destruct (JSON_parse t)|done]. }
  rewrite E. unfold i, text_eqb. split_and!.
  - destruct digest as [d|]; [|split; [done|by intros (d & ? & _)]]. case_bool_decide as H; split; try done.
    + intros _. by exists d.
    + by intros (d' & [= <-] & ?).
  - destruct digest as [d|]; [|done]. by case_bool_decide.
  - unfold analyzePayload. destruct (decode bytes) as [t|]; [|done]. destruct (JSON_parse t) eqn:Ej; by cbn.
Qed.
End Card.

Definition sample_ref : DaprRef := {|
  dr_store := "blobs"; dr_key := "k1"; dr_size := 10%float;
  dr_sha256 := "aaaaaaaaaaaaaaaaaaaaaaaaaaaaaaaaaaaaaaaaaaaaaaaaaaaaaaaaaaaaaaaa"; dr_stages := None |}.
Definition sample_apps : AppsQuery :=
  {| aq_data := Some [sample_app SrcCompose ProcStopped ProcRunning]; aq_isLoading := false; aq_isError := false |}.
(** A [JSON.parse] that reads one envelope. *)
Definition sample_parse (t : text) : option json := if text_eqb t (u "{envelope}") then Some (json_of_ref sample_ref) else None.

Lemma requests_are_servable_witness :
  payload_view sample_parse (u "{envelope}") = ShownCard sample_ref
  /\ exists a, a ∈ default [] sample_apps.(aq_data) /\ serving_key sample_apps "orders" = Some (appKey a)
       /\ a.(ap_daprdStatus) <> Some ProcStopped.
Proof.
  split; [vm_compute; reflexivity|].
  destruct (requests_are_servable sample_parse (u "{envelope}") sample_ref true "orders" sample_apps)
    as (_ & _ & _ & _ & a & H1 & H2 & _ & _ & H3); [vm_compute; reflexivity|vm_compute; reflexivity|].
  exists a. exact (conj H1 (conj H2 H3)).
Defined.
