(* ===== verification/Validation.v ===== *)
(** * Form validation

    [lib/validation.ts]. A result is the message shown, [None] when the value
    is accepted. Regular expressions are matched by hand: an optional group is
    tried first and given up when the rest does not match. *)

From S2P Require Import Prelude Text.
#[local] Open Scope Z_scope.

(** ** Definitions *)

Definition all_digits (t : text) : bool := match t with [] => false | _ => forallb is_digit_unit t end.

(** Digits followed by one of the units: the group, and what is left. *)
Definition take_group (units : list text) (t : text) : option (text * text) :=
  let digits := take_while is_digit_unit t in
  let rest := drop_while is_digit_unit t in
  match digits with
  | [] => None
  | _ =>
      match List.find (starts_with rest) units with
      | Some unit => Some (digits ++ unit, drop (length unit) rest)
      | None => None
      end
  end.

(** [/^(g1)?(g2)?...$/]: the groups that matched, in order. *)
Fixpoint match_groups (groups : list (list text)) (t : text) : option (list (option text)) :=
  match groups with
  | [] => match t with [] => Some [] | _ => None end
  | units :: groups =>
      let skipped := match match_groups groups t with Some l => Some (None :: l) | None => None end in
      match take_group units t with
      | Some (group, rest) =>
          match match_groups groups rest with Some l => Some (Some group :: l) | None => skipped end
      | None => skipped
      end
  end.

Definition micro : text := [181; 115].
Definition DURATION_GROUPS : list (list text) := [[u "h"]; [u "m"]; [u "s"]; [u "ms"]; [u "us"; micro]; [u "ns"]].
Definition UNIT_ORDER : list text := [u "h"; u "m"; u "s"; u "ms"; u "us"; micro; u "ns"].

(** The unit the code reads off the end of a group, as an index of
    [UNIT_ORDER]; -1 when there is none. *)
Fixpoint index_of (i : Z) (units : list text) (f : text -> bool) : Z :=
  match units with [] => -1 | unit :: units => if f unit then i else index_of (i + 1) units f end.
Definition unit_index (group : text) : Z :=
  let unit :=
    if ends_with group (u "ms") then u "ms"
    else if ends_with group (u "us") then u "us"
    else if ends_with group micro then micro
    else if ends_with group (u "ns") then u "ns"
    else default [] (List.find (ends_with group) UNIT_ORDER) in
  index_of 0 UNIT_ORDER (text_eqb unit).

(** The loop over the groups. *)
Fixpoint units_ascend (lastIndex : Z) (groups : list (option text)) : bool :=
  match groups with
  | [] => true
  | None :: groups => units_ascend lastIndex groups
  | Some group :: groups =>
      let idx := unit_index group in
      if idx <=? lastIndex then false else units_ascend idx groups
  end.

Definition validateGoDuration (value : text) : bool :=
  match match_groups DURATION_GROUPS value with
  | None => false
  | Some groups => units_ascend (-1) groups
  end.

Definition is_letter (c : Z) : bool := is_upper c || is_lower c.
Definition is_name_char (c : Z) : bool := is_letter c || is_digit_unit c || (c =? 45).

Definition validateResourceName (value : text) : option string :=
  match value with
  | [] => Some "Name is required"%string
  | first :: _ =>
      if includes value (u " ") then Some "Name cannot contain spaces"%string
      else if existsb (fun c => negb (is_name_char c)) value
      then Some "Only alphanumeric characters and hyphens are allowed"%string
      else if negb (is_letter first) then Some "Name must start with a letter"%string
      else None
  end.

(** [/^\d{1,3}(-\d{1,3})?$/]. *)
Definition short_number (t : text) : bool := all_digits t && (length t <=? 3)%nat.
Definition status_segment (t : text) : bool :=
  match split_on 45 t with
  | [a] => short_number a
  | [a; b] => short_number a && short_number b
  | _ => false
  end.

Definition validateStatusCodes (value : text) : option string :=
  match trim value with
  | [] => None
  | _ =>
      if forallb status_segment (map trim (split_on 44 value)) then None
      else Some "Use comma-separated codes or ranges, e.g. 200,404,500-503"%string
  end.

Definition requiredError (value : text) : option string :=
  match trim value with [] => Some "This field is required"%string | _ => None end.

Definition integerError (value : text) : option string :=
  match trim value with
  | [] => None
  | c :: t => if all_digits (c :: t) || ((c =? 45) && all_digits t) then None else Some "Must be an integer"%string
  end.

(** ** Go durations *)

(** The reference: digits before each unit, and the units strictly in order,
    the two spellings of microseconds being one. *)
Definition UNIT_RANKS : list (Z * list text) := imap (fun i units => (Z.of_nat i, units)) DURATION_GROUPS.
Inductive duration_from : nat -> text -> Prop :=
  | duration_end n : duration_from n []
  | duration_part n i units unit digits rest :
      (n <= i)%nat -> DURATION_GROUPS !! i = Some units -> unit ∈ units ->
      all_digits digits = true -> duration_from (S i) rest ->
      duration_from n (digits ++ unit ++ rest).

Lemma take_drop_while f t : take_while f t ++ drop_while f t = t.
Proof. induction t as [|c t IH]; [done|]. cbn. destruct (f c); cbn; [by rewrite IH|done]. Qed.

Lemma take_while_all f t : forallb f (take_while f t) = true.
Proof. induction t as [|c t IH]; [done|]. cbn. destruct (f c) eqn:E; cbn; [by rewrite E|done]. Qed.

Lemma take_drop_app f t rest :
  forallb f t = true -> match rest with c :: _ => f c = false | [] => True end ->
  take_while f (t ++ rest) = t /\ drop_while f (t ++ rest) = rest.
Proof.
  intros H Hr. induction t as [|c t IH]; cbn in *.
  - destruct rest as [|c rest]; [done|]. cbn. by rewrite Hr.
  - apply andb_true_iff in H as [-> H]. destruct (IH H) as [-> ->]. done.
Qed.

(** No unit of the groups is a digit, and none of a group's units starts another
    unit of it. *)
Lemma group_units_checked :
  Forall (fun units => Forall (fun unit => match unit with c :: _ => is_digit_unit c = false | [] => False end
                                 /\ forall rest, List.find (starts_with (unit ++ rest)) units = Some unit) units)
    DURATION_GROUPS.
Proof. repeat constructor; intros rest; try reflexivity. Qed.

Lemma take_group_spec units t group rest :
  take_group units t = Some (group, rest) ->
  exists digits unit, unit ∈ units /\ all_digits digits = true /\ group = digits ++ unit /\ t = digits ++ unit ++ rest.
Proof.
  unfold take_group. pose proof (take_drop_while is_digit_unit t) as Ht.
  pose proof (take_while_all is_digit_unit t) as Ha.
  destruct (take_while is_digit_unit t) as [|c d] eqn:D; [done|].
  destruct (List.find _ units) as [unit|] eqn:F; [|done]. intros E. injection E as <- <-.
  apply find_some in F as [Hin Hs]. apply starts_with_true in Hs as [r Hr].
  exists (c :: d), unit. split_and!; [by apply list_elem_of_In|exact Ha|done|].
  rewrite Hr, drop_app_length. rewrite <- Ht, Hr. done.
Qed.

Lemma take_group_part units unit digits rest i :
  DURATION_GROUPS !! i = Some units -> unit ∈ units -> all_digits digits = true ->
  take_group units (digits ++ unit ++ rest) = Some (digits ++ unit, rest).
Proof.
  intros Hi Hu Hd. pose proof group_units_checked as G. rewrite Forall_lookup in G. specialize (G i units Hi).
  rewrite Forall_forall in G. destruct (G unit Hu) as [Hc Hf]. unfold take_group.
  assert (Hd' : forallb is_digit_unit digits = true /\ digits <> []) by (by destruct digits).
  destruct (take_drop_app is_digit_unit digits (unit ++ rest)) as [-> ->]; [apply Hd'|by destruct unit|].
  destruct digits as [|d digits]; [done|]. by rewrite Hf, drop_app_length.
Qed.

Lemma duration_from_weaken n m t : (n <= m)%nat -> duration_from m t -> duration_from n t.
Proof. intros Hle H. destruct H as [|m i units unit digits rest Hi]; [constructor|]. econstructor; [|done..]. lia. Qed.

Lemma match_groups_empty groups : is_Some (match_groups groups []).
Proof. induction groups as [|g groups [l IH]]; [by eexists|]. cbn. rewrite IH. by eexists. Qed.

Lemma drop_groups n units : DURATION_GROUPS !! n = Some units -> drop n DURATION_GROUPS = units :: drop (S n) DURATION_GROUPS.
Proof. intros H. by apply drop_S. Qed.

Lemma match_groups_spec k : forall n t, (n + k = 6)%nat ->
  is_Some (match_groups (drop n DURATION_GROUPS) t) <-> duration_from n t.
Proof.
  induction k as [|k IH]; intros n t Hn.
  - rewrite drop_ge by (cbn; lia). cbn [match_groups]. split.
    + destruct t; [constructor|by intros []].
    + intros H. inversion H as [|? i units ? ? ? Hi Hl]; subst; [by eexists|].
      apply lookup_lt_Some in Hl. cbn in Hl. lia.
  - destruct (lookup_lt_is_Some_2 DURATION_GROUPS n ltac:(cbn; lia)) as [units Hu].
    rewrite (drop_groups n units Hu). cbn [match_groups].
    assert (Skip : duration_from (S n) t -> is_Some (match_groups (drop (S n) DURATION_GROUPS) t))
      by (intros; apply IH; [lia|done]).
    split.
    + destruct (take_group units t) as [[group rest]|] eqn:E.
      * destruct (match_groups _ rest) as [l|] eqn:R.
        { intros _. apply take_group_spec in E as (digits & unit & Hin & Hd & _ & ->).
          econstructor; [|done..|]; [lia|]. apply IH; [lia|]. by eexists. }
        { destruct (match_groups _ t) as [l|] eqn:Sk; [|by intros []]. intros _.
          apply (duration_from_weaken n (S n)); [lia|]. apply IH; [lia|]. by eexists. }
      * destruct (match_groups _ t) as [l|] eqn:Sk; [|by intros []]. intros _.
        apply (duration_from_weaken n (S n)); [lia|]. apply IH; [lia|]. by eexists.
    + intros H.
      assert (C : duration_from (S n) t \/ exists group rest,
                  take_group units t = Some (group, rest) /\ duration_from (S n) rest).
      { inversion H as [|? i units' unit digits rest Hi Hl Hin Hd Hr]; subst; [left; constructor|].
        destruct (decide (i = n)) as [->|Hne].
        - right. exists (digits ++ unit), rest. split; [|done]. eapply take_group_part; [exact Hu| |done]. congruence.
        - left. econstructor; [|done..]. lia. }
      destruct C as [C|(group & rest & E & C)].
      * destruct (Skip C) as [l ->]. destruct (take_group units t) as [[group rest]|]; [|by eexists].
        destruct (match_groups _ rest); by eexists.
      * rewrite E. apply IH in C as [l ->]; [by eexists|lia].
Qed.

(** The indices the units of a group have. *)
Definition lowest_index (i : nat) : Z := if (i <? 5)%nat then Z.of_nat i else Z.of_nat i + 1.

Lemma unit_index_range i units unit digits :
  DURATION_GROUPS !! i = Some units -> unit ∈ units -> all_digits digits = true ->
  lowest_index i <= unit_index (digits ++ unit) < lowest_index (S i).
Proof.
  intros Hi Hu Hd.
  assert (R : exists c r, rev digits = c :: r /\ is_digit_unit c = true).
  { destruct (rev digits) as [|c r] eqn:E.
    - apply (f_equal (@rev Z)) in E. rewrite rev_involutive in E. by subst.
    - exists c, r. split; [done|]. destruct digits as [|d digits]; [done|]. cbn [all_digits] in Hd.
      rewrite forallb_forall in Hd. apply Hd. apply in_rev. rewrite E. by left. }
  destruct R as (c & r & R & Hc).
  assert (Ends : forall t suffix, ends_with (digits ++ t) suffix = starts_with (rev t ++ c :: r) (rev suffix)).
  { intros t suffix. unfold ends_with. by rewrite rev_app_distr, R. }
  unfold is_digit_unit in Hc. apply andb_true_iff in Hc as [H1%Z.leb_le H2%Z.leb_le].
  assert (N : c = 48 \/ c = 49 \/ c = 50 \/ c = 51 \/ c = 52 \/ c = 53 \/ c = 54 \/ c = 55 \/ c = 56 \/ c = 57)
    by lia.
  unfold unit_index. rewrite !Ends.
  assert (L : List.find (ends_with (digits ++ unit)) UNIT_ORDER
              = List.find (fun s => starts_with (rev unit ++ c :: r) (rev s)) UNIT_ORDER).
  { induction UNIT_ORDER as [|s l IH]; [done|]. cbn [List.find]. by rewrite Ends, IH. }
  rewrite L.
  do 6 (destruct i as [|i]; [cbn in Hi; injection Hi as <-;
    repeat (apply elem_of_cons in Hu as [->|Hu]); try (by apply elem_of_nil in Hu);
    repeat (destruct N as [->|N]); try subst c; vm_compute; (split; [discriminate|reflexivity])|]).
  apply lookup_lt_Some in Hi. cbn in Hi. lia.
Qed.

Lemma units_ascend_matched k : forall n t groups last, (n + k = 6)%nat ->
  match_groups (drop n DURATION_GROUPS) t = Some groups -> last < lowest_index n ->
  units_ascend last groups = true.
Proof.
  induction k as [|k IH]; intros n t groups last Hn.
  - rewrite drop_ge by (cbn; lia). cbn [match_groups]. destruct t; [|done]. by intros [= <-].
  - destruct (lookup_lt_is_Some_2 DURATION_GROUPS n ltac:(cbn; lia)) as [units Hu].
    rewrite (drop_groups n units Hu). cbn [match_groups]. intros H Hlast.
    assert (Hmono : lowest_index n < lowest_index (S n))
      by (unfold lowest_index; destruct (Nat.ltb_spec n 5), (Nat.ltb_spec (S n) 5); lia).
    assert (Skip : forall l, match_groups (drop (S n) DURATION_GROUPS) t = Some l ->
      units_ascend last (None :: l) = true) by (intros l Hl; cbn; eapply (IH (S n)); [lia|done|lia]).
    assert (Skipped : match match_groups (drop (S n) DURATION_GROUPS) t with
                      | Some l => Some (None :: l) | None => None end = Some groups -> units_ascend last groups = true).
    { destruct (match_groups _ t) as [l|] eqn:Sk; [|done]. intros [= <-]. by apply Skip. }
    destruct (take_group units t) as [[group rest]|] eqn:E; [|by apply Skipped].
    destruct (match_groups _ rest) as [l|] eqn:R; [|by apply Skipped].
    injection H as <-. apply take_group_spec in E as (digits & unit & Hin & Hd & -> & _).
    pose proof (unit_index_range n units unit digits Hu Hin Hd) as Hr. cbn [units_ascend].
    destruct (Z.leb_spec (unit_index (digits ++ unit)) last); [lia|].
    eapply (IH (S n)); [lia|done|lia].
Qed.

(** [validateGoDuration] accepts exactly the Go durations it names: a
    sequence of parts "digits, unit" whose units come strictly in the order h,
    m, s, ms, us (or the micro sign), ns; the order check after the regular
    expression never rejects what the expression matched. *)
Theorem validateGoDuration_exact (value : text) :
  (validateGoDuration value = true <-> duration_from 0 value)
  /\ (forall groups, match_groups DURATION_GROUPS value = Some groups -> units_ascend (-1) groups = true).
Proof.
  assert (A : forall groups, match_groups DURATION_GROUPS value = Some groups -> units_ascend (-1) groups = true).
  { intros groups H. apply (units_ascend_matched 6 0 value); [done|done|]. vm_compute. reflexivity. }
  split; [|exact A]. rewrite <- (match_groups_spec 6 0) by done. unfold validateGoDuration.
  change (drop 0 DURATION_GROUPS) with DURATION_GROUPS.
  destruct (match_groups DURATION_GROUPS value) as [groups|]; [|by split; [|intros []]].
  split; [by eexists|]. intros _. by apply A.
Qed.

(** [validateResourceName] accepts exactly the non-empty names of letters,
    digits and hyphens that start with a letter. *)
Theorem validateResourceName_exact (value : text) :
  validateResourceName value = None <->
  exists first rest, value = first :: rest /\ is_letter first = true
                     /\ Forall (fun c => is_letter c = true \/ is_digit_unit c = true \/ c = 45) rest.
Proof.
  unfold validateResourceName. destruct value as [|first rest]; [split; [done|intros (? & ? & ? & _); done]|].
  assert (Sp : existsb (fun c => negb (is_name_char c)) (first :: rest) = false ->
               includes (first :: rest) (u " ") = false).
  { generalize (first :: rest). intros t. induction t as [|c t IH]; [done|]. cbn [existsb].
    intros [Hc Ht]%orb_false_iff. cbn [includes]. rewrite IH, orb_false_r by done.
    cbn. rewrite andb_true_r. apply Z.eqb_neq. intros ->. by vm_compute in Hc. }
  assert (N : existsb (fun c => negb (is_name_char c)) (first :: rest) = false <->
              Forall (fun c => is_letter c = true \/ is_digit_unit c = true \/ c = 45) (first :: rest)).
  { generalize (first :: rest). intros t. induction t as [|c t IH]; [by split|]. cbn [existsb].
    rewrite orb_false_iff, IH, Forall_cons, negb_false_iff. unfold is_name_char.
    rewrite !orb_true_iff, Z.eqb_eq. tauto. }
  destruct (existsb _ _) eqn:E.
  - split; [by destruct (includes _ _)|]. intros (f & r & [= <- <-] & Hf & Hr).
    enough (true = false) by done. apply N. constructor; [by left|done].
  - rewrite (Sp eq_refl). apply proj1 in N. specialize (N eq_refl). apply Forall_cons in N as [_ N].
    destruct (is_letter first) eqn:L; cbn [negb].
    + split; [|done]. intros _. by exists first, rest.
    + split; [done|]. intros (f & r & [= <- <-] & Hf & _). congruence.
Qed.
