(* ===== verification/Cli.v ===== *)
(** * CLI commands

    [lib/cli.ts]: the placeholders of the commands in the drawer; and
    [components/CliDrawer.tsx]: which tool it shows and what it remembers.  The
    YAML contents are data. *)

From S2P Require Import Prelude Text Validation Persistence.
From S2P Require Import JsNum Json Prefs.
#[local] Open Scope Z_scope.

(** ** lib/cli.ts *)

Record CliCommandDef := { cc_title : string; cc_command : text; cc_docs : option string }.
Record CliTool := { ct_label : string; ct_commands : list CliCommandDef }.
Record CliContent := { cn_context : string; cn_tools : list (string * CliTool) }.

Definition getCliContent (contentByContext : list (string * CliContent)) (context : option string) : option CliContent :=
  match context with
  | None | Some EmptyString => None
  | Some c => snd <$> List.find (fun kv => String.eqb kv.1 c) contentByContext
  end.

(** A capital becomes a hyphen and itself, then all is lowered. *)
Definition tokenToLiteral (token : text) : text :=
  u "<" ++ toLowerCase (flat_map (fun c => if is_upper c then [45; c] else [c]) token) ++ u ">".

(** A placeholder at the start: two braces, word characters, two braces. *)
Definition match_placeholder (t : text) : option (text * text) :=
  if starts_with t (u "{{") then
    let token := take_while is_word (drop 2 t) in
    let rest := drop_while is_word (drop 2 t) in
    match token with
    | [] => None
    | _ => if starts_with rest (u "}}") then Some (token, drop 2 rest) else None
    end
  else None.

Section Resolve.
Context (values : text -> option text).

Definition token_value (token : text) : text :=
  match values token with Some [] | None => tokenToLiteral token | Some value => value end.

(** [replace] with a global expression: left to right, from where the last
    match ended.  Every round consumes a unit, so the length is enough fuel. *)
Fixpoint replace_placeholders (fuel : nat) (t : text) : text :=
  match fuel with
  | O => t
  | S fuel =>
      match match_placeholder t with
      | Some (token, rest) => token_value token ++ replace_placeholders fuel rest
      | None => match t with [] => [] | c :: t => c :: replace_placeholders fuel t end
      end
  end.
Definition resolvePlaceholders (command : text) : text := replace_placeholders (length command) command.

(** ** Commands as templates *)

Inductive segment := Literal (t : text) | Placeholder (token : text).

(** A literal has no opening brace; a placeholder is a word. *)
Definition segment_ok (s : segment) : Prop :=
  match s with
  | Literal t => Forall (fun c => c <> 123) t
  | Placeholder token => token <> [] /\ forallb is_word token = true
  end.
Definition written_segment (s : segment) : text :=
  match s with Literal t => t | Placeholder token => u "{{" ++ token ++ u "}}" end.
Definition resolved_segment (s : segment) : text :=
  match s with Literal t => t | Placeholder token => token_value token end.

Lemma word_split token rest :
  forallb is_word token = true ->
  take_while is_word (token ++ u "}}" ++ rest) = token /\ drop_while is_word (token ++ u "}}" ++ rest) = u "}}" ++ rest.
Proof.
  change (u "}}" ++ rest) with (125 :: 125 :: rest).
  induction token as [|c token IH]; [done|]. cbn [forallb]. intros [Hc H]%andb_true_iff.
  cbn [app take_while drop_while]. rewrite Hc. destruct (IH H) as [-> ->]. done.
Qed.

Lemma placeholder_matches token rest :
  segment_ok (Placeholder token) -> match_placeholder (u "{{" ++ token ++ u "}}" ++ rest) = Some (token, rest).
Proof.
  intros [Hne Hw]. unfold match_placeholder. rewrite starts_with_app.
  change (drop 2 (u "{{" ++ token ++ u "}}" ++ rest)) with (token ++ u "}}" ++ rest).
  destruct (word_split token rest Hw) as [-> ->]. rewrite starts_with_app. by destruct token.
Qed.

Lemma literal_kept t rest : forall fuel,
  Forall (fun c => c <> 123) t -> (length (t ++ rest) <= fuel)%nat ->
  exists fuel', (length rest <= fuel')%nat /\ replace_placeholders fuel (t ++ rest) = t ++ replace_placeholders fuel' rest.
Proof.
  induction t as [|c t IH]; intros fuel Ht Hf; [by exists fuel|]. apply Forall_cons in Ht as [Hc Ht].
  destruct fuel as [|fuel]; cbn in Hf; [lia|]. cbn [app replace_placeholders].
  replace (match_placeholder (c :: t ++ rest)) with (@None (text * text)).
  - destruct (IH fuel Ht) as (fuel' & H1 & H2); [lia|]. exists fuel'. split; [done|]. by rewrite H2.
  - unfold match_placeholder.
    change (u "{{") with [123; 123]. cbn. by rewrite (proj2 (Z.eqb_neq c 123)).
Qed.

(** A command is resolved segment by segment: every placeholder is replaced by
    its value, or by its name in angle brackets when it has none; everything
    else stays, angle brackets of the command included. *)
Theorem commands_resolve (segments : list segment) :
  Forall segment_ok segments ->
  resolvePlaceholders (flat_map written_segment segments) = flat_map resolved_segment segments.
Proof.
  unfold resolvePlaceholders.
  assert (G : forall fuel, Forall segment_ok segments -> (length (flat_map written_segment segments) <= fuel)%nat ->
    replace_placeholders fuel (flat_map written_segment segments) = flat_map resolved_segment segments); [|intros H; by apply G].
  induction segments as [|[t|token] segments IH]; intros fuel Hs Hf.
  - by destruct fuel.
  - apply Forall_cons in Hs as [Ht Hs]. cbn [flat_map written_segment resolved_segment] in *.
    destruct (literal_kept t (flat_map written_segment segments) fuel Ht Hf) as (fuel' & H1 & ->).
    by rewrite IH.
  - apply Forall_cons in Hs as [Ht Hs]. cbn [flat_map written_segment resolved_segment] in *.
    rewrite <- !app_assoc in *. destruct fuel as [|fuel]; [rewrite length_app in Hf; cbn in Hf; lia|].
    cbn [replace_placeholders]. rewrite (placeholder_matches token _ Ht). rewrite IH; [done|done|].
    rewrite !length_app in Hf. cbn in Hf. lia.
Qed.
End Resolve.

Lemma commands_resolve_witness :
  resolvePlaceholders (fun t => if text_eqb t (u "appId") then Some (u "orders") else None)
    (u "dapr run --app-id {{appId}} --id {{instanceId}} -- <command>")
  = u "dapr run --app-id orders --id <instance-id> -- <command>"
  /\ Forall segment_ok [Literal (u "dapr run --app-id "); Placeholder (u "appId"); Literal (u " --id ");
                        Placeholder (u "instanceId"); Literal (u " -- <command>")].
Proof.
  assert (H : Forall segment_ok [Literal (u "dapr run --app-id "); Placeholder (u "appId"); Literal (u " --id ");
                                 Placeholder (u "instanceId"); Literal (u " -- <command>")]).
  { repeat constructor; discriminate. }
  exact (conj (commands_resolve (fun t => if text_eqb t (u "appId") then Some (u "orders") else None) _ H) H).
Defined.

(** ** components/CliDrawer.tsx *)

Definition OPEN_KEY : string := "devdash.cliDrawerOpen".

Section Drawer.
Context {St : Type} `{Storage St}.

Definition drawer_initial (s : St) : bool := bool_decide (safeGet OPEN_KEY s = Some "true"%string).
Definition drawer_toggle (open : bool) (s : St) : bool * St :=
  (negb open, safeSet OPEN_KEY (if negb open then "true" else "false")%string s).
(** The first tool of a context's content. *)
Definition drawer_tool (content : option CliContent) : option CliTool :=
  match content with Some c => snd <$> head c.(cn_tools) | None => None end.
End Drawer.
