(* ===== verification/YamlEmit.v ===== *)
(** * What is emitted

    [lib/yaml-emit.ts]: pruning empty values before a document is dumped.
    js-yaml's [dump] is a library and stays outside. *)

From S2P Require Import Prelude JsNum Json Text.

(** ** Definitions *)

Definition isEmptyContainer (v : json) : bool :=
  match v with JArr [] | JObj [] => true | _ => false end.

(** What is deleted on sight: [null], blank texts, empty containers. *)
Definition is_blank (v : json) : bool :=
  match v with
  | JNull => true
  | JStr s => match trim (u s) with [] => true | _ => false end
  | JArr _ | JObj _ => isEmptyContainer v
  | _ => false
  end.

Fixpoint recursivelyRemoveEmptyValues (input : json) : json :=
  match input with
  | JObj fields =>
      JObj ((fix go fields :=
        match fields with
        | [] => []
        | (key, v) :: fields =>
            if is_blank v then go fields
            else
              match v with
              | JObj _ =>
                  let v := recursivelyRemoveEmptyValues v in
                  if isEmptyContainer v then go fields else (key, v) :: go fields
              | _ => (key, v) :: go fields
              end
        end) fields)
  | _ => input
  end.

(** ** Facts *)

(** Induction over the objects of a value. *)
Section ByObjects.
Context (P : json -> Prop).
Context (leaf : forall v, (forall fields, v <> JObj fields) -> P v).
Context (object : forall fields, Forall (fun kv => P kv.2) fields -> P (JObj fields)).
Fixpoint by_objects (v : json) : P v.
Proof.
  destruct v as [|b|n|s|l|fields]; try (apply leaf; discriminate).
  apply object. induction fields as [|[k v] fields IH]; constructor; [apply by_objects|exact IH].
Defined.
End ByObjects.

(** The loop over the fields, by itself. *)
Definition keep (kv : string * json) : option (string * json) :=
  if is_blank kv.2 then None
  else
    let v := recursivelyRemoveEmptyValues kv.2 in
    match kv.2 with JObj _ => if isEmptyContainer v then None else Some (kv.1, v) | _ => Some kv end.

Lemma remove_object fields : recursivelyRemoveEmptyValues (JObj fields) = JObj (omap keep fields).
Proof.
  cbn [recursivelyRemoveEmptyValues]. f_equal. induction fields as [|[k v] fields IH]; [done|].
  cbn [omap list_omap]. unfold keep at 1. cbn [fst snd]. destruct (is_blank v); [done|].
  destruct v; try (by rewrite IH). destruct (isEmptyContainer _); by rewrite IH.
Qed.

(** A document without blanks: below objects nothing is blank. *)
#[warnings="-register-all"]
Inductive clean : json -> Prop :=
  | clean_leaf v : (forall fields, v <> JObj fields) -> clean v
  | clean_object fields :
      Forall (fun kv => is_blank kv.2 = false) fields -> Forall (fun kv => clean kv.2) fields -> clean (JObj fields).

Lemma remove_clean v : clean (recursivelyRemoveEmptyValues v).
Proof.
  induction v as [v Hv|fields IH] using by_objects.
  - replace (recursivelyRemoveEmptyValues v) with v; [by constructor|]. destruct v; try done. exfalso. by apply (Hv fields).
  - rewrite remove_object.
    assert (K : Forall (fun kv => is_blank kv.2 = false /\ clean kv.2) (omap keep fields)).
    { induction IH as [|[k v] fields Hv _ IH]; [constructor|]. cbn [omap list_omap].
      unfold keep at 1. cbn [fst snd] in *. destruct (is_blank v) eqn:B; [done|].
      destruct v; try (constructor; [by split|done]).
      destruct (isEmptyContainer _) eqn:E; [done|]. constructor; [|done]. cbn [snd]. split; [|done].
      rewrite remove_object in *. exact E. }
    apply Forall_and in K as [K1 K2]. by constructor.
Qed.

Lemma remove_of_clean v : clean v -> recursivelyRemoveEmptyValues v = v.
Proof.
  induction v as [v Hv|fields IH] using by_objects; intros C.
  - destruct v; try done. exfalso. by apply (Hv fields).
  - rewrite remove_object. f_equal. inversion C as [? Hl|? Hb Hf]; subst; [exfalso; by apply (Hl fields)|]. clear C.
    induction IH as [|[k v] fields Hv _ IH]; [done|]. apply Forall_cons in Hf as [Cv Hf], Hb as [B Hb].
    cbn [fst snd] in *. cbn [omap list_omap]. unfold keep at 1. cbn [fst snd].
    rewrite B, (Hv Cv), (IH Hb Hf). destruct v; try done. unfold is_blank in B. by rewrite B.
Qed.

(** A field at the end of a path of object keys. *)
Fixpoint at_path (path : list string) (v : json) : option json :=
  match path with
  | [] => Some v
  | k :: path => match v with JObj fields => kv ← List.find (fun kv => String.eqb kv.1 k) fields; at_path path kv.2
                 | _ => None end
  end.

(** A value that is neither blank nor an object: what must survive. *)
Definition leaf_value (x : json) : Prop := is_blank x = false /\ forall fields, x <> JObj fields.

Lemma at_path_not_blank path v x : at_path path v = Some x -> leaf_value x -> is_blank v = false.
Proof.
  intros H [Hx Ho]. destruct path as [|k path]; cbn in H; [by injection H as ->|].
  destruct v as [| | | | |[|kv fields]]; done.
Qed.

Lemma remove_leaf x : leaf_value x -> recursivelyRemoveEmptyValues x = x.
Proof. intros [_ Ho]. destruct x; try done. exfalso. by apply (Ho fields). Qed.

Lemma keep_path k path v x :
  at_path path v = Some x -> leaf_value x ->
  at_path path (recursivelyRemoveEmptyValues v) = Some x ->
  keep (k, v) = Some (k, recursivelyRemoveEmptyValues v).
Proof.
  intros H Hx Hr. unfold keep. cbn [fst snd]. rewrite (at_path_not_blank _ _ _ H Hx).
  destruct v as [| | | | |fields]; try done.
  destruct path as [|k' path]; [injection H as <-; exfalso; by apply (proj2 Hx fields)|].
  rewrite remove_object in *. cbn in Hr. by destruct (omap keep fields).
Qed.

Lemma remove_keeps path : forall v x,
  at_path path v = Some x -> leaf_value x -> at_path path (recursivelyRemoveEmptyValues v) = Some x.
Proof.
  induction path as [|k path IH]; intros v x H Hx.
  - injection H as ->. cbn. by rewrite remove_leaf.
  - destruct v as [| | | | |fields]; try done. cbn [at_path] in H. rewrite remove_object. cbn [at_path].
    induction fields as [|[k' v'] fields IHf]; [done|]. cbn [List.find fst snd] in H.
    cbn [omap list_omap]. destruct (String.eqb k' k) eqn:E.
    + cbn [mbind option_bind snd] in H. pose proof (IH _ _ H Hx) as Hr.
      rewrite (keep_path k' path v' x H Hx Hr). cbn [List.find fst]. rewrite E. exact Hr.
    + specialize (IHf H). destruct (keep (k', v')) as [[k'' v'']|] eqn:K; [|exact IHf].
      assert (k'' = k') as ->.
      { unfold keep in K. cbn [fst snd] in K. repeat case_match; congruence. }
      cbn [List.find fst]. rewrite E. exact IHf.
Qed.

(** What pruning leaves of a field's value, if anything. *)
Definition pruned (v : json) : option json :=
  if is_blank v then None
  else match recursivelyRemoveEmptyValues v with JObj [] => None | v => Some v end.

Lemma keep_pruned k v : keep (k, v) = (fun v => (k, v)) <$> pruned v.
Proof.
  unfold keep, pruned. cbn [fst snd]. destruct (is_blank v) eqn:B; [done|].
  destruct v as [| | | | |fields]; try done. rewrite remove_object. by destruct (omap keep fields).
Qed.

Lemma at_path_app path path' v : at_path (path ++ path') v = at_path path v ≫= at_path path'.
Proof.
  revert v. induction path as [|k path IH]; intros v; [done|]. cbn. destruct v as [| | | | |fields]; try done.
  destruct (List.find _ fields) as [[k' v']|]; [|done]. apply IH.
Qed.

(** The value under a key: keys are distinct. *)
Lemma find_kept k fields : NoDup fields.*1 ->
  List.find (fun kv => String.eqb kv.1 k) (omap keep fields)
  = kv ← List.find (fun kv => String.eqb kv.1 k) fields; keep kv.
Proof.
  induction fields as [|[k' v] fields IH]; [done|]. intros [Hk Hn]%NoDup_cons. cbn [omap list_omap List.find fst].
  rewrite keep_pruned. destruct (String.eqb_spec k' k) as [->|Hne].
  - cbn [mbind option_bind]. rewrite keep_pruned. destruct (pruned v) as [x|]; cbn [fmap option_fmap option_map].
    + cbn [List.find fst]. by rewrite String.eqb_refl.
    + rewrite IH by done. destruct (List.find _ fields) as [[k0 v0]|] eqn:F; [|done]. exfalso. apply Hk.
      apply find_some in F as [F E]. apply String.eqb_eq in E. cbn in E. subst k0.
      apply list_elem_of_fmap. exists (k, v0). split; [done|]. by apply list_elem_of_In.
  - destruct (pruned v) as [x|]; cbn [fmap option_fmap option_map]; [|by apply IH].
    cbn [List.find fst]. rewrite (proj2 (String.eqb_neq _ _) Hne). by apply IH.
Qed.

Lemma at_remove k path fields : NoDup fields.*1 ->
  at_path (k :: path) (recursivelyRemoveEmptyValues (JObj fields))
  = v ← at_path [k] (JObj fields); pruned v ≫= at_path path.
Proof.
  intros Hn. rewrite remove_object. cbn [at_path]. rewrite find_kept by done.
  destruct (List.find _ fields) as [[k' v]|]; [|done]. cbn [mbind option_bind snd]. rewrite keep_pruned.
  by destruct (pruned v).
Qed.

Lemma pruned_below k path v : pruned v ≫= at_path (k :: path) = at_path (k :: path) (recursivelyRemoveEmptyValues v).
Proof.
  unfold pruned. destruct v as [| | |s|l|fields]; try done; unfold is_blank.
  - by destruct (trim (u s)).
  - by destruct l.
  - destruct fields as [|kv fields]; [done|]. cbn [isEmptyContainer]. rewrite remove_object.
    by destruct (omap keep (kv :: fields)).
Qed.

(** A text found after pruning was there before. *)
Lemma removed_text v d : recursivelyRemoveEmptyValues v = JStr d -> v = JStr d.
Proof. by destruct v. Qed.

Lemma text_below k path v d :
  at_path (k :: path) (recursivelyRemoveEmptyValues v) = Some (JStr d) ->
  exists fields v', v = JObj fields /\ (k, v') ∈ fields
    /\ at_path path (recursivelyRemoveEmptyValues v') = Some (JStr d).
Proof.
  destruct v as [| | | | |fields]; try done. rewrite remove_object. cbn [at_path].
  destruct (List.find _ _) as [[k' v']|] eqn:F; [|done]. cbn [mbind option_bind snd]. intros H.
  apply find_some in F as [F E]. apply String.eqb_eq in E. cbn in E. subst k'.
  apply list_elem_of_In, list_elem_of_omap in F as ([k0 v0] & Hin & K). rewrite keep_pruned in K.
  destruct (pruned v0) as [x|] eqn:P; [|done]. injection K as -> ->. exists fields, v0. split_and!; [done..|].
  unfold pruned in P. destruct (is_blank v0); [done|].
  destruct (recursivelyRemoveEmptyValues v0) as [| | | | |[|]]; congruence.
Qed.

Lemma pruned_fields fields : pruned (JObj fields) = None <-> Forall (fun kv => pruned kv.2 = None) fields.
Proof.
  unfold pruned at 1. destruct fields as [|kv fields]; [split; [constructor|done]|].
  cbn [is_blank isEmptyContainer]. rewrite remove_object.
  transitivity (omap keep (kv :: fields) = []).
  { by destruct (omap keep (kv :: fields)). }
  generalize (kv :: fields). intros l. induction l as [|[k v] l IH]; [split; [constructor|done]|].
  cbn [omap list_omap]. rewrite keep_pruned, Forall_cons, <- IH. cbn [snd]. destruct (pruned v); cbn; naive_solver.
Qed.

(** [recursivelyRemoveEmptyValues] removes exactly the emptiness: below
    the objects of the result nothing is null, blank or an empty container,
    also where pruning emptied a branch; pruning again changes nothing; and
    every number, boolean (0 and false included), non-blank text and non-empty
    array is still at its path. *)
Theorem recursivelyRemoveEmptyValues_prunes (input : json) :
  clean (recursivelyRemoveEmptyValues input)
  /\ recursivelyRemoveEmptyValues (recursivelyRemoveEmptyValues input) = recursivelyRemoveEmptyValues input
  /\ (forall path x, at_path path input = Some x -> leaf_value x ->
        at_path path (recursivelyRemoveEmptyValues input) = Some x).
Proof.
  split_and!; [apply remove_clean|apply remove_of_clean, remove_clean|]. intros path x. apply remove_keeps.
Qed.
