(* ===== verification/ComponentBuilder.v ===== *)
(** * The component builder

    [pages/component-builder/reducer.ts] with the data of [types/component.ts]
    and [types/metadata.ts] and [activeFields] of [hooks/useComponentSchemas.ts].
    Records keyed by a field name are insertion-ordered maps. [Number] of a
    text is a parameter. *)

From S2P Require Import Prelude JsNum JsMap Text Validation.
#[local] Open Scope Z_scope.
#[local] Open Scope string_scope.

(** ** Data *)

Inductive FieldType := FString | FNumber | FBool | FDuration.

Record MetadataField := {
  mf_name : string;
  mf_type : option FieldType;
  mf_description : option string;
  mf_required : option bool;
  mf_sensitive : option bool;
  mf_default : option string;
  mf_example : option string;
  mf_allowedValues : option (list string);
  mf_isCert : option bool;
  mf_binding : option (option bool * option bool);
  mf_url : option (string * string)
}.

Record AuthenticationProfile := {
  au_title : string;
  au_description : option string;
  au_metadata : list MetadataField
}.

Record ComponentMetadataSchema := {
  sc_type : string;
  sc_name : string;
  sc_version : string;
  sc_title : string;
  sc_status : string;
  sc_description : option string;
  sc_metadata : option (list MetadataField);
  sc_authenticationProfiles : option (list AuthenticationProfile)
}.

Record SecretRef := { sr_name : string; sr_key : string }.

Inductive ItemValue := VStr (t : text) | VNum (n : num) | VBool (b : bool).
Record ComponentMetadataItem := {
  it_name : string;
  it_value : option ItemValue;
  it_secretKeyRef : option SecretRef
}.

Record ComponentSpec := {
  cs_apiVersion : string;
  cs_kind : string;
  cs_name : string;
  cs_namespace : option string;
  cs_scopes : option (list string);
  cs_type : string;
  cs_version : string;
  cs_metadata : list ComponentMetadataItem
}.

Definition defaultComponentSpec : ComponentSpec := {|
  cs_apiVersion := "dapr.io/v1alpha1"; cs_kind := "Component"; cs_name := ""; cs_namespace := Some "default";
  cs_scopes := Some []; cs_type := ""; cs_version := ""; cs_metadata := [] |}.

Record ComponentBuilderState := {
  activeStep : Z;
  category : option string;
  schema : option ComponentMetadataSchema;
  version : string;
  authProfile : option AuthenticationProfile;
  hasAuthProfiles : bool;
  name : string;
  namespace : string;
  values : JsMap string string;
  secretRefs : JsMap string SecretRef;
  useSecret : JsMap string bool;
  optionalAdded : list string
}.

Inductive Action :=
  | SELECT_SCHEMA (schema : ComponentMetadataSchema) (version : string)
  | SET_AUTH_PROFILE (profile : option AuthenticationProfile)
  | SET_NAME (name : string)
  | SET_NAMESPACE (namespace : string)
  | SET_VALUE (field value : string)
  | TOGGLE_SECRET (field : string) (on : bool)
  | SET_SECRET (field : string) (ref : SecretRef)
  | ADD_OPTIONAL (field : string)
  | REMOVE_OPTIONAL (field : string)
  | SELECT_CATEGORY (category : string)
  | NEXT
  | BACK.

(** ** The reducer *)

Definition initialState : ComponentBuilderState := {|
  activeStep := 0; category := None; schema := None; version := ""; authProfile := None; hasAuthProfiles := false;
  name := ""; namespace := "default"; values := []; secretRefs := []; useSecret := []; optionalAdded := [] |}.

Definition has_profiles (s : ComponentMetadataSchema) : bool :=
  match s.(sc_authenticationProfiles) with None | Some [] => false | _ => true end.

(** [===] of two optional texts one of which may be missing. *)
Definition same_text (a : string) (b : option string) : bool :=
  match b with Some b => String.eqb a b | None => false end.

Definition clear_config (s : ComponentBuilderState) : ComponentBuilderState :=
  {| s with authProfile := None; values := []; secretRefs := []; useSecret := []; optionalAdded := [] |}.

Definition reducer (state : ComponentBuilderState) (action : Action) : ComponentBuilderState :=
  match action with
  | SELECT_SCHEMA sc v =>
      let sameSchema := same_text sc.(sc_type) (sc_type <$> state.(schema))
                        && same_text sc.(sc_name) (sc_name <$> state.(schema)) in
      let next := {| state with category := Some sc.(sc_type); schema := Some sc; version := v;
                     hasAuthProfiles := has_profiles sc; activeStep := 1 |} in
      if sameSchema then next else clear_config next
  | SELECT_CATEGORY c =>
      if same_text c (sc_type <$> state.(schema)) then {| state with category := Some c |}
      else clear_config {| state with category := Some c; schema := None; version := ""; hasAuthProfiles := false |}
  | SET_AUTH_PROFILE profile => {| state with authProfile := profile |}
  | SET_NAME n => {| state with name := n |}
  | SET_NAMESPACE ns => {| state with namespace := ns |}
  | SET_VALUE field value => {| state with values := map_set field value state.(values) |}
  | TOGGLE_SECRET field on => {| state with useSecret := map_set field on state.(useSecret) |}
  | SET_SECRET field ref => {| state with secretRefs := map_set field ref state.(secretRefs) |}
  | ADD_OPTIONAL field =>
      if bool_decide (field ∈ state.(optionalAdded)) then state
      else {| state with optionalAdded := (state.(optionalAdded) ++ [field])%list |}
  | REMOVE_OPTIONAL field =>
      {| state with
         optionalAdded := List.filter (fun f => negb (String.eqb f field)) state.(optionalAdded);
         values := map_delete field state.(values);
         secretRefs := map_delete field state.(secretRefs);
         useSecret := map_delete field state.(useSecret) |}
  | NEXT => {| state with activeStep := state.(activeStep) + 1 |}
  | BACK => {| state with activeStep := Z.max 0 (state.(activeStep) - 1) |}
  end.

(** ** Fields and steps *)

Definition is_required (f : MetadataField) : bool := default false f.(mf_required).

(** [activeFields]: the required and the optional ones. *)
Definition activeFields (sc : ComponentMetadataSchema) (profile : option AuthenticationProfile)
    : list MetadataField * list MetadataField :=
  let all := (default [] sc.(sc_metadata) ++ match profile with Some p => p.(au_metadata) | None => [] end)%list in
  (List.filter is_required all, List.filter (fun f => negb (is_required f)) all).

Definition configureFields (state : ComponentBuilderState) : list MetadataField :=
  match state.(schema) with
  | None => []
  | Some sc =>
      let (required, optional) := activeFields sc state.(authProfile) in
      (required ++ List.filter (fun f => bool_decide (f.(mf_name) ∈ state.(optionalAdded))) optional)%list
  end.

Definition blank (s : string) : bool := match trim (u s) with [] => true | _ => false end.

(** [state.useSecret[name]] as a condition. *)
Definition uses_secret (state : ComponentBuilderState) (n : string) : bool :=
  default false (map_get n state.(useSecret)).
Definition ref_filled (ref : SecretRef) : bool := negb (blank ref.(sr_name)) && negb (blank ref.(sr_key)).
Definition value_of (state : ComponentBuilderState) (n : string) : string := default "" (map_get n state.(values)).

Definition fieldSatisfied (state : ComponentBuilderState) (f : MetadataField) : bool :=
  if uses_secret state f.(mf_name) then
    match map_get f.(mf_name) state.(secretRefs) with Some ref => ref_filled ref | None => false end
  else negb (blank (value_of state f.(mf_name))).

Definition namespaceError (ns : string) : option string :=
  match trim (u ns) with [] => None | ns => validateResourceName ns end.

Definition canContinue (state : ComponentBuilderState) : bool :=
  if (state.(activeStep) =? 0)%Z then
    match state.(schema) with Some _ => negb (String.eqb state.(version) "") | None => false end
  else if (state.(activeStep) =? 1)%Z then true
  else if (state.(activeStep) =? 2)%Z then
    match validateResourceName (u state.(name)), namespaceError state.(namespace) with
    | None, None => forallb (fieldSatisfied state) (List.filter is_required (configureFields state))
    | _, _ => false
    end
  else true.

(** ** The document *)

Section Assembly.
Context (Number : text -> num).

(** One entry of the loop; [None] is a [continue]. *)
Definition assemble_item (state : ComponentBuilderState) (entry : string * MetadataField)
    : option ComponentMetadataItem :=
  let (n, field) := entry in
  if uses_secret state n then
    ref ← map_get n state.(secretRefs);
    if ref_filled ref then Some {| it_name := n; it_value := None; it_secretKeyRef := Some ref |} else None
  else
    match trim (u (value_of state n)) with
    | [] => None
    | raw =>
        let value :=
          match field.(mf_type) with
          | Some FNumber => let v := Number raw in if (v =? v)%float then VNum v else VStr raw
          | Some FBool => VBool (text_eqb raw (u "true"))
          | _ => VStr raw
          end in
        Some {| it_name := n; it_value := Some value; it_secretKeyRef := None |}
    end.

Definition assembleComponentSpec (state : ComponentBuilderState) : ComponentSpec :=
  let spec := defaultComponentSpec in
  let byName := map_of (map (fun f => (f.(mf_name), f)) (configureFields state)) in
  {| spec with
     cs_name := state.(name);
     cs_namespace := if blank state.(namespace) then None else Some state.(namespace);
     cs_scopes := match spec.(cs_scopes) with None | Some [] => None | scopes => scopes end;
     cs_type := match state.(schema) with Some sc => sc.(sc_type) ++ "." ++ sc.(sc_name) | None => "" end;
     cs_version := state.(version);
     cs_metadata := omap (assemble_item state) byName |}.
End Assembly.

(** ** Invariant *)

Record state_ok (s : ComponentBuilderState) : Prop := {
  ok_step : 0 <= s.(activeStep);
  ok_category : forall sc, s.(schema) = Some sc -> s.(category) = Some sc.(sc_type);
  ok_version : s.(schema) = None -> s.(version) = "";
  ok_profiles : s.(hasAuthProfiles) = match s.(schema) with Some sc => has_profiles sc | None => false end;
  ok_optional : NoDup s.(optionalAdded);
  ok_values : NoDup (keys s.(values));
  ok_refs : NoDup (keys s.(secretRefs));
  ok_secret : NoDup (keys s.(useSecret))
}.

Lemma filter_nodup {A} (f : A -> bool) l : NoDup l -> NoDup (List.filter f l).
Proof. intros H%NoDup_ListNoDup. by apply NoDup_ListNoDup, List.NoDup_filter. Qed.

Lemma reducer_ok s a : state_ok s -> state_ok (reducer s a).
Proof.
  intros [H1 H2 H3 H4 H5 H6 H7 H8]. destruct a; cbn [reducer].
  - cbv zeta. destruct (_ && _); split; cbn; try done; try (by constructor); naive_solver.
  - by split.
  - by split.
  - by split.
  - split; cbn; try done. by apply keys_set_nodup.
  - split; cbn; try done. by apply keys_set_nodup.
  - split; cbn; try done. by apply keys_set_nodup.
  - case_bool_decide as Hin; [by split|]. split; cbn; try done. apply NoDup_app.
    split_and!; [done| |apply NoDup_singleton]. by intros x Hx ->%list_elem_of_singleton.
  - split; cbn; try done; [by apply filter_nodup|by apply keys_delete_nodup..].
  - destruct (same_text _ _) eqn:E; split; cbn; try done; try (by constructor).
    intros sc Hsc. rewrite Hsc in E. cbn in E. by apply String.eqb_eq in E as ->.
  - split; cbn; try done. lia.
  - split; cbn; try done. lia.
Qed.

(** Whatever is clicked and typed, the builder's state stays consistent:
    for every sequence of actions the step never goes below the first, the
    chosen component belongs to the chosen category, a version is set only
    with a component, the profile flag is that component's, and no optional
    field, value, secret or toggle is listed twice. *)
Theorem builder_state_consistent (actions : list Action) :
  state_ok (fold_left reducer actions initialState).
Proof.
  apply (fold_left_inv state_ok); [intros; by apply reducer_ok|]. split; cbn; try done; constructor.
Qed.

(** ** What is assembled *)

Section AssemblyFacts.
Context (Number : text -> num).

Lemma assemble_item_name state n f it : assemble_item Number state (n, f) = Some it -> it.(it_name) = n.
Proof.
  unfold assemble_item. destruct (uses_secret state n).
  - destruct (map_get n _) as [ref|]; [|done]. cbn [mbind option_bind]. destruct (ref_filled ref); [|done].
    by intros [= <-].
  - destruct (trim _); [done|]. by intros [= <-].
Qed.

(** An item holds a filled secret reference, or a value that is not blank. *)
Definition item_filled (it : ComponentMetadataItem) : Prop :=
  match it.(it_value), it.(it_secretKeyRef) with
  | None, Some ref => ref_filled ref = true
  | Some v, None => v <> VStr []
  | _, _ => False
  end.

Lemma assemble_item_filled state n f it : assemble_item Number state (n, f) = Some it -> item_filled it.
Proof.
  unfold assemble_item. destruct (uses_secret state n).
  - destruct (map_get n _) as [ref|]; [|done]. cbn [mbind option_bind]. destruct (ref_filled ref) eqn:E; [|done].
    by intros [= <-].
  - destruct (trim _) as [|c t]; [done|]. intros [= <-]. cbn.
    destruct (mf_type f) as [[]|]; try done. by destruct (_ =? _)%float.
Qed.

Lemma satisfied_assembled state f f' :
  fieldSatisfied state f = true -> is_Some (assemble_item Number state (f.(mf_name), f')).
Proof.
  unfold fieldSatisfied, assemble_item. destruct (uses_secret state _).
  - destruct (map_get _ _) as [ref|]; [|done]. intros H. cbn [mbind option_bind]. rewrite H. by eexists.
  - unfold blank. destruct (trim _); [done|]. intros _. by eexists.
Qed.

Lemma omap_names state entries :
  it_name <$> omap (assemble_item Number state) entries `sublist_of` entries.*1.
Proof.
  induction entries as [|[n f] entries IH]; [done|]. cbn [omap list_omap].
  destruct (assemble_item Number state (n, f)) as [it|] eqn:E; cbn [fmap list_fmap fst].
  - rewrite (assemble_item_name _ _ _ _ E). by constructor.
  - by constructor.
Qed.

(** A state that is ready is assembled into a complete document. *)
Definition ready (state : ComponentBuilderState) : Prop :=
  validateResourceName (u state.(name)) = None
  /\ forallb (fieldSatisfied state) (List.filter is_required (configureFields state)) = true.

Lemma ready_assembles (state : ComponentBuilderState) :
  ready state ->
  let spec := assembleComponentSpec Number state in
  validateResourceName (u spec.(cs_name)) = None
  /\ NoDup (it_name <$> spec.(cs_metadata))
  /\ (forall f, f ∈ configureFields state -> is_required f = true -> f.(mf_name) ∈ it_name <$> spec.(cs_metadata))
  /\ (forall it, it ∈ spec.(cs_metadata) ->
        it.(it_name) ∈ mf_name <$> configureFields state /\ item_filled it).
Proof.
  intros [Hn Hc]. rewrite forallb_forall in Hc.
  cbv zeta. unfold assembleComponentSpec. cbv zeta. cbn [cs_name cs_metadata].
  set (entries := map_of _).
  assert (Hk : forall n, n ∈ entries.*1 <-> n ∈ mf_name <$> configureFields state).
  { intros n. pose proof (map_of_keys (map (fun f => (f.(mf_name), f)) (configureFields state)) n) as E.
    unfold keys in E. fold entries in E. rewrite E.
    assert (En : (map (fun f => (f.(mf_name), f)) (configureFields state)).*1 = mf_name <$> configureFields state)
      by (clear; induction (configureFields state) as [|f l IH]; [done|]; cbn; f_equal; exact IH).
    by rewrite En. }
  split_and!.
  - exact Hn.
  - apply (sublist_NoDup _ entries.*1); [exact (map_of_keys_nodup (map _ _))|apply omap_names].
  - intros f Hf Hr. assert (Hs : fieldSatisfied state f = true).
    { apply Hc, filter_In. split; [by apply list_elem_of_In|done]. }
    assert (Hin : f.(mf_name) ∈ entries.*1) by (apply Hk, list_elem_of_fmap; by exists f).
    apply list_elem_of_fmap in Hin as ([n f'] & Hnf & Hin). cbn in Hnf. subst n.
    destruct (satisfied_assembled state f f' Hs) as [it Hit]. apply list_elem_of_fmap. exists it.
    split; [by rewrite (assemble_item_name _ _ _ _ Hit)|]. apply list_elem_of_omap. by eexists.
  - intros it Hit. apply list_elem_of_omap in Hit as ([n f] & Hin & Hit).
    split; [|by eapply assemble_item_filled]. rewrite (assemble_item_name _ _ _ _ Hit). apply Hk.
    apply list_elem_of_fmap. by exists (n, f).
Qed.

Lemma canContinue_ready (state : ComponentBuilderState) : state.(activeStep) = 2 -> canContinue state = true -> ready state.
Proof.
  unfold canContinue. intros -> Hc. cbn in Hc. destruct (validateResourceName (u (name state))) eqn:Hn; [done|].
  destruct (namespaceError (namespace state)); [done|]. by split.
Qed.

(** The builder only lets a complete component through: when the
    configuration step allows to continue, the assembled document has a valid
    name, names no field twice, has an item for every required field of the
    component and its profile, and every item belongs to a configured field
    and holds either a filled secret reference or a non-blank value. *)
Theorem continue_assembles_complete (state : ComponentBuilderState) :
  state.(activeStep) = 2 -> canContinue state = true ->
  let spec := assembleComponentSpec Number state in
  validateResourceName (u spec.(cs_name)) = None
  /\ NoDup (it_name <$> spec.(cs_metadata))
  /\ (forall f, f ∈ configureFields state -> is_required f = true -> f.(mf_name) ∈ it_name <$> spec.(cs_metadata))
  /\ (forall it, it ∈ spec.(cs_metadata) ->
        it.(it_name) ∈ mf_name <$> configureFields state /\ item_filled it).
Proof. intros Hstep Hc. apply ready_assembles. by apply canContinue_ready. Qed.
End AssemblyFacts.

(** ** A configured Redis store *)

Definition plain_field (n : string) (required : bool) : MetadataField := {|
  mf_name := n; mf_type := Some FString; mf_description := None; mf_required := Some required; mf_sensitive := None;
  mf_default := None; mf_example := None; mf_allowedValues := None; mf_isCert := None; mf_binding := None;
  mf_url := None |}.
Definition redis_schema : ComponentMetadataSchema := {|
  sc_type := "state"; sc_name := "redis"; sc_version := "v1"; sc_title := "Redis"; sc_status := "stable";
  sc_description := None;
  sc_metadata := Some [plain_field "redisHost" true; plain_field "redisPassword" true; plain_field "ttl" false];
  sc_authenticationProfiles := None |}.
Definition redis_actions : list Action :=
  [SELECT_SCHEMA redis_schema "v1"; NEXT; SET_NAME "store"; SET_VALUE "redisHost" "localhost:6379";
   TOGGLE_SECRET "redisPassword" true; SET_SECRET "redisPassword" {| sr_name := "vault"; sr_key := "pw" |}].

Lemma redis_continues : canContinue (fold_left reducer redis_actions initialState) = true.
Proof. vm_compute. reflexivity. Qed.

Lemma continue_assembles_complete_witness :
  let state := fold_left reducer redis_actions initialState in
  plain_field "redisHost" true ∈ configureFields state
  /\ "redisHost" ∈ it_name <$> (assembleComponentSpec (fun _ => 0%float) state).(cs_metadata).
Proof.
  cbv zeta.
  assert (Hin : plain_field "redisHost" true ∈ configureFields (fold_left reducer redis_actions initialState)).
  { apply (list_elem_of_lookup_2 _ 0). vm_compute. reflexivity. }
  split; [exact Hin|].
  exact (proj1 (proj2 (proj2 (continue_assembles_complete (fun _ => 0%float)
    (fold_left reducer redis_actions initialState) eq_refl redis_continues))) (plain_field "redisHost" true) Hin eq_refl).
Defined.
