(* ===== verification/StoreDialog.v ===== *)
(** * Adding a state store

    [hooks/useComponentCatalog.ts]: which fields a store type has, from the
    component catalog; [components/StateStoreConnectionDialog.tsx]: the form
    over them and what it saves.  [isNaN] of a text's [Number] is a parameter. *)

From S2P Require Import Prelude JsNum JsMap JsSort Text Apps ComponentBuilder.
#[local] Open Scope string_scope.
#[local] Open Scope Z_scope.

(** ** hooks/useComponentCatalog.ts *)

Definition SUPPORTED_NAMES : list string := map implFor SUPPORTED_STORE_TYPES.

(** A field with a name, a description and what it asks; the rest is absent. *)
Definition plain_field (name description : string) (sensitive : option bool) : MetadataField := {|
  mf_name := name; mf_type := Some FString; mf_description := Some description; mf_required := Some true;
  mf_sensitive := sensitive; mf_default := None; mf_example := None; mf_allowedValues := None;
  mf_isCert := None; mf_binding := None; mf_url := None |}.

Definition SYNTHETIC_REQUIRED : list (string * MetadataField) :=
  [("state.postgresql", plain_field "connectionString" "PostgreSQL connection string" (Some true));
   ("state.sqlite", plain_field "connectionString" "Path or DSN of the SQLite database file" None);
   ("state.mongodb", plain_field "host" "MongoDB host as host:port (e.g. localhost:27017)" None)].
Definition REQUIRED_OVERRIDES : list (string * list string) := [("state.mongodb", ["databaseName"])].

(** [Number(/^v(\d+)/.exec(v)?.[1] ?? -1)]; below 2^53 the number is exact. *)
Definition versionNum (v : string) : Z :=
  match u v with
  | 118 :: t => match take_while is_digit_unit t with [] => -1 | digits => digits_value digits end
  | _ => -1
  end.

Definition catalog_schemas (components : list ComponentMetadataSchema) : list ComponentMetadataSchema :=
  List.filter (fun c => String.eqb c.(sc_type) "state" && bool_decide (c.(sc_name) ∈ SUPPORTED_NAMES)) components.

Definition stable (s : ComponentMetadataSchema) : Z := if String.eqb s.(sc_status) "stable" then 1 else 0.
Definition compare_schemas (a b : ComponentMetadataSchema) : Z :=
  let d := stable b - stable a in
  if d =? 0 then versionNum b.(sc_version) - versionNum a.(sc_version) else d.

Definition chosen_schema (schemas : list ComponentMetadataSchema) (name : string) : option ComponentMetadataSchema :=
  head (js_sort compare_schemas (List.filter (fun s => String.eqb s.(sc_name) name) schemas)).

Definition require (f : MetadataField) : MetadataField := {|
  mf_name := f.(mf_name); mf_type := f.(mf_type); mf_description := f.(mf_description); mf_required := Some true;
  mf_sensitive := f.(mf_sensitive); mf_default := f.(mf_default); mf_example := f.(mf_example);
  mf_allowedValues := f.(mf_allowedValues); mf_isCert := f.(mf_isCert); mf_binding := f.(mf_binding);
  mf_url := f.(mf_url) |}.

Definition fieldsFor (schemas : list ComponentMetadataSchema) (type : string) : list MetadataField :=
  let chosen := chosen_schema schemas (implFor type) in
  let overrides := default [] (map_get type REQUIRED_OVERRIDES) in
  let base := map (fun f => if bool_decide (f.(mf_name) ∈ overrides) then require f else f)
                (default [] (chosen ≫= sc_metadata)) in
  match map_get type SYNTHETIC_REQUIRED with
  | Some synthetic =>
      if negb (existsb (fun f => String.eqb f.(mf_name) synthetic.(mf_name)) base) then synthetic :: base else base
  | None => base
  end.

(** ** components/StateStoreConnectionDialog.tsx *)

#[local] Instance FieldType_eq_dec : EqDecision FieldType.
Proof. solve_decision. Defined.

Record StoreForm := {
  sf_name : string;
  sf_type : string;
  sf_values : JsMap string string;
  sf_optional : list string;
  sf_actorStateStore : bool;
  sf_error : option string
}.

(** The form when the dialog opens. *)
Definition opened : StoreForm := {|
  sf_name := ""; sf_type := default "" (head SUPPORTED_STORE_TYPES); sf_values := []; sf_optional := [];
  sf_actorStateStore := true; sf_error := None |}.

Definition is_required (f : MetadataField) : bool := default false f.(mf_required).

Section Dialog.
Context (schemas : list ComponentMetadataSchema) (Number : text -> num).

Definition all_fields (st : StoreForm) : list MetadataField := fieldsFor schemas st.(sf_type).
Definition required_fields (st : StoreForm) : list MetadataField := List.filter is_required (all_fields st).
Definition optionalPool (st : StoreForm) : list MetadataField :=
  List.filter (fun f => negb (is_required f) && negb (bool_decide (f.(mf_name) ∈ st.(sf_optional)))) (all_fields st).

Definition typed_value (st : StoreForm) (name : string) : string := default "" (map_get name st.(sf_values)).
Definition is_NaN (n : num) : bool := negb (n =? n)%float.
Definition numberInvalid (st : StoreForm) : bool :=
  existsb (fun f => bool_decide (f.(mf_type) = Some FNumber) && negb (String.eqb (typed_value st f.(mf_name)) "")
                    && is_NaN (Number (u (typed_value st f.(mf_name))))) (all_fields st).
Definition blank (t : string) : bool := text_eqb (trim (u t)) [].
Definition canSave (st : StoreForm) : bool :=
  negb (blank st.(sf_name)) && forallb (fun f => negb (blank (typed_value st f.(mf_name)))) (required_fields st)
  && negb (numberInvalid st).

(** The form's inputs. *)
Inductive FormEvent :=
  | FOpen
  | FName (name : string)
  | FType (type : string)
  | FValue (name value : string)
  | FAddOptional (name : string)
  | FRemoveOptional (name : string)
  | FActor (checked : bool)
  | FFailed (message : string).

Definition form_event (st : StoreForm) (e : FormEvent) : StoreForm :=
  match e with
  | FOpen => opened
  | FName name => {| sf_name := name; sf_type := st.(sf_type); sf_values := st.(sf_values);
      sf_optional := st.(sf_optional); sf_actorStateStore := st.(sf_actorStateStore); sf_error := st.(sf_error) |}
  | FType type => {| sf_name := st.(sf_name); sf_type := type; sf_values := [];
      sf_optional := []; sf_actorStateStore := st.(sf_actorStateStore); sf_error := st.(sf_error) |}
  | FValue name value => {| sf_name := st.(sf_name); sf_type := st.(sf_type);
      sf_values := map_set name value st.(sf_values); sf_optional := st.(sf_optional);
      sf_actorStateStore := st.(sf_actorStateStore); sf_error := st.(sf_error) |}
  | FAddOptional name =>
      if String.eqb name "" then st
      else {| sf_name := st.(sf_name); sf_type := st.(sf_type); sf_values := st.(sf_values);
        sf_optional := (st.(sf_optional) ++ [name])%list; sf_actorStateStore := st.(sf_actorStateStore);
        sf_error := st.(sf_error) |}
  | FRemoveOptional name => {| sf_name := st.(sf_name); sf_type := st.(sf_type);
      sf_values := map_delete name st.(sf_values); sf_optional := filter (fun x => x <> name) st.(sf_optional);
      sf_actorStateStore := st.(sf_actorStateStore); sf_error := st.(sf_error) |}
  | FActor checked => {| sf_name := st.(sf_name); sf_type := st.(sf_type); sf_values := st.(sf_values);
      sf_optional := st.(sf_optional); sf_actorStateStore := checked; sf_error := st.(sf_error) |}
  | FFailed message => {| sf_name := st.(sf_name); sf_type := st.(sf_type); sf_values := st.(sf_values);
      sf_optional := st.(sf_optional); sf_actorStateStore := st.(sf_actorStateStore); sf_error := Some message |}
  end.

(** The metadata [handleSave] sends, in the order it is filled. *)
Definition put_required (st : StoreForm) (m : JsMap string string) (f : MetadataField) : JsMap string string :=
  map_set f.(mf_name) (typed_value st f.(mf_name)) m.
Definition put_optional (st : StoreForm) (m : JsMap string string) (n : string) : JsMap string string :=
  let v := typed_value st n in if String.eqb v "" then m else map_set n v m.
Definition saved_metadata (st : StoreForm) : JsMap string string :=
  let m := fold_left (put_required st) (required_fields st) [] in
  let m := fold_left (put_optional st) st.(sf_optional) m in
  if st.(sf_actorStateStore) then map_set "actorStateStore" "true" m else m.

(** The request: a name without blanks around it, the type, the metadata. *)
Definition handleSave (st : StoreForm) : text * string * JsMap string string :=
  (trim (u st.(sf_name)), st.(sf_type), saved_metadata st).

(** An input only offers the fields in the pool. *)
Definition offered (st : StoreForm) (e : FormEvent) : Prop :=
  match e with FAddOptional name => name ∈ map mf_name (optionalPool st) | _ => True end.

Inductive form_reach : StoreForm -> Prop :=
  | form_open : form_reach opened
  | form_step st e : form_reach st -> offered st e -> form_reach (form_event st e).

(** ** What is saved *)

Lemma reach_optional st : form_reach st ->
  NoDup st.(sf_optional) /\ Forall (fun n => n ∈ map mf_name (all_fields st)) st.(sf_optional).
Proof.
  induction 1 as [|st e _ [N F] Ho]; [split; constructor|].
  destruct e as [| |type| |name|name| |]; cbn in *; try (split; (done || constructor)).
  - destruct (String.eqb name ""); [done|]. cbn.
    apply list_elem_of_fmap in Ho as (f & -> & Hf). apply list_elem_of_In, filter_In in Hf as [Hf Hn].
    apply andb_true_iff in Hn as [_ Hn%negb_true_iff%bool_decide_eq_false]. split.
    + apply NoDup_app. split; [done|]. split; [by intros x Hx ->%list_elem_of_singleton|apply NoDup_singleton].
    + apply Forall_app. split; [done|]. apply Forall_singleton, list_elem_of_fmap. exists f. split; [done|].
      by apply list_elem_of_In.
  - split; [by apply NoDup_filter|]. apply Forall_forall. intros n [_ Hn]%list_elem_of_filter.
    rewrite Forall_forall in F. by apply F.
Qed.

(** Every entry was filled from the form. *)
Definition entry_ok (st : StoreForm) (kv : string * string) : Prop :=
  kv.1 ∈ map mf_name (all_fields st) /\ kv.2 = typed_value st kv.1 /\ kv.2 <> "".

Lemma map_set_Forall {K V} `{EqDecision K} (P : K * V -> Prop) k v (m : JsMap K V) :
  Forall P m -> P (k, v) -> Forall P (map_set k v m).
Proof.
  intros H Hkv. induction H as [|[k' v'] m Hp H IH]; cbn; [by repeat constructor|].
  destruct (decide (k = k')) as [<-|]; constructor; done.
Qed.

Lemma fold_required st fields m :
  Forall (fun f => f ∈ all_fields st /\ blank (typed_value st f.(mf_name)) = false) fields -> Forall (entry_ok st) m ->
  Forall (entry_ok st) (fold_left (put_required st) fields m).
Proof.
  intros H. revert m. induction H as [|f fields [Hf Hb] H IH]; intros m Hm; cbn; [done|]. apply IH, map_set_Forall; [done|].
  split; [apply list_elem_of_fmap; by exists f|]. split; [done|]. cbn. intros E. by rewrite E in Hb.
Qed.

Lemma fold_optional st names m : Forall (fun n => n ∈ map mf_name (all_fields st)) names -> Forall (entry_ok st) m ->
  Forall (entry_ok st) (fold_left (put_optional st) names m).
Proof.
  intros H. revert m. induction H as [|n names Hn H IH]; intros m Hm; cbn; [done|]. apply IH. unfold put_optional.
  destruct (String.eqb_spec (typed_value st n) "") as [|Hv]; [done|]. by apply map_set_Forall.
Qed.

Lemma keys_fold_keep {A} (put : JsMap string string -> A -> JsMap string string)
    (Hput : forall m a k, k ∈ keys m -> k ∈ keys (put m a)) l : forall m k, k ∈ keys m -> k ∈ keys (fold_left put l m).
Proof. induction l as [|a l IH]; intros m k H; cbn; [done|]. by apply IH, Hput. Qed.

Lemma required_keys st f fields m : f ∈ fields -> f.(mf_name) ∈ keys (fold_left (put_required st) fields m).
Proof.
  revert m. induction fields as [|g fields IH]; intros m; [by intros ?%elem_of_nil|]. cbn. intros [->|H]%elem_of_cons.
  - apply keys_fold_keep; [intros; unfold put_required; apply elem_keys_set; by right|].
    unfold put_required. apply elem_keys_set. by left.
  - by apply IH.
Qed.
End Dialog.

Lemma put_required_nodup st fields : forall m, NoDup (keys m) -> NoDup (keys (fold_left (put_required st) fields m)).
Proof. induction fields as [|f fields IH]; intros m N; cbn; [done|]. by apply IH, keys_set_nodup. Qed.
Lemma put_optional_nodup st names : forall m, NoDup (keys m) -> NoDup (keys (fold_left (put_optional st) names m)).
Proof.
  induction names as [|n names IH]; intros m N; cbn; [done|]. apply IH. unfold put_optional.
  destruct (String.eqb _ _); [done|]. by apply keys_set_nodup.
Qed.
Lemma put_optional_keeps st m n k : k ∈ keys m -> k ∈ keys (put_optional st m n).
Proof. intros H. unfold put_optional. destruct (String.eqb _ _); [done|]. apply elem_keys_set. by right. Qed.

(** The required fields of a form that can be saved. *)
Definition filled (schemas : list ComponentMetadataSchema) (st : StoreForm) : Prop :=
  forall f, f ∈ required_fields schemas st -> f ∈ all_fields schemas st /\ blank (typed_value st f.(mf_name)) = false.

Lemma canSave_filled schemas Number st : canSave schemas Number st = true ->
  blank st.(sf_name) = false /\ filled schemas st /\ numberInvalid schemas Number st = false.
Proof.
  intros [[Hn%negb_true_iff Hq]%andb_true_iff Hnum%negb_true_iff]%andb_true_iff. split; [done|]. split; [|done].
  intros f Hf%list_elem_of_In. split; [by apply list_elem_of_In; apply filter_In in Hf as [Hf _]|].
  rewrite forallb_forall in Hq. by apply negb_true_iff, Hq.
Qed.

(** The metadata before the actor flag. *)
Definition typed_metadata (schemas : list ComponentMetadataSchema) (st : StoreForm) : JsMap string string :=
  fold_left (put_optional st) st.(sf_optional) (fold_left (put_required st) (required_fields schemas st) []).

Lemma typed_metadata_spec schemas st :
  Forall (fun n => n ∈ map mf_name (all_fields schemas st)) st.(sf_optional) -> filled schemas st ->
  NoDup (keys (typed_metadata schemas st)) /\ Forall (entry_ok schemas st) (typed_metadata schemas st)
  /\ forall f, f ∈ required_fields schemas st -> f.(mf_name) ∈ keys (typed_metadata schemas st).
Proof.
  intros Ho Hf. unfold typed_metadata. split_and!.
  - apply put_optional_nodup, put_required_nodup, NoDup_nil_2.
  - apply fold_optional; [done|]. apply fold_required; [by apply Forall_forall|constructor].
  - intros f H. apply keys_fold_keep; [intros; by apply put_optional_keeps|by apply required_keys].
Qed.

Lemma saved_metadata_typed schemas st : saved_metadata schemas st =
  if st.(sf_actorStateStore) then map_set "actorStateStore" "true" (typed_metadata schemas st) else typed_metadata schemas st.
Proof. done. Qed.

(** An entry of what is sent is the flag, or was typed. *)
Lemma saved_entry schemas st k v : Forall (entry_ok schemas st) (typed_metadata schemas st) ->
  (k, v) ∈ saved_metadata schemas st ->
  (k = "actorStateStore" /\ v = "true" /\ st.(sf_actorStateStore) = true) \/ entry_ok schemas st (k, v).
Proof.
  rewrite saved_metadata_typed. intros H. destruct (sf_actorStateStore st).
  - assert (G : Forall (fun kv => (kv.1 = "actorStateStore" /\ kv.2 = "true" /\ true = true) \/ entry_ok schemas st kv)
                  (map_set "actorStateStore" "true" (typed_metadata schemas st))).
    { apply map_set_Forall; [|by left]. eapply Forall_impl; [exact H|]. auto. }
    rewrite Forall_forall in G. apply G.
  - rewrite Forall_forall in H. auto.
Qed.

Lemma number_typed schemas Number st f : numberInvalid schemas Number st = false -> f ∈ all_fields schemas st ->
  f.(mf_type) = Some FNumber -> typed_value st f.(mf_name) <> "" -> is_NaN (Number (u (typed_value st f.(mf_name)))) = false.
Proof.
  intros Hnum Hf Ht Hv. apply not_true_is_false. intros Hnan.
  assert (numberInvalid schemas Number st = true); [|congruence]. apply existsb_exists. exists f.
  split; [by apply list_elem_of_In|]. rewrite (bool_decide_eq_true_2 _ Ht). cbn.
  by destruct (String.eqb_spec (typed_value st (mf_name f)) "").
Qed.

(** C39: In every state of the form, when it can be saved: the name is not
    blank; the metadata sent has every field the type requires, with a value
    that is not blank; every other entry is a field of that type with the
    non-empty value typed for it, or the actor flag; no field is sent twice;
    and no field of type number is sent with a text that is not one. *)
Theorem saved_store_is_complete (schemas : list ComponentMetadataSchema) (Number : text -> num) (st : StoreForm) :
  form_reach schemas st -> canSave schemas Number st = true ->
  let '(name, type, m) := handleSave schemas st in
  name <> [] /\ type = st.(sf_type) /\ NoDup (keys m)
  /\ (forall f, f ∈ fieldsFor schemas type -> is_required f = true ->
        exists v, map_get f.(mf_name) m = Some v /\ blank v = false)
  /\ (forall k v, (k, v) ∈ m ->
        k = "actorStateStore" /\ v = "true" /\ st.(sf_actorStateStore) = true
        \/ k ∈ map mf_name (fieldsFor schemas type) /\ v = typed_value st k /\ v <> ""
           /\ forall f, f ∈ fieldsFor schemas type -> f.(mf_name) = k -> f.(mf_type) = Some FNumber ->
                is_NaN (Number (u v)) = false).
Proof.
  intros Hr Hc. destruct (reach_optional schemas st Hr) as [_ Ho].
  destruct (canSave_filled _ _ _ Hc) as (Hn & Hfill & Hnum).
  destruct (typed_metadata_spec schemas st Ho Hfill) as (Hnd & Hent & Hkeys).
  pose proof (fun k v => saved_entry schemas st k v Hent) as Hin. cbn [handleSave]. split_and!.
  - intros E. unfold blank in Hn. by rewrite E in Hn.
  - done.
  - rewrite saved_metadata_typed. destruct (sf_actorStateStore st); [by apply keys_set_nodup|done].
  - intros f Hf Hr'.
    assert (Hf' : f ∈ required_fields schemas st)
      by (apply list_elem_of_In, filter_In; split; [by apply list_elem_of_In|done]).
    assert (Hk : map_has f.(mf_name) (saved_metadata schemas st) = true).
    { apply map_has_in. rewrite saved_metadata_typed.
      destruct (sf_actorStateStore st); [apply elem_keys_set; right|]; by apply Hkeys. }
    apply bool_decide_eq_true in Hk as [v Hv]. exists v. split; [done|].
    apply map_get_in, Hin in Hv as [(_ & -> & _)|(_ & Ev & _)]; [done|].
    cbn in Ev. rewrite Ev. by destruct (Hfill f Hf').
  - intros k v H. destruct (Hin k v H) as [|(Hk & Ev & Hv)]; [by left|right]. cbn in Hk, Ev, Hv. subst v.
    split_and!; [done|done|done|]. intros f Hf <- Ht. by apply (number_typed schemas Number st f).
Qed.

(** ** Which schema *)

Lemma compare_schemas_consistent : consistent compare_schemas (fun _ => True).
Proof.
  unfold compare_schemas. split; [intros x y _ _|intros x y _ _|intros x y z _ _ _];
    repeat match goal with |- context [?a - ?b =? 0] => destruct (Z.eqb_spec (a - b) 0) end; lia.
Qed.

(** The fields come from a schema of the type's name that is stable if any of
    that name is, and of those the one with the highest version. *)
Theorem chosen_schema_is_best schemas name s : chosen_schema schemas name = Some s ->
  s ∈ schemas /\ s.(sc_name) = name
  /\ forall s', s' ∈ schemas -> s'.(sc_name) = name ->
       stable s' <= stable s /\ (stable s' = stable s -> versionNum s'.(sc_version) <= versionNum s.(sc_version)).
Proof.
  unfold chosen_schema. set (named := List.filter _ schemas). intros E.
  pose proof (js_sort_perm compare_schemas named) as P.
  pose proof (js_sort_sorted compare_schemas (fun _ => True) named compare_schemas_consistent ltac:(by apply Forall_true)) as S.
  destruct (js_sort compare_schemas named) as [|s0 l] eqn:Es; [done|]. injection E as ->.
  assert (Hnamed : forall x, x ∈ named <-> x ∈ schemas /\ x.(sc_name) = name).
  { intros x. unfold named. rewrite !list_elem_of_In, filter_In, String.eqb_eq. done. }
  assert (Hs : s ∈ named) by (rewrite <- P; by left). apply Hnamed in Hs as [Hs Hn]. split; [done|]. split; [done|].
  intros s' Hs' Hn'. assert (H : s' ∈ s :: l) by (rewrite P; by apply Hnamed).
  apply elem_of_cons in H as [->|H]; [split; lia|].
  apply StronglySorted_inv in S as [_ F]. rewrite Forall_forall in F. specialize (F s' H). cbn in F.
  unfold compare_schemas in F. destruct (Z.eqb_spec (stable s' - stable s) 0); lia.
Qed.

(** ** A form at work *)

Definition sample_schema : ComponentMetadataSchema :=
  {| sc_type := "state"; sc_name := "sqlite"; sc_version := "v1"; sc_title := "SQLite"; sc_status := "stable";
     sc_description := None;
     sc_metadata := Some [{| mf_name := "timeoutInSeconds"; mf_type := Some FNumber; mf_description := None;
       mf_required := None; mf_sensitive := None; mf_default := None; mf_example := None;
       mf_allowedValues := None; mf_isCert := None; mf_binding := None; mf_url := None |}];
     sc_authenticationProfiles := None |}.
Definition sample_form : StoreForm :=
  fold_left (form_event) [FName " main "; FType "state.sqlite"; FValue "connectionString" "a.db";
    FAddOptional "timeoutInSeconds"; FValue "timeoutInSeconds" "20"] opened.

Lemma saved_store_is_complete_witness :
  handleSave [sample_schema] sample_form
    = (u "main", "state.sqlite",
       [("connectionString", "a.db"); ("timeoutInSeconds", "20"); ("actorStateStore", "true")])
  /\ exists v, map_get "connectionString" (saved_metadata [sample_schema] sample_form) = Some v /\ blank v = false.
Proof.
  split; [vm_compute; reflexivity|].
  assert (R : form_reach [sample_schema] sample_form).
  { repeat (apply form_step; [|first [exact I|vm_compute; left]]). apply form_open. }
  destruct (saved_store_is_complete [sample_schema] (fun _ => 20%float) sample_form R) as (_ & _ & _ & Q & _);
    [vm_compute; reflexivity|].
  apply (Q (plain_field "connectionString" "Path or DSN of the SQLite database file" None)); [|reflexivity].
  vm_compute. left.
Defined.
