(* ===== verification/ResiliencyBuilder.v ===== *)
(** * The resiliency builder

    [pages/resiliency-builder/reducer.ts] and [defaultPolicies.ts] with the data
    of [types/resiliency.ts]. Objects used as maps are insertion-ordered maps
    (policy and target names start with a letter, so no key is an array
    index). *)

From S2P Require Import Prelude JsNum Decimal JsMap Json Text Validation YamlEmit.
#[local] Open Scope Z_scope.
#[local] Open Scope string_scope.

(** ** Data *)

Inductive RetryKind := RConstant | RExponential.

Record RetryMatching := { rm_http : option string; rm_grpc : option string }.
Record RetryPolicy := {
  rp_policy : option RetryKind;
  rp_duration : option string;
  rp_maxRetries : option num;
  rp_maxInterval : option string;
  rp_matching : option RetryMatching
}.
Record CircuitBreakerPolicy := {
  cb_maxRequests : option num;
  cb_timeout : option string;
  cb_trip : option string;
  cb_interval : option string
}.

Record Policies := {
  timeouts : JsMap string string;
  retries : JsMap string RetryPolicy;
  circuitBreakers : JsMap string CircuitBreakerPolicy
}.

Record PolicyRefs := { pr_timeout : option string; pr_retry : option string; pr_circuitBreaker : option string }.

Inductive CbScope := ScopeType | ScopeId | ScopeBoth | ScopeNone.

Record AppTarget := { at_refs : PolicyRefs }.
Record ActorTarget := {
  ac_refs : PolicyRefs;
  ac_circuitBreakerScope : option CbScope;
  ac_circuitBreakerCacheSize : option num
}.
Record ComponentTarget := { ct_outbound : option PolicyRefs; ct_inbound : option PolicyRefs }.

Record Targets := {
  apps : option (JsMap string AppTarget);
  actors : option (JsMap string ActorTarget);
  components : option (JsMap string ComponentTarget)
}.

Record DaprResiliency := {
  rs_apiVersion : string;
  rs_kind : string;
  rs_name : string;
  rs_namespace : option string;
  rs_scopes : list string;
  policies : Policies;
  targets : Targets
}.

Definition defaultResiliencyConfig : DaprResiliency := {|
  rs_apiVersion := "dapr.io/v1alpha1"; rs_kind := "Resiliency"; rs_name := ""; rs_namespace := Some "default";
  rs_scopes := [];
  policies := {| timeouts := []; retries := []; circuitBreakers := [] |};
  targets := {| apps := Some []; actors := Some []; components := Some [] |} |}.

Record ResiliencyState := { config : DaprResiliency; rs_activeStep : Z }.
Definition initialState : ResiliencyState := {| config := defaultResiliencyConfig; rs_activeStep := 0 |}.

Inductive Action :=
  | SET_NAME (name : string)
  | SET_NAMESPACE (namespace : string)
  | UPSERT_TIMEOUT (name duration : string)
  | REMOVE_TIMEOUT (name : string)
  | RENAME_TIMEOUT (from to : string)
  | UPSERT_RETRY (name : string) (policy : RetryPolicy)
  | REMOVE_RETRY (name : string)
  | RENAME_RETRY (from to : string)
  | UPSERT_CB (name : string) (policy : CircuitBreakerPolicy)
  | REMOVE_CB (name : string)
  | RENAME_CB (from to : string)
  | UPSERT_APP (name : string) (target : AppTarget)
  | REMOVE_APP (name : string)
  | UPSERT_ACTOR (name : string) (target : ActorTarget)
  | REMOVE_ACTOR (name : string)
  | UPSERT_COMPONENT (name : string) (target : ComponentTarget)
  | REMOVE_COMPONENT (name : string)
  | NEXT
  | BACK.

(** ** Names *)

(** [nextName]: the loop, on its counter. *)
Fixpoint next_name (fuel : nat) (prefix : string) (existing : list string) (i : Z) : option string :=
  match fuel with
  | O => None
  | S fuel =>
      let candidate := prefix ++ pretty i in
      if bool_decide (candidate ∈ existing) then next_name fuel prefix existing (i + 1)%Z else Some candidate
  end.
Definition nextName (prefix : string) (existing : list string) : option string :=
  next_name (S (length existing)) prefix existing 1.

(** The actions [upsertWithRename] dispatches, in order. *)
Definition upsertWithRename (editName : option string) (name : string)
    (oldNameAction : string -> string -> Action) (upsert : Action) : list Action :=
  match editName with
  | Some EmptyString | None => [upsert]
  | Some old => if String.eqb old name then [upsert] else [oldNameAction old name; upsert]
  end.

(** ** Maps *)

Definition withoutKey {T} (m : JsMap string T) (key : string) : JsMap string T := map_delete key m.

Definition renamedKey {T} (m : JsMap string T) (from to : string) : JsMap string T :=
  if negb (map_has from m) then m
  else fold_left (fun next kv => map_set (if String.eqb kv.1 from then to else kv.1) kv.2 next) m [].

(** [mapValues]: whether the old object is returned when nothing changed does
    not show in its value. *)
Definition mapValues {T} (fn : T -> T) (m : option (JsMap string T)) : option (JsMap string T) :=
  (fun m => map (fun kv => (kv.1, fn kv.2)) m) <$> m.

(** ** References to policies *)

Inductive PolicyField := FTimeout | FRetry | FCircuitBreaker.

Definition get_ref (f : PolicyField) (r : PolicyRefs) : option string :=
  match f with FTimeout => r.(pr_timeout) | FRetry => r.(pr_retry) | FCircuitBreaker => r.(pr_circuitBreaker) end.
Definition put_ref (f : PolicyField) (v : option string) (r : PolicyRefs) : PolicyRefs :=
  match f with
  | FTimeout => {| r with pr_timeout := v |}
  | FRetry => {| r with pr_retry := v |}
  | FCircuitBreaker => {| r with pr_circuitBreaker := v |}
  end.

(** [remapRef] on the references of a leg; a removed field is [None]. *)
Definition remapRef (f : PolicyField) (from : string) (to : option string) (r : PolicyRefs) : PolicyRefs :=
  if bool_decide (get_ref f r = Some from) then put_ref f to r else r.

Definition remap_app (f : PolicyField) (from : string) (to : option string) (t : AppTarget) : AppTarget :=
  {| at_refs := remapRef f from to t.(at_refs) |}.

(** On an actor, the settings of a removed circuit breaker go with it. *)
Definition remap_actor (f : PolicyField) (from : string) (to : option string) (t : ActorTarget) : ActorTarget :=
  let next := {| t with ac_refs := remapRef f from to t.(ac_refs) |} in
  match to, f with
  | None, FCircuitBreaker =>
      if bool_decide (get_ref f t.(ac_refs) = Some from)
      then {| next with ac_circuitBreakerScope := None; ac_circuitBreakerCacheSize := None |} else next
  | _, _ => next
  end.

Definition remap_component (f : PolicyField) (from : string) (to : option string) (t : ComponentTarget)
    : ComponentTarget :=
  {| ct_outbound := remapRef f from to <$> t.(ct_outbound); ct_inbound := remapRef f from to <$> t.(ct_inbound) |}.

Definition remapPolicyRefs (t : Targets) (f : PolicyField) (from : string) (to : option string) : Targets :=
  {| apps := mapValues (remap_app f from to) t.(apps);
     actors := mapValues (remap_actor f from to) t.(actors);
     components := mapValues (remap_component f from to) t.(components) |}.

(** ** The reducer *)

Definition set_spec (state : ResiliencyState) (p : Policies) (t : Targets) : ResiliencyState :=
  let cfg := state.(config) in {| state with config := {| cfg with policies := p; targets := t |} |}.

Definition reducer (state : ResiliencyState) (action : Action) : ResiliencyState :=
  let cfg := state.(config) in
  let pol := cfg.(policies) in
  let tgt := cfg.(targets) in
  match action with
  | SET_NAME n => {| state with config := {| cfg with rs_name := n |} |}
  | SET_NAMESPACE ns => {| state with config := {| cfg with rs_namespace := Some ns |} |}
  | UPSERT_TIMEOUT n d => set_spec state {| pol with timeouts := map_set n d pol.(timeouts) |} tgt
  | REMOVE_TIMEOUT n =>
      set_spec state {| pol with timeouts := withoutKey pol.(timeouts) n |} (remapPolicyRefs tgt FTimeout n None)
  | RENAME_TIMEOUT from to =>
      set_spec state {| pol with timeouts := renamedKey pol.(timeouts) from to |}
        (remapPolicyRefs tgt FTimeout from (Some to))
  | UPSERT_RETRY n p => set_spec state {| pol with retries := map_set n p pol.(retries) |} tgt
  | REMOVE_RETRY n =>
      set_spec state {| pol with retries := withoutKey pol.(retries) n |} (remapPolicyRefs tgt FRetry n None)
  | RENAME_RETRY from to =>
      set_spec state {| pol with retries := renamedKey pol.(retries) from to |}
        (remapPolicyRefs tgt FRetry from (Some to))
  | UPSERT_CB n p => set_spec state {| pol with circuitBreakers := map_set n p pol.(circuitBreakers) |} tgt
  | REMOVE_CB n =>
      set_spec state {| pol with circuitBreakers := withoutKey pol.(circuitBreakers) n |}
        (remapPolicyRefs tgt FCircuitBreaker n None)
  | RENAME_CB from to =>
      set_spec state {| pol with circuitBreakers := renamedKey pol.(circuitBreakers) from to |}
        (remapPolicyRefs tgt FCircuitBreaker from (Some to))
  | UPSERT_APP n t => set_spec state pol {| tgt with apps := Some (map_set n t (default [] tgt.(apps))) |}
  | REMOVE_APP n => set_spec state pol {| tgt with apps := Some (withoutKey (default [] tgt.(apps)) n) |}
  | UPSERT_ACTOR n t => set_spec state pol {| tgt with actors := Some (map_set n t (default [] tgt.(actors))) |}
  | REMOVE_ACTOR n => set_spec state pol {| tgt with actors := Some (withoutKey (default [] tgt.(actors)) n) |}
  | UPSERT_COMPONENT n t =>
      set_spec state pol {| tgt with components := Some (map_set n t (default [] tgt.(components))) |}
  | REMOVE_COMPONENT n =>
      set_spec state pol {| tgt with components := Some (withoutKey (default [] tgt.(components)) n) |}
  | NEXT => {| state with rs_activeStep := (state.(rs_activeStep) + 1)%Z |}
  | BACK => {| state with rs_activeStep := Z.max 0 (state.(rs_activeStep) - 1) |}
  end.

(** ** Presets *)

Record DefaultPolicyPreset := {
  dp_label : string;
  dp_policy : RetryKind;
  dp_duration : string;
  dp_maxInterval : string;
  dp_maxRetries : num
}.

Definition preset (label : string) (k : RetryKind) (d i : string) : DefaultPolicyPreset := {|
  dp_label := label; dp_policy := k; dp_duration := d; dp_maxInterval := i; dp_maxRetries := 3%float |}.
Definition DEFAULT_DAPR_RETRY_POLICIES : list DefaultPolicyPreset := [
  preset "DaprBuiltInServiceRetries" RConstant "1s" "";
  preset "DaprBuiltInActorRetries" RConstant "1s" "";
  preset "DaprBuiltInActorReminderRetries" RExponential "15m" "60s";
  preset "DaprBuiltInInitializationRetries" RExponential "10s" "500ms"].

Definition isDefaultPolicyName (name : string) : bool := String.prefix "DaprBuiltIn" name.

Definition presetToRetryPolicy (p : DefaultPolicyPreset) : RetryPolicy := {|
  rp_policy := Some p.(dp_policy); rp_duration := Some p.(dp_duration); rp_maxRetries := Some p.(dp_maxRetries);
  rp_maxInterval := if String.eqb p.(dp_maxInterval) "" then None else Some p.(dp_maxInterval);
  rp_matching := None |}.

(** ** Steps and the document *)

Definition countAll {T} (m : option (JsMap string T)) : nat := match m with Some m => length m | None => 0 end.

Definition canContinue (state : ResiliencyState) : bool :=
  let p := state.(config).(policies) in
  let t := state.(config).(targets) in
  if (state.(rs_activeStep) =? 0)%Z then
    match validateResourceName (u state.(config).(rs_name)) with None => true | Some _ => false end
  else if (state.(rs_activeStep) =? 1)%Z then
    (0 <? length p.(timeouts) + length p.(retries) + length p.(circuitBreakers))%nat
  else if (state.(rs_activeStep) =? 2)%Z then
    let hasTarget := (0 <? countAll t.(apps) + countAll t.(actors) + countAll t.(components))%nat in
    let hasOverride := existsb isDefaultPolicyName (keys p.(retries)) in
    hasTarget || hasOverride
  else true.

(** The values as they are: absent fields are absent. *)
Definition field {A} (k : string) (f : A -> json) (v : option A) : list (string * json) :=
  match v with Some v => [(k, f v)] | None => [] end.
Definition json_map {A} (f : A -> json) (m : JsMap string A) : json := JObj (map (fun kv => (kv.1, f kv.2)) m).

Definition json_of_kind (k : RetryKind) : json :=
  JStr match k with RConstant => "constant" | RExponential => "exponential" end.
Definition json_of_retry (p : RetryPolicy) : json := JObj (
  field "policy" json_of_kind p.(rp_policy) ++ field "duration" JStr p.(rp_duration)
  ++ field "maxRetries" JNum p.(rp_maxRetries) ++ field "maxInterval" JStr p.(rp_maxInterval)
  ++ field "matching" (fun m => JObj (field "httpStatusCodes" JStr m.(rm_http)
                                      ++ field "grpcStatusCodes" JStr m.(rm_grpc))%list) p.(rp_matching))%list.
Definition json_of_cb (p : CircuitBreakerPolicy) : json := JObj (
  field "maxRequests" JNum p.(cb_maxRequests) ++ field "timeout" JStr p.(cb_timeout)
  ++ field "trip" JStr p.(cb_trip) ++ field "interval" JStr p.(cb_interval))%list.
Definition refs_fields (r : PolicyRefs) : list (string * json) :=
  (field "timeout" JStr r.(pr_timeout) ++ field "retry" JStr r.(pr_retry)
   ++ field "circuitBreaker" JStr r.(pr_circuitBreaker))%list.
Definition json_of_scope (s : CbScope) : json :=
  JStr match s with ScopeType => "type" | ScopeId => "id" | ScopeBoth => "both" | ScopeNone => "" end.
Definition json_of_app (t : AppTarget) : json := JObj (refs_fields t.(at_refs)).
Definition json_of_actor (t : ActorTarget) : json := JObj (
  refs_fields t.(ac_refs) ++ field "circuitBreakerScope" json_of_scope t.(ac_circuitBreakerScope)
  ++ field "circuitBreakerCacheSize" JNum t.(ac_circuitBreakerCacheSize))%list.
Definition json_of_component (t : ComponentTarget) : json := JObj (
  field "outbound" (fun r => JObj (refs_fields r)) t.(ct_outbound)
  ++ field "inbound" (fun r => JObj (refs_fields r)) t.(ct_inbound))%list.
Definition json_of_spec (cfg : DaprResiliency) : json := JObj [
  ("policies", JObj [
     ("timeouts", json_map JStr cfg.(policies).(timeouts));
     ("retries", json_map json_of_retry cfg.(policies).(retries));
     ("circuitBreakers", json_map json_of_cb cfg.(policies).(circuitBreakers))]);
  ("targets", JObj (
     field "apps" (json_map json_of_app) cfg.(targets).(apps)
     ++ field "actors" (json_map json_of_actor) cfg.(targets).(actors)
     ++ field "components" (json_map json_of_component) cfg.(targets).(components))%list)].

Definition assembleResiliency (cfg : DaprResiliency) : json :=
  let ns := default "" cfg.(rs_namespace) in
  let metadata := ([("name", JStr cfg.(rs_name))]
                   ++ match trim (u ns) with [] => [] | _ => [("namespace", JStr ns)] end)%list in
  JObj [("apiVersion", JStr cfg.(rs_apiVersion)); ("kind", JStr cfg.(rs_kind)); ("metadata", JObj metadata);
        ("spec", recursivelyRemoveEmptyValues (json_of_spec cfg))].

(** ** Fresh names *)

Lemma string_app_inj (p a b : string) : (p ++ a = p ++ b)%string -> a = b.
Proof.
  induction p as [|c p IH]; [done|]. intros H. apply IH.
  change (String c (p ++ a) = String c (p ++ b)) in H. by injection H.
Qed.

Lemma next_name_spec fuel prefix existing : forall i,
  match next_name fuel prefix existing i with
  | Some n => (n ∉ existing) /\ exists k, (i <= k)%Z /\ n = String.append prefix (pretty k)
  | None => forall j, (i <= j < i + Z.of_nat fuel)%Z -> String.append prefix (pretty j) ∈ existing
  end.
Proof.
  induction fuel as [|fuel IH]; intros i; cbn [next_name]; [lia|]. case_bool_decide as Hin.
  - specialize (IH (i + 1)%Z). destruct (next_name fuel prefix existing (i + 1)) as [n|].
    + destruct IH as (Hn & k & Hk & ->). split; [done|]. exists k. split; [lia|done].
    + intros j Hj. destruct (decide (j = i)) as [->|]; [done|]. apply IH. lia.
  - split; [done|]. by exists i.
Qed.

(** Suggesting a policy name always ends, and with a free name: the first
    unused number is found within one more try than there are names, also when
    deletions have left gaps, so the suggestion never overwrites a policy. *)
Theorem nextName_terminates_fresh (prefix : string) (existing : list string) :
  exists n k, nextName prefix existing = Some n /\ (n ∉ existing) /\ (1 <= k)%Z /\ n = String.append prefix (pretty k).
Proof.
  unfold nextName. pose proof (next_name_spec (S (length existing)) prefix existing 1) as H.
  destruct (next_name _ _ _ _) as [n|]; [destruct H as (Hn & k & Hk & ->); by exists (prefix ++ pretty k), k|].
  exfalso. set (f := fun i : nat => (prefix ++ pretty (Z.of_nat i))%string).
  assert (Hf : Inj (=) (=) f).
  { intros i j E. apply string_app_inj in E. apply (inj pretty) in E. lia. }
  assert (Hs : f <$> seq 1 (S (length existing)) ⊆+ existing).
  { apply NoDup_submseteq; [apply NoDup_fmap_2; [done|apply NoDup_seq]|].
    intros x (i & -> & Hi)%list_elem_of_fmap. apply elem_of_seq in Hi. apply H. lia. }
  apply submseteq_length in Hs. rewrite length_fmap, length_seq in Hs. lia.
Qed.

(** ** References always resolve *)

Definition policy_names (p : Policies) (f : PolicyField) : list string :=
  match f with
  | FTimeout => keys p.(timeouts)
  | FRetry => keys p.(retries)
  | FCircuitBreaker => keys p.(circuitBreakers)
  end.

Definition refs_ok (p : Policies) (r : PolicyRefs) : Prop :=
  forall f n, get_ref f r = Some n -> n ∈ policy_names p f.

Definition opt_list {A} (o : option A) : list A := match o with Some a => [a] | None => [] end.
Definition component_legs (t : ComponentTarget) : list PolicyRefs := (opt_list t.(ct_outbound) ++ opt_list t.(ct_inbound))%list.

(** Every set of references the targets hold. *)
Definition target_ok (p : Policies) (t : Targets) : Prop :=
  Forall (fun kv => refs_ok p kv.2.(at_refs)) (default [] t.(apps))
  /\ Forall (fun kv => refs_ok p kv.2.(ac_refs)) (default [] t.(actors))
  /\ Forall (fun kv => Forall (refs_ok p) (component_legs kv.2)) (default [] t.(components)).

Definition resolved (s : ResiliencyState) : Prop := target_ok s.(config).(policies) s.(config).(targets).

Lemma Forall_map_set {V} (Q : V -> Prop) k v (m : JsMap string V) :
  Q v -> Forall (fun kv => Q kv.2) m -> Forall (fun kv => Q kv.2) (map_set k v m).
Proof.
  intros Hv. induction 1 as [|[k' v'] m H Hm IH]; cbn; [by repeat constructor|].
  destruct (decide (k = k')); by constructor.
Qed.

Lemma Forall_map_delete {V} (Q : V -> Prop) k (m : JsMap string V) :
  Forall (fun kv => Q kv.2) m -> Forall (fun kv => Q kv.2) (map_delete k m).
Proof. induction 1 as [|[k' v'] m H Hm IH]; cbn; [constructor|]. destruct (decide (k = k')); [done|by constructor]. Qed.

(** The names after a policy of kind [f] was renamed or removed. *)
Definition renamed_names (f : PolicyField) (from : string) (to : option string) (p p' : Policies) : Prop :=
  (forall g n, n ∈ policy_names p g -> (g = f -> n <> from) -> n ∈ policy_names p' g)
  /\ (forall n, to = Some n -> from ∈ policy_names p f -> n ∈ policy_names p' f).

#[global] Instance PolicyField_eq_dec : EqDecision PolicyField.
Proof. solve_decision. Defined.

Lemma remapRef_ok p p' f from to r :
  renamed_names f from to p p' -> refs_ok p r -> refs_ok p' (remapRef f from to r).
Proof.
  intros [H1 H2] Hr g n. unfold remapRef. case_bool_decide as Hf.
  - assert (Hfrom : from ∈ policy_names p f) by by apply Hr.
    destruct (decide (g = f)) as [->|Hne].
    + replace (get_ref f (put_ref f to r)) with to by by destruct f. intros E. by apply H2.
    + replace (get_ref g (put_ref f to r)) with (get_ref g r) by by destruct f, g.
      intros E. apply H1; [by apply Hr|done].
  - intros E. apply H1; [by apply Hr|]. intros -> ->. done.
Qed.

Lemma remap_targets_ok p p' f from to t :
  renamed_names f from to p p' -> target_ok p t -> target_ok p' (remapPolicyRefs t f from to).
Proof.
  intros Hn (Ha & Hc & Hm). unfold target_ok, remapPolicyRefs. cbn [apps actors components].
  assert (Map : forall V (Q Q' : V -> Prop) (fn : V -> V) (m : option (JsMap string V)),
    (forall v, Q v -> Q' (fn v)) -> Forall (fun kv => Q kv.2) (default [] m) ->
    Forall (fun kv => Q' kv.2) (default [] (mapValues fn m))).
  { intros V Q Q' fn [m|] Hf H; cbn in *; [|constructor]. apply Forall_map.
    eapply Forall_impl; [exact H|]. intros [k v] Hv. by apply Hf. }
  split_and!.
  - apply (Map _ (fun v => refs_ok p v.(at_refs)) (fun v => refs_ok p' v.(at_refs))); [|done]. intros v. by apply remapRef_ok.
  - apply (Map _ (fun v => refs_ok p v.(ac_refs)) (fun v => refs_ok p' v.(ac_refs))); [|done]. intros v Hv.
    assert (E : (remap_actor f from to v).(ac_refs) = remapRef f from to v.(ac_refs)).
    { unfold remap_actor. destruct to, f; try done. cbv zeta. by case_bool_decide. }
    rewrite E. by eapply remapRef_ok.
  - apply (Map _ (fun v => Forall (refs_ok p) (component_legs v)) (fun v => Forall (refs_ok p') (component_legs v))); [|done].
    intros [o i] Hv. unfold component_legs in *. cbn in *. apply Forall_app in Hv as [Ho Hi]. apply Forall_app.
    split; [destruct o|destruct i]; cbn in *; try constructor; try constructor;
      [apply Forall_cons in Ho as [Ho _]|apply Forall_cons in Hi as [Hi _]]; by eapply remapRef_ok.
Qed.

Lemma keys_delete_other {V} k k' (m : JsMap string V) : k' ∈ keys m -> k' <> k -> k' ∈ keys (map_delete k m).
Proof.
  unfold keys. induction m as [|[k0 v] m IH]; [done|]. cbn. intros [->|H]%elem_of_cons Hne.
  - rewrite decide_False by congruence. by left.
  - destruct (decide (k = k0)); [done|]. right. by apply IH.
Qed.

Lemma renamed_keys {V} (m : JsMap string V) from to k :
  (k ∈ keys m -> k <> from -> k ∈ keys (renamedKey m from to))
  /\ (from ∈ keys m -> to ∈ keys (renamedKey m from to)).
Proof.
  unfold renamedKey. destruct (map_has from m) eqn:Hh; cbn [negb].
  2:{ split; [done|]. intros Hin%map_has_in. congruence. }
  assert (G : forall (l acc : JsMap string V),
    (forall x, x ∈ keys acc -> x ∈ keys (fold_left (fun next kv =>
        map_set (if String.eqb kv.1 from then to else kv.1) kv.2 next) l acc))
    /\ (forall x, x ∈ keys l -> (if String.eqb x from then to else x) ∈ keys (fold_left (fun next kv =>
        map_set (if String.eqb kv.1 from then to else kv.1) kv.2 next) l acc))).
  { induction l as [|[k0 v] l IH]; intros acc; cbn [fold_left]; [split; [done|by intros x ?%elem_of_nil]|].
    destruct (IH (map_set (if String.eqb k0 from then to else k0) v acc)) as [I1 I2]. split.
    - intros x Hx. apply I1, elem_keys_set. by right.
    - intros x [->|Hx]%elem_of_cons; [|by apply I2]. apply I1, elem_keys_set. by left. }
  destruct (G m []) as [_ G2]. split.
  - intros Hk Hne. specialize (G2 k Hk). destruct (String.eqb_spec k from); [done|exact G2].
  - intros Hk. specialize (G2 from Hk). by rewrite String.eqb_refl in G2.
Qed.

(** The policies of another kind are the same. *)
Lemma renamed_only f from to p p' :
  (forall g, g <> f -> policy_names p' g = policy_names p g) ->
  (forall n, n ∈ policy_names p f -> n <> from -> n ∈ policy_names p' f) ->
  (forall n, to = Some n -> from ∈ policy_names p f -> n ∈ policy_names p' f) ->
  renamed_names f from to p p'.
Proof.
  intros Ho Hf Ht. split; [|done]. intros g n Hn Hne. destruct (decide (g = f)) as [->|Hg]; [by apply Hf; [|apply Hne]|].
  by rewrite Ho.
Qed.

(** More policies resolve no less. *)
Lemma target_ok_more p p' t :
  (forall f n, n ∈ policy_names p f -> n ∈ policy_names p' f) -> target_ok p t -> target_ok p' t.
Proof.
  intros H (Ha & Hc & Hm).
  assert (R : forall r, refs_ok p r -> refs_ok p' r) by (intros r Hr f n E; by apply H, Hr).
  split_and!; [eapply Forall_impl; [exact Ha|]|eapply Forall_impl; [exact Hc|]|eapply Forall_impl; [exact Hm|]];
    intros [k v]; cbn; [apply R|apply R|]. intros Hl. by eapply Forall_impl.
Qed.

(** What the dialogs offer: a target's references are picked among the
    policies there are. *)
Definition offered (s : ResiliencyState) (a : Action) : Prop :=
  let p := s.(config).(policies) in
  match a with
  | UPSERT_APP _ t => refs_ok p t.(at_refs)
  | UPSERT_ACTOR _ t => refs_ok p t.(ac_refs)
  | UPSERT_COMPONENT _ t => Forall (refs_ok p) (component_legs t)
  | _ => True
  end.

Inductive reachable : ResiliencyState -> Prop :=
  | reach_initial : reachable initialState
  | reach_step s a : reachable s -> offered s a -> reachable (reducer s a).

Lemma reducer_resolved s a : resolved s -> offered s a -> resolved (reducer s a).
Proof.
  intros R O. unfold resolved in *. pose proof R as (Ha & Hc & Hm).
  destruct a; cbn [reducer set_spec config policies targets]; cbv zeta;
    try exact R;
    try (apply (target_ok_more s.(config).(policies)); [|exact R]; intros f n'; destruct f;
         cbn [policy_names timeouts retries circuitBreakers]; rewrite ?elem_keys_set; tauto);
    try (eapply remap_targets_ok; [|exact R]; apply renamed_only;
         [intros g Hg; by destruct g|intros n' Hn Hne; by apply keys_delete_other|done]);
    try (eapply remap_targets_ok; [|exact R]; apply renamed_only;
         [intros g Hg; by destruct g|intros n' Hn Hne; by apply renamed_keys
         |intros n' [= <-] Hfrom; by apply renamed_keys]);
    split_and!; try assumption; cbn;
    first [ by apply (Forall_map_set (fun t => refs_ok _ t.(at_refs)))
          | by apply (Forall_map_delete (fun t => refs_ok _ t.(at_refs)))
          | by apply (Forall_map_set (fun t => refs_ok _ t.(ac_refs)))
          | by apply (Forall_map_delete (fun t => refs_ok _ t.(ac_refs)))
          | by apply (Forall_map_set (fun t => Forall (refs_ok _) (component_legs t)))
          | by apply (Forall_map_delete (fun t => Forall (refs_ok _) (component_legs t))) ].
Qed.

(** No reference dangles. In every state the builder can reach (any
    sequence of adding, editing, renaming and removing policies and targets,
    where a target's references are picked among the existing policies), every
    timeout, retry and circuit breaker a target names is a policy of that
    kind: renames and removals cascade into all targets. *)
Theorem references_resolve (s : ResiliencyState) : reachable s -> resolved s.
Proof.
  induction 1 as [|s a _ IH O]; [|by apply reducer_resolved].
  unfold resolved, target_ok. cbn. split_and!; constructor.
Qed.

Definition retry_refs (r : string) : PolicyRefs :=
  {| pr_timeout := None; pr_retry := Some r; pr_circuitBreaker := None |}.
Definition resiliency_actions : list Action :=
  [UPSERT_RETRY "retry1" (presetToRetryPolicy (preset "" RConstant "1s" ""));
   UPSERT_APP "orders" {| at_refs := retry_refs "retry1" |}; RENAME_RETRY "retry1" "retry2"].

Lemma references_resolve_witness :
  resolved (fold_left reducer resiliency_actions initialState)
  /\ (fold_left reducer resiliency_actions initialState).(config).(targets).(apps)
     = Some [("orders", {| at_refs := retry_refs "retry2" |})].
Proof.
  split; [|vm_compute; reflexivity]. apply (references_resolve (fold_left reducer resiliency_actions initialState)).
  repeat (apply reach_step); [apply reach_initial|exact I| |exact I].
  intros f n. destruct f; cbn; try discriminate. intros [= <-]. by left.
Defined.
