(* ===== verification/ResiliencyDialogs.v ===== *)
(** * The dialogs of the resiliency builder

    [pages/resiliency-builder/policyDialogs.tsx], [targetDialogs.tsx] and the
    helpers of [components/form/DialogShell.tsx]: the fields of each dialog,
    what they are when it opens, which are shown, when Save is enabled, and the
    record that is saved.  [Number] of a text and [toString] of a number are
    parameters. *)

From S2P Require Import Prelude JsNum Decimal JsMap Json Text Validation YamlEmit ResiliencyBuilder.
#[local] Open Scope Z_scope.
#[local] Open Scope string_scope.

(** ** Names *)

(** A text used as a condition, and [if (v) t.field = v]. *)
Definition truthy (v : string) : bool := negb (String.eqb v "").
Definition if_given (v : string) : option string := if truthy v then Some v else None.

Definition duplicateNameError (name : string) (existingNames : list string) (editing : bool)
    (initialName : option string) (what : string) : option string :=
  if negb (bool_decide (name ∈ existingNames)) then None
  else if editing && bool_decide (initialName = Some name) then None
  else Some ("A " ++ what ++ " with this name already exists").

(** [o?.f], for a field [f] that may be absent. *)
Definition chain {A B} (o : option A) (f : A -> option B) : option B :=
  match o with Some a => f a | None => None end.

(** [e ?? f]: the first error. *)
Definition first_error (e f : option string) : option string := match e with Some _ => e | None => f end.

Definition policy_nameErr (name : string) (reserved : option string) (duplicate : option string) : option string :=
  if String.eqb name "" then Some "Name is required"
  else first_error (validateResourceName (u name)) (first_error reserved duplicate).

Definition target_nameErr (name : string) (duplicate : option string) : option string :=
  first_error (validateResourceName (u name)) duplicate.

Definition no_error (e : option string) : bool := match e with None => true | Some _ => false end.

(** ** What a user can change

    One constructor per control; a control that is not shown does nothing. *)

Inductive Edit :=
  | EName (v : string)
  | EDuration (v : string)
  | EPolicyType (v : string)
  | EMaxInterval (v : string)
  | EMaxRetries (v : string)
  | EHttp (v : string)
  | EGrpc (v : string)
  | EMaxRequests (v : string)
  | ETimeout (v : string)
  | ETrip (v : string)
  | EInterval (v : string)
  | EPick (f : PolicyField) (v : string)
  | EScope (v : CbScope)
  | ECacheSize (v : string)
  | EDirection (v : string).

(** ** Policies *)

Record TimeoutForm := { tf_name : string; tf_duration : string }.

Definition timeout_form (initialName : string) (initialDuration : option string) : TimeoutForm :=
  {| tf_name := initialName; tf_duration := default "5s" initialDuration |}.

Definition timeout_edit (f : TimeoutForm) (e : Edit) : TimeoutForm :=
  match e with EName v => {| f with tf_name := v |} | EDuration v => {| f with tf_duration := v |} | _ => f end.

Definition required_duration (v : string) : bool := truthy v && validateGoDuration (u v).

Definition timeout_canSave (editing : bool) (existingNames : list string) (initialName : option string)
    (f : TimeoutForm) : bool :=
  let nameErr := policy_nameErr f.(tf_name) None
                   (duplicateNameError f.(tf_name) existingNames editing initialName "timeout policy") in
  no_error nameErr && required_duration f.(tf_duration).

Record RetryForm := {
  rf_name : string;
  rf_policy : RetryKind;
  rf_duration : string;
  rf_maxInterval : string;
  rf_maxRetries : string;
  rf_http : string;
  rf_grpc : string
}.

Record CbForm := {
  cf_name : string;
  cf_maxRequests : string;
  cf_timeoutDur : string;
  cf_trip : string;
  cf_intervalDur : string
}.

Definition retry_edit (lockName : bool) (f : RetryForm) (e : Edit) : RetryForm :=
  match e with
  | EName v => if lockName then f else {| f with rf_name := v |}
  | EPolicyType v => {| f with rf_policy := if String.eqb v "exponential" then RExponential else RConstant |}
  | EDuration v => match f.(rf_policy) with RConstant => {| f with rf_duration := v |} | RExponential => f end
  | EMaxInterval v => match f.(rf_policy) with RConstant => f | RExponential => {| f with rf_maxInterval := v |} end
  | EMaxRetries v => {| f with rf_maxRetries := v |}
  | EHttp v => {| f with rf_http := v |}
  | EGrpc v => {| f with rf_grpc := v |}
  | _ => f
  end.

Definition dquote : string := String (Ascii.ascii_of_nat 34) "".
Definition reservedErr (lockName : bool) (name : string) : option string :=
  if negb lockName && isDefaultPolicyName name
  then Some ("Names starting with " ++ dquote ++ "DaprBuiltIn" ++ dquote ++ " are reserved for built-in overrides")
  else None.

Definition retry_canSave (editing lockName : bool) (existingNames : list string) (initialName : option string)
    (f : RetryForm) : bool :=
  let nameErr := policy_nameErr f.(rf_name) (reservedErr lockName f.(rf_name))
                   (duplicateNameError f.(rf_name) existingNames editing initialName "retry policy") in
  let durField := match f.(rf_policy) with RConstant => f.(rf_duration) | RExponential => f.(rf_maxInterval) end in
  let codesOk := no_error (validateStatusCodes (u f.(rf_http))) && no_error (validateStatusCodes (u f.(rf_grpc))) in
  no_error nameErr && required_duration durField && no_error (integerError (u f.(rf_maxRetries))) && codesOk.

Definition cb_edit (f : CbForm) (e : Edit) : CbForm :=
  match e with
  | EName v => {| f with cf_name := v |}
  | EMaxRequests v => {| f with cf_maxRequests := v |}
  | ETimeout v => {| f with cf_timeoutDur := v |}
  | ETrip v => {| f with cf_trip := v |}
  | EInterval v => {| f with cf_intervalDur := v |}
  | _ => f
  end.

Definition cb_canSave (editing : bool) (existingNames : list string) (initialName : option string) (f : CbForm) : bool :=
  let nameErr := policy_nameErr f.(cf_name) None
                   (duplicateNameError f.(cf_name) existingNames editing initialName "circuit breaker policy") in
  no_error nameErr && no_error (integerError (u f.(cf_maxRequests)))
  && validateGoDuration (u f.(cf_timeoutDur)) && validateGoDuration (u f.(cf_intervalDur)).

Section Numbers.
Context (Number : string -> num) (toString : num -> string).

Definition retry_form (initialName : string) (initialPolicy : option RetryPolicy) : RetryForm := {|
  rf_name := initialName;
  rf_policy := default RConstant (chain initialPolicy rp_policy);
  rf_duration := default "5s" (chain initialPolicy rp_duration);
  rf_maxInterval := default "60s" (chain initialPolicy rp_maxInterval);
  rf_maxRetries := default "-1" (option_map toString (chain initialPolicy rp_maxRetries));
  rf_http := default "" (chain (chain initialPolicy rp_matching) rm_http);
  rf_grpc := default "" (chain (chain initialPolicy rp_matching) rm_grpc) |}.

(** [v === '' ? undefined : Number(v)]. *)
Definition number_given (v : string) : option num := if String.eqb v "" then None else Some (Number v).

Definition retry_saved (keepDurationForExponential : bool) (f : RetryForm) : RetryPolicy := {|
  rp_policy := Some f.(rf_policy);
  rp_maxRetries := number_given f.(rf_maxRetries);
  rp_matching := Some {| rm_http := Some f.(rf_http); rm_grpc := Some f.(rf_grpc) |};
  rp_duration := match f.(rf_policy) with
                 | RConstant => Some f.(rf_duration)
                 | RExponential => if keepDurationForExponential then if_given f.(rf_duration) else None
                 end;
  rp_maxInterval := match f.(rf_policy) with RConstant => None | RExponential => Some f.(rf_maxInterval) end |}.

Definition cb_form (initialName : string) (initialPolicy : option CircuitBreakerPolicy) : CbForm := {|
  cf_name := initialName;
  cf_maxRequests := default "1" (option_map toString (chain initialPolicy cb_maxRequests));
  cf_timeoutDur := default "45s" (chain initialPolicy cb_timeout);
  cf_trip := default "consecutiveFailures >= 5" (chain initialPolicy cb_trip);
  cf_intervalDur := default "8s" (chain initialPolicy cb_interval) |}.

Definition cb_saved (f : CbForm) : CircuitBreakerPolicy := {|
  cb_maxRequests := number_given f.(cf_maxRequests);
  cb_timeout := Some f.(cf_timeoutDur);
  cb_trip := Some f.(cf_trip);
  cb_interval := Some f.(cf_intervalDur) |}.

(** ** Targets

    The three policy pickers offer the existing names, or none. *)

Record Pickers := { pk_timeout : string; pk_retry : string; pk_cb : string }.

Definition pickers_form (refs : option PolicyRefs) : Pickers := {|
  pk_timeout := default "" (chain refs pr_timeout);
  pk_retry := default "" (chain refs pr_retry);
  pk_cb := default "" (chain refs pr_circuitBreaker) |}.

Definition picked (f : PolicyField) (k : Pickers) : string :=
  match f with FTimeout => k.(pk_timeout) | FRetry => k.(pk_retry) | FCircuitBreaker => k.(pk_cb) end.

Definition pick (p : Policies) (k : Pickers) (f : PolicyField) (v : string) : Pickers :=
  if bool_decide (v ∈ "" :: policy_names p f) then
    match f with
    | FTimeout => {| k with pk_timeout := v |}
    | FRetry => {| k with pk_retry := v |}
    | FCircuitBreaker => {| k with pk_cb := v |}
    end
  else k.

Definition anyPolicy (k : Pickers) : bool := truthy k.(pk_timeout) || truthy k.(pk_retry) || truthy k.(pk_cb).

Definition leg (k : Pickers) : PolicyRefs := {|
  pr_timeout := if_given k.(pk_timeout); pr_retry := if_given k.(pk_retry); pr_circuitBreaker := if_given k.(pk_cb) |}.

Record AppForm := { af_name : string; af_pick : Pickers }.

Definition app_form (initialName : option string) (initialTarget : option AppTarget) : AppForm :=
  {| af_name := default "" initialName; af_pick := pickers_form (option_map at_refs initialTarget) |}.
Definition app_edit (p : Policies) (f : AppForm) (e : Edit) : AppForm :=
  match e with
  | EName v => {| f with af_name := v |}
  | EPick g v => {| f with af_pick := pick p f.(af_pick) g v |}
  | _ => f
  end.
Definition app_canSave (editing : bool) (existingNames : list string) (initialName : option string) (f : AppForm) : bool :=
  no_error (target_nameErr f.(af_name) (duplicateNameError f.(af_name) existingNames editing initialName "app target"))
  && anyPolicy f.(af_pick).
Definition app_saved (f : AppForm) : AppTarget := {| at_refs := leg f.(af_pick) |}.

Record ActorForm := { xf_name : string; xf_pick : Pickers; xf_scope : CbScope; xf_cacheSize : string }.

Definition actor_form (initialName : option string) (initialTarget : option ActorTarget) : ActorForm := {|
  xf_name := default "" initialName;
  xf_pick := pickers_form (option_map ac_refs initialTarget);
  xf_scope := default ScopeNone (chain initialTarget ac_circuitBreakerScope);
  xf_cacheSize := default "" (option_map toString (chain initialTarget ac_circuitBreakerCacheSize)) |}.
(** The scope and the cache size are shown when a circuit breaker is picked. *)
Definition actor_edit (p : Policies) (f : ActorForm) (e : Edit) : ActorForm :=
  match e with
  | EName v => {| f with xf_name := v |}
  | EPick g v => {| f with xf_pick := pick p f.(xf_pick) g v |}
  | EScope v => if truthy f.(xf_pick).(pk_cb) then {| f with xf_scope := v |} else f
  | ECacheSize v => if truthy f.(xf_pick).(pk_cb) then {| f with xf_cacheSize := v |} else f
  | _ => f
  end.
Definition actor_canSave (editing : bool) (existingNames : list string) (initialName : option string)
    (f : ActorForm) : bool :=
  no_error (target_nameErr f.(xf_name) (duplicateNameError f.(xf_name) existingNames editing initialName "actor target"))
  && anyPolicy f.(xf_pick) && no_error (integerError (u f.(xf_cacheSize))).
Definition actor_saved (f : ActorForm) : ActorTarget := {|
  ac_refs := leg f.(xf_pick);
  ac_circuitBreakerScope :=
    if truthy f.(xf_pick).(pk_cb) then match f.(xf_scope) with ScopeNone => None | s => Some s end else None;
  ac_circuitBreakerCacheSize := if truthy f.(xf_pick).(pk_cb) then number_given f.(xf_cacheSize) else None |}.

Inductive Direction := Outbound | Inbound | BothWays.

Record ComponentForm := { mf_name : string; mf_direction : Direction; mf_pick : Pickers }.

Definition component_form (initialName : option string) (initialTarget : option ComponentTarget) : ComponentForm :=
  let out := chain initialTarget ct_outbound in
  let inb := chain initialTarget ct_inbound in
  {| mf_name := default "" initialName;
     mf_direction := match out, inb with Some _, Some _ => BothWays | _, Some _ => Inbound | _, None => Outbound end;
     mf_pick := pickers_form (match out with Some _ => out | None => inb end) |}.
Definition component_edit (p : Policies) (f : ComponentForm) (e : Edit) : ComponentForm :=
  match e with
  | EName v => {| f with mf_name := v |}
  | EPick g v => {| f with mf_pick := pick p f.(mf_pick) g v |}
  | EDirection v => {| f with mf_direction :=
      if String.eqb v "inbound" then Inbound else if String.eqb v "both" then BothWays else Outbound |}
  | _ => f
  end.
Definition component_canSave (editing : bool) (existingNames : list string) (initialName : option string)
    (f : ComponentForm) : bool :=
  no_error (target_nameErr f.(mf_name)
              (duplicateNameError f.(mf_name) existingNames editing initialName "component target"))
  && anyPolicy f.(mf_pick).
Definition component_saved (f : ComponentForm) : ComponentTarget := {|
  ct_outbound := match f.(mf_direction) with Outbound | BothWays => Some (leg f.(mf_pick)) | Inbound => None end;
  ct_inbound := match f.(mf_direction) with Inbound | BothWays => Some (leg f.(mf_pick)) | Outbound => None end |}.
End Numbers.
