(* ===== verification/ResiliencyPage.v ===== *)
(** * The resiliency builder's pages

    [pages/resiliency-builder/ResiliencyBuilder.tsx], [StepGeneral.tsx],
    [StepPolicies.tsx], [StepTargets.tsx] and the buttons of
    [components/wizard/StepNav.tsx]: what each click does, through the dialogs,
    to the builder's state.  A dialog covers the page it was opened from; the
    page of another step is not mounted, so one field holds the open dialog.  And what the
    document assembled from the builder's state holds. *)

From S2P Require Import Prelude JsNum Decimal JsMap Json Text Validation YamlEmit ResiliencyBuilder ResiliencyDialogs.
#[local] Open Scope Z_scope.
#[local] Open Scope string_scope.

Section Page.
Context (Number : string -> num) (toString : num -> string).

(** ** Dialogs

    A dialog is the record it edits ([None] for a new one) and its fields. *)

Inductive Dialog :=
  | DTimeout (editName : option string) (f : TimeoutForm)
  | DRetry (editName : option string) (f : RetryForm)
  | DCb (editName : option string) (f : CbForm)
  | DOverride (label : string) (editing : bool) (f : RetryForm)
  | DApp (editName : option string) (f : AppForm)
  | DActor (editName : option string) (f : ActorForm)
  | DComponent (editName : option string) (f : ComponentForm).

Inductive Kind := KTimeout | KRetry | KCb | KApp | KActor | KComponent.

Definition editing (editName : option string) : bool := truthy (default "" editName).
Definition all_apps (s : ResiliencyState) : JsMap string AppTarget := default [] s.(config).(targets).(apps).
Definition all_actors (s : ResiliencyState) : JsMap string ActorTarget := default [] s.(config).(targets).(actors).
Definition all_components (s : ResiliencyState) : JsMap string ComponentTarget :=
  default [] s.(config).(targets).(components).

Definition customRetryNames (p : Policies) : list string :=
  List.filter (fun n => negb (isDefaultPolicyName n)) (keys p.(retries)).

(** The names a list shows, each with its edit and its remove button. *)
Definition listed_names (s : ResiliencyState) (k : Kind) : list string :=
  match k with
  | KTimeout => keys s.(config).(policies).(timeouts)
  | KRetry => customRetryNames s.(config).(policies)
  | KCb => keys s.(config).(policies).(circuitBreakers)
  | KApp => keys (all_apps s)
  | KActor => keys (all_actors s)
  | KComponent => keys (all_components s)
  end.

Definition open_dialog (s : ResiliencyState) (k : Kind) (editName : option string) : Dialog :=
  let pol := s.(config).(policies) in
  let initial prefix names := default (default "" (nextName prefix names)) editName in
  let edited {A} (m : JsMap string A) := if editing editName then map_get (default "" editName) m else None in
  match k with
  | KTimeout => DTimeout editName (timeout_form (initial "timeout" (keys pol.(timeouts))) (edited pol.(timeouts)))
  | KRetry => DRetry editName (retry_form toString (initial "retry" (keys pol.(retries))) (edited pol.(retries)))
  | KCb => DCb editName
      (cb_form toString (initial "circuitBreaker" (keys pol.(circuitBreakers))) (edited pol.(circuitBreakers)))
  | KApp => DApp editName (app_form editName (edited (all_apps s)))
  | KActor => DActor editName (actor_form toString editName (edited (all_actors s)))
  | KComponent => DComponent editName (component_form editName (edited (all_components s)))
  end.

Definition override_labels : list string := map dp_label DEFAULT_DAPR_RETRY_POLICIES.

Definition open_override (s : ResiliencyState) (label : string) : Dialog :=
  let saved := map_get label s.(config).(policies).(retries) in
  let initialPolicy :=
    match saved with
    | Some p => Some p
    | None => option_map presetToRetryPolicy
                (List.find (fun p => String.eqb p.(dp_label) label) DEFAULT_DAPR_RETRY_POLICIES)
    end in
  DOverride label (match saved with Some _ => true | None => false end) (retry_form toString label initialPolicy).

Definition edit_dialog (p : Policies) (d : Dialog) (e : Edit) : Dialog :=
  match d with
  | DTimeout n f => DTimeout n (timeout_edit f e)
  | DRetry n f => DRetry n (retry_edit false f e)
  | DCb n f => DCb n (cb_edit f e)
  | DOverride l b f => DOverride l b (retry_edit true f e)
  | DApp n f => DApp n (app_edit p f e)
  | DActor n f => DActor n (actor_edit p f e)
  | DComponent n f => DComponent n (component_edit p f e)
  end.

Definition dialog_canSave (s : ResiliencyState) (d : Dialog) : bool :=
  let pol := s.(config).(policies) in
  match d with
  | DTimeout n f => timeout_canSave (editing n) (keys pol.(timeouts)) n f
  | DRetry n f => retry_canSave (editing n) false (keys pol.(retries)) n f
  | DCb n f => cb_canSave (editing n) (keys pol.(circuitBreakers)) n f
  | DOverride l b f => retry_canSave b true [] (Some l) f
  | DApp n f => app_canSave (editing n) (keys (all_apps s)) n f
  | DActor n f => actor_canSave (editing n) (keys (all_actors s)) n f
  | DComponent n f => component_canSave (editing n) (keys (all_components s)) n f
  end.

(** What Save dispatches. *)
Definition saved_actions (d : Dialog) : list Action :=
  match d with
  | DTimeout n f => upsertWithRename n f.(tf_name) RENAME_TIMEOUT (UPSERT_TIMEOUT f.(tf_name) f.(tf_duration))
  | DRetry n f => upsertWithRename n f.(rf_name) RENAME_RETRY (UPSERT_RETRY f.(rf_name) (retry_saved Number false f))
  | DCb n f => upsertWithRename n f.(cf_name) RENAME_CB (UPSERT_CB f.(cf_name) (cb_saved Number f))
  | DOverride l _ f => [UPSERT_RETRY l (retry_saved Number true f)]
  | DApp n f => upsertWithRename n f.(af_name) (fun from _ => REMOVE_APP from) (UPSERT_APP f.(af_name) (app_saved f))
  | DActor n f =>
      upsertWithRename n f.(xf_name) (fun from _ => REMOVE_ACTOR from) (UPSERT_ACTOR f.(xf_name) (actor_saved Number f))
  | DComponent n f =>
      upsertWithRename n f.(mf_name) (fun from _ => REMOVE_COMPONENT from)
        (UPSERT_COMPONENT f.(mf_name) (component_saved f))
  end.

Definition remove_action (k : Kind) (name : string) : Action :=
  match k with
  | KTimeout => REMOVE_TIMEOUT name
  | KRetry => REMOVE_RETRY name
  | KCb => REMOVE_CB name
  | KApp => REMOVE_APP name
  | KActor => REMOVE_ACTOR name
  | KComponent => REMOVE_COMPONENT name
  end.

(** ** The page *)

Record Page := { pg_state : ResiliencyState; pg_dialog : option Dialog }.
Definition opened_page : Page := {| pg_state := initialState; pg_dialog := None |}.
Definition dispatch (s : ResiliencyState) (actions : list Action) : ResiliencyState := fold_left reducer actions s.

Definition step_of (k : Kind) : Z := match k with KTimeout | KRetry | KCb => 1 | _ => 2 end.
Definition stepCount : Z := 4.

(** The page of step [i] is shown, and not covered by a dialog. *)
Definition uncovered (p : Page) (i : Z) : bool :=
  (p.(pg_state).(rs_activeStep) =? i)%Z && match p.(pg_dialog) with None => true | Some _ => false end.

Inductive Click :=
  | TypeName (v : string)
  | TypeNamespace (v : string)
  | ClickAdd (k : Kind)
  | ClickEdit (k : Kind) (name : string)
  | ClickRemove (k : Kind) (name : string)
  | ClickOverride (label : string)
  | ClickRemoveOverride (label : string)
  | ChangeField (e : Edit)
  | ClickSave
  | ClickCancel
  | ClickContinue
  | ClickBack.

Definition dispatched (p : Page) (guard : bool) (actions : list Action) : Page :=
  if guard then {| pg_state := dispatch p.(pg_state) actions; pg_dialog := None |} else p.

(** A click on something that is not there, or not enabled, does nothing. *)
Definition click (p : Page) (c : Click) : Page :=
  let s := p.(pg_state) in
  let step := s.(rs_activeStep) in
  match c with
  | TypeName v => dispatched p (uncovered p 0) [SET_NAME v]
  | TypeNamespace v => dispatched p (uncovered p 0) [SET_NAMESPACE v]
  | ClickAdd k =>
      if uncovered p (step_of k) then {| p with pg_dialog := Some (open_dialog s k None) |} else p
  | ClickEdit k name =>
      if uncovered p (step_of k) && bool_decide (name ∈ listed_names s k)
      then {| p with pg_dialog := Some (open_dialog s k (Some name)) |} else p
  | ClickRemove k name =>
      dispatched p (uncovered p (step_of k) && bool_decide (name ∈ listed_names s k)) [remove_action k name]
  | ClickOverride label =>
      if uncovered p 1 && bool_decide (label ∈ override_labels)
      then {| p with pg_dialog := Some (open_override s label) |} else p
  | ClickRemoveOverride label =>
      dispatched p (uncovered p 1 && bool_decide (label ∈ override_labels) && map_has label s.(config).(policies).(retries))
        [REMOVE_RETRY label]
  | ChangeField e => {| p with pg_dialog := (fun d => edit_dialog s.(config).(policies) d e) <$> p.(pg_dialog) |}
  | ClickSave =>
      match p.(pg_dialog) with
      | Some d => dispatched p (dialog_canSave s d) (saved_actions d)
      | None => p
      end
  | ClickCancel => {| p with pg_dialog := None |}
  | ClickContinue =>
      dispatched p (uncovered p step && negb (step =? stepCount - 1)%Z && canContinue s) [NEXT]
  | ClickBack => dispatched p (uncovered p step && (0 <? step)%Z) [BACK]
  end.

Definition clicks (cs : list Click) : Page := fold_left click cs opened_page.

(** ** What a valid document is *)

Definition name_ok (n : string) : Prop := validateResourceName (u n) = None.
Definition duration_ok (o : option string) : Prop := exists d, o = Some d /\ required_duration d = true.
Definition optional_duration_ok (o : option string) : Prop := exists d, o = Some d /\ validateGoDuration (u d) = true.
Definition codes_ok (o : option string) : Prop := exists t, o = Some t /\ validateStatusCodes (u t) = None.

(** An optional number is the number of a text the integer check accepts. *)
Definition integer_ok (o : option num) : Prop :=
  forall v, o = Some v -> exists t, t <> "" /\ integerError (u t) = None /\ v = Number t.

Definition timeout_ok (n d : string) : Prop := name_ok n /\ required_duration d = true.

(** A reserved name is a preset's. *)
Definition retry_name_ok (n : string) : Prop := name_ok n /\ (isDefaultPolicyName n = true -> n ∈ override_labels).

Definition retry_times_ok (n : string) (p : RetryPolicy) : Prop :=
  match p.(rp_policy) with
  | Some RConstant => duration_ok p.(rp_duration) /\ p.(rp_maxInterval) = None
  | Some RExponential =>
      duration_ok p.(rp_maxInterval) /\ (isDefaultPolicyName n = false -> p.(rp_duration) = None)
  | None => False
  end.

Definition retry_ok (n : string) (p : RetryPolicy) : Prop :=
  retry_name_ok n /\ retry_times_ok n p /\ integer_ok p.(rp_maxRetries)
  /\ exists m, p.(rp_matching) = Some m /\ codes_ok m.(rm_http) /\ codes_ok m.(rm_grpc).

Definition cb_ok (n : string) (p : CircuitBreakerPolicy) : Prop :=
  name_ok n /\ integer_ok p.(cb_maxRequests) /\ optional_duration_ok p.(cb_timeout)
  /\ optional_duration_ok p.(cb_interval) /\ is_Some p.(cb_trip).

Definition app_ok (n : string) (t : AppTarget) : Prop := name_ok n.

(** The settings of a circuit breaker come with one. *)
Definition actor_ok (n : string) (t : ActorTarget) : Prop :=
  name_ok n /\ integer_ok t.(ac_circuitBreakerCacheSize)
  /\ t.(ac_circuitBreakerScope) <> Some ScopeNone
  /\ (t.(ac_refs).(pr_circuitBreaker) = None -> t.(ac_circuitBreakerScope) = None /\ t.(ac_circuitBreakerCacheSize) = None).

(** A component has a leg; where it has both, they are the same. *)
Definition component_ok (n : string) (t : ComponentTarget) : Prop :=
  name_ok n /\ match t.(ct_outbound), t.(ct_inbound) with
               | Some a, Some b => a = b
               | None, None => False
               | _, _ => True
               end.

Definition entries_ok {V} (P : string -> V -> Prop) (m : JsMap string V) : Prop :=
  NoDup (keys m) /\ Forall (fun kv => P kv.1 kv.2) m.

Record config_ok (s : ResiliencyState) : Prop := {
  ok_timeouts : entries_ok timeout_ok s.(config).(policies).(timeouts);
  ok_retries : entries_ok retry_ok s.(config).(policies).(retries);
  ok_cbs : entries_ok cb_ok s.(config).(policies).(circuitBreakers);
  ok_apps : entries_ok app_ok (all_apps s);
  ok_actors : entries_ok actor_ok (all_actors s);
  ok_components : entries_ok component_ok (all_components s);
  ok_resolved : resolved s
}.

(** ** Maps of valid records *)

Lemma entries_set {V} (P : string -> V -> Prop) k v m : P k v -> entries_ok P m -> entries_ok P (map_set k v m).
Proof.
  intros Hv [Hn Hm]. split; [by apply keys_set_nodup|]. clear Hn.
  induction Hm as [|[k' v'] m H Hm IH]; cbn; [by repeat constructor|].
  destruct (decide (k = k')) as [->|]; by constructor.
Qed.

Lemma entries_delete {V} (P : string -> V -> Prop) k m : entries_ok P m -> entries_ok P (map_delete k m).
Proof.
  intros [Hn Hm]. split; [by apply keys_delete_nodup|]. clear Hn.
  induction Hm as [|[k' v'] m H Hm IH]; cbn; [constructor|]. destruct (decide (k = k')); [done|by constructor].
Qed.

Lemma entries_rename {V} (P : string -> V -> Prop) from to m :
  (forall v, P from v -> P to v) -> entries_ok P m -> entries_ok P (renamedKey m from to).
Proof.
  intros Hto [Hn Hm]. unfold renamedKey. destruct (negb _); [done|].
  apply (fold_left_inv (entries_ok P)); [|by split; constructor].
  intros next [k v] Hin Hnext. cbn. rewrite Forall_forall in Hm. specialize (Hm _ Hin). cbn in Hm.
  apply entries_set; [|done]. destruct (String.eqb_spec k from) as [->|]; [by apply Hto|done].
Qed.

Lemma entries_map {V} (P : string -> V -> Prop) (f : V -> V) (m : option (JsMap string V)) :
  (forall k v, P k v -> P k (f v)) -> entries_ok P (default [] m) -> entries_ok P (default [] (mapValues f m)).
Proof.
  destruct m as [m|]; [|done]. intros Hf [Hn Hm]. cbn. split.
  - unfold keys in *. rewrite <- list_fmap_compose. exact Hn.
  - apply Forall_map. eapply Forall_impl; [exact Hm|]. intros [k v]. apply Hf.
Qed.

(** ** Actions that keep the document valid *)

Definition action_ok (s : ResiliencyState) (a : Action) : Prop :=
  let p := s.(config).(policies) in
  match a with
  | UPSERT_TIMEOUT n d => timeout_ok n d
  | UPSERT_RETRY n q => retry_ok n q
  | UPSERT_CB n q => cb_ok n q
  | RENAME_TIMEOUT _ to | RENAME_CB _ to => name_ok to
  | RENAME_RETRY from to => isDefaultPolicyName from = false /\ name_ok to /\ isDefaultPolicyName to = false
  | UPSERT_APP n t => app_ok n t /\ refs_ok p t.(at_refs)
  | UPSERT_ACTOR n t => actor_ok n t /\ refs_ok p t.(ac_refs)
  | UPSERT_COMPONENT n t => component_ok n t /\ Forall (refs_ok p) (component_legs t)
  | _ => True
  end.

Lemma action_ok_offered s a : action_ok s a -> offered s a.
Proof. destruct a; cbn; tauto. Qed.

(** The cascade of a renamed or removed policy keeps the targets valid. *)
Lemma remap_apps_ok t f from to :
  entries_ok app_ok (default [] t.(apps)) -> entries_ok app_ok (default [] (remapPolicyRefs t f from to).(apps)).
Proof. by apply entries_map. Qed.

Lemma remap_actors_ok t f from to :
  entries_ok actor_ok (default [] t.(actors)) -> entries_ok actor_ok (default [] (remapPolicyRefs t f from to).(actors)).
Proof.
  apply entries_map. intros n [[rt rr rc] sc cs] (Hn & Hi & Hs & Hc). unfold actor_ok in *. cbn in *.
  unfold remap_actor, remapRef. split; [done|].
  destruct to, f; cbn; repeat case_bool_decide; cbn; (split; [done|]); try done; intros E; try discriminate;
    by apply Hc.
Qed.

Lemma remap_components_ok t f from to :
  entries_ok component_ok (default [] t.(components)) ->
  entries_ok component_ok (default [] (remapPolicyRefs t f from to).(components)).
Proof. apply entries_map. intros n [[a|] [b|]] [Hn H]; split; try done. cbn in *. by rewrite H. Qed.

Lemma reducer_config_ok s a : config_ok s -> action_ok s a -> config_ok (reducer s a).
Proof.
  intros [Ht Hr Hc Ha Hx Hm Hres] Ok.
  assert (Hres' : resolved (reducer s a)) by (apply reducer_resolved; [done|by apply action_ok_offered]).
  destruct a; constructor; try exact Hres'; unfold all_apps, all_actors, all_components in *;
    cbn [reducer set_spec config policies targets timeouts retries circuitBreakers apps actors components default] in *;
    try assumption;
    first [ by apply remap_apps_ok | by apply remap_actors_ok | by apply remap_components_ok
          | apply entries_set; [by apply Ok|done] | by apply entries_delete | apply entries_rename; [|done] ].
  - intros v [_ H]. by split.
  - destruct Ok as (Hf & Hto & Hd). intros v ((_ & _) & Ht' & Hrest).
    split; [split; [done|by rewrite Hd]|]. split; [|done]. unfold retry_times_ok in *.
    destruct (rp_policy v) as [[]|]; [done| |done]. split; [apply Ht'|]. intros _. by apply Ht'.
  - intros v [_ H]. by split.
Qed.

(** ** What Save lets through *)

Lemma no_error_none e : no_error e = true <-> e = None.
Proof. by destruct e. Qed.

Lemma first_error_none e f : first_error e f = None <-> e = None /\ f = None.
Proof. destruct e; cbn; [|tauto]. by split; [|intros []]. Qed.

Lemma policy_nameErr_none n r d : no_error (policy_nameErr n r d) = true -> name_ok n /\ r = None /\ d = None.
Proof.
  unfold policy_nameErr. destruct (String.eqb n ""); [done|].
  rewrite no_error_none, !first_error_none. tauto.
Qed.

Lemma target_nameErr_none n d : no_error (target_nameErr n d) = true -> name_ok n /\ d = None.
Proof. unfold target_nameErr. rewrite no_error_none, first_error_none. tauto. Qed.

Lemma number_given_ok v : integerError (u v) = None -> integer_ok (number_given Number v).
Proof. unfold number_given. intros H x. destruct (String.eqb_spec v ""); [done|]. intros [= <-]. by exists v. Qed.

Lemma override_labels_reserved n : n ∈ override_labels -> isDefaultPolicyName n = true /\ name_ok n.
Proof.
  intros H. cut (Forall (fun n => isDefaultPolicyName n = true /\ name_ok n) override_labels).
  { intros G. rewrite Forall_forall in G. by apply G. }
  unfold name_ok. repeat constructor.
Qed.

Lemma retry_saved_ok ed lock names init keep f :
  retry_canSave ed lock names init f = true ->
  (lock = true -> keep = true /\ f.(rf_name) ∈ override_labels) -> (lock = false -> keep = false) ->
  retry_ok f.(rf_name) (retry_saved Number keep f) /\ (lock = false -> isDefaultPolicyName f.(rf_name) = false).
Proof.
  unfold retry_canSave. rewrite !andb_true_iff, !no_error_none. rewrite <- no_error_none.
  intros (((H & Hd) & Hi) & Hh & Hg) Hl Hk. apply policy_nameErr_none in H as (Hn & Hr & _).
  assert (Hdef : lock = false -> isDefaultPolicyName f.(rf_name) = false).
  { intros ->. unfold reservedErr in Hr. by destruct (isDefaultPolicyName (rf_name f)). }
  split; [|exact Hdef]. split; [split; [done|]|].
  { intros E. destruct lock; [by apply Hl|]. by rewrite Hdef in E. }
  split; [|split; [by apply number_given_ok|]].
  - unfold retry_times_ok, retry_saved. cbn. destruct (rf_policy f); (split; [by eexists|]); [done|].
    intros E. destruct lock; [|by rewrite Hk].
    destruct (override_labels_reserved (rf_name f)) as [E' _]; [by apply Hl|congruence].
  - eexists. split; [reflexivity|]. cbn. split; by eexists.
Qed.

Definition pickers_ok (p : Policies) (k : Pickers) : Prop := forall f, picked f k <> "" -> picked f k ∈ policy_names p f.

Lemma leg_ok p k : pickers_ok p k -> refs_ok p (leg k).
Proof.
  intros H f n. specialize (H f). unfold leg, if_given, truthy.
  destruct f; cbn in *;
    [destruct (String.eqb_spec (pk_timeout k) "")|destruct (String.eqb_spec (pk_retry k) "")
    |destruct (String.eqb_spec (pk_cb k) "")]; cbn; try done; intros [= <-]; by apply H.
Qed.

Lemma pickers_form_ok p refs : (forall r, refs = Some r -> refs_ok p r) -> pickers_ok p (pickers_form refs).
Proof.
  intros H f. destruct refs as [r|]; [|by destruct f]. specialize (H r eq_refl f).
  destruct f; cbn in *; [destruct (pr_timeout r)|destruct (pr_retry r)|destruct (pr_circuitBreaker r)]; cbn;
    try done; intros _; by apply H.
Qed.

Lemma pick_ok p k f v : pickers_ok p k -> pickers_ok p (pick p k f v).
Proof.
  intros H. unfold pick. case_bool_decide as Hv; [|done]. apply elem_of_cons in Hv.
  intros g. specialize (H g). destruct f, g; cbn in *; naive_solver.
Qed.

(** What the page knows of its open dialog. *)
Definition dialog_ok (s : ResiliencyState) (d : Dialog) : Prop :=
  let p := s.(config).(policies) in
  match d with
  | DTimeout _ _ | DCb _ _ => True
  | DRetry n _ => forall old, n = Some old -> isDefaultPolicyName old = false
  | DOverride l _ f => l ∈ override_labels /\ f.(rf_name) = l
  | DApp _ f => pickers_ok p f.(af_pick)
  | DActor _ f => pickers_ok p f.(xf_pick)
  | DComponent _ f => pickers_ok p f.(mf_pick)
  end.

Lemma upsert_config_ok s editName name ren up :
  config_ok s -> action_ok s up ->
  (forall old, editName = Some old -> action_ok s (ren old name) /\ action_ok (reducer s (ren old name)) up) ->
  config_ok (dispatch s (upsertWithRename editName name ren up)).
Proof.
  intros Hs Hu Hr. unfold upsertWithRename, dispatch.
  assert (One : config_ok (fold_left reducer [up] s)) by by apply reducer_config_ok.
  destruct editName as [old|]; [|done]. destruct (Hr old eq_refl) as [H1 H2].
  destruct old as [|c old]; [done|]. destruct (String.eqb _ _); [done|].
  cbn [fold_left]. apply reducer_config_ok; [|done]. by apply reducer_config_ok.
Qed.

Lemma saved_config_ok s d :
  config_ok s -> dialog_ok s d -> dialog_canSave s d = true -> config_ok (dispatch s (saved_actions d)).
Proof.
  intros Hs Hd. destruct d as [n f|n f|n f|l b f|n f|n f|n f]; cbn [dialog_canSave saved_actions dialog_ok] in *.
  - intros (H & Ht)%andb_true_iff. apply policy_nameErr_none in H as (Hn & _).
    by apply upsert_config_ok.
  - intros H. destruct (retry_saved_ok _ _ _ _ false _ H) as [Hr Hf]; [done|done|].
    apply upsert_config_ok; [done|done|]. intros old E. split; [|done].
    split_and!; [by apply Hd|apply Hr|by apply Hf].
  - unfold cb_canSave. rewrite !andb_true_iff. intros (((H & Hi) & Ht) & Hv). apply no_error_none in Hi.
    apply policy_nameErr_none in H as (Hn & _).
    assert (Hc : cb_ok (cf_name f) (cb_saved Number f)).
    { split; [done|]. split; [by apply number_given_ok|]. cbn. split_and!; by eexists. }
    by apply upsert_config_ok.
  - destruct Hd as [Hl Hf]. intros H. apply reducer_config_ok; [done|]. cbn. rewrite <- Hf.
    apply (retry_saved_ok _ true _ _ true _ H); [|done]. by rewrite Hf.
  - intros (H & _)%andb_true_iff. apply target_nameErr_none in H as (Hn & _).
    assert (Hok : refs_ok s.(config).(policies) (leg f.(af_pick))) by by apply leg_ok.
    by apply upsert_config_ok.
  - unfold actor_canSave. rewrite !andb_true_iff. intros ((H & _) & Hi). apply no_error_none in Hi.
    apply target_nameErr_none in H as (Hn & _).
    assert (Hok : refs_ok s.(config).(policies) (leg f.(xf_pick))) by by apply leg_ok.
    assert (Ha : actor_ok (xf_name f) (actor_saved Number f)).
    { split; [done|]. unfold actor_saved. cbn. unfold if_given. destruct (truthy (pk_cb (xf_pick f))); cbn.
      - split; [by apply number_given_ok|]. by destruct (xf_scope f).
      - split; [by intros ?|done]. }
    apply upsert_config_ok; [done|done|]. intros old _. by split.
  - intros (H & _)%andb_true_iff. apply target_nameErr_none in H as (Hn & _).
    assert (Hok : refs_ok s.(config).(policies) (leg f.(mf_pick))) by by apply leg_ok.
    assert (Hc : component_ok (mf_name f) (component_saved f)).
    { split; [done|]. unfold component_saved. by destruct (mf_direction f). }
    assert (Hl : Forall (refs_ok s.(config).(policies)) (component_legs (component_saved f))).
    { unfold component_saved, component_legs. destruct (mf_direction f); cbn; by repeat constructor. }
    apply upsert_config_ok; [done|done|]. intros old _. by split.
Qed.

(** ** Steps

    A step's actions leave what the earlier steps' gates look at alone. *)

Definition action_step (a : Action) : Z :=
  match a with
  | SET_NAME _ | SET_NAMESPACE _ => 0
  | UPSERT_TIMEOUT _ _ | REMOVE_TIMEOUT _ | RENAME_TIMEOUT _ _ | UPSERT_RETRY _ _ | REMOVE_RETRY _ | RENAME_RETRY _ _
  | UPSERT_CB _ _ | REMOVE_CB _ | RENAME_CB _ _ => 1
  | UPSERT_APP _ _ | REMOVE_APP _ | UPSERT_ACTOR _ _ | REMOVE_ACTOR _ | UPSERT_COMPONENT _ _ | REMOVE_COMPONENT _ => 2
  | NEXT | BACK => -1
  end.

Definition gate (s : ResiliencyState) (i : Z) : bool := canContinue {| s with rs_activeStep := i |}.
Definition passed (s : ResiliencyState) : Prop := forall i, (0 <= i < s.(rs_activeStep))%Z -> gate s i = true.

Lemma action_keeps_gates i s a :
  (0 <= i)%Z -> action_step a = i ->
  (reducer s a).(rs_activeStep) = s.(rs_activeStep) /\ forall j, (0 <= j < i)%Z -> gate (reducer s a) j = gate s j.
Proof.
  intros Hi Ha. subst i. destruct a; cbn in Hi |- *; try lia; (split; [reflexivity|]); intros j Hj; try lia;
    (assert (Hj' : j = 0%Z \/ j = 1%Z) by lia); destruct Hj' as [-> | ->]; try lia; reflexivity.
Qed.

Lemma dispatch_keeps_gates i actions : forall s,
  (0 <= i)%Z -> Forall (fun a => action_step a = i) actions ->
  (dispatch s actions).(rs_activeStep) = s.(rs_activeStep)
  /\ forall j, (0 <= j < i)%Z -> gate (dispatch s actions) j = gate s j.
Proof.
  unfold dispatch. induction actions as [|a actions IH]; intros s Hi H; [done|]. apply Forall_cons in H as [Ha H].
  destruct (action_keeps_gates i s a Hi Ha) as [H1 H2]. destruct (IH (reducer s a) Hi H) as [I1 I2].
  cbn [fold_left]. split; [by rewrite I1|]. intros j Hj. by rewrite I2, H2.
Qed.

Lemma dispatch_passed s actions :
  (0 <= s.(rs_activeStep))%Z -> Forall (fun a => action_step a = s.(rs_activeStep)) actions ->
  passed s -> passed (dispatch s actions) /\ (dispatch s actions).(rs_activeStep) = s.(rs_activeStep).
Proof.
  intros Hi H Hp. destruct (dispatch_keeps_gates _ actions s Hi H) as [E G]. split; [|done].
  intros j Hj. rewrite E in Hj. rewrite G by done. by apply Hp.
Qed.

Definition dialog_step (d : Dialog) : Z :=
  match d with DTimeout _ _ | DRetry _ _ | DCb _ _ | DOverride _ _ _ => 1 | _ => 2 end.

Lemma saved_actions_step d : Forall (fun a => action_step a = dialog_step d) (saved_actions d).
Proof.
  destruct d as [n f|n f|n f|l b f|n f|n f|n f]; cbn [saved_actions dialog_step]; [| | |by repeat constructor| | |];
    unfold upsertWithRename; destruct n as [[|c old]|]; cbn [action_step]; try (destruct (String.eqb _ _)); by repeat constructor.
Qed.

(** The record a dialog edits, and the kind it is of. *)
Definition dialog_kind (d : Dialog) : Kind :=
  match d with
  | DTimeout _ _ => KTimeout | DRetry _ _ | DOverride _ _ _ => KRetry | DCb _ _ => KCb
  | DApp _ _ => KApp | DActor _ _ => KActor | DComponent _ _ => KComponent
  end.
Definition dialog_old (d : Dialog) : option string :=
  match d with
  | DTimeout n _ | DRetry n _ | DCb n _ | DApp n _ | DActor n _ | DComponent n _ => n
  | DOverride _ _ _ => None
  end.

(** ** The invariant *)

Record page_ok (p : Page) : Prop := {
  page_config : config_ok p.(pg_state);
  page_step : (0 <= p.(pg_state).(rs_activeStep) < stepCount)%Z;
  page_passed : passed p.(pg_state);
  page_dialog : forall d, p.(pg_dialog) = Some d ->
    dialog_ok p.(pg_state) d /\ p.(pg_state).(rs_activeStep) = dialog_step d
    /\ forall old, dialog_old d = Some old -> old ∈ listed_names p.(pg_state) (dialog_kind d)
}.

Lemma uncovered_spec p i : uncovered p i = true -> p.(pg_state).(rs_activeStep) = i /\ p.(pg_dialog) = None.
Proof. unfold uncovered. intros (H%Z.eqb_eq & H')%andb_true_iff. by destruct (pg_dialog p). Qed.

Lemma page_ok_dispatch p guard actions :
  page_ok p ->
  (guard = true -> config_ok (dispatch p.(pg_state) actions)
                   /\ Forall (fun a => action_step a = p.(pg_state).(rs_activeStep)) actions) ->
  page_ok (dispatched p guard actions).
Proof.
  intros H Hg. unfold dispatched. destruct guard; [|done]. destruct (Hg eq_refl) as [Hc Ha].
  destruct H as [_ Hs Hp _]. destruct (dispatch_passed p.(pg_state) actions (proj1 Hs) Ha Hp) as [Hp' E].
  constructor; cbn; [done|by rewrite E|done|done].
Qed.

Lemma open_dialog_ok s k n :
  config_ok s -> (forall name, n = Some name -> name ∈ listed_names s k) ->
  dialog_ok s (open_dialog s k n) /\ dialog_step (open_dialog s k n) = step_of k.
Proof.
  intros [_ _ _ _ _ _ (Ha & Hx & Hm)] Hn. split; [|by destruct k].
  destruct k; cbn [open_dialog dialog_ok]; try done.
  - intros old ->. specialize (Hn old eq_refl). apply list_elem_of_In, filter_In in Hn as [_ Hn].
    by destruct (isDefaultPolicyName old).
  - apply pickers_form_ok. intros r. destruct (editing n); [|done]. unfold all_apps.
    destruct (map_get _ _) as [t|] eqn:E; [|done]. intros [= <-]. apply map_get_in in E.
    rewrite Forall_forall in Ha. by apply (Ha _ E).
  - apply pickers_form_ok. intros r. destruct (editing n); [|done]. unfold all_actors.
    destruct (map_get _ _) as [t|] eqn:E; [|done]. intros [= <-]. apply map_get_in in E.
    rewrite Forall_forall in Hx. by apply (Hx _ E).
  - apply pickers_form_ok. intros r. destruct (editing n); [|done]. unfold all_components.
    destruct (map_get _ _) as [t|] eqn:E; [|done]. apply map_get_in in E.
    rewrite Forall_forall in Hm. specialize (Hm _ E). cbn in Hm. unfold component_legs in Hm.
    destruct t as [[a|] [b|]]; cbn in *; intros [= <-]; by apply Forall_cons in Hm as [Hm _].
Qed.

Lemma edit_dialog_ok s d e :
  dialog_ok s d -> dialog_ok s (edit_dialog s.(config).(policies) d e)
  /\ dialog_step (edit_dialog s.(config).(policies) d e) = dialog_step d.
Proof.
  intros H. split; [|by destruct d]. destruct d as [n f|n f|n f|l b f|n f|n f|n f]; cbn in *; try done.
  - destruct H as [Hl Hf]. split; [done|]. destruct e; cbn; try done; by destruct (rf_policy f).
  - destruct e; cbn; try done. by apply pick_ok.
  - destruct e; cbn; try done; [by apply pick_ok|by destruct (truthy _)|by destruct (truthy _)].
  - destruct e; cbn; try done. by apply pick_ok.
Qed.

Lemma edit_dialog_same p d e :
  dialog_old (edit_dialog p d e) = dialog_old d /\ dialog_kind (edit_dialog p d e) = dialog_kind d.
Proof. by destruct d. Qed.

Lemma open_dialog_edits s k n : dialog_old (open_dialog s k n) = n /\ dialog_kind (open_dialog s k n) = k.
Proof. by destruct k. Qed.

Lemma page_ok_opened : page_ok opened_page.
Proof.
  constructor; cbn; [|done|unfold passed; cbn; intros i Hi; lia|done].
  constructor; [split; constructor..|]. split_and!; constructor.
Qed.

Lemma page_ok_open p k n :
  page_ok p -> uncovered p (step_of k) = true -> (forall name, n = Some name -> name ∈ listed_names p.(pg_state) k) ->
  page_ok {| p with pg_dialog := Some (open_dialog p.(pg_state) k n) |}.
Proof.
  intros [Hc Hs Hp _] [Hu _]%uncovered_spec Hn. constructor; cbn; [done..|].
  intros d [= <-]. destruct (open_dialog_ok _ k n Hc Hn) as [H1 H2].
  destruct (open_dialog_edits p.(pg_state) k n) as [-> ->]. rewrite H2. by split_and!.
Qed.

Lemma click_ok p c : page_ok p -> page_ok (click p c).
Proof.
  intros H. destruct c as [v|v|k|k n|k n|l|l|e| | | |]; cbn [click].
  - apply page_ok_dispatch; [done|]. intros [E _]%uncovered_spec. rewrite E.
    split; [|by repeat constructor]. by apply reducer_config_ok; [apply H|].
  - apply page_ok_dispatch; [done|]. intros [E _]%uncovered_spec. rewrite E.
    split; [|by repeat constructor]. by apply reducer_config_ok; [apply H|].
  - destruct (uncovered p (step_of k)) eqn:Hu; [|done]. by apply page_ok_open.
  - destruct (uncovered p (step_of k)) eqn:Hu; [|done]. case_bool_decide as Hn; [|done].
    apply page_ok_open; [done..|]. by intros ? [= <-].
  - apply page_ok_dispatch; [done|]. intros ([E _]%uncovered_spec & _)%andb_true_iff. rewrite E.
    split; [|by destruct k; repeat constructor]. by apply reducer_config_ok; [apply H|]; destruct k.
  - destruct (uncovered p 1) eqn:Hu; [|done]. case_bool_decide as Hl; [|done].
    apply uncovered_spec in Hu as [Hu _]. destruct H as [Hc Hs Hp _]. constructor; cbn; [done..|].
    intros d [= <-]. by split_and!.
  - apply page_ok_dispatch; [done|]. rewrite !andb_true_iff. intros (([E _]%uncovered_spec & _) & _). rewrite E.
    split; [|by repeat constructor]. by apply reducer_config_ok; [apply H|].
  - pose proof H as [Hc Hs Hp Hd]. constructor; cbn; [done..|].
    intros d. destruct (pg_dialog p) as [d0|]; [|done]. intros [= <-]. destruct (Hd d0 eq_refl) as (H1 & H2 & H3).
    destruct (edit_dialog_ok _ _ e H1) as [E1 E2].
    destruct (edit_dialog_same p.(pg_state).(config).(policies) d0 e) as [-> ->]. rewrite E2. by split_and!.
  - destruct (pg_dialog p) as [d|] eqn:Ed; [|done]. destruct (page_dialog p H d Ed) as (H1 & H2 & _).
    apply page_ok_dispatch; [done|]. intros Hs. split; [by apply saved_config_ok; [apply H| |]|].
    rewrite H2. apply saved_actions_step.
  - destruct H as [Hc Hs Hp _]. by constructor.
  - unfold dispatched. destruct (_ && _) eqn:E; [|done]. rewrite !andb_true_iff in E. destruct E as ((_ & E) & Hcan).
    apply negb_true_iff, Z.eqb_neq in E. destruct H as [Hc Hs Hp _].
    constructor; cbn; [by apply (reducer_config_ok _ NEXT)|unfold stepCount in *; lia| |done].
    intros i Hi. cbn in Hi. destruct (decide (i = p.(pg_state).(rs_activeStep))) as [->|].
    + unfold gate. destruct (pg_state p). exact Hcan.
    + unfold gate in *. apply (Hp i). lia.
  - unfold dispatched. destruct (_ && _) eqn:E; [|done]. rewrite !andb_true_iff in E. destruct E as (_ & E).
    apply Z.ltb_lt in E. destruct H as [Hc Hs Hp _].
    constructor; cbn; [by apply (reducer_config_ok _ BACK)|unfold stepCount in *; lia| |done].
    intros i Hi. cbn in Hi. apply (Hp i). lia.
Qed.

Lemma clicks_ok cs : page_ok (clicks cs).
Proof.
  apply (fold_left_inv page_ok); [|apply page_ok_opened]. intros p c _. apply click_ok.
Qed.

(** ** The document *)

Definition kind_path (k : Kind) : list string :=
  match k with
  | KTimeout => ["spec"; "policies"; "timeouts"]
  | KRetry => ["spec"; "policies"; "retries"]
  | KCb => ["spec"; "policies"; "circuitBreakers"]
  | KApp => ["spec"; "targets"; "apps"]
  | KActor => ["spec"; "targets"; "actors"]
  | KComponent => ["spec"; "targets"; "components"]
  end.

(** The records of a kind, as they are written to the document. *)
Definition table (k : Kind) (s : ResiliencyState) : JsMap string json :=
  let encode {V} (f : V -> json) (m : JsMap string V) := map (fun kv => (kv.1, f kv.2)) m in
  let p := s.(config).(policies) in
  match k with
  | KTimeout => encode JStr p.(timeouts)
  | KRetry => encode json_of_retry p.(retries)
  | KCb => encode json_of_cb p.(circuitBreakers)
  | KApp => encode json_of_app (all_apps s)
  | KActor => encode json_of_actor (all_actors s)
  | KComponent => encode json_of_component (all_components s)
  end.

(** What a document has under a name. *)
Definition doc_entry (doc : json) (k : Kind) (n : string) : option json := at_path (kind_path k ++ [n]) doc.

Lemma find_map_get (k : string) (fields : list (string * json)) :
  (kv ← List.find (fun kv => String.eqb kv.1 k) fields; Some kv.2) = map_get k fields.
Proof.
  induction fields as [|[k' v] fields IH]; [done|]. cbn [List.find fst map_get].
  destruct (String.eqb_spec k' k) as [->|Hne]; [by rewrite decide_True|]. by rewrite decide_False by congruence.
Qed.

Lemma table_keys k s : keys (table k s) =
  match k with
  | KTimeout => keys s.(config).(policies).(timeouts)
  | KRetry => keys s.(config).(policies).(retries)
  | KCb => keys s.(config).(policies).(circuitBreakers)
  | KApp => keys (all_apps s) | KActor => keys (all_actors s) | KComponent => keys (all_components s)
  end.
Proof. destruct k; unfold keys; cbn; rewrite <- list_fmap_compose; done. Qed.

Lemma table_nodup k s : config_ok s -> NoDup (table k s).*1.
Proof.
  intros [[Ht _] [Hr _] [Hc _] [Ha _] [Hx _] [Hm _] _]. change (NoDup (keys (table k s))). rewrite table_keys. by destruct k.
Qed.

Lemma at_object k path fields : NoDup fields.*1 ->
  at_path (k :: path) (recursivelyRemoveEmptyValues (JObj fields)) = v ← map_get k fields; pruned v ≫= at_path path.
Proof.
  intros Hn. rewrite at_remove, <- find_map_get by done. cbn [at_path]. by destruct (List.find _ _).
Qed.

Lemma at_object_below k k' path fields : NoDup fields.*1 ->
  at_path (k :: k' :: path) (recursivelyRemoveEmptyValues (JObj fields))
  = v ← map_get k fields; at_path (k' :: path) (recursivelyRemoveEmptyValues v).
Proof. intros Hn. rewrite at_object by done. destruct (map_get k fields); [apply pruned_below|done]. Qed.

(** The document has what pruning leaves of each record, and nothing else. *)
Lemma doc_entry_exact s k n :
  config_ok s -> doc_entry (assembleResiliency s.(config)) k n = map_get n (table k s) ≫= pruned.
Proof.
  intros Hs. pose proof (table_nodup k s Hs) as Hn.
  unfold doc_entry, assembleResiliency.
  transitivity (at_path (drop 1 (kind_path k) ++ [n]) (recursivelyRemoveEmptyValues (json_of_spec s.(config)))); [by destruct k|].
  assert (R : forall fields, fields = table k s ->
    at_path [n] (recursivelyRemoveEmptyValues (JObj fields)) = map_get n (table k s) ≫= pruned).
  { intros fields ->. rewrite at_remove by done. rewrite <- find_map_get. cbn [at_path].
    destruct (List.find _ _) as [[k0 v]|]; [|done]. cbn. by destruct (pruned v). }
  clear Hs Hn. destruct s as [[av kd nm ns sc [tm rt cb] [a x c]] st].
  assert (L2 : NoDup ["policies"; "targets"]) by by apply (bool_decide_unpack _).
  assert (L3 : NoDup ["timeouts"; "retries"; "circuitBreakers"]) by by apply (bool_decide_unpack _).
  assert (LT : NoDup (field "apps" (json_map json_of_app) a ++ field "actors" (json_map json_of_actor) x
                      ++ field "components" (json_map json_of_component) c)%list.*1)
    by (destruct a, x, c; by apply (bool_decide_unpack _)).
  unfold json_of_spec. destruct k; cbn [kind_path drop app config policies targets timeouts retries circuitBreakers
                   apps actors components]; rewrite at_object_below by done.
  1-3: refine (eq_trans (at_object_below _ n [] [("timeouts", _); ("retries", _); ("circuitBreakers", _)] L3) _);
    exact (R _ eq_refl).
  all: refine (eq_trans (at_object_below _ n [] (_ ++ _ ++ _) LT) _).
  - destruct a as [a|]; [exact (R _ eq_refl)|by destruct x, c].
  - destruct x as [x|]; [destruct a; exact (R _ eq_refl)|by destruct a, c].
  - destruct c as [c|]; [destruct a, x; exact (R _ eq_refl)|by destruct a, x].
Qed.

(** ** What is left out *)

Definition blank_text (o : option string) : Prop := forall t, o = Some t -> trim (u t) = [].
Definition names_none (r : PolicyRefs) : Prop := forall f, get_ref f r = None.

(** A circuit breaker with nothing filled in, and a target that names no policy. *)
Definition left_out (s : ResiliencyState) (k : Kind) (n : string) : Prop :=
  let p := s.(config).(policies) in
  match k with
  | KTimeout | KRetry => False
  | KCb => exists c, map_get n p.(circuitBreakers) = Some c /\ c.(cb_maxRequests) = None
             /\ blank_text c.(cb_timeout) /\ blank_text c.(cb_trip) /\ blank_text c.(cb_interval)
  | KApp => exists t, map_get n (all_apps s) = Some t /\ names_none t.(at_refs)
  | KActor => exists t, map_get n (all_actors s) = Some t /\ names_none t.(ac_refs)
  | KComponent => exists t, map_get n (all_components s) = Some t /\ Forall names_none (component_legs t)
  end.

Lemma trim_blank c t : js_space c = false -> trim (c :: t) <> [].
Proof.
  intros H E. unfold trim, trimStart, trimEnd, drop_while_end in E. cbn in E. rewrite H in E.
  apply (f_equal (@rev Z)) in E. rewrite rev_involutive in E. apply drop_while_nil in E. cbn [rev] in E. rewrite forallb_app in E.
  apply andb_true_iff in E as [_ E]. cbn in E. by rewrite H in E.
Qed.

Lemma letter_or_digit_solid c : is_letter c = true \/ is_digit_unit c = true -> js_space c = false.
Proof.
  unfold js_space, is_letter, is_upper, is_lower, is_digit_unit. cbn [existsb].
  rewrite !orb_true_iff, !orb_false_iff, !andb_true_iff, !andb_false_iff, !Z.leb_le, !Z.leb_gt, !Z.eqb_neq. lia.
Qed.

Lemma name_solid n : name_ok n -> trim (u n) <> [].
Proof.
  intros (c & t & -> & Hc & _)%validateResourceName_exact. apply trim_blank, letter_or_digit_solid. by left.
Qed.

Lemma duration_solid d : required_duration d = true -> trim (u d) <> [].
Proof.
  unfold required_duration, truthy. intros (Ht%negb_true_iff%String.eqb_neq & H)%andb_true_iff.
  apply validateGoDuration_exact in H. remember (u d) as t eqn:E.
  destruct H as [|n i units unit digits rest _ _ _ Hd _]; [by destruct d|].
  destruct digits as [|c digits]; [done|]. apply andb_true_iff in Hd as [Hd _].
  apply trim_blank, letter_or_digit_solid. by right.
Qed.

Lemma pruned_text t : pruned (JStr t) = None <-> trim (u t) = [].
Proof. unfold pruned. cbn. by destruct (trim (u t)). Qed.

Lemma pruned_field {A} k (f : A -> json) (v : option A) :
  Forall (fun kv => pruned kv.2 = None) (field k f v) <-> forall a, v = Some a -> pruned (f a) = None.
Proof. destruct v as [a|]; cbn; rewrite ?Forall_singleton; naive_solver. Qed.

Lemma pruned_texts k v : Forall (fun kv => pruned kv.2 = None) (field k JStr v) <-> blank_text v.
Proof. rewrite pruned_field. by setoid_rewrite pruned_text. Qed.

Lemma pruned_numbers k v : Forall (fun kv => pruned kv.2 = None) (field k JNum v) <-> v = None.
Proof. rewrite pruned_field. destruct v; naive_solver. Qed.

(** The names a valid target refers to. *)
Lemma policy_names_ok s f n : config_ok s -> n ∈ policy_names s.(config).(policies) f -> name_ok n.
Proof.
  intros [[_ Ht] [_ Hr] [_ Hc] _ _ _ _] H. rewrite Forall_forall in Ht. rewrite Forall_forall in Hr. rewrite Forall_forall in Hc.
  destruct f; apply list_elem_of_fmap in H as ([n' v] & -> & H);
    [by destruct (Ht _ H)|by destruct (Hr _ H) as [[] _]|by destruct (Hc _ H)].
Qed.

Lemma blank_ref s r f :
  config_ok s -> refs_ok s.(config).(policies) r -> blank_text (get_ref f r) <-> get_ref f r = None.
Proof.
  intros Hs Hr. split; [|by intros -> ?]. intros Hb. destruct (get_ref f r) as [n|] eqn:E; [|done]. exfalso.
  by apply (name_solid n); [apply (policy_names_ok s f), Hr|apply Hb].
Qed.

Lemma pruned_refs s r :
  config_ok s -> refs_ok s.(config).(policies) r ->
  Forall (fun kv => pruned kv.2 = None) (refs_fields r) <-> names_none r.
Proof.
  intros Hs Hr. unfold refs_fields. rewrite !Forall_app, !pruned_texts.
  pose proof (fun f => blank_ref s r f Hs Hr) as B.
  pose proof (B FTimeout) as B1. pose proof (B FRetry) as B2. pose proof (B FCircuitBreaker) as B3. cbn in B1, B2, B3.
  rewrite B1, B2, B3. unfold names_none. split; [intros (H1 & H2 & H3) []; done|].
  intros H. split_and!; [apply (H FTimeout)|apply (H FRetry)|apply (H FCircuitBreaker)].
Qed.

Lemma map_get_encoded {V} (f : V -> json) n (m : JsMap string V) :
  map_get n (map (fun kv => (kv.1, f kv.2)) m) = f <$> map_get n m.
Proof. induction m as [|[k v] m IH]; cbn; [done|]. by destruct (decide (n = k)). Qed.

Lemma entries_get {V} (P : string -> V -> Prop) n v m : entries_ok P m -> map_get n m = Some v -> P n v.
Proof. intros [_ H] E%map_get_in. rewrite Forall_forall in H. by apply (H _ E). Qed.

Lemma left_out_exact s k n :
  config_ok s -> map_get n (table k s) ≫= pruned = None <-> n ∉ keys (table k s) \/ left_out s k n.
Proof.
  intros Hs. pose proof Hs as [Ht Hr Hc Ha Hx Hm (Ra & Rx & Rm)].
  rewrite <- map_get_none.
  destruct k; cbn [table left_out]; rewrite !map_get_encoded.
  - destruct (map_get n _) as [d|] eqn:E; cbn [fmap option_fmap option_map mbind option_bind]; [|tauto].
    apply (entries_get _ _ _ _ Ht) in E as [_ E]. rewrite pruned_text. pose proof (duration_solid d E). naive_solver.
  - destruct (map_get n _) as [r|] eqn:E; cbn [fmap option_fmap option_map mbind option_bind]; [|tauto].
    apply (entries_get _ _ _ _ Hr) in E as (_ & E & _). unfold retry_times_ok, json_of_retry in *.
    rewrite pruned_fields, !Forall_app, pruned_field. destruct (rp_policy r) as [[]|]; naive_solver.
  - destruct (map_get n _) as [c|] eqn:E; cbn [fmap option_fmap option_map mbind option_bind]; [|naive_solver].
    unfold json_of_cb. rewrite pruned_fields, !Forall_app, pruned_numbers, !pruned_texts. naive_solver.
  - destruct (map_get n _) as [t|] eqn:E; cbn [fmap option_fmap option_map mbind option_bind]; [|naive_solver].
    apply map_get_in in E as E'. rewrite Forall_forall in Ra. apply Ra in E'. cbn in E'.
    unfold json_of_app. rewrite pruned_fields, (pruned_refs s) by done. naive_solver.
  - destruct (map_get n _) as [t|] eqn:E; cbn [fmap option_fmap option_map mbind option_bind]; [|naive_solver].
    apply map_get_in in E as E'. rewrite Forall_forall in Rx. apply Rx in E'. cbn in E'.
    apply (entries_get _ _ _ _ Hx) in E as (_ & _ & _ & Hcb).
    unfold json_of_actor. rewrite pruned_fields, !Forall_app, (pruned_refs s) by done. rewrite pruned_numbers, pruned_field.
    split; [intros [H _]; right; naive_solver|]. intros [?|(t' & [= <-] & H)]; [done|]. split; [done|].
    destruct (Hcb (H FCircuitBreaker)) as [-> ->]. done.
  - destruct (map_get n _) as [t|] eqn:E; cbn [fmap option_fmap option_map mbind option_bind]; [|naive_solver].
    apply map_get_in in E as E'. rewrite Forall_forall in Rm. apply Rm in E'. cbn in E'.
    unfold json_of_component. rewrite pruned_fields, !Forall_app, !pruned_field.
    unfold component_legs in *. apply Forall_app in E' as [Eo Ei].
    assert (G : forall o, Forall (refs_ok s.(config).(policies)) (opt_list o) ->
      (forall a, o = Some a -> pruned (JObj (refs_fields a)) = None) <-> Forall names_none (opt_list o)).
    { intros [r|]; cbn; [|by split]. intros [H _]%Forall_cons. rewrite Forall_singleton, <- (pruned_refs s), <- pruned_fields by done.
      naive_solver. }
    rewrite !G by done. setoid_rewrite Forall_app. naive_solver.
Qed.

(** ** What the document says *)

Lemma doc_below s k n key path :
  config_ok s ->
  at_path (kind_path k ++ n :: key :: path) (assembleResiliency s.(config))
  = v ← map_get n (table k s); at_path (key :: path) (recursivelyRemoveEmptyValues v).
Proof.
  intros Hs. change (n :: key :: path) with ([n] ++ key :: path)%list. rewrite app_assoc, at_path_app.
  pose proof (doc_entry_exact s k n Hs) as E. unfold doc_entry in E. rewrite E.
  destruct (map_get n (table k s)) as [v|]; [|done]. apply pruned_below.
Qed.

Lemma elem_field {A} k (f : A -> json) v key x : (key, x) ∈ field k f v <-> key = k /\ exists a, v = Some a /\ x = f a.
Proof. destruct v as [a|]; cbn; rewrite ?list_elem_of_singleton, ?elem_of_nil; naive_solver. Qed.

(** A text right under a record. *)
Lemma text_field key fields d :
  at_path [key] (recursivelyRemoveEmptyValues (JObj fields)) = Some (JStr d) -> (key, JStr d) ∈ fields.
Proof.
  intros (fields' & v & [= <-] & Hin & E)%text_below. cbn in E. injection E as E. apply removed_text in E. by subst.
Qed.

(** The kind of a policy a reference names, the keys of the references, and the
    legs of a target. *)
Definition policy_kind (f : PolicyField) : Kind :=
  match f with FTimeout => KTimeout | FRetry => KRetry | FCircuitBreaker => KCb end.
Definition field_key (f : PolicyField) : string :=
  match f with FTimeout => "timeout" | FRetry => "retry" | FCircuitBreaker => "circuitBreaker" end.
Definition leg_paths (k : Kind) : list (list string) :=
  match k with KApp | KActor => [[]] | KComponent => [["outbound"]; ["inbound"]] | _ => [] end.

Lemma ref_field f r x : (field_key f, JStr x) ∈ refs_fields r -> get_ref f r = Some x.
Proof.
  unfold refs_fields. rewrite !elem_of_app, !elem_field. destruct f; cbn; intros [(E & a & H)|[(E & a & H)|(E & a & H)]];
    try discriminate; by destruct H as [-> [= ->]].
Qed.

(** A reference in the document is one of the builder's. *)
Lemma doc_ref_held s k n leg f x :
  config_ok s -> leg ∈ leg_paths k ->
  at_path (kind_path k ++ n :: leg ++ [field_key f]) (assembleResiliency s.(config)) = Some (JStr x) ->
  x ∈ policy_names s.(config).(policies) f.
Proof.
  intros Hs Hleg. pose proof Hs as [_ _ _ _ _ _ (Ra & Rx & Rm)].
  destruct k; try (by apply elem_of_nil in Hleg).
  - apply list_elem_of_singleton in Hleg as ->. cbn [app]. rewrite doc_below by done. cbn [table].
    rewrite map_get_encoded. destruct (map_get n _) as [t|] eqn:E; [|done]. cbn [fmap option_fmap option_map mbind option_bind].
    intros H%text_field%ref_field. apply map_get_in in E. rewrite Forall_forall in Ra. by apply (Ra _ E) in H.
  - apply list_elem_of_singleton in Hleg as ->. cbn [app]. rewrite doc_below by done. cbn [table].
    rewrite map_get_encoded. destruct (map_get n _) as [t|] eqn:E; [|done]. cbn [fmap option_fmap option_map mbind option_bind].
    intros H%text_field. apply map_get_in in E. rewrite Forall_forall in Rx. apply Rx in E. apply E, ref_field.
    rewrite !elem_of_app, !elem_field in H. destruct H as [H|[[H _]|[H _]]]; [done|by destruct f..].
  - assert (G : exists l, leg = [l] /\ (l = "outbound" \/ l = "inbound")).
    { apply elem_of_cons in Hleg as [->|Hleg%list_elem_of_singleton]; [|subst]; eexists; eauto. }
    destruct G as (l & -> & Hl). cbn [app]. rewrite doc_below by done. cbn [table].
    rewrite map_get_encoded. destruct (map_get n _) as [t|] eqn:E; [|done]. cbn [fmap option_fmap option_map mbind option_bind].
    intros (fields & v & [= <-] & Hin & H)%text_below. apply map_get_in in E. rewrite Forall_forall in Rm. apply Rm in E.
    cbn in E. unfold component_legs in E. apply Forall_app in E as [Eo Ei].
    rewrite elem_of_app, !elem_field in Hin. destruct Hin as [(_ & r & Er & ->)|(_ & r & Er & ->)]; rewrite Er in *;
      apply text_field, ref_field in H; [apply Forall_cons in Eo as [Eo _]|apply Forall_cons in Ei as [Ei _]]; first [exact (Eo _ _ H)|exact (Ei _ _ H)].
Qed.

Lemma doc_ref_resolves s k n leg f x :
  config_ok s -> leg ∈ leg_paths k ->
  at_path (kind_path k ++ n :: leg ++ [field_key f]) (assembleResiliency s.(config)) = Some (JStr x) ->
  is_Some (doc_entry (assembleResiliency s.(config)) (policy_kind f) x) \/ left_out s (policy_kind f) x.
Proof.
  intros Hs Hleg Hx%doc_ref_held; [|done..]. rewrite doc_entry_exact by done.
  destruct (map_get x (table (policy_kind f) s) ≫= pruned) eqn:E; [by left|]. right.
  apply left_out_exact in E as [E|E]; [|done|done]. exfalso. apply E. rewrite table_keys. by destruct f.
Qed.

(** The durations of the document. *)
Lemma doc_timeout s n v :
  config_ok s -> doc_entry (assembleResiliency s.(config)) KTimeout n = Some v ->
  exists d, v = JStr d /\ required_duration d = true.
Proof.
  intros Hs. rewrite doc_entry_exact by done. cbn [table]. rewrite map_get_encoded.
  destruct (map_get n _) as [d|] eqn:E; [|done]. cbn [fmap option_fmap option_map mbind option_bind].
  apply (entries_get _ _ _ _ (ok_timeouts _ Hs)) in E as [_ E]. unfold pruned. cbn.
  destruct (trim (u d)); [done|]. intros [= <-]. by exists d.
Qed.

Lemma doc_retry_duration s n key d :
  config_ok s -> key = "duration" \/ key = "maxInterval" ->
  at_path (kind_path KRetry ++ [n; key]) (assembleResiliency s.(config)) = Some (JStr d) ->
  required_duration d = true
  \/ key = "duration" /\ n ∈ override_labels
     /\ at_path (kind_path KRetry ++ [n; "policy"]) (assembleResiliency s.(config)) = Some (JStr "exponential").
Proof.
  intros Hs Hk. rewrite !doc_below by done. cbn [table]. rewrite !map_get_encoded.
  destruct (map_get n _) as [r|] eqn:E; [|done]. cbn [fmap option_fmap option_map mbind option_bind].
  apply (entries_get _ _ _ _ (ok_retries _ Hs)) in E as ([_ Hd] & E & _).
  intros H%text_field. rewrite !elem_of_app, !elem_field in H. unfold retry_times_ok, duration_ok in E.
  destruct H as [[-> _]|[(-> & a & Ea & [= ->])|[[-> _]|[(-> & a & Ea & [= ->])|[-> _]]]]];
    try (destruct Hk; discriminate); destruct (rp_policy r) as [[]|] eqn:Ep; try done; rewrite Ea in *.
  - destruct E as [(? & [= <-] & E) _]. by left.
  - destruct (isDefaultPolicyName n) eqn:En; [|by destruct E as [_ E]; specialize (E eq_refl)].
    right. split_and!; [done|by apply Hd|]. unfold json_of_retry. rewrite Ep.
    apply remove_keeps; [done|]. split; [|done]. vm_compute. reflexivity.
  - by destruct E as [_ E].
  - destruct E as [(? & [= <-] & E) _]. by left.
Qed.

Lemma doc_cb_duration s n key d :
  config_ok s -> key = "timeout" \/ key = "interval" ->
  at_path (kind_path KCb ++ [n; key]) (assembleResiliency s.(config)) = Some (JStr d) -> validateGoDuration (u d) = true.
Proof.
  intros Hs Hk. rewrite !doc_below by done. cbn [table]. rewrite !map_get_encoded.
  destruct (map_get n _) as [c|] eqn:E; [|done]. cbn [fmap option_fmap option_map mbind option_bind].
  apply (entries_get _ _ _ _ (ok_cbs _ Hs)) in E as (_ & _ & (t & Et & Ht) & (i & Ei & Hi) & _).
  intros H%text_field. rewrite !elem_of_app, !elem_field, Et, Ei in H.
  destruct H as [[-> _]|[(-> & a & [= <-] & [= ->])|[[-> _]|(-> & a & [= <-] & [= ->])]]]; try (destruct Hk; discriminate); done.
Qed.

(** *** The previewed document *)

(** What the document of a builder's state is: [pruned] records, and which. *)
Record document_ok (s : ResiliencyState) (doc : json) : Prop := {
  document_exact k n : doc_entry doc k n = map_get n (table k s) ≫= pruned;
  document_complete k n : is_Some (doc_entry doc k n) <-> n ∈ keys (table k s) /\ ~ left_out s k n;
  document_resolves k n leg f x : leg ∈ leg_paths k ->
    at_path (kind_path k ++ n :: leg ++ [field_key f]) doc = Some (JStr x) ->
    is_Some (doc_entry doc (policy_kind f) x) \/ left_out s (policy_kind f) x;
  document_timeout n v : doc_entry doc KTimeout n = Some v -> exists d, v = JStr d /\ required_duration d = true;
  document_retry n key d : key = "duration" \/ key = "maxInterval" ->
    at_path (kind_path KRetry ++ [n; key]) doc = Some (JStr d) ->
    required_duration d = true
    \/ key = "duration" /\ n ∈ override_labels
       /\ at_path (kind_path KRetry ++ [n; "policy"]) doc = Some (JStr "exponential");
  document_cb n key d : key = "timeout" \/ key = "interval" ->
    at_path (kind_path KCb ++ [n; key]) doc = Some (JStr d) -> validateGoDuration (u d) = true
}.

Lemma assembled_ok s : config_ok s -> document_ok s (assembleResiliency s.(config)).
Proof.
  intros Hs. constructor; intros.
  - by apply doc_entry_exact.
  - rewrite doc_entry_exact by done. rewrite <- not_eq_None_Some, (left_out_exact s k n Hs).
    destruct (decide (n ∈ keys (table k s))); tauto.
  - by eapply doc_ref_resolves.
  - by eapply doc_timeout.
  - by apply doc_retry_duration.
  - by eapply doc_cb_duration.
Qed.

(** C6: Whatever is clicked and typed in the resiliency builder, the records it
    holds are valid: names are valid and unique, no reserved name but the
    presets', numbers parse, references name existing policies, a circuit
    breaker's settings come with one.  The document assembled from them has,
    under each kind and name, exactly the record held there less its blank
    fields, and no other; left out are exactly the circuit breakers in which
    nothing is filled in and the targets that name no policy.  Every reference
    in the document is to a policy in it, but for such a circuit breaker; every
    duration in it parses, but for that of an override made exponential, which
    the dialog does not check.  And when the preview is shown, the document's
    name is valid and the builder holds a policy, and a target or an override. *)
Theorem builder_document_valid (cs : list Click) :
  let s := (clicks cs).(pg_state) in
  let p := s.(config).(policies) in
  let doc := assembleResiliency s.(config) in
  config_ok s
  /\ document_ok s doc
  /\ (s.(rs_activeStep) = 3 ->
      (exists n, at_path ["metadata"; "name"] doc = Some (JStr n) /\ name_ok n)
      /\ (0 < length p.(timeouts) + length p.(retries) + length p.(circuitBreakers))%nat
      /\ ((0 < length (all_apps s) + length (all_actors s) + length (all_components s))%nat
          \/ exists n, n ∈ keys p.(retries) /\ n ∈ override_labels)).
Proof.
  cbv zeta. destruct (clicks_ok cs) as [Hc Hs Hp _]. split; [done|]. split; [by apply assembled_ok|]. intros E.
  unfold passed in Hp. rewrite E in Hp. split_and!.
  - specialize (Hp 0%Z ltac:(lia)). unfold gate, canContinue in Hp. cbn -[Nat.ltb] in Hp.
    exists (rs_name (config (pg_state (clicks cs)))). split; [done|]. unfold name_ok. by destruct (validateResourceName _).
  - specialize (Hp 1%Z ltac:(lia)). unfold gate, canContinue in Hp. cbn -[Nat.ltb] in Hp. by apply Nat.ltb_lt in Hp.
  - specialize (Hp 2%Z ltac:(lia)). unfold gate, canContinue in Hp. cbn -[Nat.ltb] in Hp. apply orb_true_iff in Hp as [Hp|Hp].
    + left. apply Nat.ltb_lt in Hp. unfold all_apps, all_actors, all_components.
      by destruct (apps _), (actors _), (components _).
    + right. apply existsb_exists in Hp as (n & Hn & Hd). apply list_elem_of_In in Hn. exists n. split; [done|].
      destruct Hc as [_ [_ Hr] _ _ _ _ _]. apply list_elem_of_fmap in Hn as ([n' v] & -> & Hn).
      rewrite Forall_forall in Hr. destruct (Hr _ Hn) as ((_ & Hin) & _). by apply Hin.
Qed.
End Page.
