(* ===== verification/ResiliencyEdits.v ===== *)
(** * What a save changes

    A save in the resiliency builder writes one record and changes nothing else,
    but that references follow a renamed policy; reopening a record and saving
    it at once fills in a number left blank, and changes nothing else. *)

From S2P Require Import Prelude JsNum Decimal JsMap Json Text Validation YamlEmit ResiliencyBuilder ResiliencyDialogs ResiliencyPage.
#[local] Open Scope Z_scope.
#[local] Open Scope string_scope.

(** ** Renaming keeps the order *)

Definition swap_key (from to n : string) : string := if String.eqb n from then to else n.

Lemma swapped_nodup {V} from to (m : JsMap string V) :
  NoDup (keys m) -> to ∉ keys m -> NoDup (map (swap_key from to) (keys m)).
Proof.
  induction m as [|[k v] m IH]; cbn; intros Hn Ht; [constructor|].
  apply NoDup_cons in Hn as [Hk Hn]. apply not_elem_of_cons in Ht as [Htk Ht].
  constructor; [|by apply IH]. intros (k' & E & Hk')%list_elem_of_fmap. unfold swap_key in E.
  destruct (String.eqb_spec k from), (String.eqb_spec k' from); subst; try done.
Qed.

Lemma fold_left_map {A B C} (f : A -> B -> A) (g : C -> B) l : forall a,
  fold_left f (map g l) a = fold_left (fun a x => f a (g x)) l a.
Proof. by induction l as [|x l IH]; intros a; cbn. Qed.

(** A rename to a free name replaces the name in place. *)
Lemma renamedKey_map {V} (m : JsMap string V) from to :
  NoDup (keys m) -> to ∉ keys m -> renamedKey m from to = map (fun kv => (swap_key from to kv.1, kv.2)) m.
Proof.
  intros Hn Ht. unfold renamedKey. destruct (map_has from m) eqn:Hh; cbn [negb].
  - pose proof (map_of_nodup (map (fun kv => (swap_key from to kv.1, kv.2)) m)) as E. unfold map_of in E.
    rewrite fold_left_map in E. cbn in E. refine (E _).
    pose proof (swapped_nodup from to m Hn Ht) as Hs. unfold keys in Hs. rewrite map_map in Hs.
    change (NoDup (map fst (map (fun kv => (swap_key from to kv.1, kv.2)) m))). by rewrite map_map.
  - assert (Hf : from ∉ keys m) by (rewrite <- map_has_in; congruence). symmetry. rewrite <- (map_id m) at 2.
    apply map_ext_in. intros [k v] Hin%list_elem_of_In. unfold swap_key. cbn.
    destruct (String.eqb_spec k from) as [->|]; [|done]. destruct Hf. apply list_elem_of_fmap. by exists (from, v).
Qed.

Lemma get_swapped {V} (m : JsMap string V) from to n :
  n <> from -> n <> to -> map_get n (map (fun kv => (swap_key from to kv.1, kv.2)) m) = map_get n m.
Proof.
  intros Hf Ht. induction m as [|[k v] m IH]; cbn; [done|]. rewrite IH.
  unfold swap_key. destruct (String.eqb_spec k from) as [->|]; [|done]. by rewrite !decide_False.
Qed.

Lemma get_swapped_from {V} (m : JsMap string V) from to :
  from <> to -> map_get from (map (fun kv => (swap_key from to kv.1, kv.2)) m) = None.
Proof.
  intros Hne. induction m as [|[k v] m IH]; cbn; [done|]. rewrite IH.
  unfold swap_key. destruct (String.eqb_spec k from) as [->|]; by rewrite decide_False.
Qed.

(** ** One record is written *)

(** [m'] is [m] with the record of name [old], if any, replaced by [v] under
    [name], which no other record had. *)
Record written {V} (old : option string) (name : string) (v : V) (m m' : JsMap string V) : Prop := {
  written_here : map_get name m' = Some v;
  written_others : forall n, n <> name -> old <> Some n -> map_get n m' = map_get n m;
  written_old : forall n, old = Some n -> n <> name -> map_get n m' = None;
  written_free : old <> Some name -> map_get name m = None
}.

Lemma written_set {V} (m m1 : JsMap string V) old name v :
  (forall n, n <> name -> old <> Some n -> map_get n m1 = map_get n m) ->
  (forall n, old = Some n -> n <> name -> map_get n m1 = None) ->
  (old <> Some name -> name ∉ keys m) -> written old name v m (map_set name v m1).
Proof.
  intros H1 H2 H3. constructor.
  - apply map_get_set_eq.
  - intros n Hn Ho. rewrite map_get_set_ne by done. by apply H1.
  - intros n Hn Ho. rewrite map_get_set_ne by done. by apply H2.
  - intros Ho. apply map_get_none. by apply H3.
Qed.

Lemma written_policy {V} (m : JsMap string V) from name v :
  NoDup (keys m) -> name ∉ keys m -> from <> name -> written (Some from) name v m (map_set name v (renamedKey m from name)).
Proof.
  intros Hn Hname Hne. rewrite renamedKey_map by done. apply written_set; [| |done].
  - intros n H1 H2. apply get_swapped; congruence.
  - intros n [= <-] H. by apply get_swapped_from.
Qed.

Lemma written_target {V} (m : JsMap string V) from name v :
  NoDup (keys m) -> name ∉ keys m -> from <> name -> written (Some from) name v m (map_set name v (withoutKey m from)).
Proof.
  intros Hn Hname Hne. apply written_set; [| |done].
  - intros n H1 H2. apply map_get_delete_ne. congruence.
  - intros n [= <-] H. by apply map_get_delete_eq.
Qed.

Lemma written_same {V} (m : JsMap string V) old name v :
  (old = None /\ name ∉ keys m) \/ old = Some name -> written old name v m (map_set name v m).
Proof. intros [[-> H]| ->]; apply written_set; naive_solver. Qed.

Lemma written_json {V} (f : V -> json) old name v (m m' : JsMap string V) :
  written old name v m m' ->
  written old name (f v) (map (fun kv => (kv.1, f kv.2)) m) (map (fun kv => (kv.1, f kv.2)) m').
Proof.
  assert (G : forall (m : JsMap string V) n, map_get n (map (fun kv => (kv.1, f kv.2)) m) = option_map f (map_get n m)).
  { intros m0 n. induction m0 as [|[k x] m0 IH]; cbn; [done|]. by destruct (decide (n = k)). }
  intros [H1 H2 H3 H4]. constructor; [rewrite G, H1; done|..]; intros; rewrite !G; [by rewrite H2|by rewrite H3|by rewrite H4].
Qed.

Section Edits.
Context (Number : string -> num) (toString : num -> string).

(** ** Saving *)

Definition dialog_name (d : Dialog) : string :=
  match d with
  | DTimeout _ f => f.(tf_name) | DRetry _ f => f.(rf_name) | DCb _ f => f.(cf_name) | DOverride l _ _ => l
  | DApp _ f => f.(af_name) | DActor _ f => f.(xf_name) | DComponent _ f => f.(mf_name)
  end.

Definition dialog_record (d : Dialog) : json :=
  match d with
  | DTimeout _ f => JStr f.(tf_duration)
  | DRetry _ f => json_of_retry (retry_saved Number false f)
  | DCb _ f => json_of_cb (cb_saved Number f)
  | DOverride _ _ f => json_of_retry (retry_saved Number true f)
  | DApp _ f => json_of_app (app_saved f)
  | DActor _ f => json_of_actor (actor_saved Number f)
  | DComponent _ f => json_of_component (component_saved f)
  end.

(** The record a save replaces: the one edited, or the override there is. *)
Definition replaced (s : ResiliencyState) (d : Dialog) : option string :=
  match d with
  | DOverride l _ _ => if map_has l s.(config).(policies).(retries) then Some l else None
  | _ => dialog_old d
  end.

Lemma upsert_alone old name ren up :
  old = None \/ old = Some name -> upsertWithRename old name ren up = [up].
Proof. intros [->| ->]; cbn; [done|]. destruct name as [|c name]; [done|]. by rewrite String.eqb_refl. Qed.

Lemma upsert_renamed from name ren up :
  from <> "" -> from <> name -> upsertWithRename (Some from) name ren up = [ren from name; up].
Proof. destruct from as [|c from]; [done|]. intros _ H. cbn [upsertWithRename]. by rewrite (proj2 (String.eqb_neq _ _) H). Qed.

(** Either the record keeps its name, or the name is free. *)
Lemma name_cases old name names what :
  duplicateNameError name names (editing old) old what = None ->
  (old = None /\ name ∉ names) \/ old = Some name
  \/ exists from, old = Some from /\ from <> name /\ (name ∉ names).
Proof.
  unfold duplicateNameError. case_bool_decide as Hin; cbn [negb].
  - destruct (editing old); cbn; [|done]. case_bool_decide; [|done]. tauto.
  - intros _. destruct old as [from|]; [|tauto]. destruct (decide (from = name)) as [->|]; [tauto|].
    right. right. by exists from.
Qed.

(** A save, where [moved] is what becomes of the map when the record loses its
    old name. *)
Lemma saved_written {V} (f : V -> json) (moved : string -> JsMap string V) (m : JsMap string V) old name v what :
  (forall from, from <> name -> name ∉ keys m -> written (Some from) name v m (map_set name v (moved from))) ->
  duplicateNameError name (keys m) (editing old) old what = None ->
  written old name (f v) (map (fun kv => (kv.1, f kv.2)) m)
    (map (fun kv => (kv.1, f kv.2))
       match old with
       | Some from => if decide (from = name) then map_set name v m else map_set name v (moved from)
       | None => map_set name v m
       end).
Proof.
  intros Hm Hd. apply written_json. destruct (name_cases _ _ _ _ Hd) as [[-> H]|[->|(from & -> & Hne & H)]].
  - apply written_same. tauto.
  - rewrite decide_True by done. apply written_same. tauto.
  - rewrite decide_False by done. by apply Hm.
Qed.

(** The actions of a save, by cases on the record edited. *)
Lemma upsert_dispatch s old name ren up :
  (forall n, old = Some n -> n <> "") ->
  dispatch s (upsertWithRename old name ren up)
  = match old with
    | Some from => if decide (from = name) then reducer s up else reducer (reducer s (ren from name)) up
    | None => reducer s up
    end.
Proof.
  intros Ho. destruct old as [from|]; [|by rewrite upsert_alone by tauto].
  destruct (decide (from = name)) as [->|Hne]; [by rewrite upsert_alone by tauto|].
  rewrite upsert_renamed; [done|by apply Ho|done].
Qed.

Lemma listed_name_ok s k n : config_ok Number s -> n ∈ listed_names s k -> n <> "" /\ name_ok n.
Proof.
  intros Hs Hin. cut (name_ok n); [intros H; split; [by intros ->|done]|].
  assert (G : forall V (P : string -> V -> Prop) (m : JsMap string V),
    entries_ok P m -> (forall v, P n v -> name_ok n) -> n ∈ keys m -> name_ok n).
  { intros V P m [_ Hm] HP ([n' v] & -> & Hkv)%list_elem_of_fmap. rewrite Forall_forall in Hm. by apply (HP v), (Hm _ Hkv). }
  destruct Hs as [Ht Hr Hc Ha Hx Hm _]. destruct k; cbn in Hin.
  - apply (G _ _ _ Ht); [by intros v []|done].
  - apply (G _ _ _ Hr); [by intros v [[]]|]. by apply list_elem_of_In, filter_In in Hin as [?%list_elem_of_In _].
  - apply (G _ _ _ Hc); [by intros v []|done].
  - apply (G _ _ _ Ha); [done|done].
  - apply (G _ _ _ Hx); [by intros v []|done].
  - apply (G _ _ _ Hm); [by intros v []|done].
Qed.

Lemma policy_duplicate n r d : no_error (policy_nameErr n r d) = true -> d = None.
Proof. by intros (_ & _ & H)%policy_nameErr_none. Qed.

Lemma target_duplicate n d : no_error (target_nameErr n d) = true -> d = None.
Proof. by intros [_ H]%target_nameErr_none. Qed.

Lemma save_written s d :
  config_ok Number s -> dialog_canSave s d = true ->
  (forall old, dialog_old d = Some old -> old ∈ listed_names s (dialog_kind d)) ->
  written (replaced s d) (dialog_name d) (dialog_record d) (table (dialog_kind d) s)
    (table (dialog_kind d) (dispatch s (saved_actions Number d))).
Proof.
  intros Hs Hcan Hold.
  assert (Ho : forall n, dialog_old d = Some n -> n <> "") by (intros n E; by apply (listed_name_ok s (dialog_kind d)), Hold).
  destruct Hs as [[Ht _] [Hr _] [Hc _] [Ha _] [Hx _] [Hm _] _].
  destruct d as [n f|n f|n f|l b f|n f|n f|n f]; cbn [dialog_old dialog_kind saved_actions dialog_canSave] in *;
    try rewrite upsert_dispatch by done; cbn [replaced dialog_old dialog_name dialog_record].
  - apply andb_true_iff in Hcan as [Hcan%policy_duplicate _].
    pose proof (saved_written JStr (fun from => renamedKey (timeouts (policies (config s))) from f.(tf_name)) _ n _
      f.(tf_duration) _ (fun from Hne H => written_policy _ from _ _ Ht H Hne) Hcan) as W.
    destruct n as [from|]; [|exact W]. by destruct (decide (from = tf_name f)).
  - unfold retry_canSave in Hcan. rewrite !andb_true_iff in Hcan. destruct Hcan as (((Hcan%policy_duplicate & _) & _) & _).
    pose proof (saved_written json_of_retry (fun from => renamedKey (retries (policies (config s))) from f.(rf_name)) _ n _
      (retry_saved Number false f) _ (fun from Hne H => written_policy _ from _ _ Hr H Hne) Hcan) as W.
    destruct n as [from|]; [|exact W]. by destruct (decide (from = rf_name f)).
  - unfold cb_canSave in Hcan. rewrite !andb_true_iff in Hcan. destruct Hcan as (((Hcan%policy_duplicate & _) & _) & _).
    pose proof (saved_written json_of_cb (fun from => renamedKey (circuitBreakers (policies (config s))) from f.(cf_name)) _ n _
      (cb_saved Number f) _ (fun from Hne H => written_policy _ from _ _ Hc H Hne) Hcan) as W.
    destruct n as [from|]; [|exact W]. by destruct (decide (from = cf_name f)).
  - apply (written_json json_of_retry (V := RetryPolicy)). apply written_same.
    destruct (map_has l _) eqn:E; [by right|left]. split; [done|]. rewrite <- map_has_in. congruence.
  - apply andb_true_iff in Hcan as [Hcan%target_duplicate _].
    pose proof (saved_written json_of_app (withoutKey (all_apps s)) _ n _
      (app_saved f) _ (fun from Hne H => written_target _ from _ _ Ha H Hne) Hcan) as W.
    destruct n as [from|]; [|exact W]. by destruct (decide (from = af_name f)).
  - unfold actor_canSave in Hcan. rewrite !andb_true_iff in Hcan. destruct Hcan as ((Hcan%target_duplicate & _) & _).
    pose proof (saved_written json_of_actor (withoutKey (all_actors s)) _ n _
      (actor_saved Number f) _ (fun from Hne H => written_target _ from _ _ Hx H Hne) Hcan) as W.
    destruct n as [from|]; [|exact W]. by destruct (decide (from = xf_name f)).
  - apply andb_true_iff in Hcan as [Hcan%target_duplicate _].
    pose proof (saved_written json_of_component (withoutKey (all_components s)) _ n _
      (component_saved f) _ (fun from Hne H => written_target _ from _ _ Hm H Hne) Hcan) as W.
    destruct n as [from|]; [|exact W]. by destruct (decide (from = mf_name f)).
Qed.

(** The other kinds: a save of a target leaves them all alone, a save of a
    policy leaves the other policies alone. *)
Lemma save_elsewhere s d k :
  k <> dialog_kind d -> step_of k = 1 \/ step_of (dialog_kind d) = 2 ->
  table k (dispatch s (saved_actions Number d)) = table k s.
Proof.
  intros Hk Hs. destruct d as [n f|n f|n f|l b f|n f|n f|n f]; cbn [dialog_kind] in *;
    (destruct k; try done; try (destruct Hs; discriminate));
    cbn [saved_actions]; unfold upsertWithRename, dispatch; try reflexivity;
    destruct n as [[|c old]|]; try (destruct (String.eqb _ _)); reflexivity.
Qed.

(** [t'] is [t] with every reference to the policy [from] of a kind made one to
    [to]: the same targets in the same order, with the same legs and settings. *)
Definition refs_follow (f : PolicyField) (from to : string) (r r' : PolicyRefs) : Prop :=
  forall g, get_ref g r' = if decide (g = f /\ get_ref g r = Some from) then Some to else get_ref g r.
Record targets_follow (f : PolicyField) (from to : string) (t t' : Targets) : Prop := {
  follow_apps : Forall2 (fun a b => b.1 = a.1 /\ refs_follow f from to a.2.(at_refs) b.2.(at_refs))
    (default [] t.(apps)) (default [] t'.(apps));
  follow_actors : Forall2 (fun a b => b.1 = a.1 /\ refs_follow f from to a.2.(ac_refs) b.2.(ac_refs)
      /\ b.2.(ac_circuitBreakerScope) = a.2.(ac_circuitBreakerScope)
      /\ b.2.(ac_circuitBreakerCacheSize) = a.2.(ac_circuitBreakerCacheSize))
    (default [] t.(actors)) (default [] t'.(actors));
  follow_components : Forall2 (fun a b => b.1 = a.1
      /\ option_Forall2 (refs_follow f from to) a.2.(ct_outbound) b.2.(ct_outbound)
      /\ option_Forall2 (refs_follow f from to) a.2.(ct_inbound) b.2.(ct_inbound))
    (default [] t.(components)) (default [] t'.(components))
}.

Lemma remapRef_follows f from to r : refs_follow f from to r (remapRef f from (Some to) r).
Proof.
  intros g. unfold remapRef. case_bool_decide as H.
  - destruct (decide (g = f)) as [->|Hne].
    + rewrite decide_True by done. by destruct f.
    + rewrite decide_False by tauto. by destruct f, g.
  - rewrite decide_False; [done|]. by intros [-> ?].
Qed.

Lemma mapValues_follows {V} (R : V -> V -> Prop) (fn : V -> V) (m : option (JsMap string V)) :
  (forall v, R v (fn v)) ->
  Forall2 (fun a b => b.1 = a.1 /\ R a.2 b.2) (default [] m) (default [] (mapValues fn m)).
Proof.
  intros H. destruct m as [m|]; [|constructor]. cbn. induction m as [|[k v] m IH]; constructor; [by split|exact IH].
Qed.

Lemma remap_follows f from to t : targets_follow f from to t (remapPolicyRefs t f from (Some to)).
Proof.
  constructor; cbn [remapPolicyRefs apps actors components].
  - apply (mapValues_follows (fun a b => refs_follow f from to a.(at_refs) b.(at_refs))). intros v. apply remapRef_follows.
  - apply (mapValues_follows (fun a b => refs_follow f from to a.(ac_refs) b.(ac_refs)
      /\ b.(ac_circuitBreakerScope) = a.(ac_circuitBreakerScope)
      /\ b.(ac_circuitBreakerCacheSize) = a.(ac_circuitBreakerCacheSize))).
    intros v. by split; [apply remapRef_follows|].
  - apply (mapValues_follows (fun a b => option_Forall2 (refs_follow f from to) a.(ct_outbound) b.(ct_outbound)
      /\ option_Forall2 (refs_follow f from to) a.(ct_inbound) b.(ct_inbound))).
    intros [[o|] [i|]]; split; constructor; apply remapRef_follows.
Qed.

(** What becomes of the targets when a policy is saved. *)
Definition policy_field (k : Kind) : option PolicyField :=
  match k with KTimeout => Some FTimeout | KRetry => Some FRetry | KCb => Some FCircuitBreaker | _ => None end.
Definition targets_after (d : Dialog) (f : PolicyField) (t t' : Targets) : Prop :=
  match dialog_old d with
  | Some from => if decide (from = dialog_name d) then t' = t else targets_follow f from (dialog_name d) t t'
  | None => t' = t
  end.

Lemma save_targets s d f :
  (forall n, dialog_old d = Some n -> n <> "") -> policy_field (dialog_kind d) = Some f ->
  targets_after d f s.(config).(targets) (dispatch s (saved_actions Number d)).(config).(targets).
Proof.
  intros Ho. unfold targets_after. destruct d as [n g|n g|n g|l b g|n g|n g|n g]; try done; intros [= <-];
    cbn [dialog_old saved_actions dialog_name] in *; try rewrite upsert_dispatch by done; try done;
    (destruct n as [from|]; [|done]); destruct (decide _); try done; apply remap_follows.
Qed.

(** The rest of the document and the step. *)
Definition around (s : ResiliencyState) : string * string * string * option string * list string * Z :=
  let c := s.(config) in (c.(rs_apiVersion), c.(rs_kind), c.(rs_name), c.(rs_namespace), c.(rs_scopes), s.(rs_activeStep)).

Lemma save_around s d : around (dispatch s (saved_actions Number d)) = around s.
Proof.
  pose proof (saved_actions_step Number d) as H. unfold dispatch.
  apply (fold_left_inv (fun s' => around s' = around s)); [|done].
  intros s' a Hin <-. rewrite Forall_forall in H. specialize (H a Hin).
  destruct a; try done; by destruct d.
Qed.

(** C7: A save writes one record and changes nothing else.  The record saved is
    found under its name; the old name, where it was renamed, is gone; no other
    record of its kind is changed, and the name was free before.  Nor is any
    policy of another kind, and for a target no policy and no target of another
    kind.  A policy's save leaves the targets as they are, but that the
    references to a renamed policy follow its name.  The document's header, its
    name and its namespace and the step stay. *)
Theorem save_writes_one_record (cs : list Click) (d : Dialog) :
  let p := clicks Number toString cs in
  let s := p.(pg_state) in
  let s' := (click Number toString p ClickSave).(pg_state) in
  p.(pg_dialog) = Some d -> dialog_canSave s d = true ->
  written (replaced s d) (dialog_name d) (dialog_record d) (table (dialog_kind d) s) (table (dialog_kind d) s')
  /\ (forall k, k <> dialog_kind d -> step_of k = 1 \/ step_of (dialog_kind d) = 2 -> table k s' = table k s)
  /\ (forall f, policy_field (dialog_kind d) = Some f ->
        targets_after d f s.(config).(targets) s'.(config).(targets))
  /\ around s' = around s.
Proof.
  cbv zeta. intros Ed Hcan. destruct (clicks_ok Number toString cs) as [Hc _ _ Hd].
  destruct (Hd d Ed) as (_ & _ & Hold). cbn [click]. rewrite Ed. unfold dispatched. rewrite Hcan. cbn [pg_state].
  split; [by apply save_written|]. split; [intros k; apply save_elsewhere|]. split; [|apply save_around].
  intros f. apply save_targets. intros n E. by apply (listed_name_ok (pg_state (clicks Number toString cs)) (dialog_kind d)), Hold.
Qed.

(** ** Reopening *)

(** A number, where one is given, is what its own text reads back to: so are
    all integers but -0. *)
Definition number_reads (o : option num) : Prop :=
  forall v, o = Some v -> toString v <> "" /\ Number (toString v) = v.
Definition numbers_read (s : ResiliencyState) (k : Kind) (n : string) : Prop :=
  let p := s.(config).(policies) in
  match k with
  | KRetry => forall r, map_get n p.(retries) = Some r -> number_reads r.(rp_maxRetries)
  | KCb => forall c, map_get n p.(circuitBreakers) = Some c -> number_reads c.(cb_maxRequests)
  | KActor => forall t, map_get n (all_actors s) = Some t -> number_reads t.(ac_circuitBreakerCacheSize)
  | _ => True
  end.

(** A number left blank becomes the default its dialog shows. *)
Definition filled_retry (r : RetryPolicy) : RetryPolicy :=
  {| r with rp_maxRetries := Some (default (Number "-1") r.(rp_maxRetries)) |}.
Definition filled_cb (c : CircuitBreakerPolicy) : CircuitBreakerPolicy :=
  {| c with cb_maxRequests := Some (default (Number "1") c.(cb_maxRequests)) |}.
Definition change_at {V} (n : string) (f : V -> V) (m : JsMap string V) : JsMap string V :=
  map (fun kv => if decide (kv.1 = n) then (kv.1, f kv.2) else kv) m.
Definition filled (k : Kind) (n : string) (p : Policies) : Policies :=
  match k with
  | KRetry => {| p with retries := change_at n filled_retry p.(retries) |}
  | KCb => {| p with circuitBreakers := change_at n filled_cb p.(circuitBreakers) |}
  | _ => p
  end.

(** The number of retries or of requests is given. *)
Definition number_given_in (k : Kind) (n : string) (p : Policies) : Prop :=
  match k with
  | KRetry => forall r, map_get n p.(retries) = Some r -> is_Some r.(rp_maxRetries)
  | KCb => forall c, map_get n p.(circuitBreakers) = Some c -> is_Some c.(cb_maxRequests)
  | _ => True
  end.

Lemma change_at_cons {V} n (f : V -> V) k v m :
  change_at n f ((k, v) :: m) = (k, if decide (k = n) then f v else v) :: change_at n f m.
Proof. cbn. by destruct (decide (k = n)). Qed.

Lemma change_at_absent {V} n (f : V -> V) m : n ∉ keys m -> change_at n f m = m.
Proof.
  induction m as [|[k v] m IH]; [done|]. intros [Hne Hm]%not_elem_of_cons.
  rewrite change_at_cons, decide_False by (cbn in Hne; congruence). by rewrite IH.
Qed.

Lemma map_set_change {V} n (f : V -> V) v (m : JsMap string V) :
  NoDup (keys m) -> map_get n m = Some v -> map_set n (f v) m = change_at n f m.
Proof.
  induction m as [|[k x] m IH]; [done|]. intros [Hk Hn]%NoDup_cons. rewrite change_at_cons. cbn [map_get map_set].
  destruct (decide (n = k)) as [->|Hne].
  - intros [= ->]. rewrite decide_True by done. by rewrite change_at_absent.
  - intros E. rewrite (decide_False (P := k = n)) by congruence. by rewrite IH.
Qed.

Lemma change_at_same {V} n (f : V -> V) m :
  NoDup (keys m) -> change_at n f m = m <-> forall v, map_get n m = Some v -> f v = v.
Proof.
  induction m as [|[k x] m IH]; [done|]. intros [Hk Hn]%NoDup_cons. rewrite change_at_cons. cbn [map_get].
  destruct (decide (n = k)) as [->|Hne].
  - rewrite decide_True, change_at_absent by done. split; [by intros [= E] ? [= <-]|].
    intros E. by rewrite E.
  - rewrite (decide_False (P := k = n)) by congruence. rewrite <- (IH Hn). split; [by intros [= ->]|by intros ->].
Qed.

(** A fill changes nothing exactly when the number was there. *)
Lemma filled_same s k n :
  config_ok Number s -> filled k n s.(config).(policies) = s.(config).(policies)
                        <-> number_given_in k n s.(config).(policies).
Proof.
  intros [_ [Hr _] [Hc _] _ _ _ _]. destruct s as [[? ? ? ? ? [t r c] ?] ?]. cbn in *.
  destruct k; cbn [filled number_given_in timeouts retries circuitBreakers]; try done.
  - transitivity (change_at n filled_retry r = r); [split; [by intros [=]|by intros ->]|].
    rewrite change_at_same by done. apply forall_proper. intros x. apply imp_iff_compat_l.
    destruct x as [? ? [m|] ? ?]; cbn; [by split; [eexists|]|]. split; [by intros [=]|by intros []].
  - transitivity (change_at n filled_cb c = c); [split; [by intros [=]|by intros ->]|].
    rewrite change_at_same by done. apply forall_proper. intros x. apply imp_iff_compat_l.
    destruct x as [[m|] ? ? ?]; cbn; [by split; [eexists|]|]. split; [by intros [=]|by intros []].
Qed.

Lemma map_set_same {V} (m : JsMap string V) n v : map_get n m = Some v -> map_set n v m = m.
Proof.
  induction m as [|[k x] m IH]; cbn; [done|]. destruct (decide (n = k)) as [->|]; [by intros [= ->]|].
  intros H. by rewrite IH.
Qed.

Lemma number_given_reads v : number_reads (Some v) -> number_given Number (toString v) = Some v.
Proof. intros [H1 H2]%(fun H => H v eq_refl). unfold number_given. by rewrite (proj2 (String.eqb_neq _ _) H1), H2. Qed.

(** A reference is never the empty text, which would name no policy. *)
Lemma leg_pickers s r : config_ok Number s -> refs_ok s.(config).(policies) r -> leg (pickers_form (Some r)) = r.
Proof.
  intros Hs Hr. assert (G : forall f n, get_ref f r = Some n -> n <> "").
  { intros f n E ->. apply Hr in E. destruct Hs as [[_ Ht] [_ Hre] [_ Hc] _ _ _ _].
    destruct f; apply list_elem_of_fmap in E as ([n' v] & E & Hin); cbn in E; subst n';
      [rewrite Forall_forall in Ht; apply Ht in Hin as [H _]|rewrite Forall_forall in Hre; apply Hre in Hin as [[H _] _]
      |rewrite Forall_forall in Hc; apply Hc in Hin as [H _]]; discriminate. }
  assert (I : forall o : option string, (forall n, o = Some n -> n <> "") -> if_given (default "" o) = o).
  { intros [n|] H; [|done]. cbn. unfold if_given, truthy. by rewrite (proj2 (String.eqb_neq _ _) (H n eq_refl)). }
  unfold leg, pickers_form. cbn.
  rewrite (I (pr_timeout r) (G FTimeout)), (I (pr_retry r) (G FRetry)), (I (pr_circuitBreaker r) (G FCircuitBreaker)).
  by destruct r.
Qed.

(** The record a freshly opened dialog would save is the one it was opened on,
    its number filled in. *)
Lemma retry_reopened n r :
  retry_ok Number n r -> isDefaultPolicyName n = false -> number_reads r.(rp_maxRetries) ->
  retry_saved Number false (retry_form toString n (Some r)) = filled_retry r.
Proof.
  intros (_ & Ht & _ & (m & Em & (h & Eh & _) & (g & Eg & _))) Hdef Hw. unfold retry_times_ok in Ht.
  destruct r as [pol d mr mi mt], m as [mh mg]. cbn in *. subst. unfold retry_saved, filled_retry. cbn.
  assert (E : number_given Number (default "-1" (option_map toString mr)) = Some (default (Number "-1") mr)).
  { destruct mr as [mr|]; [by apply number_given_reads|done]. }
  rewrite E. destruct pol as [[]|]; [| |done]; cbn.
  - by destruct Ht as [(d' & -> & _) ->].
  - destruct Ht as [(d' & -> & _) Hd]. by rewrite (Hd Hdef).
Qed.

Lemma cb_reopened n c :
  cb_ok Number n c -> number_reads c.(cb_maxRequests) -> cb_saved Number (cb_form toString n (Some c)) = filled_cb c.
Proof.
  intros (_ & _ & (t & Et & _) & (i & Ei & _) & [r Er]) Hw. destruct c as [mr t0 r0 i0]. cbn in *. subst.
  assert (E : number_given Number (default "1" (option_map toString mr)) = Some (default (Number "1") mr)).
  { destruct mr as [mr|]; [by apply number_given_reads|done]. }
  unfold cb_saved, filled_cb. cbn. by rewrite E.
Qed.

Lemma app_reopened s n t :
  config_ok Number s -> refs_ok s.(config).(policies) t.(at_refs) -> app_saved (app_form (Some n) (Some t)) = t.
Proof. intros Hs Hr. unfold app_saved, app_form. cbn [option_map af_pick]. rewrite (leg_pickers s _ Hs Hr). by destruct t. Qed.

Lemma actor_reopened s n t :
  config_ok Number s -> actor_ok Number n t -> refs_ok s.(config).(policies) t.(ac_refs) ->
  number_reads t.(ac_circuitBreakerCacheSize) ->
  actor_saved Number (actor_form toString (Some n) (Some t)) = t.
Proof.
  intros Hs (_ & _ & Hsc & Hcb) Hr Hw. unfold actor_saved, actor_form. cbn [xf_pick xf_scope xf_cacheSize option_map].
  pose proof (leg_pickers s _ Hs Hr) as L. destruct t as [r sc cs]. cbn in *.
  assert (E : if_given (default "" r.(pr_circuitBreaker)) = r.(pr_circuitBreaker)) by (rewrite <- L at 2; reflexivity).
  unfold if_given in E. rewrite L. destruct (truthy _); f_equal.
  - destruct sc as [[]|]; try done.
  - destruct cs as [v|]; [|done]. by apply (number_given_reads v).
  - symmetry. by apply Hcb.
  - symmetry. by apply Hcb.
Qed.

Lemma component_reopened s n t :
  config_ok Number s -> component_ok n t -> Forall (refs_ok s.(config).(policies)) (component_legs t) ->
  component_saved (component_form (Some n) (Some t)) = t.
Proof.
  intros Hs [_ Hl] Hr. unfold component_saved, component_form. destruct t as [[a|] [b|]]; cbn in Hl, Hr |- *; try done.
  - subst b. apply Forall_cons in Hr as [Hr _]. by rewrite (leg_pickers s _ Hs Hr).
  - apply Forall_cons in Hr as [Hr _]. by rewrite (leg_pickers s _ Hs Hr).
  - apply Forall_cons in Hr as [Hr _]. by rewrite (leg_pickers s _ Hs Hr).
Qed.

Lemma upsert_same {V} (m : JsMap string V) n : n ∈ keys m -> exists v, map_get n m = Some v /\ (n, v) ∈ m /\ map_set n v m = m.
Proof.
  intros H%map_has_in. apply bool_decide_eq_true in H as [v H]. exists v.
  split_and!; [done|by apply map_get_in|by apply map_set_same].
Qed.

Lemma reopened_saved s k n :
  config_ok Number s -> n ∈ listed_names s k -> numbers_read s k n ->
  dispatch s (saved_actions Number (open_dialog toString s k (Some n)))
  = set_spec s (filled k n s.(config).(policies)) s.(config).(targets).
Proof.
  intros Hs Hin Hw. destruct (listed_name_ok s k n Hs Hin) as [Hne _].
  assert (He : editing (Some n) = true) by (unfold editing, truthy; cbn; by rewrite (proj2 (String.eqb_neq _ _) Hne)).
  pose proof Hs as [_ [Nr Hr] [Nc Hc] _ [_ Hx] [_ Hm] (Ra & Rx & Rm)].
  unfold all_apps, all_actors, all_components in *.
  rewrite Forall_forall in Hr. rewrite Forall_forall in Hc. rewrite Forall_forall in Hx. rewrite Forall_forall in Hm.
  rewrite Forall_forall in Ra. rewrite Forall_forall in Rx. rewrite Forall_forall in Rm.
  assert (D : forall x : string, default x (Some n) = n) by done.
  destruct k; cbn [listed_names numbers_read filled open_dialog saved_actions] in *; rewrite He, upsert_dispatch by (by intros ? [= <-]);
    rewrite ?D, ?decide_True by done.
  - destruct (upsert_same _ _ Hin) as (v & E & _ & M). cbn. rewrite E. cbn. rewrite M. by destruct s as [[? ? ? ? ? [] ?] ?].
  - apply list_elem_of_In, filter_In in Hin as [Hin%list_elem_of_In Hdef%negb_true_iff].
    destruct (upsert_same _ _ Hin) as (v & E & I & M). rewrite E, (retry_reopened n v (Hr _ I) Hdef (Hw _ E)).
    cbn. rewrite (map_set_change n filled_retry v) by done. by destruct s as [[? ? ? ? ? [] ?] ?].
  - destruct (upsert_same _ _ Hin) as (v & E & I & M). rewrite E, (cb_reopened n v (Hc _ I) (Hw _ E)).
    cbn. rewrite (map_set_change n filled_cb v) by done. by destruct s as [[? ? ? ? ? [] ?] ?].
  - destruct (upsert_same _ _ Hin) as (v & E & I & M). rewrite E, (app_reopened s n v Hs (Ra _ I)).
    cbn. unfold all_apps, all_actors, all_components in *. rewrite M. destruct s as [[? ? ? ? ? ? [a x m]] st]. destruct a; [done|by apply elem_of_nil in I].
  - destruct (upsert_same _ _ Hin) as (v & E & I & M). rewrite E, (actor_reopened s n v Hs (Hx _ I) (Rx _ I) (Hw _ E)).
    cbn. unfold all_apps, all_actors, all_components in *. rewrite M. destruct s as [[? ? ? ? ? ? [a x m]] st]. destruct x; [done|by apply elem_of_nil in I].
  - destruct (upsert_same _ _ Hin) as (v & E & I & M). rewrite E, (component_reopened s n v Hs (Hm _ I) (Rm _ I)).
    cbn. unfold all_apps, all_actors, all_components in *. rewrite M. destruct s as [[? ? ? ? ? ? [a x m]] st]. destruct m; [done|by apply elem_of_nil in I].
Qed.

End Edits.

(** ** Examples *)

(** A [Number] and a [toString] that agree on 3 and -1. *)
Definition sample_Number (s : string) : num := if String.eqb s "3" then 3%float else (-1)%float.
Definition sample_toString (x : num) : string := if PrimFloat.eqb x 3%float then "3" else "-1".
Definition sample_clicks : list Click :=
  [TypeName "calls"; ClickContinue; ClickAdd KTimeout; ClickSave;
   ClickAdd KRetry; ChangeField (EMaxRetries "3"); ClickSave].
Definition renaming_clicks : list Click :=
  sample_clicks ++ [ClickEdit KTimeout "timeout1"; ChangeField (EName "slow"); ChangeField (EDuration "30s")].

Lemma save_writes_one_record_witness :
  table KTimeout (click sample_Number sample_toString (clicks sample_Number sample_toString renaming_clicks) ClickSave).(pg_state)
  = [("slow", JStr "30s")]
  /\ exists d, written (Some "timeout1") "slow" (JStr "30s")
       (table KTimeout (clicks sample_Number sample_toString renaming_clicks).(pg_state))
       (table KTimeout (click sample_Number sample_toString (clicks sample_Number sample_toString renaming_clicks)
                          ClickSave).(pg_state))
     /\ (clicks sample_Number sample_toString renaming_clicks).(pg_dialog) = Some d.
Proof.
  split; [vm_compute; reflexivity|].
  exists (DTimeout (Some "timeout1") {| tf_name := "slow"; tf_duration := "30s" |}). split; [|vm_compute; reflexivity].
  apply (save_writes_one_record sample_Number sample_toString renaming_clicks
           (DTimeout (Some "timeout1") {| tf_name := "slow"; tf_duration := "30s" |})); vm_compute; reflexivity.
Defined.

Definition blank_clicks : list Click :=
  sample_clicks ++ [ClickAdd KRetry; ChangeField (EMaxRetries ""); ClickSave].


(** An override's duration is checked only while it is shown: switched to the
    exponential policy, the dialog saves the hidden text with the record. *)
Theorem hidden_duration_unchecked (Number : string -> num) (toString : num -> string) :
  let p := clicks Number toString
    [TypeName "calls"; ClickContinue; ClickOverride "DaprBuiltInServiceRetries"; ChangeField (EMaxRetries "3");
     ChangeField (EDuration "soon"); ChangeField (EPolicyType "exponential"); ClickSave; ClickContinue; ClickContinue] in
  p.(pg_state).(rs_activeStep) = 3
  /\ map (fun kv => kv.2.(rp_duration)) p.(pg_state).(config).(policies).(retries) = [Some "soon"]
  /\ validateGoDuration (u "soon") = false.
Proof. vm_compute. split_and!; reflexivity. Qed.

(** A target whose last policy is removed stays, counts as a target at the gate,
    and is left out of the document: the preview then has no target at all. *)
Theorem emptied_target_counts (Number : string -> num) (toString : num -> string) :
  let p := clicks Number toString
    [TypeName "calls"; ClickContinue; ClickAdd KTimeout; ClickSave; ClickAdd KTimeout; ClickSave; ClickContinue;
     ClickAdd KApp; ChangeField (EName "orders"); ChangeField (EPick FTimeout "timeout1"); ClickSave;
     ClickBack; ClickRemove KTimeout "timeout1"; ClickContinue; ClickContinue] in
  p.(pg_state).(rs_activeStep) = 3
  /\ keys (all_apps p.(pg_state)) = ["orders"]
  /\ assembleResiliency p.(pg_state).(config)
     = JObj [("apiVersion", JStr "dapr.io/v1alpha1"); ("kind", JStr "Resiliency");
             ("metadata", JObj [("name", JStr "calls"); ("namespace", JStr "default")]);
             ("spec", JObj [("policies", JObj [("timeouts", JObj [("timeout2", JStr "5s")])])])].
Proof. vm_compute. split_and!; reflexivity. Qed.

(** A circuit breaker in which nothing is filled in is a policy of the builder,
    but not of the document, where the references to it dangle. *)
Theorem blank_breaker_dangles (Number : string -> num) (toString : num -> string) :
  let p := clicks Number toString
    [TypeName "calls"; ClickContinue; ClickAdd KCb; ChangeField (EMaxRequests ""); ChangeField (ETimeout "");
     ChangeField (ETrip ""); ChangeField (EInterval ""); ClickSave; ClickContinue;
     ClickAdd KApp; ChangeField (EName "orders"); ChangeField (EPick FCircuitBreaker "circuitBreaker1"); ClickSave;
     ClickContinue] in
  p.(pg_state).(rs_activeStep) = 3
  /\ assembleResiliency p.(pg_state).(config)
     = JObj [("apiVersion", JStr "dapr.io/v1alpha1"); ("kind", JStr "Resiliency");
             ("metadata", JObj [("name", JStr "calls"); ("namespace", JStr "default")]);
             ("spec", JObj [("targets", JObj [("apps", JObj [("orders", JObj [("circuitBreaker", JStr "circuitBreaker1")])])])])].
Proof. vm_compute. split; reflexivity. Qed.
