(* ===== verification/ResourcePages.v ===== *)
(** * The resource pages

    [pages/ResourceList.tsx], [pages/HttpEndpoints.tsx] and
    [pages/Resiliency.tsx] on the data of [types/resources.ts]: which resource
    is selected, what a credential looks like on screen, and the rows of a
    resiliency file.  Names, URLs and header values are texts of code units;
    [JSON.stringify] and [String] of a value are parameters. *)

From S2P Require Import Prelude JsNum JsMap Json Text Validation YamlEmit ResiliencyBuilder.
#[local] Open Scope Z_scope.

(** ** Data *)

Inductive SecretStatus :=
  | SResolved | SStoreNotSpecified | SStoreNotFound | SStoreUnsupported | SStoreUnreadable | SKeyNotFound
  | SEmptyValue | SForbidden | SNotChecked.

Record SecretRefStatus := { sr_field : text; sr_status : SecretStatus; sr_detail : option text }.

Record HTTPEndpointHeader := {
  hh_name : text;
  hh_value : option text;
  hh_secretKeyRef : option (text * option text);
  hh_envRef : option text
}.

Record HTTPEndpointSpec := { he_baseUrl : text; he_headers : list HTTPEndpointHeader; he_clientTLS : bool }.

Record ResourceSummary := {
  rs_id : text;
  rs_resource : text;
  rs_scopes : list text;
  rs_secretRefs : list SecretRefStatus
}.

(** ** Selection *)

(** The selection: an id first, then a name, then the first resource. *)
Definition selected (resources : list ResourceSummary) (param : option text) : option ResourceSummary :=
  let by_field (f : ResourceSummary -> text) := List.find (fun r => bool_decide (param = Some (f r))) resources in
  match by_field rs_id with
  | Some r => Some r
  | None => match by_field rs_resource with Some r => Some r | None => head resources end
  end.

Definition isUnresolved (status : SecretStatus) : bool :=
  match status with SResolved | SNotChecked => false | _ => true end.
Definition hasUnresolvedRef (r : ResourceSummary) : bool := existsb (fun ref => isUnresolved ref.(sr_status)) r.(rs_secretRefs).

(** ** Credentials on screen *)

Definition bullets (n : nat) : text := repeat 8226 n.

(** The expression is a scheme, "://", a user, ":", a password and "@", letters
    in either case.  Every repetition ends at a unit its class excludes, so there
    is one way to match. *)
Definition is_alpha (c : Z) : bool := is_upper c || is_lower c.
Definition scheme_unit (c : Z) : bool := is_alpha c || is_digit_unit c || existsb (Z.eqb c) [43; 46; 45].
Definition user_unit (c : Z) : bool := negb (existsb (Z.eqb c) [58; 64; 47]).
Definition password_unit (c : Z) : bool := negb (existsb (Z.eqb c) [64; 47]).

Definition maskUrlPassword (url : text) : text :=
  match url with
  | c :: _ =>
      let scheme := take_while scheme_unit url in
      let rest := drop_while scheme_unit url in
      if is_alpha c && starts_with rest (u "://") then
        let authority := drop 3 rest in
        let user := take_while user_unit authority in
        match drop_while user_unit authority with
        | 58 :: password =>
            match drop_while password_unit password with
            | 64 :: host => scheme ++ u "://" ++ user ++ u ":" ++ bullets 4 ++ u "@" ++ host
            | _ => url
            end
        | _ => url
        end
      else url
  | [] => url
  end.

(** [SENSITIVE_HEADER.test]. *)
Definition SENSITIVE_HEADER : list text :=
  [u "auth"; u "token"; u "secret"; u "passw"; u "apikey"; u "api-key"; u "api_key"; u "cookie"; u "credential"].
Definition sensitive_name (name : text) : bool := existsb (includes (toLowerCase name)) SENSITIVE_HEADER.

(** What [HeaderValue] renders. *)
Inductive HeaderCell :=
  | PlainValue (v : text)
  | MaskedValue (v : text)
  | ReferenceValue (pill : option SecretStatus) (detail : option text).

Definition HeaderValue (h : HTTPEndpointHeader) (refs : list SecretRefStatus) : HeaderCell :=
  match h.(hh_secretKeyRef), h.(hh_envRef) with
  | None, (None | Some []) =>
      let value := default [] h.(hh_value) in
      if match value with [] => false | _ => true end && sensitive_name h.(hh_name) then MaskedValue value
      else PlainValue value
  | _, _ =>
      let ref := List.find (fun r => text_eqb r.(sr_field) h.(hh_name)) refs in
      ReferenceValue (sr_status <$> ref)
        (match ref with
         | Some r => if isUnresolved r.(sr_status) then match r.(sr_detail) with Some [] => None | d => d end else None
         | None => None
         end)
  end.

(** The text of a cell; [shown] is the state of its button, which only a masked
    value has. *)
Definition cell_text (shown : bool) (c : HeaderCell) : text :=
  match c with
  | PlainValue v => v
  | MaskedValue v => if shown then v else bullets 8
  | ReferenceValue _ (Some detail) => detail
  | ReferenceValue _ None => bullets 8
  end.

Definition headerSource (h : HTTPEndpointHeader) : text :=
  match h.(hh_secretKeyRef), h.(hh_envRef) with
  | Some (name, key), _ =>
      u "secretKeyRef " ++ name ++ match key with Some [] | None => [] | Some k => u "/" ++ k end
  | None, Some (c :: e) => u "envRef " ++ c :: e
  | None, _ => u "value"
  end.

(** ** The rows of a resiliency file *)

Record PolicyRow := { pw_type : string; pw_name : string; pw_settings : string }.
Record TargetRow := { tw_kind : string; tw_name : string; tw_refs : PolicyRefs }.

Section Rows.
Context (stringify : json -> string) (String_of : json -> string).

(** A middle dot between spaces. *)
Definition dot : string := String (Ascii.ascii_of_nat 32) (String (Ascii.ascii_of_nat 183) " ").

Fixpoint join_dots (l : list string) : string :=
  match l with [] => "" | [s] => s | s :: l => String.append s (String.append dot (join_dots l)) end.

(** A retry or a circuit breaker as the API sends it: its fields. *)
Definition formatSettings (obj : JsMap string json) : string :=
  join_dots (map (fun kv => String.append kv.1 (String.append "="
                     match kv.2 with JArr _ | JObj _ => stringify kv.2 | v => String_of v end))
    (List.filter (fun kv => match kv.2 with JNull => false | JStr v => negb (String.eqb v "") | _ => true end) obj)).

Record PolicySpec := {
  ps_timeouts : option (JsMap string string);
  ps_retries : option (JsMap string (JsMap string json));
  ps_circuitBreakers : option (JsMap string (JsMap string json))
}.

Definition policyRows (p : PolicySpec) : list PolicyRow :=
  map (fun kv => {| pw_type := "timeout"; pw_name := kv.1; pw_settings := kv.2 |}) (default [] p.(ps_timeouts))
  ++ map (fun kv => {| pw_type := "retry"; pw_name := kv.1; pw_settings := formatSettings kv.2 |}) (default [] p.(ps_retries))
  ++ map (fun kv => {| pw_type := "circuit breaker"; pw_name := kv.1; pw_settings := formatSettings kv.2 |})
       (default [] p.(ps_circuitBreakers)).

Definition component_kind (direction : string) : string := String.append "component" (String.append dot direction).

Definition leg_row (kind name : string) (r : option PolicyRefs) : list TargetRow :=
  match r with Some refs => [{| tw_kind := kind; tw_name := name; tw_refs := refs |}] | None => [] end.

Definition targetRows (t : Targets) : list TargetRow :=
  map (fun kv => {| tw_kind := "app"; tw_name := kv.1; tw_refs := kv.2.(at_refs) |}) (default [] t.(apps))
  ++ map (fun kv => {| tw_kind := "actor"; tw_name := kv.1; tw_refs := kv.2.(ac_refs) |}) (default [] t.(actors))
  ++ flat_map (fun kv => leg_row (component_kind "outbound") kv.1 kv.2.(ct_outbound)
                         ++ leg_row (component_kind "inbound") kv.1 kv.2.(ct_inbound)) (default [] t.(components)).
End Rows.

(** ** A selected row is the row selected *)

Lemma find_elem {A} (f : A -> bool) l r : List.find f l = Some r -> r ∈ l /\ f r = true.
Proof. intros [H1 H2]%find_some. split; [by apply list_elem_of_In|done]. Qed.

(** Where a field tells the elements apart, looking one up by it finds it. *)
Lemma find_by {A B} `{EqDecision B} (g : A -> B) l r :
  NoDup (map g l) -> r ∈ l -> List.find (fun x => bool_decide (Some (g r) = Some (g x))) l = Some r.
Proof.
  induction l as [|y l IH]; intros Hn; [by intros ?%elem_of_nil|]. cbn in Hn |- *. apply NoDup_cons in Hn as [Hy Hn].
  intros [<-|Hr]%elem_of_cons; [by rewrite bool_decide_true|].
  rewrite bool_decide_false; [by apply IH|]. intros [= E]. apply Hy. rewrite <- E. by apply list_elem_of_fmap_2.
Qed.

(** Following the link of a row selects that row, even when another resource
    has its id for a name; a selection is one of the resources, and there is one
    unless there are none. *)
Theorem selects_the_row (resources : list ResourceSummary) (param : option text) :
  (forall r, NoDup (map rs_id resources) -> r ∈ resources -> selected resources (Some r.(rs_id)) = Some r)
  /\ (forall r, selected resources param = Some r -> r ∈ resources)
  /\ (resources <> [] -> is_Some (selected resources param)).
Proof.
  unfold selected. split_and!.
  - intros r Hn Hr. by rewrite (find_by rs_id).
  - intros r. destruct (List.find _ resources) eqn:E1; [intros [= <-]; by apply find_elem in E1 as [? _]|]. clear E1.
    destruct (List.find _ resources) eqn:E2; [intros [= <-]; by apply find_elem in E2 as [? _]|].
    destruct resources; [done|]. intros [= <-]. by left.
  - intros Hne. destruct (List.find _ resources); [done|]. destruct (List.find _ resources); [done|]. by destruct resources.
Qed.

(** ** Passwords and credentials are hidden *)

Lemma take_while_app f a b :
  forallb f a = true -> match b with c :: _ => f c = false | [] => True end ->
  take_while f (a ++ b) = a /\ drop_while f (a ++ b) = b.
Proof.
  intros Ha Hb. induction a as [|c a IH]; cbn in *.
  - destruct b as [|c b]; [done|]. cbn. by rewrite Hb.
  - apply andb_true_iff in Ha as [Hc Ha]. rewrite Hc. destruct (IH Ha) as [-> ->]. done.
Qed.

(** A URL with a user and a password. *)
Definition user_url (scheme user password host : text) : text :=
  scheme ++ u "://" ++ user ++ u ":" ++ password ++ u "@" ++ host.

Definition url_parts_ok (scheme user password : text) : Prop :=
  match scheme with c :: _ => is_alpha c = true | [] => False end
  /\ forallb scheme_unit scheme = true /\ forallb user_unit user = true /\ forallb password_unit password = true.

Lemma mask_user_url scheme user password host :
  url_parts_ok scheme user password -> maskUrlPassword (user_url scheme user password host) = user_url scheme user (bullets 4) host.
Proof.
  intros (Hs & Hsch & Hu & Hp). unfold user_url. destruct scheme as [|c scheme]; [done|].
  set (rest := user ++ u ":" ++ password ++ u "@" ++ host).
  destruct (take_while_app scheme_unit (c :: scheme) (u "://" ++ rest)) as [E1 E2]; [done|done|].
  unfold maskUrlPassword. change ((c :: scheme) ++ u "://" ++ rest) with (c :: (scheme ++ u "://" ++ rest)) at 1.
  cbv iota beta. rewrite E1, E2, Hs, starts_with_app. cbn [andb]. change (drop 3 (u "://" ++ rest)) with rest. unfold rest.
  destruct (take_while_app user_unit user (u ":" ++ password ++ u "@" ++ host)) as [-> ->]; [done|done|].
  change (u ":" ++ password ++ u "@" ++ host) with (58 :: password ++ 64 :: host).
  destruct (take_while_app password_unit password (64 :: host)) as [_ E]; [done|done|].
  cbv iota beta. by rewrite E.
Qed.

(** Any other text is left as it is. *)
Lemma mask_other url :
  maskUrlPassword url = url
  \/ exists scheme user password host, url = user_url scheme user password host /\ url_parts_ok scheme user password.
Proof.
  unfold maskUrlPassword. destruct url as [|c url]; [by left|]. set (t := c :: url).
  destruct (is_alpha c) eqn:Hc; [|by left]. destruct (starts_with _ _) eqn:Hs; cbn [andb]; [|by left].
  apply starts_with_true in Hs as [authority Ha]. rewrite Ha.
  change (drop 3 (u "://" ++ authority)) with authority.
  destruct (drop_while user_unit authority) as [|d password] eqn:Hu; [by left|].
  destruct (decide (d = 58)) as [->|Hd]; [|by left; destruct d as [|d|d]; repeat (destruct d as [d|d|]; try done)].
  destruct (drop_while password_unit password) as [|e host] eqn:Hp; [by left|].
  destruct (decide (e = 64)) as [->|He]; [|by left; destruct e as [|e|e]; repeat (destruct e as [e|e|]; try done)].
  right. exists (take_while scheme_unit t), (take_while user_unit authority), (take_while password_unit password), host.
  split.
  - unfold user_url. rewrite <- (take_drop_while scheme_unit t) at 1. rewrite Ha. do 2 f_equal.
    rewrite <- (take_drop_while user_unit authority) at 1. rewrite Hu. f_equal. cbn. f_equal.
    rewrite <- (take_drop_while password_unit password) at 1. by rewrite Hp.
  - split_and!; try apply take_while_all. unfold t. cbn. unfold scheme_unit. by rewrite Hc.
Qed.

(** What the page shows of a URL depends on nothing of its password, and
    nothing else of the URL is hidden. *)
Theorem password_not_shown (url : text) :
  (forall scheme user password host, url = user_url scheme user password host -> url_parts_ok scheme user password ->
     maskUrlPassword url = user_url scheme user (bullets 4) host)
  /\ ((forall scheme user password host, url = user_url scheme user password host -> ~ url_parts_ok scheme user password) ->
      maskUrlPassword url = url).
Proof.
  split.
  - intros scheme user password host -> H. by apply mask_user_url.
  - intros H. destruct (mask_other url) as [E|(scheme & user & password & host & -> & Hok)]; [done|].
    by destruct (H scheme user password host).
Qed.

(** A value a header takes from a secret or from the environment is not shown,
    a plain one of a telling name not before its button is pressed. *)
Theorem credential_not_shown (h h' : HTTPEndpointHeader) (refs : list SecretRefStatus) :
  h.(hh_name) = h'.(hh_name) -> h.(hh_secretKeyRef) = h'.(hh_secretKeyRef) -> h.(hh_envRef) = h'.(hh_envRef) ->
  is_Some h.(hh_secretKeyRef) \/ default [] h.(hh_envRef) <> []
    \/ (sensitive_name h.(hh_name) = true /\ default [] h.(hh_value) <> [] /\ default [] h'.(hh_value) <> []) ->
  cell_text false (HeaderValue h refs) = cell_text false (HeaderValue h' refs).
Proof.
  destruct h as [n v s e], h' as [n' v' s' e']. cbn. intros <- <- <- H. unfold HeaderValue. cbn.
  destruct s as [s|]; [done|]. destruct e as [[|c e]|]; [|done|];
    (destruct H as [[? ?]|[?|(Hn & Hv & Hv')]]; [done|done|]);
    destruct v as [[|a v]|], v' as [[|a' v']|]; try done; cbn; by rewrite Hn.
Qed.

(** Passwords that are not percent-encoded are not hidden, or not all of them. *)
Theorem raw_passwords_shown :
  maskUrlPassword (u "https://bob:pass/word@host") = u "https://bob:pass/word@host"
  /\ maskUrlPassword (u "https://bob:p@ssword@host") = u "https://bob:" ++ bullets 4 ++ u "@ssword@host".
Proof. split; reflexivity. Qed.

(** ** Every policy and every leg has its row *)

Lemma append_inj (p a b : string) : String.append p a = String.append p b -> a = b.
Proof. induction p as [|c p IH]; [done|]. intros [= H]. by apply IH. Qed.

(** The React key of a row. *)
Definition react_key (kind name : string) : string := String.append kind (String.append "/" name).

Section Keys.
Context (stringify : json -> string) (String_of : json -> string).

Lemma keys_of_map {V R} (f : string * V -> R) (kind name : R -> string) k (m : JsMap string V) :
  (forall kv, kind (f kv) = k /\ name (f kv) = kv.1) -> NoDup (keys m) ->
  NoDup (map (fun r => react_key (kind r) (name r)) (map f m))
  /\ forall x, x ∈ map (fun r => react_key (kind r) (name r)) (map f m) -> exists n, x = react_key k n.
Proof.
  intros Hf Hn. rewrite map_map.
  assert (E : map (fun kv => react_key (kind (f kv)) (name (f kv))) m = map (react_key k) (keys m)).
  { unfold keys. rewrite map_map. apply map_ext. intros kv. by destruct (Hf kv) as [-> ->]. }
  rewrite E. split.
  - apply NoDup_fmap_2; [|done]. intros a b H%append_inj. by apply append_inj in H.
  - intros x (n & -> & _)%list_elem_of_fmap. by exists n.
Qed.

(** The rows of the policy table have keys of their own, one row per policy. *)
Theorem policy_rows_distinct (p : PolicySpec) :
  NoDup (keys (default [] p.(ps_timeouts))) -> NoDup (keys (default [] p.(ps_retries))) ->
  NoDup (keys (default [] p.(ps_circuitBreakers))) ->
  NoDup (map (fun r => react_key r.(pw_type) r.(pw_name)) (policyRows stringify String_of p))
  /\ map pw_name (policyRows stringify String_of p)
     = keys (default [] p.(ps_timeouts)) ++ keys (default [] p.(ps_retries)) ++ keys (default [] p.(ps_circuitBreakers)).
Proof.
  intros Ht Hr Hc. unfold policyRows. split; [|by rewrite !map_app, !map_map].
  rewrite !map_app.
  match goal with |- NoDup (map ?g (map ?f ?m) ++ map _ (map ?f' ?m') ++ map _ (map ?f'' ?m'')) =>
    destruct (keys_of_map f pw_type pw_name "timeout" m) as [N1 K1]; [done|done|];
    destruct (keys_of_map f' pw_type pw_name "retry" m') as [N2 K2]; [done|done|];
    destruct (keys_of_map f'' pw_type pw_name "circuit breaker" m'') as [N3 K3]; [done|done|] end.
  apply NoDup_app. split_and!; [exact N1| |apply NoDup_app; split_and!; [exact N2| |exact N3]].
  - intros x H1 [H2|H2]%elem_of_app; apply K1 in H1 as [n ->]; [apply K2 in H2 as [n' E]|apply K3 in H2 as [n' E]]; discriminate.
  - intros x H1 H2. apply K2 in H1 as [n ->]. apply K3 in H2 as [n' E]. discriminate.
Qed.
End Keys.
