(* ===== verification/Highlight.v ===== *)
(** * Highlighting

    [lib/json-highlight.tsx], [lib/yaml-highlight.tsx], [lib/copy-links.tsx]:
    texts cut into pieces with a class. A rendered piece is its class and its
    text; React's elements around it are left out. *)

From S2P Require Import Prelude Json Text.
#[local] Open Scope Z_scope.

Definition span (f : Z -> bool) (t : text) : text * text := (take_while f t, drop_while f t).

(** What follows a unit a text starts with. *)
Definition take_char (c : Z) (t : text) : option text :=
  match t with d :: t => if d =? c then Some t else None | [] => None end.

(** ** lib/json-highlight.tsx *)

Inductive TokenType := TKey | TString | TNumber | TPunctuation | TLiteral | TWhitespace.
Record Token := { tk_type : TokenType; tk_text : text }.

Definition PUNCTUATION : text := u "{}[]:,".
Definition is_punctuation (c : Z) : bool := existsb (Z.eqb c) PUNCTUATION.
Definition is_number_char (c : Z) : bool := is_digit_unit c || existsb (Z.eqb c) (u ".eE+-").
Definition quote : Z := 34.
Definition backslash : Z := 92.

(** The inner loop of a string: up to and with the closing quote. *)
Fixpoint scan_string (t : text) : text * text :=
  match t with
  | [] => ([], [])
  | c :: t =>
      if c =? backslash then
        match t with
        | [] => ([c], [])
        | d :: t => let (s, rest) := scan_string t in (c :: d :: s, rest)
        end
      else if c =? quote then ([c], t)
      else let (s, rest) := scan_string t in (c :: s, rest)
  end.

Definition is_key (rest : text) : bool :=
  match drop_while js_space rest with c :: _ => c =? 58 | [] => false end.

Definition literals : list text := [u "true"; u "false"; u "null"].

(** The token a non-empty text starts with, and what follows it. *)
Definition next_token (ch : Z) (t : text) : Token * text :=
  if js_space ch then let (ws, rest) := span js_space (ch :: t) in ({| tk_type := TWhitespace; tk_text := ws |}, rest)
  else if is_punctuation ch then ({| tk_type := TPunctuation; tk_text := [ch] |}, t)
  else if ch =? quote then
    let (s, rest) := scan_string t in
    ({| tk_type := if is_key rest then TKey else TString; tk_text := ch :: s |}, rest)
  else if (ch =? 45) || is_digit_unit ch then
    if ch =? 45 then let (n, rest) := span is_number_char t in ({| tk_type := TNumber; tk_text := ch :: n |}, rest)
    else let (n, rest) := span is_number_char (ch :: t) in ({| tk_type := TNumber; tk_text := n |}, rest)
  else
    match List.find (starts_with (ch :: t)) literals with
    | Some l => ({| tk_type := TLiteral; tk_text := l |}, drop (length l) (ch :: t))
    | None => ({| tk_type := TWhitespace; tk_text := [ch] |}, t)
    end.

(** The loop; [None] when the fuel does not suffice. *)
Fixpoint tokenize_loop (fuel : nat) (raw : text) : option (list Token) :=
  match raw with
  | [] => Some []
  | ch :: t =>
      match fuel with
      | O => None
      | S fuel => let (token, rest) := next_token ch t in tokens ← tokenize_loop fuel rest; Some (token :: tokens)
      end
  end.
Definition tokenize (raw : text) : option (list Token) := tokenize_loop (length raw) raw.

Section HighlightJson.
(** [JSON.parse], and [JSON.stringify] with two spaces. *)
Context (JSON_parse : text -> option json) (JSON_pretty : json -> text).

Definition token_class (t : TokenType) : string :=
  match t with TKey => "k" | TString => "s" | TNumber => "n" | TPunctuation => "p" | TLiteral => "b" | TWhitespace => "" end.

Definition highlightJson (value : text) : option (list (string * text)) :=
  let displayText := match JSON_parse value with Some parsed => JSON_pretty parsed | None => value end in
  tokens ← tokenize displayText; Some (map (fun tok => (token_class tok.(tk_type), tok.(tk_text))) tokens).
End HighlightJson.

(** ** lib/yaml-highlight.tsx *)

(** A piece without a class. *)
Definition no_class : string := String.EmptyString.

Definition is_key_char (c : Z) : bool := is_word c || (c =? 46) || (c =? 45).
(** What [.] does not match. *)
Definition is_line_end (c : Z) : bool := existsb (Z.eqb c) [10; 13; 8232; 8233].

(** The key and what follows its colon. *)
Definition take_key (t : text) : option (text * text) :=
  let (key, rest) := span is_key_char t in
  match key, take_char 58 rest with
  | _ :: _, Some rest => if existsb is_line_end rest then None else Some (key, rest)
  | _, _ => None
  end.

(** [KEY_LINE_RE]: indent, key and rest. The optional dash is taken first and
    given back when no key follows it. *)
Definition match_key_line (line : text) : option (text * text * text) :=
  let (ws, t) := span js_space line in
  let plain := match take_key t with Some (key, rest) => Some (ws, key, rest) | None => None end in
  match take_char 45 t with
  | Some t' =>
      let (ws', t'') := span js_space t' in
      match take_key t'' with
      | Some (key, rest) => Some (ws ++ 45 :: ws', key, rest)
      | None => plain
      end
  | None => plain
  end.

(** [BOOL_DAPR_RE]: indent, literal and trail. *)
Definition bool_literals : list text := [u "true"; u "false"].
Definition match_bool_line (line : text) : option (text * text * text) :=
  let (indent, t) := span js_space line in
  match List.find (starts_with t) bool_literals with
  | Some literal =>
      let trail := drop (length literal) t in
      if forallb js_space trail then Some (indent, literal, trail) else None
  | None => None
  end.

(** What is shown after the colon. *)
Definition value_pieces (rest : text) : list (string * text) :=
  let trimmedRest := trimStart rest in
  let leadingSpace := take (length rest - length trimmedRest) rest in
  let isBoolLiteral := existsb (text_eqb trimmedRest) bool_literals in
  match rest with
  | [] => []
  | _ => if isBoolLiteral then [(no_class, leadingSpace); ("yd"%string, trimmedRest)] else [("ys"%string, rest)]
  end.

Definition highlight_line (line : text) : list (string * text) :=
  if starts_with (trimStart line) (u "#") then [("yc"%string, line)]
  else
    match match_bool_line line with
    | Some (indent, literal, trail) => [(no_class, indent); ("yd"%string, literal); (no_class, trail)]
    | None =>
        match match_key_line line with
        | Some (indent, key, rest) =>
            [(no_class, indent); ("yk"%string, key); (no_class, [58])] ++ value_pieces rest
        | None => [(no_class, line)]
        end
    end.

Fixpoint highlight_lines (lines : list text) : list (string * text) :=
  match lines with
  | [] => []
  | [line] => highlight_line line ++ [(no_class, [])]
  | line :: lines => highlight_line line ++ [(no_class, [10])] ++ highlight_lines lines
  end.
Definition highlightYaml (t : text) : list (string * text) := highlight_lines (split_on 10 t).

(** ** lib/copy-links.tsx *)

Inductive CopyNode :=
  | CopyText (t : text)
  | CopyLink (label href : text).

(** A link at the head of a text: label, target and what follows. *)
Definition match_link (t : text) : option (text * text * text) :=
  t ← take_char 91 t;
  let (label, t) := span (fun c => negb (c =? 93)) t in
  t ← take_char 93 t;
  t ← take_char 40 t;
  scheme ← (if starts_with t (u "https://") then Some (u "https://")
            else if starts_with t (u "http://") then Some (u "http://") else None);
  let (path, rest) := span (fun c => negb (js_space c) && negb (c =? 41)) (drop (length scheme) t) in
  rest ← take_char 41 rest;
  match label, path with
  | _ :: _, _ :: _ => Some (label, scheme ++ path, rest)
  | _, _ => None
  end.

Definition flush (pending : text) : list CopyNode := match pending with [] => [] | _ => [CopyText pending] end.

(** The matches from left to right; [pending] is the text since the last one. *)
Fixpoint copy_nodes (fuel : nat) (pending t : text) : list CopyNode :=
  match fuel with
  | O => flush pending
  | S fuel =>
      match t with
      | [] => flush pending
      | c :: t' =>
          match match_link t with
          | Some (label, href, rest) => flush pending ++ CopyLink label href :: copy_nodes fuel [] rest
          | None => copy_nodes fuel (pending ++ [c]) t'
          end
      end
  end.
Definition renderCopyLinks (t : text) : list CopyNode := copy_nodes (length t) [] t.

(** ** Facts *)

Lemma span_app f t : (span f t).1 ++ (span f t).2 = t.
Proof. unfold span. cbn. induction t as [|c t IH]; [done|]. cbn. destruct (f c); cbn; [by rewrite IH|done]. Qed.

Lemma take_char_app c t r : take_char c t = Some r -> t = c :: r.
Proof. destruct t as [|d t]; [done|]. cbn. destruct (Z.eqb_spec d c); [|done]. intros [= <-]. by subst. Qed.

Lemma span_head f c t : f c = true -> (span f (c :: t)).1 = c :: (span f t).1.
Proof. intros H. unfold span. cbn. by rewrite H. Qed.

Lemma scan_string_app n : forall t, (length t <= n)%nat -> (scan_string t).1 ++ (scan_string t).2 = t.
Proof.
  induction n as [|n IH]; intros [|c t] Hn; cbn [length] in Hn; try done; [lia|]. cbn [scan_string].
  destruct (c =? backslash).
  - destruct t as [|d t]; [done|]. cbn [length] in Hn. specialize (IH t ltac:(lia)).
    destruct (scan_string t) as [s r]. cbn in *. by rewrite IH.
  - destruct (c =? quote); [done|]. specialize (IH t ltac:(lia)).
    destruct (scan_string t) as [s r]. cbn in *. by rewrite IH.
Qed.

Lemma find_prefix t (l : list text) s : List.find (starts_with t) l = Some s -> s ++ drop (length s) t = t /\ s ∈ l.
Proof.
  intros [Hin H]%find_some. apply starts_with_true in H as [r ->]. rewrite drop_app_length. split; [done|].
  by apply list_elem_of_In.
Qed.

Lemma next_token_spec ch t :
  (next_token ch t).1.(tk_text) ++ (next_token ch t).2 = ch :: t /\ (next_token ch t).1.(tk_text) <> [].
Proof.
  unfold next_token. destruct (js_space ch) eqn:W.
  { pose proof (span_app js_space (ch :: t)) as E. pose proof (span_head js_space ch t W) as H.
    destruct (span js_space (ch :: t)) as [ws rest]. cbn in *. subst ws. done. }
  destruct (is_punctuation ch); [done|]. destruct (ch =? quote).
  { pose proof (scan_string_app (length t) t ltac:(lia)) as E. destruct (scan_string t) as [s rest]. cbn in *.
    by rewrite E. }
  destruct ((ch =? 45) || is_digit_unit ch) eqn:N.
  { destruct (ch =? 45) eqn:D.
    - pose proof (span_app is_number_char t) as E. destruct (span is_number_char t) as [n rest]. cbn in *. by rewrite E.
    - cbn in N. assert (Nc : is_number_char ch = true) by (unfold is_number_char; by rewrite N).
      pose proof (span_app is_number_char (ch :: t)) as E. pose proof (span_head is_number_char ch t Nc) as H.
      destruct (span is_number_char (ch :: t)) as [n rest]. cbn in *. subst n. done. }
  destruct (List.find _ literals) as [l|] eqn:F; [|done]. apply find_prefix in F as [E Hin]. cbn [fst snd tk_text].
  split; [exact E|]. unfold literals in Hin. repeat (apply elem_of_cons in Hin as [->|Hin]; [done|]).
  by apply elem_of_nil in Hin.
Qed.

Lemma tokenize_loop_spec fuel : forall raw, (length raw <= fuel)%nat ->
  exists tokens, tokenize_loop fuel raw = Some tokens /\ concat (map tk_text tokens) = raw
                 /\ Forall (fun tok => tok.(tk_text) <> []) tokens.
Proof.
  induction fuel as [|fuel IH]; intros [|ch t] Hl; cbn [length tokenize_loop] in *; try (by exists []); [lia|].
  destruct (next_token_spec ch t) as [E Hne]. destruct (next_token ch t) as [token rest]. cbn [fst snd] in *.
  destruct (IH rest) as (tokens & -> & Et & Hall).
  { apply (f_equal length) in E. rewrite length_app in E. cbn [length] in E.
    destruct (tk_text token); [done|]. cbn [length] in E. lia. }
  exists (token :: tokens). cbn. rewrite Et. split_and!; [done|done|by constructor].
Qed.

(** The JSON highlighter ends on every text and loses nothing: the tokens,
    none of them empty, put together are the text it was given, valid JSON or
    not; so what is shown is the pretty-printed value, or the raw text when it
    does not parse. *)
Theorem highlightJson_lossless (JSON_parse : text -> option json) (JSON_pretty : json -> text) (value : text) :
  exists pieces, highlightJson JSON_parse JSON_pretty value = Some pieces
    /\ concat (map snd pieces) = match JSON_parse value with Some v => JSON_pretty v | None => value end
    /\ Forall (fun p => p.2 <> []) pieces.
Proof.
  unfold highlightJson, tokenize. cbv zeta. set (shown := match JSON_parse value with Some v => JSON_pretty v | None => value end).
  destruct (tokenize_loop_spec (length shown) shown ltac:(lia)) as (tokens & -> & E & H).
  eexists. split; [reflexivity|]. rewrite map_map. split; [exact E|]. apply Forall_map. exact H.
Qed.

(** ** YAML *)

Lemma trim_start_app t : take (length t - length (trimStart t)) t ++ trimStart t = t.
Proof.
  destruct (drop_while_suffix js_space t) as (pre & E & _). unfold trimStart.
  set (r := drop_while js_space t) in *. clearbody r. subst t. rewrite length_app.
  replace (length pre + length r - length r)%nat with (length pre) by lia. by rewrite take_app_length.
Qed.

Lemma take_key_app t key rest : take_key t = Some (key, rest) -> t = key ++ 58 :: rest.
Proof.
  unfold take_key. pose proof (span_app is_key_char t) as E. destruct (span is_key_char t) as [k r]. cbn in E.
  destruct k as [|c k]; [done|]. destruct (take_char 58 r) as [r'|] eqn:D; [|done]. apply take_char_app in D.
  destruct (existsb is_line_end r'); [done|]. intros [= <- <-]. by rewrite <- E, D.
Qed.

Lemma match_key_line_app line indent key rest :
  match_key_line line = Some (indent, key, rest) -> line = indent ++ key ++ 58 :: rest.
Proof.
  unfold match_key_line. pose proof (span_app js_space line) as E. destruct (span js_space line) as [ws t]. cbn in E.
  assert (Plain : match take_key t with Some (k, r) => Some (ws, k, r) | None => None end = Some (indent, key, rest) ->
                  line = indent ++ key ++ 58 :: rest).
  { destruct (take_key t) as [[k r]|] eqn:K; [|done]. intros [= <- <- <-]. apply take_key_app in K. by rewrite <- K. }
  cbv zeta. destruct (take_char 45 t) as [t'|] eqn:D; [|exact Plain]. apply take_char_app in D.
  pose proof (span_app js_space t') as E'. destruct (span js_space t') as [ws' t'']. cbn in E'.
  destruct (take_key t'') as [[k r]|] eqn:K; [|exact Plain]. intros [= <- <- <-]. apply take_key_app in K.
  rewrite <- app_assoc. cbn. by rewrite <- K, E', <- D.
Qed.

Lemma match_bool_line_app line indent literal trail :
  match_bool_line line = Some (indent, literal, trail) -> line = indent ++ literal ++ trail.
Proof.
  unfold match_bool_line. pose proof (span_app js_space line) as E. destruct (span js_space line) as [ws t]. cbn in E.
  destruct (List.find _ _) as [l|] eqn:F; [|done]. apply find_prefix in F as [El _].
  destruct (forallb _ _); [|done]. intros [= <- <- <-]. by rewrite El.
Qed.

Lemma value_pieces_app rest : concat (map snd (value_pieces rest)) = rest.
Proof.
  unfold value_pieces. cbv zeta. destruct rest as [|c r]; [done|]. pose proof (trim_start_app (c :: r)) as E.
  destruct (existsb _ bool_literals); cbn [map concat snd]; by rewrite app_nil_r.
Qed.

Lemma highlight_line_app line : concat (map snd (highlight_line line)) = line.
Proof.
  unfold highlight_line. destruct (starts_with _ _); [by cbn; rewrite app_nil_r|].
  destruct (match_bool_line line) as [[[i l] t]|] eqn:B.
  { apply match_bool_line_app in B. cbn. by rewrite app_nil_r. }
  destruct (match_key_line line) as [[[i k] r]|] eqn:K; [|by cbn; rewrite app_nil_r].
  apply match_key_line_app in K. rewrite map_app, concat_app, value_pieces_app, K. cbn.
  by rewrite <- !app_assoc.
Qed.

(** The lines joined again. *)
Fixpoint join_lines (lines : list text) : text :=
  match lines with [] => [] | [line] => line | line :: lines => line ++ 10 :: join_lines lines end.

Lemma split_join t : join_lines (split_on 10 t) = t.
Proof.
  induction t as [|c t IH]; [done|]. cbn [split_on]. pose proof (split_on_nonempty 10 t) as Hne.
  destruct (split_on 10 t) as [|part parts]; [done|]. destruct (Z.eqb_spec c 10) as [->|Hc].
  - cbn. cbn in IH. by rewrite IH.
  - destruct parts; cbn in *; by rewrite IH.
Qed.

(** The YAML highlighter only colours: for every text, the pieces put
    together are exactly that text, line ends and a trailing newline
    included. *)
Theorem highlightYaml_lossless (t : text) : concat (map snd (highlightYaml t)) = t.
Proof.
  unfold highlightYaml. rewrite <- (split_join t) at 2. generalize (split_on 10 t). intros lines.
  induction lines as [|line lines IH]; [done|]. destruct lines as [|line' lines].
  - cbn [highlight_lines join_lines]. rewrite map_app, concat_app, highlight_line_app. cbn. by rewrite app_nil_r.
  - change (highlight_lines (line :: line' :: lines))
      with (highlight_line line ++ [(no_class, [10])] ++ highlight_lines (line' :: lines)).
    rewrite !map_app, !concat_app, highlight_line_app, IH. done.
Qed.

(** ** Links in copy *)

Definition node_source (n : CopyNode) : text :=
  match n with CopyText t => t | CopyLink label href => [91] ++ label ++ [93; 40] ++ href ++ [41] end.
(** What a link must be: an http(s) URL without blanks or a closing parenthesis. *)
Definition safe_href (href : text) : Prop :=
  (starts_with href (u "http://") = true \/ starts_with href (u "https://") = true)
  /\ Forall (fun c => js_space c = false /\ c <> 41) href.
Definition node_ok (n : CopyNode) : Prop :=
  match n with CopyText t => t <> [] | CopyLink label href => label <> [] /\ safe_href href end.

Lemma span_all f t : Forall (fun c => f c = true) (span f t).1.
Proof. unfold span. cbn. induction t as [|c t IH]; cbn; [constructor|]. destruct (f c) eqn:E; by constructor. Qed.

Lemma match_link_spec t label href rest :
  match_link t = Some (label, href, rest) ->
  t = node_source (CopyLink label href) ++ rest /\ node_ok (CopyLink label href).
Proof.
  unfold match_link. destruct (take_char 91 t) as [t0|] eqn:C0; [|done]. apply take_char_app in C0 as ->.
  cbn [mbind option_bind].
  pose proof (span_app (fun c => negb (c =? 93)) t0) as E. destruct (span _ t0) as [l t1]. cbn in E. subst t0.
  destruct (take_char 93 t1) as [t2|] eqn:C1; [|done]. apply take_char_app in C1 as ->. cbn [mbind option_bind].
  destruct (take_char 40 t2) as [t3|] eqn:C2; [|done]. apply take_char_app in C2 as ->. cbn [mbind option_bind].
  set (pick := if starts_with t3 (u "https://") then _ else _).
  assert (P : forall s, pick = Some s -> starts_with t3 s = true /\ (s = u "http://" \/ s = u "https://")).
  { intros s. unfold pick. destruct (starts_with t3 (u "https://")) eqn:S1; [intros [= <-]; auto|].
    destruct (starts_with t3 (u "http://")) eqn:S2; [intros [= <-]; auto|done]. }
  destruct pick as [scheme|]; [|done]. destruct (P scheme eq_refl) as [Hst Hs]. cbn [mbind option_bind].
  apply starts_with_true in Hst as [r ->]. rewrite drop_app_length.
  set (f := fun c => negb (js_space c) && negb (c =? 41)).
  pose proof (span_app f r) as Er. pose proof (span_all f r) as Ha. destruct (span f r) as [path r']. cbn in Er, Ha.
  destruct (take_char 41 r') as [r''|] eqn:C3; [|done]. apply take_char_app in C3 as ->. cbn [mbind option_bind].
  destruct l as [|l0 l]; [done|]. destruct path as [|p path]; [done|]. intros E. injection E as <- <- <-. split.
  - rewrite <- Er. cbn [node_source]. by rewrite <- !app_assoc.
  - split; [done|]. split.
    + destruct Hs as [->| ->]; [left|right]; apply starts_with_app.
    + apply Forall_app. split.
      * destruct Hs as [->| ->]; by repeat constructor.
      * eapply Forall_impl; [exact Ha|]. unfold f. intros x Hx. cbn in Hx.
        apply andb_true_iff in Hx as [H1%negb_true_iff H2%negb_true_iff]. split; [done|]. by apply Z.eqb_neq.
Qed.

Lemma flush_source pending : concat (map node_source (flush pending)) = pending /\ Forall node_ok (flush pending).
Proof. destruct pending as [|c p]; [by split|]. cbn. rewrite app_nil_r. split; [done|]. by repeat constructor. Qed.

Lemma copy_nodes_spec fuel : forall pending t, (length t <= fuel)%nat ->
  concat (map node_source (copy_nodes fuel pending t)) = pending ++ t /\ Forall node_ok (copy_nodes fuel pending t).
Proof.
  induction fuel as [|fuel IH]; intros pending t Hl; cbn [copy_nodes].
  - destruct t; [|cbn in Hl; lia]. rewrite app_nil_r. apply flush_source.
  - destruct t as [|c t]; [rewrite app_nil_r; apply flush_source|].
    destruct (match_link (c :: t)) as [[[label href] rest]|] eqn:M.
    + apply match_link_spec in M as [E Hok]. destruct (flush_source pending) as [F1 F2].
      assert (Hr : (length rest <= fuel)%nat).
      { apply (f_equal length) in E. rewrite length_app in E. cbn [length node_source app] in *. lia. }
      destruct (IH [] rest Hr) as [I1 I2]. rewrite map_app, concat_app, F1. cbn [map concat]. rewrite I1. cbn [app].
      split; [by rewrite E|]. apply Forall_app. split; [done|by constructor].
    + cbn [length] in Hl. destruct (IH (pending ++ [c]) t ltac:(lia)) as [I1 I2]. split; [|done].
      rewrite I1, <- app_assoc. done.
Qed.

(** Editable copy can only produce safe links and loses no text: every
    link rendered has a non-empty label and an http or https target (no other
    scheme, no blank, no parenthesis in it), and texts and link sources
    together are exactly the copy. *)
Theorem renderCopyLinks_safe (t : text) :
  concat (map node_source (renderCopyLinks t)) = t /\ Forall node_ok (renderCopyLinks t).
Proof. apply (copy_nodes_spec (length t) []). done. Qed.
