(* ===== verification/Montage.v ===== *)
(** * The level montage

    [runtime/montage.ts]: a level's segments replayed back to back at high
    speed, the orbs fed from the values live play saw. *)

From S2P Require Import Prelude JsNum JsMap Types Levels Rng Step StepFacts StepInv Replayer RuntimeTypes.
#[local] Open Scope Z_scope.

(** ** Definitions *)

Definition MONTAGE_FRAMES : num := 240%float.
Definition MONTAGE_MIN_TICKS_PER_FRAME : Z := 8.
Definition FLASH_FRAMES : Z := 8.
Definition TRAIL : nat := 6.

(** [() => queue.shift() ?? 0]. *)
Definition shift (q : list num) : num * list num :=
  match q with [] => (0%float, []) | v :: q => (v, q) end.

Definition orb_id (e : HistoryEvent) : option Z :=
  match e with OutE (OrbTaken _ id _) => Some id | _ => None end.

(** The values of a segment's orbs, in history order. *)
Definition orb_queue (seg : MontageSegment) : list num :=
  let values := map_of seg.(sg_orbValues) in
  map (fun id => default 0%float (map_get id values)) (omap orb_id seg.(sg_history)).

Record Montage := {
  mo_segments : list MontageSegment;
  mo_events : Z;
  mo_ticksPerFrame : Z;
  mo_flash : Z;
  mo_trail : list num;
  mo_index : nat;
  mo_replayer : Replayer (list num)
}.

(** [Math.max(floor, Math.ceil(ticks / frames))]. *)
Definition pace (floor ticks : Z) (frames : num) : Z :=
  Z.max floor (default 0 (trunc_Z (num_ceil (of_Z ticks / frames)%float))).

Section Montage.
Context (levels : LevelTable).

Definition mo_open (segments : list MontageSegment) (i : nat) : option (Replayer (list num)) :=
  (fun seg => createReplayer levels seg.(sg_start) seg.(sg_endTick) (orb_queue seg)) <$> segments !! i.

(** [new Montage(segments)]; [None] is the exception an empty list raises. *)
Definition newMontage (segments : list MontageSegment) : option Montage :=
  let ticks := fold_left (fun n s => n + s.(sg_endTick)) segments 0 in
  (fun r => {|
     mo_segments := segments;
     mo_events := fold_left (fun n s => n + Z.of_nat (length s.(sg_history))) segments 0;
     mo_ticksPerFrame := pace MONTAGE_MIN_TICKS_PER_FRAME ticks MONTAGE_FRAMES;
     mo_flash := 0; mo_trail := []; mo_index := 0; mo_replayer := r |}) <$> mo_open segments 0.

Definition mo_state (m : Montage) : GameState := m.(mo_replayer).(rp_state).
Definition mo_done (m : Montage) : bool := (length m.(mo_segments) <=? m.(mo_index))%nat.

(** The open segment's replayer, advanced: history and target are the segment's. *)
Definition mo_replay (m : Montage) (maxTicks : nat) : Replayer (list num) :=
  match m.(mo_segments) !! m.(mo_index) with
  | Some seg => advance levels seg.(sg_history) seg.(sg_endTick) shift maxTicks m.(mo_replayer)
  | None => m.(mo_replayer)
  end.

(** One frame of fast-forward. *)
Definition mo_advance (m : Montage) : Montage :=
  if mo_done m then m
  else
    let m := if 0 <? m.(mo_flash) then {| m with mo_flash := m.(mo_flash) - 1 |} else m in
    let r := mo_replay m (Z.to_nat m.(mo_ticksPerFrame)) in
    let m := {| m with mo_replayer := r;
                       mo_trail := take TRAIL ((livePlayer r.(rp_state)).(p_y) :: m.(mo_trail)) |} in
    if negb r.(rp_done) then m
    else
      let m := {| m with mo_index := S m.(mo_index) |} in
      if mo_done m then m
      else
        match mo_open m.(mo_segments) m.(mo_index) with
        | Some r => {| m with mo_replayer := r; mo_flash := FLASH_FRAMES; mo_trail := [] |}
        | None => m
        end.

Fixpoint mo_frames (n : nat) (m : Montage) : Montage :=
  match n with O => m | S n => mo_frames n (mo_advance m) end.
End Montage.

(** ** What the montage shows *)

(** The orbs of a history got the values a table says. *)
Definition orbs_agree (table : JsMap Z num) (h : list HistoryEvent) (orbs : list num) : Prop :=
  Forall2 (fun id v => map_get id table = Some v) (omap orb_id h) orbs.

(** A segment live play closed: a run, up to inputs waiting at its end, with the
    values its orbs got. *)
Definition genuine (levels : LevelTable) (seg : MontageSegment) (s : GameState) : Prop :=
  exists h qs orbs,
    Run levels seg.(sg_start) h s orbs
    /\ seg.(sg_history) = h ++ map InE qs /\ seg.(sg_endTick) = s.(g_tick)
    /\ Forall (fun e => input_tick e = s.(g_tick)) qs
    /\ orbs_agree (map_of seg.(sg_orbValues)) h orbs.

Lemma gives_shift l : gives shift l l.
Proof. induction l as [|v l IH]; econstructor; [reflexivity|done]. Qed.

Lemma orb_id_inputs qs : omap orb_id (map InE qs) = [].
Proof. by induction qs. Qed.

Lemma agree_queue table h orbs :
  orbs_agree table h orbs -> map (fun id => default 0%float (map_get id table)) (omap orb_id h) = orbs.
Proof.
  unfold orbs_agree. generalize (omap orb_id h). intros ids.
  induction 1 as [|id v ids orbs Hv _ IH]; simpl; [done|]. by rewrite Hv, IH.
Qed.

Lemma genuine_replays levels seg s :
  genuine levels seg s ->
  replay levels seg.(sg_start) seg.(sg_history) seg.(sg_endTick) shift (orb_queue seg) = ReplayOk s.
Proof.
  intros (h & qs & orbs & HR & Hh & Ht & Hq & Ho). unfold orb_queue. rewrite Hh, Ht.
  rewrite (omap_app orb_id h), orb_id_inputs, app_nil_r, (agree_queue _ _ _ Ho).
  apply (replay_run _ _ _ _ _ _ _ _ HR Hq). apply gives_shift.
Qed.

(** A state of the recorded run: the run that reached it recorded the first
    events of the segment, its orbs got the first of the recorded values, and
    everything else was recorded at its tick or later. *)
Definition recorded_state (levels : LevelTable) (seg : MontageSegment) (s : GameState) : Prop :=
  exists h rest orbs orbs',
    Run levels seg.(sg_start) h s orbs
    /\ seg.(sg_history) = h ++ rest /\ Forall (fun e => s.(g_tick) <= ev_tick e) rest
    /\ orb_queue seg = orbs ++ orbs'.

(** A run can be cut at every tick it went through. *)
Lemma Run_cut levels start h s orbs :
  Run levels start h s orbs -> forall n, (n <= Z.to_nat s.(g_tick))%nat ->
  exists h1 h2 s1 orbs1 orbs2,
    Run levels start h1 s1 orbs1 /\ s1.(g_tick) = Z.of_nat n
    /\ h = h1 ++ h2 /\ orbs = orbs1 ++ orbs2 /\ Forall (fun e => Z.of_nat n <= ev_tick e) h2.
Proof.
  induction 1 as [|h s orbs ins ans s' evs HR IH Hs Hi Hst Hx Hf Hr]; intros n Hn.
  { exists [], [], (initialState start levels), [], []. split_and!; [constructor|simpl in *; lia|done..]. }
  destruct (step_clock list_ports levels s (map inputOf ins) ans Hs) as ((Ht & _) & He & _).
  rewrite Hst in Ht, He. simpl in Ht, He. destruct (Run_step _ _ _ _ _ HR) as [Hpos _].
  destruct (Nat.eq_dec n (Z.to_nat (g_tick s'))) as [->|Hne].
  { exists (h ++ map InE ins ++ map OutE evs), [], s', (orbs ++ orb_values ans), [].
    rewrite !app_nil_r. split_and!; [by eapply Run_tick|lia|done..]. }
  destruct (IH n) as (h1 & h2 & s1 & o1 & o2 & HR1 & Ht1 & -> & -> & H2); [lia|].
  exists h1, (h2 ++ map InE ins ++ map OutE evs), s1, o1, (o2 ++ orb_values ans).
  rewrite <- !app_assoc. split_and!; try done. rewrite !Forall_app, !Forall_map. split_and!; [done| |].
  - eapply Forall_impl; [exact Hi|]. simpl. lia.
  - eapply Forall_impl; [exact He|]. simpl. lia.
Qed.

(** ** The replayer of a segment *)

Section Segments.
Context (levels : LevelTable).

Definition seg_replayer (seg : MontageSegment) (n : nat) : Replayer (list num) :=
  advance levels seg.(sg_history) seg.(sg_endTick) shift n
    (createReplayer levels seg.(sg_start) seg.(sg_endTick) (orb_queue seg)).

Lemma seg_replayer_end seg : (seg_replayer seg (Z.to_nat seg.(sg_endTick))).(rp_done) = true.
Proof. exact (advance_to_end levels _ _ _ _ _). Qed.

Lemma seg_replayer_done seg m n :
  (seg_replayer seg m).(rp_done) = true -> (m <= n)%nat -> seg_replayer seg n = seg_replayer seg m.
Proof.
  intros H Hn. replace n with (m + (n - m))%nat by lia. unfold seg_replayer. rewrite advance_add.
  by apply advance_done.
Qed.

(** A finished replayer does not depend on how it was advanced. *)
Lemma seg_replayer_same seg n :
  (seg_replayer seg n).(rp_done) = true -> seg_replayer seg n = seg_replayer seg (Z.to_nat seg.(sg_endTick)).
Proof.
  intros H. destruct (Nat.le_ge_cases n (Z.to_nat seg.(sg_endTick))) as [Hn|Hn].
  - symmetry. by apply seg_replayer_done.
  - apply seg_replayer_done; [apply seg_replayer_end|done].
Qed.

(** Up to the end, a genuine segment's replayer is in a state of the recorded run. *)
Lemma genuine_before_end seg s n :
  genuine levels seg s -> (n <= Z.to_nat seg.(sg_endTick))%nat ->
  exists s1 c d p, recorded_state levels seg s1
    /\ seg_replayer seg n
       = {| rp_state := s1; rp_cursor := c; rp_divergedAt := None; rp_done := d; rp_port := p |}.
Proof.
  intros (h & qs & orbs & HR & Hh & Ht & Hq & Ho) Hn. destruct (Run_step _ _ _ _ _ HR) as [Hpos _].
  rewrite Ht in Hn. destruct (Run_cut _ _ _ _ _ HR n Hn) as (h1 & h2 & s1 & o1 & o2 & HR1 & Ht1 & -> & -> & H2).
  rewrite <- app_assoc in Hh.
  assert (Hr : Forall (fun e => g_tick s1 <= ev_tick e) (h2 ++ map InE qs)).
  { rewrite Ht1. apply Forall_app. split; [done|]. rewrite Forall_map.
    eapply Forall_impl; [exact Hq|]. cbn. lia. }
  assert (Hqu : orb_queue seg = o1 ++ o2).
  { unfold orb_queue. by rewrite Hh, app_assoc, (omap_app orb_id), orb_id_inputs, app_nil_r, (agree_queue _ _ _ Ho). }
  destruct (advance_run levels (sg_start seg) shift (sg_endTick seg) (sg_history seg) h1 s1 o1 HR1
    (h2 ++ map InE qs) o2 (orb_queue seg)) as (p' & Ha & _); [done|done|lia| | |].
  - intros t id hash v Hin. pose proof (Run_ids _ _ _ _ _ HR) as [_ _ _ Hnd _ _].
    rewrite Hh, app_assoc, crateResults_inputs. eapply crateResults_lookup; [|exact Hnd]. apply elem_of_app. by left.
  - rewrite Hqu. apply gives_shift.
  - exists s1. do 3 eexists. split; [by exists h1, (h2 ++ map InE qs), o1, o2|].
    unfold seg_replayer. rewrite Ht1, Nat2Z.id in Ha. exact Ha.
Qed.

(** At every tick, a genuine segment's replayer is in a state of the recorded
    run and has not diverged; at the end it is in the state recorded. *)
Lemma genuine_shown seg s n :
  genuine levels seg s ->
  (seg_replayer seg n).(rp_divergedAt) = None /\ recorded_state levels seg (seg_replayer seg n).(rp_state)
  /\ ((seg_replayer seg n).(rp_done) = true -> (seg_replayer seg n).(rp_state) = s).
Proof.
  intros Hg.
  assert (He : (seg_replayer seg (Z.to_nat (sg_endTick seg))).(rp_state) = s).
  { pose proof (genuine_replays levels seg s Hg) as E. unfold replay, result in E.
    fold (seg_replayer seg (Z.to_nat (sg_endTick seg))) in E. destruct (rp_divergedAt _); by simplify_eq. }
  apply and_assoc. split; [|intros D; by rewrite (seg_replayer_same seg n D)].
  assert (Hk : exists k, (k <= Z.to_nat (sg_endTick seg))%nat /\ seg_replayer seg n = seg_replayer seg k).
  { destruct (Nat.le_ge_cases n (Z.to_nat (sg_endTick seg))) as [Hn|Hn]; [by exists n|].
    exists (Z.to_nat (sg_endTick seg)). split; [done|]. by apply seg_replayer_done; [apply seg_replayer_end|]. }
  destruct Hk as (k & Hk & ->). by destruct (genuine_before_end seg s k Hg Hk) as (s1 & c & d & p & Hs1 & ->).
Qed.
End Segments.

(** ** The montage goes through its segments *)

Section Ends.
Context (levels : LevelTable).

(** Segment [i] is open and [n] of its ticks are asked for. *)
Definition mo_at (m : Montage) (i n : nat) : Prop :=
  m.(mo_index) = i /\ 1 <= m.(mo_ticksPerFrame)
  /\ exists seg, m.(mo_segments) !! i = Some seg /\ m.(mo_replayer) = seg_replayer levels seg n.

Definition seg_ticks (segs : list MontageSegment) (i : nat) : nat :=
  match segs !! i with Some seg => Z.to_nat seg.(sg_endTick) | None => O end.

(** What the frame about to be drawn replays. *)
Definition mo_next (m : Montage) : Replayer (list num) := mo_replay levels m (Z.to_nat m.(mo_ticksPerFrame)).

Lemma mo_done_advance m : mo_done m = true -> mo_advance levels m = m.
Proof. intros H. unfold mo_advance. by rewrite H. Qed.

Lemma mo_done_frames n : forall m, mo_done m = true -> mo_frames levels n m = m.
Proof. induction n as [|n IH]; intros m H; simpl; [done|]. rewrite mo_done_advance by done. by apply IH. Qed.

Lemma mo_frames_add a b : forall m, mo_frames levels (a + b) m = mo_frames levels b (mo_frames levels a m).
Proof. induction a as [|a IH]; intros m; simpl; [done|]. apply IH. Qed.

Lemma mo_at_next m i n seg :
  mo_at m i n -> m.(mo_segments) !! i = Some seg ->
  mo_next m = seg_replayer levels seg (n + Z.to_nat m.(mo_ticksPerFrame)).
Proof.
  intros (Hi & _ & seg' & Hs & Hr) H. rewrite H in Hs. injection Hs as <-.
  unfold mo_next, mo_replay. rewrite Hi, H, Hr.
  unfold seg_replayer. by rewrite <- advance_add.
Qed.

(** One frame: further into the segment, or, once its replay is finished, the
    next segment or the end. *)
Lemma mo_step m i n :
  mo_at m i n ->
  let m' := mo_advance levels m in
  m'.(mo_segments) = m.(mo_segments)
  /\ ((mo_next m).(rp_done) = true /\ S i = length m.(mo_segments)
        /\ mo_done m' = true /\ m'.(mo_replayer) = mo_next m
      \/ (mo_next m).(rp_done) = true /\ mo_at m' (S i) 0
      \/ (mo_next m).(rp_done) = false
        /\ exists n', (n < n')%nat /\ (n < seg_ticks m.(mo_segments) i)%nat /\ mo_at m' i n').
Proof.
  intros Hat. destruct (Hat) as (Hi & Hp & seg & Hseg & Hr). cbv zeta.
  pose proof (mo_at_next _ _ _ _ Hat Hseg) as Hnext. unfold mo_advance.
  assert (Hnd : mo_done m = false).
  { unfold mo_done. rewrite Hi. apply Nat.leb_gt. by eapply lookup_lt_Some. }
  rewrite Hnd.
  set (m1 := if 0 <? mo_flash m then _ else m).
  assert (Em : m1.(mo_segments) = m.(mo_segments) /\ m1.(mo_index) = i
    /\ m1.(mo_ticksPerFrame) = m.(mo_ticksPerFrame)
    /\ mo_replay levels m1 (Z.to_nat m1.(mo_ticksPerFrame)) = mo_next m).
  { subst m1. destruct (_ <? _); simpl; auto. }
  destruct Em as (E1 & E2 & E4 & E3). clearbody m1. rewrite E3.
  destruct (rp_done (mo_next m)) eqn:D; simpl.
  - match goal with |- context [if mo_done ?x then _ else _] => destruct (mo_done x) eqn:Hd end;
      unfold mo_done in Hd; simpl in Hd; rewrite E1, E2 in Hd; apply lookup_lt_Some in Hseg as Hl.
    + apply Nat.leb_le in Hd. split; [done|]. left. split_and!; [done|lia| |done].
      unfold mo_done. simpl. rewrite E1, E2. by apply Nat.leb_le.
    + apply Nat.leb_gt, lookup_lt_is_Some in Hd as [seg' Hseg']. unfold mo_open. simpl. rewrite E1, E2, Hseg'. simpl.
      split; [done|]. right; left. unfold mo_at. simpl. rewrite ?E1, ?E2, ?E4. split_and!; [done..|].
      by exists seg'.
  - split; [done|]. right; right. split; [done|]. rewrite Hnext in D. exists (n + Z.to_nat m.(mo_ticksPerFrame))%nat. split_and!; [lia| |].
    + unfold seg_ticks. rewrite Hseg. destruct (Nat.le_gt_cases (Z.to_nat (sg_endTick seg)) n) as [Hle|]; [|done].
      rewrite (seg_replayer_done _ _ _ _ (seg_replayer_end levels seg)), seg_replayer_end in D; [done|lia].
    + unfold mo_at. simpl. rewrite ?E1, ?E2, ?E4. split_and!; [done|done|]. by exists seg.
Qed.

(** The frames a montage can take: every segment's ticks, and one. *)
Definition mo_budget (segs : list MontageSegment) : nat :=
  fold_right (fun s n => (S (Z.to_nat s.(sg_endTick)) + n)%nat) O segs.

Lemma mo_budget_drop segs i :
  (i < length segs)%nat -> mo_budget (drop i segs) = (S (seg_ticks segs i) + mo_budget (drop (S i) segs))%nat.
Proof.
  intros [seg Hs]%lookup_lt_is_Some. unfold seg_ticks. rewrite Hs, (drop_S _ seg) by done. done.
Qed.

(** Every segment from the open one on gets a frame that finishes its replay. *)
Lemma mo_reaches : forall fuel m i n j,
  mo_at m i n -> (i <= j < length m.(mo_segments))%nat ->
  (mo_budget (drop i m.(mo_segments)) <= fuel + Nat.min n (seg_ticks m.(mo_segments) i))%nat ->
  exists k n', let mk := mo_frames levels k m in
    (k < fuel)%nat /\ mk.(mo_segments) = m.(mo_segments) /\ mo_at mk j n' /\ (mo_next mk).(rp_done) = true.
Proof.
  induction fuel as [|fuel IH]; intros m i n j Hat Hj Hb;
    rewrite mo_budget_drop in Hb by lia; [lia|].
  destruct (mo_step m i n Hat) as (Es & [(D & Hi & _)|[(D & Hn)|(_ & n' & Hn & Hlt & Hat')]]).
  - assert (i = j) as -> by lia. exists O, n. cbn. split_and!; [lia|done..].
  - destruct (decide (i = j)) as [->|Hne]; [exists O, n; cbn; split_and!; [lia|done..]|].
    destruct (IH _ (S i) O j Hn) as (k & n' & Hk & Hs & H); [rewrite Es; lia|rewrite Es; lia|].
    exists (S k), n'. cbn. split_and!; [lia|by rewrite Hs|apply H..].
  - destruct (IH _ i n' j Hat') as (k & n'' & Hk & Hs & H); [by rewrite Es|rewrite Es, mo_budget_drop by lia; lia|].
    exists (S k), n''. cbn. split_and!; [lia|by rewrite Hs|apply H..].
Qed.

(** The segment a frame shows: the open one, and the last one at the end. *)
Definition shown_segment (m : Montage) : option MontageSegment :=
  if mo_done m then last m.(mo_segments) else m.(mo_segments) !! m.(mo_index).

Definition mo_shows (segs : list MontageSegment) (m : Montage) : Prop :=
  m.(mo_segments) = segs
  /\ ((exists i n, mo_at m i n)
      \/ mo_done m = true /\ exists seg n, last segs = Some seg /\ m.(mo_replayer) = seg_replayer levels seg n).

Lemma mo_shows_frames k segs : forall m, mo_shows segs m -> mo_shows segs (mo_frames levels k m).
Proof.
  induction k as [|k IH]; intros m H; cbn; [done|]. apply IH. destruct H as [<- [(i & n & Hat)|[Hd He]]].
  - destruct (mo_step m i n Hat) as (Es & [(D & Hi & Hd & Hr)|[(D & Hn)|(_ & n' & _ & _ & Hn)]]); split; try done;
      [right|left; by do 2 eexists..].
    split; [done|]. destruct (Hat) as (_ & _ & seg & Hseg & _). rewrite Hr, (mo_at_next _ _ _ _ Hat Hseg).
    exists seg. eexists. split; [|done]. by rewrite last_lookup, <- Hi.
  - rewrite mo_done_advance by done. by split; [|right].
Qed.

Lemma mo_shows_replayer segs m :
  mo_shows segs m -> exists seg n, shown_segment m = Some seg /\ m.(mo_replayer) = seg_replayer levels seg n.
Proof.
  unfold shown_segment. intros [<- [(i & n & Hi & _ & seg & Hs & Hr)|[-> He]]]; [|done].
  exists seg, n. apply lookup_lt_Some in Hs as Hl. unfold mo_done.
  by rewrite Hi, (proj2 (Nat.leb_gt _ _) Hl).
Qed.

Lemma mo_frames_segments k m : (exists i n, mo_at m i n) -> (mo_frames levels k m).(mo_segments) = m.(mo_segments).
Proof. intros H. assert (Hs : mo_shows m.(mo_segments) m) by (by split; [|left]). apply (mo_shows_frames k _ _ Hs). Qed.

(** A new montage has its first segment open. *)
Lemma newMontage_at segs :
  segs <> [] -> exists m, newMontage levels segs = Some m /\ m.(mo_segments) = segs /\ mo_at m 0 0.
Proof.
  intros Hne. destruct segs as [|seg segs]; [done|]. unfold newMontage, mo_open. cbn [lookup list_lookup fmap option_fmap option_map].
  eexists. split; [reflexivity|]. split; [done|].
  split_and!; [done| |by exists seg]. cbn [mo_ticksPerFrame]. unfold pace, MONTAGE_MIN_TICKS_PER_FRAME. lia.
Qed.

Context (segs : list MontageSegment) (states : list GameState).
Hypothesis Hgenuine : Forall2 (genuine levels) segs states.

Lemma mo_shown_genuine m seg :
  m.(mo_segments) = segs -> shown_segment m = Some seg -> exists s, genuine levels seg s.
Proof.
  intros <- Hs. assert (Hin : seg ∈ m.(mo_segments)).
  { unfold shown_segment in Hs. destruct (mo_done m); [rewrite last_lookup in Hs|]; by eapply list_elem_of_lookup_2. }
  apply list_elem_of_lookup in Hin as [i Hi].
  destruct (Forall2_lookup_l _ _ _ _ _ Hgenuine Hi) as (s & _ & Hs'). by exists s.
Qed.

(** Every segment's replay is finished by some frame, in the state recorded;
    after the last one's, the montage is over. *)
Lemma mo_reaches_state m i s :
  m.(mo_segments) = segs -> mo_at m 0 0 -> states !! i = Some s ->
  exists k, (k < mo_budget segs)%nat
    /\ let mk := mo_frames levels k m in
       mk.(mo_index) = i /\ (mo_next mk).(rp_done) = true /\ (mo_next mk).(rp_state) = s
       /\ (S i = length segs ->
           mo_done (mo_frames levels (S k) m) = true /\ mo_state (mo_frames levels (S k) m) = s).
Proof.
  intros Hs Hat Hi. destruct (Forall2_lookup_r _ _ _ _ _ Hgenuine Hi) as (seg & Hseg & Hg).
  apply lookup_lt_Some in Hseg as Hl.
  destruct (mo_reaches (mo_budget segs) m 0 0 i Hat) as (k & n & Hk & Es & Hat' & D);
    [rewrite Hs; lia|rewrite Hs, drop_0; lia|].
  exists k. split; [done|]. cbv zeta. set (mk := mo_frames levels k m) in *.
  rewrite Hs in Es. assert (Hst : (mo_next mk).(rp_state) = s).
  { rewrite (mo_at_next mk i n seg) in D |- * by (done || by rewrite Es). by apply genuine_shown. }
  split_and!; [by destruct Hat'|done|done|]. intros Hlast.
  replace (S k) with (k + 1)%nat by lia. rewrite mo_frames_add. cbn. fold mk.
  destruct (mo_step mk i n Hat') as (_ & [(_ & _ & Hd & Hr)|[(_ & Hn)|(D' & _)]]).
  - split; [done|]. unfold mo_state. by rewrite Hr.
  - destruct Hn as (_ & _ & seg' & Hs' & _). apply lookup_lt_Some in Hs'.
    pose proof (mo_step mk i n Hat') as [Es' _]. rewrite Es', Es in Hs'. lia.
  - congruence.
Qed.
End Ends.
