(* ===== verification/Display.v ===== *)
(** * Between ticks and screen

    [pages/replay/render/interpolate.ts] and [render/pose.ts]: what is drawn of a
    state between two ticks, and the squash and stretch of the player's hat.
    Both only read the game. *)

From S2P Require Import Prelude JsNum JsMap Binary64 Types.
#[local] Open Scope Z_scope.
#[local] Set Warnings "-inexact-float".

(** ** interpolate.ts *)

Definition lerp (a b t : num) : num := (a + (b - a) * t)%float.

Definition blend (prev : option GameState) (curr : GameState) (alpha : num) : GameState :=
  match prev with
  | None => curr
  | Some prev =>
      if (alpha <=? 0)%float then curr
      else
        let before := map_of (map (fun e => (e.(e_id), e)) prev.(g_entities)) in
        {| curr with
          g_scroll := lerp prev.(g_scroll) curr.(g_scroll) alpha;
          g_player := {| curr.(g_player) with p_y := lerp prev.(g_player).(p_y) curr.(g_player).(p_y) alpha |};
          g_entities := map (fun e =>
            match map_get e.(e_id) before with
            | Some p => {| e with e_x := lerp p.(e_x) e.(e_x) alpha |}
            | None => e
            end) curr.(g_entities) |}
  end.

(** ** pose.ts *)

Record Pose := { ps_sx : num; ps_sy : num }.
Definition NEUTRAL : Pose := {| ps_sx := 1; ps_sy := 1 |}%float.
Definition LAND_FRAMES : Z := 8.
Definition RISE_STRETCH : num := 0.35%float.
Definition FALL_STRETCH : num := 0.2%float.
Definition LAND_FOLD : num := 0.35%float.

Record HatPose := { hp_wasAirborne : bool; hp_landed : Z }.
Definition newHatPose : HatPose := {| hp_wasAirborne := false; hp_landed := LAND_FRAMES |}.

Definition stretch (vy : num) : num :=
  if (vy <? 0)%float then (1 + num_min RISE_STRETCH (- vy * 0.04))%float
  else (1 + num_min FALL_STRETCH (vy * 0.025))%float.
Definition fold_pose (landed : Z) : Pose :=
  let t := (1 - of_Z landed / of_Z LAND_FRAMES)%float in
  {| ps_sx := (1 + LAND_FOLD * t)%float; ps_sy := (1 - LAND_FOLD * t)%float |}.

Definition airborne (p : Player) : bool := (p.(p_y) <? GROUND_Y)%float.

Definition hat_update (player : Player) (reducedMotion : bool) (h : HatPose) : Pose * HatPose :=
  if reducedMotion then (NEUTRAL, {| hp_wasAirborne := airborne player; hp_landed := LAND_FRAMES |})
  else if airborne player then
    let sy := stretch player.(p_vy) in
    ({| ps_sx := (1 / sy)%float; ps_sy := sy |}, {| hp_wasAirborne := true; hp_landed := LAND_FRAMES |})
  else
    let h := if h.(hp_wasAirborne) then {| hp_wasAirborne := false; hp_landed := 0 |} else h in
    if h.(hp_landed) <? LAND_FRAMES
    then (fold_pose h.(hp_landed), {| h with hp_landed := h.(hp_landed) + 1 |})
    else (NEUTRAL, h).

(** The poses of a run of rendered frames. *)
Fixpoint hat_poses (frames : list (Player * bool)) (h : HatPose) : list Pose * HatPose :=
  match frames with
  | [] => ([], h)
  | f :: frames =>
      let (p, h) := hat_update f.1 f.2 h in
      let (ps, h) := hat_poses frames h in (p :: ps, h)
  end.

(** ** Interpolation *)

Definition placed (x : num) (e : Entity) : Entity := {| e with e_x := x |}.

Lemma last_with_id (l : list Entity) (p : Entity) :
  NoDup (map e_id l) -> p ∈ l -> map_get p.(e_id) (map_of (map (fun e => (e.(e_id), e)) l)) = Some p.
Proof.
  intros Hn Hp. rewrite map_of_nodup by by rewrite <- list_fmap_compose.
  induction l as [|e l IH]; [by apply elem_of_nil in Hp|]. cbn in *. apply NoDup_cons in Hn as [Hn Hl].
  apply elem_of_cons in Hp as [->|Hp]; [by rewrite decide_True|].
  rewrite decide_False; [by apply IH|]. intros E. apply Hn. rewrite <- E. by apply list_elem_of_fmap_2.
Qed.

(** Interpolation is for display only: nothing of the current tick changes but
    the scroll, the player's height and the places of entities; an entity the
    previous tick had moves from where it was then, any other one stays.
    Without a previous tick, or at its very end, all is as it is. *)
Theorem blend_is_display_only (prev : option GameState) (curr : GameState) (alpha : num) :
  let s := blend prev curr alpha in
  (prev = None \/ (alpha <=? 0)%float = true -> s = curr)
  /\ (exists scroll y entities,
        s = {| curr with g_scroll := scroll; g_player := {| curr.(g_player) with p_y := y |}; g_entities := entities |})
  /\ length s.(g_entities) = length curr.(g_entities)
  /\ forall i e, curr.(g_entities) !! i = Some e ->
       exists x, s.(g_entities) !! i = Some (placed x e)
       /\ forall before p, prev = Some before -> (alpha <=? 0)%float = false -> NoDup (map e_id before.(g_entities)) ->
            (p ∈ before.(g_entities) -> p.(e_id) = e.(e_id) -> x = lerp p.(e_x) e.(e_x) alpha)
            /\ (e.(e_id) ∉ map e_id before.(g_entities) -> x = e.(e_x)).
Proof.
  assert (Id : exists scroll y entities,
    curr = {| curr with g_scroll := scroll; g_player := {| curr.(g_player) with p_y := y |}; g_entities := entities |}).
  { exists curr.(g_scroll), curr.(g_player).(p_y), curr.(g_entities). by destruct curr as [??????? []]. }
  assert (Pl : forall e : Entity, e = placed e.(e_x) e) by by intros [].
  unfold blend. destruct prev as [prev|].
  2: { split_and!; try done. intros i e He. exists e.(e_x). split; [by rewrite <- Pl|]. done. }
  destruct (alpha <=? 0)%float eqn:Ea.
  { split_and!; try done. intros i e He. exists e.(e_x). split; [by rewrite <- Pl|]. done. }
  cbn [g_entities]. split_and!; [by intros [?|?]|by eexists _, _, _|by rewrite length_map|].
  intros i e He. rewrite list_lookup_fmap, He. cbn [fmap option_fmap option_map].
  destruct (map_get _ _) as [p|] eqn:Ep.
  - exists (lerp p.(e_x) e.(e_x) alpha). split; [done|]. intros before q [= <-] _ Hn. split.
    + intros Hq Ei. rewrite <- Ei, (last_with_id _ q) in Ep by done. by injection Ep as ->.
    + intros Hi. exfalso. apply Hi. apply map_get_in in Ep.
      rewrite map_of_nodup in Ep by by rewrite <- list_fmap_compose.
      apply list_elem_of_fmap in Ep as (q' & [= -> ->] & Hq'). by apply list_elem_of_fmap_2.
  - exists e.(e_x). split; [by rewrite <- Pl|]. intros before q [= <-] _ Hn. split; [|done].
    intros Hq Ei. by rewrite <- Ei, (last_with_id _ q) in Ep.
Qed.

(** ** The hat *)

Lemma nonneg_forms (p : num) :
  (0 <=? p)%float = true -> (is_finite p = true /\ 0 <= val p) \/ Prim2SF p = S754_infinity false.
Proof.
  intros Hp. destruct (is_finite p) eqn:Fp.
  - left. split; [done|]. rewrite leb_val in Hp by done. by apply Z.leb_le in Hp.
  - right. unfold is_finite in Fp. rewrite leb_spec in Hp.
    destruct (Prim2SF p) as [| [] | |]; try done.
Qed.

Lemma min_between (c p : num) :
  is_finite c = true -> 0 <= val c -> (0 <=? p)%float = true -> within 0 (val c) (num_min c p).
Proof.
  intros Fc Vc Hp. unfold num_min.
  assert (Ec : (c =? c)%float = true) by by rewrite eqb_val, Z.eqb_refl.
  destruct (nonneg_forms p Hp) as [[Fp Vp]|Ep].
  - assert (E : (p =? p)%float = true) by by rewrite eqb_val, Z.eqb_refl.
    rewrite Ec, E. cbn [negb]. rewrite !ltb_val by done.
    destruct (Z.ltb_spec (val c) (val p)); [by split; [|lia]|].
    destruct (Z.ltb_spec (val p) (val c)); [by split; [|lia]|].
    by destruct (is_neg_zero p); (split; [|lia]).
  - assert (E : (p =? p)%float = true) by by rewrite eqb_spec, Ep.
    assert (L : (c <? p)%float = true).
    { rewrite ltb_spec, Ep. unfold is_finite in Fc. by destruct (Prim2SF c). }
    rewrite Ec, E, L. cbn [negb]. by split; [|lia].
Qed.

(** A product with a factor of at most one does not overflow. *)
Lemma scaled_nonneg (a b : num) :
  is_finite a = true -> 0 <= val a -> is_finite b = true -> 0 <= val b <= pw 0 -> (0 <=? a * b)%float = true.
Proof.
  intros Fa Va Fb Vb.
  assert (Top : val a <= (2 ^ 53 - 1) * pw 971 < pw 1024).
  { pose proof (pw_pos 971 ltac:(lia)) as P. split.
    - destruct (nonneg_cases a Fa Va) as [(-> & _)|(m & e & Em & -> & He & _)]; [nia|].
      destruct (bounded_elim m e (Prim2SF_bounded a _ _ _ Em)) as (_ & Hm & _).
      pose proof (pw_le e 971 ltac:(lia)). nia.
    - change 1024 with (971 + 53). rewrite pw_add by lia. nia. }
  assert (M : within 0 ((2 ^ 53 - 1) * pw 971) (a * b)%float).
  { apply mul_within; try assumption; [lia|by exists 0, 0|exists (2 ^ 53 - 1), 971; split; [split; lia|done]|lia|].
    pose proof (pw_pos 0 ltac:(lia)). nia. }
  destruct M as [Fm Vm]. rewrite leb_val by done. apply Z.leb_le. change (val 0) with 0. lia.
Qed.

Lemma opp_val (x : num) : is_finite x = true -> is_finite (- x)%float = true /\ val (- x)%float = - val x.
Proof.
  unfold is_finite, val. rewrite opp_spec. destruct (Prim2SF x) as [| | |[] m e]; try done; cbn; intros _; split; try done; lia.
Qed.

(** In the air the hat stretches by at most three eighths, and never shrinks. *)
Lemma stretch_bounds (vy : num) :
  is_finite vy = true -> within (pw 0) (11 * pw (-3)) (stretch vy).
Proof.
  intros Fv. unfold stretch.
  assert (Add : forall c p, is_finite c = true -> 0 <= val c <= 3 * pw (-3) -> (0 <=? p)%float = true ->
    within (pw 0) (11 * pw (-3)) (1 + num_min c p)%float).
  { intros c p Fc Vc Hp. destruct (min_between c p Fc ltac:(lia) Hp) as [Fm Vm].
    assert (E0 : pw 0 = pw (-3) * 2 ^ 3) by (change 0 with (-3 + 3) at 1; rewrite pw_add by lia; reflexivity).
    assert (V1 : val 1 = pw 0) by (vm_compute; reflexivity).
    assert (P3 : 0 < pw (-3)) by (apply pw_pos; lia).
    apply add_within; [reflexivity|assumption|lia|lia|exists 1, 0; split; [split; lia|lia]| | |lia].
    - exists 11, (-3). split; [split; lia|reflexivity].
    - change 1024 with (-3 + 1027). rewrite pw_add by lia. nia. }
  destruct (vy <? 0)%float eqn:E; rewrite ltb_val in E by done; rewrite (eq_refl : val 0 = 0) in E.
  - apply Z.ltb_lt in E. destruct (opp_val vy Fv) as [Fo Vo].
    apply Add; [done|split; vm_compute; discriminate|]. apply scaled_nonneg; [done|lia|done|split; vm_compute; discriminate].
  - apply Z.ltb_ge in E.
    apply Add; [done|split; vm_compute; discriminate|]. apply scaled_nonneg; [done|lia|done|split; vm_compute; discriminate].
Qed.

(** The frames of a landing. *)
Definition folds : list Pose := map fold_pose [0; 1; 2; 3; 4; 5; 6; 7].

Lemma neutral_run (ground : list Player) : Forall (fun p => airborne p = false) ground ->
  (hat_poses (map (fun p => (p, false)) ground) newHatPose).1 = replicate (length ground) NEUTRAL.
Proof.
  induction 1 as [|p ground Hp Hg IH]; [done|]. cbn [map hat_poses]. unfold hat_update. cbn [fst snd]. rewrite Hp.
  cbn [hp_wasAirborne newHatPose hp_landed]. rewrite Z.ltb_irrefl.
  change {| hp_wasAirborne := false; hp_landed := LAND_FRAMES |} with newHatPose.
  destruct (hat_poses _ newHatPose) as [ps h]. cbn in *. by rewrite IH.
Qed.

Lemma fold_run (ground : list Player) : Forall (fun p => airborne p = false) ground -> forall n : nat, (n <= 8)%nat ->
  (hat_poses (map (fun p => (p, false)) ground) {| hp_wasAirborne := false; hp_landed := Z.of_nat n |}).1
  = take (length ground) (drop n folds ++ replicate (length ground) NEUTRAL).
Proof.
  induction 1 as [|p ground Hp Hg IH]; intros n Hn; [done|].
  destruct (decide (n = 8%nat)) as [->|Hne].
  { change {| hp_wasAirborne := false; hp_landed := Z.of_nat 8 |} with newHatPose.
    rewrite neutral_run by by constructor. rewrite take_ge; [done|]. rewrite length_app, length_replicate. cbn. lia. }
  cbn [map hat_poses]. unfold hat_update. cbn [fst snd]. rewrite Hp. cbn [hp_wasAirborne hp_landed].
  replace (Z.of_nat n <? LAND_FRAMES) with true by (symmetry; apply Z.ltb_lt; unfold LAND_FRAMES; lia).
  replace (Z.of_nat n + 1) with (Z.of_nat (S n)) by lia. specialize (IH (S n) ltac:(lia)).
  destruct (hat_poses _ _) as [ps h]. cbn [fst] in IH |- *. rewrite IH.
  assert (E : drop n folds = fold_pose (Z.of_nat n) :: drop (S n) folds).
  { do 8 (destruct n as [|n]; [done|]). lia. }
  rewrite E. cbn [length app take replicate]. f_equal.
  rewrite replicate_cons_app, app_assoc, (take_app_le (_ ++ _)); [done|]. rewrite length_app, length_replicate. lia.
Qed.

(** The hat's pose.  With reduced motion it is neutral.  In the air, at any
    speed, it stretches by at most three eighths and never shrinks.  Back on the
    ground it folds for exactly [LAND_FRAMES] frames, less and less, and is
    neutral from then on. *)
Theorem hat_pose_behaves (h : HatPose) (player : Player) (ground : list Player) :
  (hat_update player true h).1 = NEUTRAL
  /\ (airborne player = true -> is_finite player.(p_vy) = true ->
      within (pw 0) (11 * pw (-3)) (hat_update player false h).1.(ps_sy))
  /\ (airborne player = true -> Forall (fun p => airborne p = false) ground ->
      (hat_poses (map (fun p => (p, false)) ground) (hat_update player false h).2).1
      = take (length ground) (folds ++ replicate (length ground) NEUTRAL)).
Proof.
  split_and!; [done|..]; unfold hat_update; intros Ha; rewrite Ha.
  - intros Hf. by apply stretch_bounds.
  - intros Hg. destruct Hg as [|p ground Hp Hg]; [done|].
    cbn [map hat_poses]. unfold hat_update. cbn [fst snd]. rewrite Hp. cbn [hp_wasAirborne hp_landed].
    change (0 <? LAND_FRAMES) with true. cbn [hp_landed hp_wasAirborne].
    pose proof (fold_run ground Hg 1 ltac:(lia)) as F. cbn [Z.add]. change (Z.of_nat 1) with 1 in F.
    destruct (hat_poses _ _) as [ps h']. cbn [fst] in F |- *. rewrite F.
    change folds with (fold_pose 0 :: drop 1 folds) at 2. cbn [length app take replicate]. f_equal.
    rewrite replicate_cons_app, app_assoc, (take_app_le (_ ++ _)); [done|]. rewrite length_app, length_replicate. lia.
Qed.
