(* ===== verification/Canvas.v ===== *)
(** * Calls on a canvas

    The game draws by calls on a [CanvasRenderingContext2D].  A drawing is the
    list of the calls it makes; what they look like is the browser's.  Of the
    context only its discipline is modelled: which attributes the calls so far
    have set, the stack of [save] and [restore], and what is inherited from
    before, and that a call the browser does not have throws.  [frag] says that a drawing is sound in this sense, and its rules
    follow the shape of the drawing functions. *)

From S2P Require Import Prelude JsNum.
#[local] Open Scope list_scope.

(** ** Calls *)

Inductive Paint :=
  | Color (css : string)
  | Linear (x0 y0 x1 y1 : num) (stops : list (num * string))
  | Radial (x0 y0 r0 x1 y1 r1 : num) (stops : list (num * string)).

Inductive CtxCall :=
  | CtxSave | CtxRestore
  | SetTransform (a b c d e f : num) | Translate (x y : num) | Scale (x y : num)
  | BeginPath | ClosePath | MoveTo (x y : num) | LineTo (x y : num)
  | PathRect (x y w h : num) | RoundRect (x y w h r : num)
  | Arc (cx cy r from_ to_ : num) | Ellipse (cx cy rx ry rotation from_ to_ : num)
  | Clip | FillPath | StrokePath
  | FillRect (x y w h : num) | StrokeRect (x y w h : num) | FillText (t : string) (x y : num)
  | FillStyle (p : Paint) | StrokeStyle (p : Paint) | LineWidth (w : num) | GlobalAlpha (a : num)
  | Font (f : string) | TextAlign (a : string).

(** What not every browser's context has. *)
Class Browser := { has_ellipse : bool; has_roundRect : bool }.

(** ** What a drawing has set *)

(** The style attributes set, and whether a path was begun. *)
Record Known := { kn_fill : bool; kn_stroke : bool; kn_width : bool; kn_font : bool; kn_align : bool; kn_path : bool }.
Definition nothing : Known :=
  {| kn_fill := false; kn_stroke := false; kn_width := false; kn_font := false; kn_align := false; kn_path := false |}.

(** What it may change but has to give back. *)
Record Frame := { fr_alpha : option num; fr_transform : list CtxCall; fr_clips : nat }.

Record Context2D := { cx_known : Known; cx_frame : Frame; cx_stack : list (Known * Frame) }.

(** The path is no part of what [save] saves. *)
Definition restored (k : Known) (path : bool) : Known :=
  {| kn_fill := k.(kn_fill); kn_stroke := k.(kn_stroke); kn_width := k.(kn_width); kn_font := k.(kn_font);
     kn_align := k.(kn_align); kn_path := path |}.

Section Canvas.
Context `{br : Browser}.

Definition needs (c : CtxCall) (k : Known) : bool :=
  match c with
  | FillPath => k.(kn_path) && k.(kn_fill)
  | StrokePath => k.(kn_path) && k.(kn_stroke) && k.(kn_width)
  | FillRect _ _ _ _ => k.(kn_fill)
  | StrokeRect _ _ _ _ => k.(kn_stroke) && k.(kn_width)
  | FillText _ _ _ => k.(kn_fill) && k.(kn_font) && k.(kn_align)
  | RoundRect _ _ _ _ _ => has_roundRect && k.(kn_path)
  | Ellipse _ _ _ _ _ _ _ => has_ellipse && k.(kn_path)
  | Clip | ClosePath | MoveTo _ _ | LineTo _ _ | PathRect _ _ _ _ | Arc _ _ _ _ _ => k.(kn_path)
  | _ => true
  end.

Definition learns (c : CtxCall) (k : Known) : Known :=
  match c with
  | BeginPath => {| k with kn_path := true |}
  | FillStyle _ => {| k with kn_fill := true |}
  | StrokeStyle _ => {| k with kn_stroke := true |}
  | LineWidth _ => {| k with kn_width := true |}
  | Font _ => {| k with kn_font := true |}
  | TextAlign _ => {| k with kn_align := true |}
  | _ => k
  end.

Definition shifts (c : CtxCall) (f : Frame) : Frame :=
  match c with
  | SetTransform _ _ _ _ _ _ => {| f with fr_transform := [c] |}
  | Translate _ _ | Scale _ _ => {| f with fr_transform := f.(fr_transform) ++ [c] |}
  | GlobalAlpha a => {| f with fr_alpha := Some a |}
  | Clip => {| f with fr_clips := S f.(fr_clips) |}
  | _ => f
  end.

(** One call; [None] when it would use what the drawing has not set, restore
    what it has not saved, or throw because the context has no such method. *)
Definition run_call (c : CtxCall) (x : Context2D) : option Context2D :=
  match c, x.(cx_stack) with
  | CtxSave, _ => Some {| x with cx_stack := (x.(cx_known), x.(cx_frame)) :: x.(cx_stack) |}
  | CtxRestore, (k, f) :: stack =>
      Some {| cx_known := restored k x.(cx_known).(kn_path); cx_frame := f; cx_stack := stack |}
  | CtxRestore, [] => None
  | _, _ =>
      if needs c x.(cx_known)
      then Some {| cx_known := learns c x.(cx_known); cx_frame := shifts c x.(cx_frame); cx_stack := x.(cx_stack) |}
      else None
  end.

Fixpoint run_calls (l : list CtxCall) (x : Context2D) : option Context2D :=
  match l with
  | [] => Some x
  | c :: l => match run_call c x with Some x => run_calls l x | None => None end
  end.

Lemma run_calls_app l l' x :
  run_calls (l ++ l') x = match run_calls l x with Some x => run_calls l' x | None => None end.
Proof. revert x. induction l as [|c l IH]; intros x; [done|]. cbn [app run_calls]. destruct (run_call c x); [apply IH|done]. Qed.

(** The path of an ellipse cannot be drawn without [ellipse]. *)
Definition is_ellipse (c : CtxCall) : bool := match c with Ellipse _ _ _ _ _ _ _ => true | _ => false end.
Lemma ellipse_throws l x : has_ellipse = false -> existsb is_ellipse l = true -> run_calls l x = None.
Proof.
  intros E. revert x. induction l as [|c l IH]; intros x; [done|]. cbn [existsb run_calls]. intros He.
  destruct (is_ellipse c) eqn:Ec; [|destruct (run_call c x); [by apply IH|done]].
  destruct c; try done. unfold run_call, needs. by rewrite E.
Qed.
End Canvas.

(** ** Sound drawings *)

Definition implied (a b : bool) : Prop := a = true -> b = true.
Record knows (a b : Known) : Prop := {
  knows_fill : implied a.(kn_fill) b.(kn_fill);
  knows_stroke : implied a.(kn_stroke) b.(kn_stroke);
  knows_width : implied a.(kn_width) b.(kn_width);
  knows_font : implied a.(kn_font) b.(kn_font);
  knows_align : implied a.(kn_align) b.(kn_align);
  knows_path : implied a.(kn_path) b.(kn_path)
}.
#[export] Instance knows_preorder : PreOrder knows.
Proof.
  split; [intros a; split; unfold implied; auto|].
  intros a b c H1 H2. destruct H1, H2. unfold implied in *. split; unfold implied; auto.
Qed.

Lemma knows_nothing k : knows nothing k.
Proof. split; intros [=]. Qed.

Section Sound.
Context `{br : Browser}.

(** From a context that knows at least [a], the drawing [l] runs, gives the
    stack back, knows at least [b] afterwards and forgets nothing; when [keep],
    it also gives back the transformation, the clipping and the alpha. *)
Definition frag (keep : bool) (a : Known) (l : list CtxCall) (b : Known) : Prop :=
  forall x, knows a x.(cx_known) ->
  exists x', run_calls l x = Some x'
    /\ knows b x'.(cx_known) /\ knows x.(cx_known) x'.(cx_known)
    /\ x'.(cx_stack) = x.(cx_stack) /\ (keep = true -> x'.(cx_frame) = x.(cx_frame)).

Lemma frag_nil keep a : frag keep a [] a.
Proof. intros x Hx. exists x. split_and!; [done|exact Hx|reflexivity|done|done]. Qed.

Lemma frag_weaken keep a a' b b' l : knows a a' -> knows b b' -> frag keep a l b' -> frag keep a' l b.
Proof.
  intros Ha Hb H x Hx. destruct (H x) as (x' & E & Hk & Hm & Hs & Hf); [by etrans|].
  exists x'. split_and!; try done. by etrans.
Qed.

Lemma frag_loose a b l : frag true a l b -> frag false a l b.
Proof.
  intros H x Hx. destruct (H x Hx) as (x' & E & Hk & Hm & Hs & _). exists x'.
  split_and!; [exact E|exact Hk|exact Hm|exact Hs|discriminate].
Qed.

Lemma frag_app keep a b c l l' : frag keep a l b -> frag keep b l' c -> frag keep a (l ++ l') c.
Proof.
  intros H H' x Hx. destruct (H x Hx) as (y & E & Hk & Hm & Hs & Hf).
  destruct (H' y Hk) as (z & E' & Hk' & Hm' & Hs' & Hf').
  exists z. rewrite run_calls_app, E. split_and!; [done|done|by etrans|congruence|].
  intros K. rewrite Hf', Hf by done. done.
Qed.

(** Between [save] and [restore] everything may be changed. *)
Lemma frag_bracket keep a b l : frag false a l b -> frag keep a (CtxSave :: l ++ [CtxRestore]) a.
Proof.
  intros H x Hx.
  destruct (H {| x with cx_stack := (x.(cx_known), x.(cx_frame)) :: x.(cx_stack) |} Hx) as (y & E & _ & Hm & Hs & _).
  cbn in Hm, Hs.
  exists {| cx_known := restored x.(cx_known) y.(cx_known).(kn_path); cx_frame := x.(cx_frame); cx_stack := x.(cx_stack) |}.
  cbn [run_calls run_call]. rewrite run_calls_app, E. cbn. rewrite Hs.
  assert (G : knows x.(cx_known) (restored x.(cx_known) y.(cx_known).(kn_path))).
  { destruct Hm. split; cbn; unfold implied; auto. }
  split_and!; [done|by etrans|done|done|done].
Qed.

(** A condition, and a loop, need what they start with and leave at least it. *)
Lemma frag_kept keep a b l : frag keep a l b -> frag keep a l a.
Proof.
  intros H x Hx. destruct (H x Hx) as (x' & E & Hk & Hm & Hs & Hf). exists x'. split_and!; try done. by etrans.
Qed.

Lemma frag_if keep a b b' (c : bool) l l' :
  frag keep a l b -> frag keep a l' b' -> frag keep a (if c then l else l') a.
Proof. intros H H'. destruct c; by eapply frag_kept. Qed.

Lemma frag_flat_map_in {A} keep a (f : A -> list CtxCall) (xs : list A) :
  (forall x, x ∈ xs -> exists b, frag keep a (f x) b) -> frag keep a (flat_map f xs) a.
Proof.
  induction xs as [|x xs IH]; intros Hf; cbn; [apply frag_nil|]. destruct (Hf x) as [b Hb]; [by left|].
  eapply frag_app; [by eapply frag_kept|]. apply IH. intros y Hy. apply Hf. by right.
Qed.

Lemma frag_flat_map {A} keep a (f : A -> list CtxCall) (xs : list A) :
  (forall x, exists b, frag keep a (f x) b) -> frag keep a (flat_map f xs) a.
Proof. intros Hf. by apply frag_flat_map_in. Qed.

(** A call by itself. *)
Lemma frag_call keep a c :
  match c with
  | CtxSave | CtxRestore => False
  | SetTransform _ _ _ _ _ _ | Translate _ _ | Scale _ _ | GlobalAlpha _ | Clip => keep = false
  | _ => True
  end ->
  needs c a = true -> frag keep a [c] (learns c a).
Proof.
  intros Hc Hn x Hx. destruct Hx as [F S W T A P].
  assert (N : needs c x.(cx_known) = true).
  { destruct c; cbn in *; rewrite ?andb_true_iff in *; unfold implied in *; naive_solver. }
  exists {| cx_known := learns c x.(cx_known); cx_frame := shifts c x.(cx_frame); cx_stack := x.(cx_stack) |}.
  cbn [run_calls].
  assert (E : run_call c x = Some {| cx_known := learns c x.(cx_known); cx_frame := shifts c x.(cx_frame);
                                     cx_stack := x.(cx_stack) |}).
  { unfold run_call. rewrite N. destruct c; done. }
  rewrite E. split_and!; try done.
  - destruct c; split; cbn; unfold implied; auto.
  - destruct c; split; cbn; unfold implied; auto.
  - intros ->. by destruct c.
Qed.

Lemma frag_cons keep a c l b :
  match c with
  | CtxSave | CtxRestore => False
  | SetTransform _ _ _ _ _ _ | Translate _ _ | Scale _ _ | GlobalAlpha _ | Clip => keep = false
  | _ => True
  end ->
  needs c a = true -> frag keep (learns c a) l b -> frag keep a (c :: l) b.
Proof. intros Hc Hn H. change (c :: l) with ([c] ++ l). eapply frag_app; [by apply frag_call|done]. Qed.

End Sound.

Create HintDb drawing discriminated.
#[export] Hint Constants Opaque : drawing.
#[export] Hint Resolve frag_loose : drawing.
#[export] Hint Extern 1 (kn_fill _ = true) => reflexivity : drawing.

(** Follows the shape of a drawing; what is left are the lemmas of its parts. *)
Ltac draw_step :=
  lazymatch goal with
  | |- frag _ _ [] _ => apply frag_nil
  | |- frag _ _ (CtxSave :: _ ++ [CtxRestore]) _ => eapply frag_bracket
  | |- frag _ _ (_ ++ _) _ => eapply frag_app
  | |- frag _ _ (_ :: _) _ => apply frag_cons; [exact I || reflexivity|reflexivity|cbn [learns]]
  | |- frag _ _ (if _ then _ else _) _ => eapply frag_if
  | |- frag _ _ (flat_map _ _) _ => apply frag_flat_map; intros ?; eexists
  end.
Ltac draw := repeat first [draw_step | solve [eauto with drawing]].
