(* ===== verification/Sprites.v ===== *)
(** * Sprites

    [pages/replay/render/palette.ts], [shading.ts], [sprites.ts] and [props.ts]:
    the colours and the calls that draw each thing of the game. *)

From Stdlib Require Import Ascii.
From stdpp Require Import pretty.
From S2P Require Import Prelude JsNum Types Step Text Display Canvas.
#[local] Open Scope list_scope.
#[local] Open Scope Z_scope.
#[local] Set Warnings "-inexact-float".

(** ** palette.ts *)

Inductive Slot :=
  | Bg | Ground | Backdrop | PlayerSlot | Hat | HatOutline | Obstacle | CoinSlot | OrbSlot | CrateSlot
  | TextSlot | Muted | Glitch | FailSlot.
Definition Palette : Type := Slot -> string.

Definition SLOT_TOKENS (s : Slot) : string :=
  match s with
  | Bg => "--surface" | Ground => "--line" | Backdrop => "--surface-2" | PlayerSlot => "--accent-bright"
  | Hat => "--dapr-hat" | HatOutline => "--dapr-hat-outline" | Obstacle => "--fail-fg" | CoinSlot => "--gold"
  | OrbSlot => "--purple" | CrateSlot => "--run-fg" | TextSlot => "--text" | Muted => "--muted"
  | Glitch => "--dapr" | FailSlot => "--fail-fg"
  end.
Definition FALLBACK : string := "gray".
(** [getPropertyValue] is the trimmed value of a token where the game is shown. *)
Definition readPalette (getPropertyValue : string -> string) : Palette := fun s =>
  let v := getPropertyValue (SLOT_TOKENS s) in if String.eqb v "" then FALLBACK else v.

Definition fill (p : Palette) (s : Slot) : CtxCall := FillStyle (Color (p s)).
Definition stroke (p : Palette) (s : Slot) : CtxCall := StrokeStyle (Color (p s)).

(** A loop that counts a number on, with fuel. *)
Fixpoint num_loop (fuel : nat) (continues : num -> bool) (next : num -> num) (body : num -> list CtxCall) (x : num)
    : list CtxCall :=
  match fuel with
  | O => []
  | S fuel => if continues x then body x ++ num_loop fuel continues next body (next x) else []
  end.

Section Sprites.
(** What the browser's context has ([Browser]), the texts of numbers, and what reading
    [fillStyle] back gives for a colour just set. *)
Context `{br : Browser} (number_text : num -> string) (Number : string -> num)
  (read_back : string -> string).

(** ** shading.ts *)

Definition PI : num := 3.141592653589793%float.
Definition TWO_PI : num := (PI * 2)%float.
Definition LIGHT : num * num := (-0.35, -0.35)%float.
Definition SHADOW_FADE_HEIGHT : num := 90%float.

Definition shadeSphere (cx cy r : num) (strength : num) : list CtxCall :=
  let g := Radial (cx + LIGHT.1 * r) (cy + LIGHT.2 * r) (0.1 * r) cx cy r
             [(0, "rgba(255, 255, 255, 0.0)"); (0.55, "rgba(0, 0, 0, 0)");
              (1, "rgba(0, 0, 0, " +:+ number_text strength +:+ ")")]%float in
  CtxSave :: [BeginPath; Arc cx cy r 0 TWO_PI; FillStyle g; FillPath] ++ [CtxRestore].

Definition specular (x y size : num) : list CtxCall :=
  let g := Radial x y 0 x y size [(0, "rgba(255, 255, 255, 0.9)"); (1, "rgba(255, 255, 255, 0)")]%float in
  CtxSave :: [BeginPath; Arc x y size 0 TWO_PI; FillStyle g; FillPath;
              BeginPath; Arc x y (0.25 * size) 0 TWO_PI; FillStyle (Color "rgba(255, 255, 255, 0.95)"); FillPath]
          ++ [CtxRestore].

Definition groundShadow (cx bottomY width : num) : list CtxCall :=
  let h := (GROUND_Y - bottomY)%float in
  let scale := num_min 1 (num_max 0.35 (1 - h / SHADOW_FADE_HEIGHT)) in
  let rx := (width / 2 * scale)%float in
  let ry := (1.5 * scale)%float in
  let y := (GROUND_Y + 1)%float in
  CtxSave :: ([BeginPath]
    ++ (if has_ellipse then [Ellipse cx y rx ry 0 0 TWO_PI]
        else [Translate cx y; Scale 1 (ry / rx); Arc 0 0 rx 0 TWO_PI])
    ++ [FillStyle (Color ("rgba(0, 0, 0, " +:+ number_text (0.18 * scale) +:+ ")")); FillPath]) ++ [CtxRestore].

(** ** sprites.ts *)

Record Box := { bx_x : num; bx_y : num; bx_w : num; bx_h : num }.
Definition box (x y w h : num) : Box := {| bx_x := x; bx_y := y; bx_w := w; bx_h := h |}.

Definition ART : Box := box 10.67987 11.18938 456.64027 233.42107.
Definition CROWN : Box * num := (box 99.78042 11.18938 282.15168 198.57274, 5.49347%float).
Definition BRIM : Box * num := (box 10.67987 196.95093 456.64027 47.65952, 10.21827%float).
Definition CROWN_SHEEN : Box := box 99.78042 11.18938 104.36936 198.57274.
Definition BRIM_SHEEN : Box := box 10.67987 196.95093 141.28521 47.65952.
Definition SHEEN : string := "rgba(255, 255, 255, 0.08)".

Definition map_rect (b r : Box) : Box :=
  let kx := (b.(bx_w) / ART.(bx_w))%float in
  let ky := (b.(bx_h) / ART.(bx_h))%float in
  box (b.(bx_x) + (r.(bx_x) - ART.(bx_x)) * kx) (b.(bx_y) + (r.(bx_y) - ART.(bx_y)) * ky) (r.(bx_w) * kx) (r.(bx_h) * ky).
Definition map_radius (b : Box) (r : num) : num :=
  (r * num_min (b.(bx_w) / ART.(bx_w)) (b.(bx_h) / ART.(bx_h)))%float.

Definition shape (r : Box) (radius : num) : list CtxCall :=
  [BeginPath;
   if has_roundRect then RoundRect r.(bx_x) r.(bx_y) r.(bx_w) r.(bx_h) radius
   else PathRect r.(bx_x) r.(bx_y) r.(bx_w) r.(bx_h)].

(** The box a pose gives: scaled around its bottom centre. *)
Definition posed (b : Box) (pose : Pose) : Box :=
  let w := (b.(bx_w) * pose.(ps_sx))%float in
  let h := (b.(bx_h) * pose.(ps_sy))%float in
  box (b.(bx_x) + (b.(bx_w) - w) / 2) (b.(bx_y) + b.(bx_h) - h) w h.

Definition drawHat (b : Box) (pal : Palette) (pose : Pose) : list CtxCall :=
  let m := posed b pose in
  let parts := [(map_rect m CROWN.1, map_radius m CROWN.2, map_rect m CROWN_SHEEN);
                (map_rect m BRIM.1, map_radius m BRIM.2, map_rect m BRIM_SHEEN)] in
  [fill pal Hat]
  ++ flat_map (fun p => shape p.1.1 p.1.2 ++ [FillPath]) parts
  ++ flat_map (fun p =>
       CtxSave :: (shape p.1.1 p.1.2
         ++ [Clip; FillStyle (Color SHEEN); BeginPath;
             PathRect p.2.(bx_x) p.2.(bx_y) p.2.(bx_w) p.2.(bx_h); FillPath]) ++ [CtxRestore]) parts
  ++ (if negb (String.eqb (pal HatOutline) "transparent") then
        [stroke pal HatOutline; LineWidth 1]
        ++ flat_map (fun p =>
             let r := p.1.1 in
             shape (box (r.(bx_x) + 0.5) (r.(bx_y) + 0.5) (r.(bx_w) - 1) (r.(bx_h) - 1)) (num_max 0 (p.1.2 - 0.5))
             ++ [StrokePath]) parts
      else []).

(** ** props.ts *)

Definition GLINT_PERIOD : Z := 120.
Definition GLINT_TICKS : Z := 12.
Definition LED_PERIOD : Z := 30.
Definition SHADE : string := "rgba(0, 0, 0, 0.25)".
Definition PIT_DARKEN : string := "rgba(0, 0, 0, 0.45)".
Definition BEZEL : string := "rgba(0, 0, 0, 0.35)".
Definition WHITE : string := "rgba(255, 255, 255, 0.25)".
Definition LED_DIM : string := "rgba(255, 255, 255, 0.12)".

Definition circle (cx cy r : num) : list CtxCall := [BeginPath; Arc cx cy r 0 TWO_PI].

Definition drawOrb (e : Entity) (pal : Palette) : list CtxCall :=
  if e.(e_taken) then []
  else
    let r := (e.(e_w) / 2)%float in
    let cx := (e.(e_x) + r)%float in
    let cy := (e.(e_y) + e.(e_h) / 2)%float in
    groundShadow cx (e.(e_y) + e.(e_h)) e.(e_w)
    ++ circle cx cy r ++ [fill pal OrbSlot; FillPath]
    ++ shadeSphere cx cy r 0.45
    ++ (CtxSave :: [BeginPath; Arc cx cy (r - 0.8) 0 (PI / 2); LineWidth 1; StrokeStyle (Color WHITE); StrokePath]
                ++ [CtxRestore])
    ++ specular (cx + LIGHT.1 * r) (cy + LIGHT.2 * r) (0.45 * r).

Definition drawCrate (e : Entity) (pal : Palette) : list CtxCall :=
  if e.(e_taken) then []
  else
    let x := e.(e_x) in let y := e.(e_y) in let w := e.(e_w) in let h := e.(e_h) in
    let m := num_min w h in
    groundShadow (x + w / 2) (y + h) w
    ++ [fill pal CrateSlot; FillRect x y w h;
        FillStyle (Linear x y (x + w) (y + h) [(0, "rgba(255, 255, 255, 0.18)"); (1, "rgba(0, 0, 0, 0.28)")]%float);
        FillRect x y w h;
        FillStyle (Color "rgba(255, 255, 255, 0.45)"); FillRect x y w 1; FillRect x y 1 h;
        FillStyle (Color "rgba(0, 0, 0, 0.35)"); FillRect x (y + h - 1) w 1; FillRect (x + w - 1) y 1 h]
    ++ specular (x + 0.3 * m) (y + 0.3 * m) (0.3 * m).

Definition drawCoin (e : Entity) (pal : Palette) (elapsed : Z) (reducedMotion : bool) : list CtxCall :=
  let r := (e.(e_w) / 2)%float in
  let cx := (e.(e_x) + r)%float in
  let cy := (e.(e_y) + e.(e_h) / 2)%float in
  let phase := Z.rem (elapsed + e.(e_id) * 37) GLINT_PERIOD in
  let x := (cx + (-1.2 + 2.4 * (of_Z phase / of_Z GLINT_TICKS)) * r)%float in
  groundShadow cx (e.(e_y) + e.(e_h)) e.(e_w)
  ++ circle cx cy r ++ [fill pal CoinSlot; FillPath]
  ++ shadeSphere cx cy r 0.25
  ++ (CtxSave :: ([LineWidth 1.2] ++ circle cx cy (r - 0.6)
        ++ [stroke pal CoinSlot; StrokePath; StrokeStyle (Color SHADE); StrokePath; LineWidth 0.8]
        ++ circle cx cy (r * 0.62) ++ [StrokeStyle (Color "rgba(255, 255, 255, 0.55)"); StrokePath]) ++ [CtxRestore])
  ++ specular (cx + LIGHT.1 * r) (cy + LIGHT.2 * r) (0.4 * r)
  ++ (if reducedMotion || (GLINT_TICKS <=? phase) then []
      else
        CtxSave :: (circle cx cy r
          ++ [Clip; BeginPath; MoveTo (x - 1) (cy + r); LineTo (x + 1) (cy + r); LineTo (x + 1 + r) (cy - r);
              LineTo (x - 1 + r) (cy - r); ClosePath; FillStyle (Color "rgba(255, 255, 255, 0.45)"); FillPath])
          ++ [CtxRestore]).

(** The slots and the vent grille of a rack: as many as fit.  [RACK_FUEL] is
    more than any rack has. *)
Definition RACK_FUEL : nat := 32.
Definition rack_slots (x0 y0 iw ih : num) : list CtxCall :=
  num_loop RACK_FUEL (fun y => (y + 1 <=? y0 + ih)%float) (fun y => (y + 5)%float)
    (fun y => [FillRect x0 y iw 1]) (y0 + 5).
Definition rack_grille (x0 y0 iw : num) : list CtxCall :=
  num_loop RACK_FUEL (fun x => (x + 1 <=? x0 + iw - 1)%float) (fun x => (x + 2)%float)
    (fun x => [FillRect x (y0 + 7) 1 1]) (x0 + 1).
Definition led_on (e : Entity) (i elapsed : Z) (reducedMotion : bool) : bool :=
  reducedMotion || (Z.rem ((elapsed + e.(e_id) * 11 + i * 17) / LED_PERIOD) 2 =? 0).

Definition drawRack (e : Entity) (pal : Palette) (elapsed : Z) (reducedMotion : bool) : list CtxCall :=
  let cx := (e.(e_x) + e.(e_w) / 2)%float in
  let x0 := (e.(e_x) + 2)%float in
  let y0 := (e.(e_y) + 2)%float in
  let iw := (e.(e_w) - 4)%float in
  let ih := (e.(e_h) - 4)%float in
  (if bool_decide (e.(e_kind) = High)
      || bool_decide (e.(e_kind) = Falling) && (e.(e_y) + e.(e_h) <? GROUND_Y)%float
   then [BeginPath; MoveTo cx 0; LineTo cx e.(e_y); LineWidth 1; stroke pal Ground; StrokePath; fill pal Ground;
         FillRect (cx - 2) (e.(e_y) - 2) 4 2]
   else [])
  ++ [fill pal Obstacle; FillRect e.(e_x) e.(e_y) e.(e_w) e.(e_h);
      FillStyle (Color BEZEL); FillRect x0 y0 iw ih; FillStyle (Color WHITE)]
  ++ rack_slots x0 y0 iw ih ++ rack_grille x0 y0 iw
  ++ flat_map (fun i =>
       [FillStyle (Color (if led_on e i elapsed reducedMotion then pal PlayerSlot else LED_DIM));
        FillRect (if (i =? 0)%Z then x0 + 1 else x0 + iw - 3)%float (y0 + 1.5) 2 2]) [0; 1].

Definition drawGate (e : Entity) (pal : Palette) : list CtxCall :=
  let top := (GROUND_Y - 64)%float in
  [fill pal Glitch; FillRect e.(e_x) top 3 (GROUND_Y - top);
   FillRect (e.(e_x) + e.(e_w) - 3) top 3 (GROUND_Y - top); FillRect (e.(e_x) - 4) (top - 4) (e.(e_w) + 8) 4;
   Font "10px ui-monospace, Menlo, Consolas, monospace"; TextAlign "center";
   FillText ("fan-out ×" +:+ pretty (Z.of_nat FAN_LANES)) (e.(e_x) + e.(e_w) / 2) (top - 8)].

(** [withAlpha]: the normal form is matched as [#rrggbb], then as [rgb(...)] or
    [rgba(...)]. *)
Definition text_string (t : text) : string := String.string_of_list_ascii (map (fun c => ascii_of_N (Z.to_N c)) t).
Definition hex_value (c : Z) : option Z :=
  if is_digit_unit c then Some (c - 48)
  else if (97 <=? c) && (c <=? 102) then Some (c - 87)
  else if (65 <=? c) && (c <=? 70) then Some (c - 55) else None.
Definition hex_pair (a b : Z) : option Z := a ← hex_value a; b ← hex_value b; Some (16 * a + b).
Definition match_hex (t : text) : option (Z * Z * Z) :=
  match t with
  | [35; a; b; c; d; e; f] => r ← hex_pair a b; g ← hex_pair c d; b ← hex_pair e f; Some (r, g, b)
  | _ => None
  end.

(** Digits, at least one; a comma and blanks before them. *)
Definition match_digits (t : text) : option (text * text) :=
  match take_while is_digit_unit t with [] => None | n => Some (n, drop_while is_digit_unit t) end.
Definition match_comma (t : text) : option text :=
  match t with 44 :: t => Some (drop_while js_space t) | _ => None end.
Definition alpha_unit (c : Z) : bool := is_digit_unit c || (c =? 46).
Definition match_rgb (t : text) : option (text * text * text * option text) :=
  t ← (if starts_with t (u "rgba(") then Some (drop 5 t) else if starts_with t (u "rgb(") then Some (drop 4 t) else None);
  '(r, t) ← match_digits t; t ← match_comma t;
  '(g, t) ← match_digits t; t ← match_comma t;
  '(b, t) ← match_digits t;
  match t with
  | [41] => Some (r, g, b, None)
  | _ =>
      t ← match_comma t;
      match take_while alpha_unit t, drop_while alpha_unit t with
      | [], _ => None
      | a, [41] => Some (r, g, b, Some a)
      | _, _ => None
      end
  end.

Definition rgba (r g b : string) (a : num) : string :=
  "rgba(" +:+ r +:+ ", " +:+ g +:+ ", " +:+ b +:+ ", " +:+ number_text a +:+ ")".
Definition with_alpha (color : string) (alpha : num) : string :=
  let norm := u (read_back color) in
  match match_hex norm, match_rgb norm with
  | Some (r, g, b), _ => rgba (pretty r) (pretty g) (pretty b) alpha
  | None, Some (r, g, b, a) =>
      rgba (text_string r) (text_string g) (text_string b)
        (match a with Some a => Number (text_string a) | None => 1 end * alpha)%float
  | None, None => if (1 <=? alpha)%float then color else "transparent"
  end.
(** The calls it makes to read the colour back. *)
Definition with_alpha_calls (color : string) : list CtxCall := CtxSave :: [FillStyle (Color color)] ++ [CtxRestore].

Definition drawPit (e : Entity) (pal : Palette) : list CtxCall :=
  let h := (VIEW_H - GROUND_Y)%float in
  let shaft c0 c1 := FillStyle (Linear 0 GROUND_Y 0 VIEW_H [(0, c0); (1, c1)])%float in
  with_alpha_calls (pal Obstacle)
  ++ [shaft (pal Obstacle) (with_alpha (pal Obstacle) 0); FillRect e.(e_x) GROUND_Y e.(e_w) h;
      shaft PIT_DARKEN "rgba(0, 0, 0, 0)"; FillRect e.(e_x) GROUND_Y e.(e_w) h].

Definition drawFallShadow (e : Entity) (pal : Palette) : list CtxCall :=
  let drop_ := num_max 0 (num_min 1 ((e.(e_y) + e.(e_h)) / GROUND_Y)) in
  CtxSave :: [GlobalAlpha (0.2 + 0.5 * drop_); fill pal Obstacle; BeginPath;
              Ellipse (e.(e_x) + e.(e_w) / 2) (GROUND_Y + 1) (e.(e_w) / 2 * (0.5 + 0.5 * drop_)) 2 0 0 TWO_PI;
              FillPath] ++ [CtxRestore].

Definition drawDebris (e : Entity) (pal : Palette) : list CtxCall :=
  fill pal Obstacle
  :: flat_map (fun i =>
       let w := 3 + Z.rem (e.(e_id) + i * 7) 4 in
       [FillRect (e.(e_x) - 4 + of_Z i * (e.(e_w) / 4 + 3)) (GROUND_Y - 3 - of_Z (Z.rem (e.(e_id) + i) 3)) (of_Z w) 3])
       [0; 1; 2; 3].

(** ** Every sprite is sound *)

Lemma frag_num_loop keep a b fuel continues next body :
  (forall x, frag keep a (body x) (b x)) -> forall x, frag keep a (num_loop fuel continues next body x) a.
Proof.
  intros H. induction fuel as [|fuel IH]; intros x; cbn [num_loop]; [apply frag_nil|].
  eapply frag_if; [|apply frag_nil]. eapply frag_app; [eapply frag_kept, H|apply IH].
Qed.

Definition with_path (k : Known) : Known := {| k with kn_path := true |}.
Definition with_fill (k : Known) : Known := {| k with kn_fill := true |}.

Lemma shadeSphere_frag keep a cx cy r s : frag keep a (shadeSphere cx cy r s) a.
Proof. unfold shadeSphere. draw. Qed.
Lemma specular_frag keep a x y s : frag keep a (specular x y s) a.
Proof. unfold specular. draw. Qed.
Lemma circle_path keep a : frag keep a [BeginPath] (with_path a).
Proof. draw. Qed.
(** The ellipse of a shadow is only drawn where there is one. *)
Lemma ellipse_frag keep a cx cy rx ry f t u : has_ellipse = true -> a.(kn_path) = true -> frag keep a [Ellipse cx cy rx ry f t u] a.
Proof. intros E P. apply (frag_call keep a (Ellipse cx cy rx ry f t u)); [done|]. cbn. by rewrite E, P. Qed.
Lemma groundShadow_frag keep a x y w : frag keep a (groundShadow x y w) a.
Proof.
  unfold groundShadow. eapply frag_bracket. eapply (frag_app _ _ (with_path a)); [apply circle_path|].
  eapply (frag_app _ _ (with_path a)); [|draw].
  destruct has_ellipse eqn:E; [by apply ellipse_frag|]. eapply frag_kept. draw.
Qed.
Lemma circle_frag keep a cx cy r : frag keep a (circle cx cy r) (with_path a).
Proof. unfold circle. draw. Qed.
Lemma shape_frag keep a r x : frag keep a (shape r x) (with_path a).
Proof.
  unfold shape. destruct has_roundRect eqn:E; draw. apply frag_cons; [done|cbn; by rewrite E|]. draw.
Qed.
#[local] Hint Resolve shadeSphere_frag specular_frag groundShadow_frag circle_frag shape_frag : drawing.

Lemma drawHat_frag keep a b pal pose : frag keep a (drawHat b pal pose) a.
Proof. unfold drawHat. eapply frag_kept. draw. Qed.
Lemma drawOrb_frag keep a e pal : frag keep a (drawOrb e pal) a.
Proof. unfold drawOrb. draw. Qed.
Lemma drawCrate_frag keep a e pal : frag keep a (drawCrate e pal) a.
Proof. unfold drawCrate. draw. Qed.
Lemma drawCoin_frag keep a e pal t m : frag keep a (drawCoin e pal t m) a.
Proof. unfold drawCoin. eapply frag_kept. draw. Qed.
Lemma rack_slots_frag keep a x y w h : a.(kn_fill) = true -> frag keep a (rack_slots x y w h) a.
Proof. intros H. apply frag_num_loop with (b := fun _ => a). intros z. by apply (frag_call keep a (FillRect x z w 1)). Qed.
Lemma rack_grille_frag keep a x y w : a.(kn_fill) = true -> frag keep a (rack_grille x y w) a.
Proof. intros H. apply frag_num_loop with (b := fun _ => a). intros z. by apply (frag_call keep a (FillRect z (y + 7) 1 1)). Qed.
#[local] Hint Resolve rack_slots_frag rack_grille_frag : drawing.
Lemma drawRack_frag keep a e pal t m : frag keep a (drawRack e pal t m) a.
Proof. unfold drawRack. eapply frag_kept. draw. Qed.
Lemma drawGate_frag keep a e pal : frag keep a (drawGate e pal) a.
Proof. unfold drawGate. eapply frag_kept. draw. Qed.
Lemma drawPit_frag keep a e pal : frag keep a (drawPit e pal) a.
Proof. unfold drawPit, with_alpha_calls. eapply frag_kept. draw. Qed.
(** A falling rack's shadow asks for no leave. *)
Lemma drawFallShadow_frag keep a e pal : has_ellipse = true -> frag keep a (drawFallShadow e pal) a.
Proof.
  intros E. unfold drawFallShadow. eapply frag_bracket. do 3 (apply frag_cons; [done|done|cbn [learns]]).
  apply frag_cons; [done|cbn; by rewrite E|]. draw.
Qed.
Lemma drawFallShadow_ellipse e pal : existsb is_ellipse (drawFallShadow e pal) = true.
Proof. done. Qed.
Lemma drawDebris_frag keep a e pal : frag keep a (drawDebris e pal) a.
Proof. unfold drawDebris. eapply frag_kept. draw. Qed.
End Sprites.

#[export] Hint Resolve drawHat_frag drawOrb_frag drawCrate_frag drawCoin_frag drawRack_frag drawGate_frag drawPit_frag
  drawDebris_frag : drawing.
