(* ===== verification/Scene.v ===== *)
(** * A frame of the game

    [pages/replay/render/background.ts] and [canvas.ts]: the calls of one frame.
    Every frame sets what it uses, balances [save] and [restore], and leaves the
    alpha and the clipping as they were. *)

From Stdlib Require Import Ascii.
From stdpp Require Import pretty.
From S2P Require Import Prelude JsNum JsSort Decimal Types Levels Step RuntimeTypes Montage Text Display Canvas Sprites.
#[local] Open Scope list_scope.
#[local] Open Scope Z_scope.
#[local] Set Warnings "-inexact-float".

(** [0 <= k < n]. *)
Definition up_to (n : Z) : list Z := map Z.of_nat (seq 0 (Z.to_nat n)).

(** ** background.ts *)

Definition FAR_PARALLAX : num := 0.2%float.
Definition FAR_TILE : Z := 64.
Definition NEAR_PARALLAX : num := 0.5%float.
Definition NEAR_TILE : Z := 120.
Definition BLINK_TICKS : Z := 30.

Definition scenery_hash (a b : Z) : Z :=
  let h := bxor (imul (to_i32 a) 0x9e3779b1) (imul (to_i32 b + 0x7f4a7c15) 0x85ebca6b) in
  let h := imul (bxor h (ushr h 15)) 0x2c1b3c6d in
  let h := imul (bxor h (ushr h 12)) 0x297a2d39 in
  to_u32 (bxor h (ushr h 15)).

Definition lit (h ticks : Z) (reducedMotion : bool) : bool :=
  Z.rem (h + (if reducedMotion then 0 else ticks / BLINK_TICKS)) 4 =? 0.

Definition led (pal : Palette) (x y : num) : list CtxCall := [GlobalAlpha 0.45; fill pal PlayerSlot; FillRect x y 2 2].
Definition panel (pal : Palette) (x y w h alpha line : num) : list CtxCall :=
  [GlobalAlpha alpha; fill pal Backdrop; FillRect x y w h; GlobalAlpha line; stroke pal Ground; LineWidth 1;
   StrokeRect (x + 0.5) (y + 0.5) (w - 1) (h - 1)].

(** A layer: the tiles of [tile] pixels that are on screen, from the leftmost
    one on.  [TILE_FUEL] is more than there are. *)
Definition TILE_FUEL : nat := 16.
Fixpoint tiles (fuel : nat) (tile : Z) (offset : num) (body : Z -> num -> list CtxCall) (i : Z) : list CtxCall :=
  match fuel with
  | O => []
  | S fuel =>
      let tileX := (of_Z i * of_Z tile - offset)%float in
      if (tileX <? VIEW_W)%float
      then (if (tileX + of_Z tile <=? 0)%float then [] else body i tileX) ++ tiles fuel tile offset body (i + 1)
      else []
  end.
(** [NaN] and the infinities draw nothing: no difference with them is below the width. *)
Definition layer (tile : Z) (offset : num) (body : Z -> num -> list CtxCall) : list CtxCall :=
  match floor_Z (offset / of_Z tile)%float with Some i => tiles TILE_FUEL tile offset body i | None => [] end.

Definition rack_tile (pal : Palette) (ticks : Z) (reducedMotion : bool) (i : Z) (tileX : num) : list CtxCall :=
  let h := scenery_hash i 0 in
  let w := 30 + Z.rem h 9 in
  let height := 70 + Z.rem (ushr h 8) 41 in
  let x := (tileX + of_Z (FAR_TILE - w) / 2)%float in
  let top := (GROUND_Y - of_Z height)%float in
  panel pal x top (of_Z w) (of_Z height) 0.6 0.5
  ++ flat_map (fun row =>
       let hl := scenery_hash i row in
       [GlobalAlpha 0.5; fill pal Ground; FillRect x (top + of_Z (row * 8)) (of_Z w) 1]
       ++ (if (Z.rem (ushr hl 4) 2 =? 0) && lit hl ticks reducedMotion
           then led pal (x + of_Z w - 6) (top + of_Z (row * 8) - 5) else []))
     (List.filter (fun row => (1 <=? row) && (row * 8 <? height)) (up_to height)).
Definition drawRacks (worldX : num) (pal : Palette) (ticks : Z) (reducedMotion : bool) : list CtxCall :=
  layer FAR_TILE (worldX * FAR_PARALLAX) (rack_tile pal ticks reducedMotion).

Definition desk_tile (pal : Palette) (ticks : Z) (reducedMotion : bool) (i : Z) (tileX : num) : list CtxCall :=
  let h := scenery_hash i 1 in
  if 3 <=? Z.rem h 5 then []
  else
    let x := (tileX + 24 + of_Z (Z.rem (ushr h 8) 20))%float in
    let deskY := (GROUND_Y - 26)%float in
    [GlobalAlpha 0.7; fill pal Ground; FillRect x deskY 50 3; FillRect (x + 3) (deskY + 3) 2 23;
     FillRect (x + 45) (deskY + 3) 2 23; FillRect (x + 15) (deskY - 4) 4 4; FillRect (x + 11) (deskY - 1) 12 1]
    ++ panel pal (x + 6) (deskY - 18) 22 14 0.9 0.6
    ++ (if lit (scenery_hash i 2) ticks reducedMotion then led pal (x + 24) (deskY - 7) else [])
    ++ (if Z.rem (ushr h 16) 2 =? 0
        then panel pal (x + 34) (deskY - 20) 9 20 0.9 0.6
             ++ (if lit (scenery_hash i 3) ticks reducedMotion then led pal (x + 37) (deskY - 16) else [])
        else []).
Definition drawDesks (worldX : num) (pal : Palette) (ticks : Z) (reducedMotion : bool) : list CtxCall :=
  layer NEAR_TILE (worldX * NEAR_PARALLAX) (desk_tile pal ticks reducedMotion).

Definition drawBackground (worldX : num) (pal : Palette) (ticks : Z) (reducedMotion : bool) : list CtxCall :=
  CtxSave :: (drawRacks worldX pal ticks reducedMotion ++ drawDesks worldX pal ticks reducedMotion) ++ [CtxRestore].

(** ** canvas.ts: the world *)

Record RenderView := {
  rv_state : GameState;
  rv_phase : Phase;
  rv_notice : option string;
  rv_reducedMotion : bool;
  rv_frame : Z;
  rv_pose : option Pose;
  rv_pixelScale : option num;
  rv_playbackDate : option string;
  rv_playbackSpeed : option Z;
  rv_montage : option (Z * Z * list num)
}.

Definition FONT : string := "10px ui-monospace, Menlo, Consolas, monospace".
Definition BIG_FONT : string := "bold 14px ui-monospace, Menlo, Consolas, monospace".
Definition ORB_LABELS : list string := ["Math.random()"; "Date.now()"; "fetch()"].

Definition entity_label (e : Entity) : option string :=
  match e.(e_kind) with
  | Orb => ORB_LABELS !! Z.to_nat (Z.rem e.(e_id) 3)
  | Crate => Some "callActivity(random)"
  | _ => None
  end.

Definition blinkHidden (s : GameState) : bool :=
  (s.(g_tick) <? s.(g_graceUntil)) && (Z.rem (s.(g_tick) / 4) 2 =? 1).

Definition banner (text : string) (y : num) (color font : string) : list CtxCall :=
  [Font font; TextAlign "center"; FillStyle (Color color); FillText text (VIEW_W / 2) y].

Definition STRIP_H : num := (VIEW_H / of_Z (Z.of_nat FAN_LANES))%float.
Definition LANE_TOP : num := (GROUND_Y - 170)%float.

(** The pits from left to right. *)
Definition by_x (a b : Entity) : Z :=
  let d := (a.(e_x) - b.(e_x))%float in if (d <? 0)%float then -1 else if (0 <? d)%float then 1 else 0.
Definition pits_of (s : GameState) : list Entity :=
  js_sort by_x (List.filter (fun e => bool_decide (e.(e_kind) = Pit)) s.(g_entities)).

(** The ground between the pits, as pairs of where it starts and ends. *)
Fixpoint ground_spans (x width : num) (pits : list Entity) : list (num * num) :=
  match pits with
  | [] => if (x <? width)%float then [(x, width)] else []
  | p :: pits =>
      (if (x <? p.(e_x))%float then [(x, p.(e_x))] else [])
      ++ ground_spans (num_max x (p.(e_x) + p.(e_w))) width pits
  end.

(** A dash is drawn where it touches no pit.  [DASH_FUEL] covers a lane's width. *)
Definition DASH_FUEL : nat := 32.
Definition over_pit (pits : list Entity) (dx : num) : bool :=
  existsb (fun p => (p.(e_x) <? dx + 10)%float && (dx <? p.(e_x) + p.(e_w))%float) pits.
Definition dashes (pits : list Entity) (width scroll : num) : list CtxCall :=
  num_loop DASH_FUEL (fun dx => (dx <? width)%float) (fun dx => (dx + 24)%float)
    (fun dx => if over_pit pits dx then [] else [FillRect dx (GROUND_Y + 10) 10 2]) (- num_rem scroll 24).

Section Scene.
Context `{br : Browser} (number_text : num -> string) (Number : string -> num)
  (read_back : string -> string) (levels : LevelTable).

Abbreviation hat := drawHat.

Definition drawGround (s : GameState) (pal : Palette) (width : num) : list CtxCall :=
  let pits := pits_of s in
  flat_map (fun p => drawPit number_text Number read_back p pal) pits
  ++ [fill pal Ground]
  ++ flat_map (fun s => [FillRect s.1 GROUND_Y (s.2 - s.1) 2]) (ground_spans 0 width pits)
  ++ dashes pits width s.(g_scroll).

Definition drawEntity (e : Entity) (pal : Palette) (replaying : bool) (elapsed : Z) (reducedMotion : bool) : list CtxCall :=
  if e.(e_taken) then
    if isRack e.(e_kind) then drawDebris e pal
    else if negb replaying || bool_decide (e.(e_kind) = Orb) then []
    else [Font FONT; TextAlign "center"; fill pal CoinSlot;
          FillText "✓ from history" (e.(e_x) + e.(e_w) / 2) (e.(e_y) - 4)]
  else
    let labelled calls slot :=
      calls ++ [fill pal slot]
      ++ match entity_label e with
         | Some t => [Font FONT; TextAlign "center"; FillText t (e.(e_x) + e.(e_w) / 2) (e.(e_y) - 4)]
         | None => []
         end in
    match e.(e_kind) with
    | Coin => drawCoin number_text e pal elapsed reducedMotion
    | Fanout => drawGate e pal
    | Pit => []
    | Low | High | Tall | Falling =>
        (if bool_decide (e.(e_kind) = Falling) && (e.(e_y) + e.(e_h) <? GROUND_Y)%float then drawFallShadow e pal else [])
        ++ drawRack e pal elapsed reducedMotion
    | Orb => labelled (drawOrb number_text e pal) OrbSlot
    | Crate => labelled (drawCrate number_text e pal) CrateSlot
    end.

Definition player_box (p : Player) : Box :=
  let h := if p.(p_sliding) && (GROUND_Y <=? p.(p_y))%float then SLIDE_H else PLAYER_H in
  box PLAYER_X (p.(p_y) - h) PLAYER_W h.

Definition drawPlayer (s : GameState) (pal : Palette) (pose : Pose) (reducedMotion : bool) : list CtxCall :=
  let b := player_box s.(g_player) in
  if (s.(g_tick) <? s.(g_graceUntil)) && reducedMotion then
    [stroke pal PlayerSlot; LineWidth 1;
     StrokeRect (b.(bx_x) - 2) (b.(bx_y) - 2) (b.(bx_w) + 4) (b.(bx_h) + 4)]
    ++ hat b pal pose
  else if blinkHidden s then []
  else hat b pal pose.

(** [drawLanes], lane [i]. *)
Definition draw_lane (v : RenderView) (pal : Palette) (pose : Pose) (i : nat) (lane : Lane) : list CtxCall :=
  let s := v.(rv_state) in
  let track := {| s with g_player := lane.(l_player); g_entities := lane.(l_entities) |} in
  let y := (of_Z (Z.of_nat i) * STRIP_H)%float in
  (CtxSave :: ([BeginPath; PathRect 0 y VIEW_W STRIP_H; Clip; Translate 0 y; Scale LANE_SCALE LANE_SCALE;
                Translate 0 (- LANE_TOP)]
     ++ drawGround track pal (VIEW_W / LANE_SCALE)
     ++ flat_map (fun e =>
          drawEntity e pal (bool_decide (kind v.(rv_phase) = KReplaying)) s.(g_elapsed) v.(rv_reducedMotion))
          lane.(l_entities)
     ++ drawPlayer track pal pose v.(rv_reducedMotion)) ++ [CtxRestore])
  ++ (if (0 <? i)%nat then [fill pal Ground; FillRect 0 y VIEW_W 1] else []).
Definition drawLanes (v : RenderView) (pal : Palette) (pose : Pose) : list CtxCall :=
  match v.(rv_state).(g_fan) with
  | None => []
  | Some fan => concat (imap (draw_lane v pal pose) fan.(f_lanes))
  end.

(** [drawTrail]. *)
Definition drawTrail (trail : list num) (pal : Palette) (pose : Pose) : list CtxCall :=
  concat (imap (fun i y =>
    let k := of_Z (Z.of_nat i + 1) in
    CtxSave :: ([GlobalAlpha (0.35 * (1 - k / of_Z (Z.of_nat (length trail))))]
      ++ hat (box (PLAYER_X - k * 10) (y - PLAYER_H) PLAYER_W PLAYER_H) pal pose) ++ [CtxRestore]) (drop 1 trail)).

(** ** canvas.ts: what is written over it *)

Definition upper_ascii (c : ascii) : ascii :=
  let n := N_of_ascii c in if (97 <=? n)%N && (n <=? 122)%N then ascii_of_N (n - 32) else c.
Fixpoint upper (s : string) : string :=
  match s with EmptyString => EmptyString | String c s => String (upper_ascii c) (upper s) end.

Definition drawHud (v : RenderView) (pal : Palette) : list CtxCall :=
  let s := v.(rv_state) in
  let cfg := levels s.(g_level) in
  let mult := if 1 <? s.(g_multiplier) then " ×" +:+ pretty s.(g_multiplier) else "" in
  let armed := SHIELD_FULL <=? s.(g_shield) in
  let x0 := 100%float in
  [Font FONT; fill pal Muted; TextAlign "left";
   FillText ("LEVEL " +:+ pretty (level_num s.(g_level)) +:+ " · " +:+ upper cfg.(cfg_name)) 10 18;
   TextAlign "right";
   FillText ("SCORE " +:+ pretty s.(g_score) +:+ mult +:+ " · TICK " +:+ pretty s.(g_tick)) (VIEW_W - 10) 18;
   TextAlign "left"]
  ++ (if 0 <? cfg.(cfg_retries) then
        [fill pal Muted; FillText "RETRY" 10 32]
        ++ flat_map (fun i =>
             CtxSave :: ((if s.(g_retries) <=? i then [GlobalAlpha 0.25] else [])
               ++ hat (box (46 + of_Z (i * 14)) 25 11 6) pal NEUTRAL) ++ [CtxRestore]) (up_to cfg.(cfg_retries))
      else [])
  ++ (if cfg.(cfg_shieldEnabled) then
        flat_map (fun i =>
          [FillStyle (Color (pal (if i <? s.(g_shield) then PlayerSlot else Ground)));
           FillRect (x0 + of_Z (i * 5)) 26 4 6]) (up_to SHIELD_FULL)
        ++ [FillStyle (Color (pal (if armed then PlayerSlot else Muted)));
            FillText (if armed then "CB ARMED" else "CB " +:+ pretty s.(g_shield) +:+ "/" +:+ pretty SHIELD_FULL)
              (x0 + of_Z (SHIELD_FULL * 5) + 6) 32]
      else [])
  ++ match v.(rv_playbackDate) with
     | Some date =>
         let speed := match v.(rv_playbackSpeed) with
                      | Some n => if n =? 0 then "" else " · " +:+ pretty n +:+ "×"
                      | None => ""
                      end in
         if String.eqb date "" then []
         else banner ("▶ PLAYBACK · " +:+ date +:+ speed) (VIEW_H - 8) (pal Glitch) FONT
     | None => []
     end.

Definition drawCrash (v : RenderView) (pal : Palette) : list CtxCall :=
  (if v.(rv_reducedMotion) then []
   else
     CtxSave :: ([GlobalAlpha 0.35; fill pal Glitch]
       ++ flat_map (fun i =>
            let y := Z.rem (v.(rv_frame) * 37 + i * 53) 270 in
            let w := 40 + Z.rem (v.(rv_frame) * 13 + i * 29) 200 in
            [FillRect (of_Z (Z.rem (i * 71 + v.(rv_frame) * 11) 480)) (of_Z y) (of_Z w) (of_Z (3 + Z.rem i 4))])
          (up_to 12)) ++ [CtxRestore])
  ++ banner "GAME SUDDENLY CRASHED, NOT YOUR FAULT!" (VIEW_H / 2) (pal FailSlot) BIG_FONT
  ++ (if 1 <=? level_num v.(rv_state).(g_level)
      then banner "DAPR WORKFLOW WILL NOW REPLAY." (VIEW_H / 2 + 18) (pal TextSlot) FONT else []).

Definition drawRewind (v : RenderView) (pal : Palette) (attempt of_ : Z) : list CtxCall :=
  (if v.(rv_reducedMotion) then []
   else
     CtxSave :: ([GlobalAlpha 0.25; fill pal Glitch]
       ++ flat_map (fun i => [FillRect 0 (of_Z (Z.rem (v.(rv_frame) * 9 + i * 97) 270)) VIEW_W 2]) (up_to 3))
       ++ [CtxRestore])
  ++ banner ("◀◀ RetryPolicy · attempt " +:+ pretty attempt +:+ "/" +:+ pretty of_) (VIEW_H / 2) (pal Glitch) BIG_FONT.

(** The scan lines: every sixth row from the first on. *)
Definition scan_lines (frame : Z) : list Z :=
  List.filter (fun y => y <? 270) (map (fun k => Z.rem (frame * 3) 6 + 6 * k) (up_to 45)).
Definition boss_left (s : GameState) : Z :=
  Z.max 0 (default 0 (trunc_Z (num_ceil (of_Z (s.(g_bossUntil) - s.(g_tick)) / of_Z TICK_HZ)%float))).
Definition drawBoss (v : RenderView) (pal : Palette) : list CtxCall :=
  (CtxSave :: ([GlobalAlpha 0.08; fill pal FailSlot; FillRect 0 0 VIEW_W VIEW_H]
     ++ (if v.(rv_reducedMotion) then []
         else [GlobalAlpha 0.18] ++ flat_map (fun y => [FillRect 0 (of_Z y) VIEW_W 1]) (scan_lines v.(rv_frame))))
     ++ [CtxRestore])
  ++ banner ("NonDeterministicError · survive " +:+ pretty (boss_left v.(rv_state)) +:+ "s") 64 (pal FailSlot) BIG_FONT.

Definition drawMontage (v : RenderView) (pal : Palette) (events flash : Z) : list CtxCall :=
  (if (0 <? flash) && negb v.(rv_reducedMotion) then
     CtxSave :: [GlobalAlpha (0.5 * (of_Z flash / of_Z FLASH_FRAMES)); fill pal TextSlot; FillRect 0 0 VIEW_W VIEW_H]
       ++ [CtxRestore]
   else [])
  ++ banner ("LEVEL COMPLETE · replaying " +:+ pretty events +:+ " events") 70 (pal Glitch) BIG_FONT.

(** ** One frame *)

(** What moves with the world, inside the outermost [save]. *)
Definition draw_world (v : RenderView) (pal : Palette) : list CtxCall :=
  let s := v.(rv_state) in
  let pose := default NEUTRAL v.(rv_pose) in
  let m := v.(rv_reducedMotion) in
  [fill pal Bg; FillRect 0 0 VIEW_W VIEW_H]
  ++ (if bool_decide (kind v.(rv_phase) = KCrashing) && negb m
      then [Translate (of_Z (Z.rem (v.(rv_frame) * 7) 9 - 4)) (of_Z (Z.rem (v.(rv_frame) * 5) 7 - 3))] else [])
  ++ drawBackground (s.(g_distance) + s.(g_scroll)) pal s.(g_elapsed) m
  ++ (if bool_decide (is_Some s.(g_fan)) then drawLanes v pal pose
      else
        drawGround s pal VIEW_W
        ++ flat_map (fun e => drawEntity e pal (bool_decide (kind v.(rv_phase) = KReplaying)) s.(g_elapsed) m) s.(g_entities)
        ++ drawPlayer s pal pose m
        ++ match v.(rv_montage) with Some (_, _, trail) => drawTrail trail pal pose | None => [] end).

(** What is written over it. *)
Definition draw_over (v : RenderView) (pal : Palette) : list CtxCall :=
  let s := v.(rv_state) in
  drawHud v pal
  ++ match v.(rv_notice) with
     | Some t => if String.eqb t "" then [] else banner t 44 (pal TextSlot) FONT
     | None => []
     end
  ++ (if (0 <? s.(g_bossUntil)) && bool_decide (kind v.(rv_phase) = KPlaying) then drawBoss v pal else [])
  ++ match v.(rv_phase) with
     | PCrashing _ => drawCrash v pal
     | PRewinding _ _ attempt of_ => drawRewind v pal attempt of_
     | PReplaying => banner ("⏩ REPLAYING HISTORY · tick " +:+ pretty s.(g_tick)) 70 (pal Glitch) BIG_FONT
     | PMontage _ => match v.(rv_montage) with Some (events, flash, _) => drawMontage v pal events flash | None => [] end
     | _ => []
     end.

Definition base_transform (v : RenderView) : CtxCall :=
  let scale := default 1%float v.(rv_pixelScale) in SetTransform scale 0 0 scale 0 0.
Definition render (v : RenderView) (pal : Palette) : list CtxCall :=
  base_transform v :: (CtxSave :: draw_world v pal ++ [CtxRestore]) ++ draw_over v pal.

(** The entities a frame draws, and which of them fall: a rack in the air. *)
Definition drawn_entities (s : GameState) : list Entity :=
  match s.(g_fan) with Some fan => flat_map l_entities fan.(f_lanes) | None => s.(g_entities) end.
Definition in_fall (e : Entity) : bool :=
  negb e.(e_taken) && bool_decide (e.(e_kind) = Falling) && (e.(e_y) + e.(e_h) <? GROUND_Y)%float.
(** Every shadow can be drawn. *)
Definition drawable (s : GameState) : bool := has_ellipse || negb (existsb in_fall (drawn_entities s)).

(** ** Every frame is sound *)

Lemma frag_concat keep a (ls : list (list CtxCall)) :
  Forall (fun l => frag keep a l a) ls -> frag keep a (concat ls) a.
Proof. induction 1 as [|l ls H _ IH]; [apply frag_nil|]. cbn. by eapply frag_app. Qed.

Lemma frag_imap {A} keep a (f : nat -> A -> list CtxCall) (xs : list A) :
  (forall i x, frag keep a (f i x) a) -> frag keep a (concat (imap f xs)) a.
Proof.
  intros H. apply frag_concat, Forall_forall. intros l Hl. apply elem_of_lookup_imap in Hl as (i & x & -> & _). apply H.
Qed.

Lemma led_frag a pal x y : frag false a (led pal x y) a.
Proof. unfold led. eapply frag_kept. draw. Qed.
Lemma panel_frag a pal x y w h f l : frag false a (panel pal x y w h f l) a.
Proof. unfold panel. eapply frag_kept. draw. Qed.
#[local] Hint Resolve led_frag panel_frag : drawing.

Lemma tiles_frag a tile offset body : (forall i x, frag false a (body i x) a) ->
  forall fuel i, frag false a (tiles fuel tile offset body i) a.
Proof.
  intros H. induction fuel as [|fuel IH]; intros i; cbn [tiles]; [apply frag_nil|].
  eapply frag_if; [|apply frag_nil]. eapply frag_app; [|apply IH]. eapply frag_if; [apply frag_nil|apply H].
Qed.
Lemma layer_frag a tile offset body : (forall i x, frag false a (body i x) a) -> frag false a (layer tile offset body) a.
Proof. intros H. unfold layer. destruct (floor_Z _); [by apply tiles_frag|apply frag_nil]. Qed.
Lemma rack_tile_frag a pal t m i x : frag false a (rack_tile pal t m i x) a.
Proof. unfold rack_tile. eapply frag_kept. draw. Qed.
Lemma desk_tile_frag a pal t m i x : frag false a (desk_tile pal t m i x) a.
Proof. unfold desk_tile. draw. Qed.
Lemma drawBackground_frag keep a x pal t m : frag keep a (drawBackground x pal t m) a.
Proof.
  unfold drawBackground, drawRacks, drawDesks. draw_step. draw_step;
    apply layer_frag; intros; [apply rack_tile_frag|apply desk_tile_frag].
Qed.

Lemma banner_frag keep a t y c f : frag keep a (banner t y c f) a.
Proof. unfold banner. eapply frag_kept. draw. Qed.
Lemma dashes_frag keep a pits w x : a.(kn_fill) = true -> frag keep a (dashes pits w x) a.
Proof.
  intros H. apply frag_num_loop with (b := fun _ => a). intros z.
  eapply frag_if; [apply frag_nil|by apply (frag_call keep a (FillRect z (GROUND_Y + 10) 10 2))].
Qed.
#[local] Hint Resolve drawBackground_frag banner_frag dashes_frag : drawing.

Lemma drawGround_frag keep a s pal w : frag keep a (drawGround s pal w) a.
Proof. unfold drawGround. eapply frag_kept. draw. Qed.
Lemma falling_frag keep a e pal :
  e.(e_taken) = false -> has_ellipse || negb (in_fall e) = true ->
  frag keep a (if bool_decide (e.(e_kind) = Falling) && (e.(e_y) + e.(e_h) <? GROUND_Y)%float
               then drawFallShadow e pal else []) a.
Proof.
  intros Ht He. unfold in_fall in He. rewrite Ht in He. cbn [negb andb] in He.
  destruct (bool_decide _ && _); [|apply frag_nil]. apply drawFallShadow_frag. by destruct has_ellipse.
Qed.
Lemma drawEntity_frag keep a e pal r t m :
  has_ellipse || negb (in_fall e) = true -> frag keep a (drawEntity e pal r t m) a.
Proof.
  intros He. unfold drawEntity. destruct (e_taken e) eqn:Ht; [eapply frag_kept; draw|].
  pose proof (fun k a => falling_frag k a e pal Ht He) as Hf.
  destruct (e_kind e) eqn:K; try (eapply frag_app; [apply Hf|eapply frag_kept; draw]);
    destruct (entity_label e); eapply frag_kept; draw.
Qed.
Lemma drawEntities_frag keep a es pal r t m :
  has_ellipse || negb (existsb in_fall es) = true -> frag keep a (flat_map (fun e => drawEntity e pal r t m) es) a.
Proof.
  intros He. apply frag_flat_map_in. intros e Hin. exists a. apply drawEntity_frag.
  destruct has_ellipse; [done|]. cbn [orb] in *. destruct (in_fall e) eqn:F; [|done].
  rewrite (proj2 (existsb_exists in_fall es)) in He; [done|]. exists e. split; [by apply list_elem_of_In|done].
Qed.
Lemma drawPlayer_frag keep a s pal pose m : frag keep a (drawPlayer s pal pose m) a.
Proof. unfold drawPlayer. draw. Qed.
#[local] Hint Resolve drawGround_frag drawPlayer_frag : drawing.
Lemma draw_lane_frag keep a v pal pose i lane :
  has_ellipse || negb (existsb in_fall lane.(l_entities)) = true -> frag keep a (draw_lane v pal pose i lane) a.
Proof.
  intros He. unfold draw_lane. eapply frag_app; [eapply frag_bracket|draw].
  eapply frag_app; [draw|]. eapply frag_app; [draw|]. eapply frag_app; [by apply drawEntities_frag|draw].
Qed.
Lemma drawLanes_frag keep a v pal pose :
  is_Some v.(rv_state).(g_fan) -> drawable v.(rv_state) = true -> frag keep a (drawLanes v pal pose) a.
Proof.
  unfold drawLanes, drawable, drawn_entities. intros [fan ->] He. apply frag_concat, Forall_forall. intros l Hl.
  apply elem_of_lookup_imap in Hl as (i & lane & -> & Hi). apply draw_lane_frag.
  destruct has_ellipse; [done|]. cbn [orb] in *. apply negb_true_iff. apply negb_true_iff in He.
  apply not_true_iff_false. intros Hx. apply existsb_exists in Hx as (e & He1 & He2).
  apply (not_true_iff_false (existsb _ _)) in He. apply He, existsb_exists. exists e. split; [|done].
  apply in_flat_map. exists lane. split; [|done]. apply list_elem_of_In. by eapply list_elem_of_lookup_2.
Qed.
Lemma drawTrail_frag keep a trail pal pose : frag keep a (drawTrail trail pal pose) a.
Proof. unfold drawTrail. apply frag_imap. intros. draw. Qed.
#[local] Hint Resolve drawTrail_frag : drawing.

Lemma drawHud_frag keep a v pal : frag keep a (drawHud v pal) a.
Proof.
  unfold drawHud.
  destruct (rv_playbackDate v) as [date|]; [destruct (String.eqb date "")|]; eapply frag_kept; draw.
Qed.
Lemma drawCrash_frag keep a v pal : frag keep a (drawCrash v pal) a.
Proof. unfold drawCrash. draw. Qed.
Lemma drawRewind_frag keep a v pal x y : frag keep a (drawRewind v pal x y) a.
Proof. unfold drawRewind. draw. Qed.
Lemma drawBoss_frag keep a v pal : frag keep a (drawBoss v pal) a.
Proof. unfold drawBoss. draw. Qed.
Lemma drawMontage_frag keep a v pal x y : frag keep a (drawMontage v pal x y) a.
Proof. unfold drawMontage. draw. Qed.
#[local] Hint Resolve drawHud_frag drawCrash_frag drawRewind_frag drawBoss_frag drawMontage_frag : drawing.

Lemma draw_world_frag a v pal : drawable v.(rv_state) = true -> frag false a (draw_world v pal) a.
Proof.
  intros Hd. unfold draw_world. eapply frag_kept. do 2 (apply frag_cons; [done|done|cbn [learns]]). cbn [app].
  eapply frag_app; [draw|]. eapply frag_app; [draw|].
  destruct (bool_decide_reflect (is_Some (g_fan (rv_state v)))) as [Hf|Hf]; [by apply drawLanes_frag|].
  assert (Hn : g_fan (rv_state v) = None) by (by apply eq_None_not_Some).
  unfold drawable, drawn_entities in Hd. rewrite Hn in Hd.
  eapply frag_app; [draw|]. eapply frag_app; [by apply drawEntities_frag|].
  destruct (rv_montage v) as [[[? ?] ?]|]; draw.
Qed.
Lemma draw_over_frag keep a v pal : frag keep a (draw_over v pal) a.
Proof.
  unfold draw_over.
  destruct (rv_notice v) as [t|]; [destruct (String.eqb t "")|];
    destruct (rv_phase v), (rv_montage v) as [[[? ?] ?]|]; eapply frag_kept; draw.
Qed.

(** Without [ellipse], a falling rack that is drawn ends the frame. *)
Lemma falling_ellipse e pal r t m : in_fall e = true -> existsb is_ellipse (drawEntity e pal r t m) = true.
Proof.
  unfold in_fall, drawEntity. intros [[Ht Hk]%andb_true_iff Hy]%andb_true_iff. apply negb_true_iff in Ht. rewrite Ht.
  apply bool_decide_eq_true in Hk. rewrite Hk, bool_decide_true, Hy by done.
  cbn [andb]. by rewrite existsb_app, drawFallShadow_ellipse.
Qed.
Lemma existsb_flat_map {A} (f : A -> list CtxCall) (P : CtxCall -> bool) x xs :
  x ∈ xs -> existsb P (f x) = true -> existsb P (flat_map f xs) = true.
Proof.
  intros Hx Hp. apply existsb_exists in Hp as (c & Hc & Hp). apply existsb_exists. exists c. split; [|done].
  apply in_flat_map. exists x. by rewrite <- list_elem_of_In.
Qed.
Lemma lanes_ellipse v pal pose fan e :
  v.(rv_state).(g_fan) = Some fan -> e ∈ flat_map l_entities fan.(f_lanes) -> in_fall e = true ->
  existsb is_ellipse (drawLanes v pal pose) = true.
Proof.
  intros Hf He Hi. unfold drawLanes. rewrite Hf. apply list_elem_of_In, in_flat_map in He as (lane & Hl & He).
  apply list_elem_of_In, list_elem_of_lookup in Hl as [i Hl]. apply list_elem_of_In in He.
  assert (Hd : existsb is_ellipse (draw_lane v pal pose i lane) = true).
  { unfold draw_lane. rewrite existsb_app. apply orb_true_iff. left. cbn [existsb is_ellipse orb]. rewrite !existsb_app.
    erewrite (existsb_flat_map _ is_ellipse e); [by rewrite !orb_true_r|done|by apply falling_ellipse]. }
  apply existsb_exists in Hd as (c & Hc & Hp). apply existsb_exists. exists c. split; [|done].
  apply in_concat. exists (draw_lane v pal pose i lane). split; [|done]. apply list_elem_of_In, elem_of_lookup_imap.
  by exists i, lane.
Qed.
Lemma undrawable_throws v pal x :
  drawable v.(rv_state) = false -> run_calls (render v pal) x = None.
Proof.
  unfold drawable. intros [E He]%orb_false_iff. apply negb_false_iff, existsb_exists in He as (e & Hin & Hf).
  apply list_elem_of_In in Hin. apply ellipse_throws; [done|].
  unfold render. cbn [existsb is_ellipse orb]. rewrite existsb_app. cbn [existsb is_ellipse orb]. rewrite existsb_app.
  assert (Hw : existsb is_ellipse (draw_world v pal) = true); [|by rewrite Hw].
  unfold draw_world, drawn_entities in *. rewrite !existsb_app.
  destruct (g_fan (rv_state v)) as [fan|] eqn:Ef.
  - rewrite (bool_decide_true (is_Some (Some fan))) by (by eexists). rewrite (lanes_ellipse v pal _ fan e) by done. by rewrite !orb_true_r.
  - rewrite (bool_decide_false (is_Some (None (A := Fan)))) by (by intros []). rewrite !existsb_app.
    erewrite (existsb_flat_map _ is_ellipse e); [by rewrite !orb_true_r|done|by apply falling_ellipse].
Qed.

End Scene.
