(* ===== verification/SceneFacts.v ===== *)
(** * What a frame of the game shows

    The ground is drawn exactly where there is no pit, and the loops that count
    with doubles end within their fuel: sums and differences of doubles of any
    sign stay between the integers that enclose the exact result, and counting
    up by a whole step does too. *)

From S2P Require Import Prelude JsNum JsSort Decimal Binary64 Types Levels Step RuntimeTypes.
From S2P Require Import Display Canvas Sprites Scene.
#[local] Open Scope Z_scope.

(** ** Intervals of doubles *)

(** A finite double between two integers. *)
Definition between (lo hi : Z) (x : num) : Prop := within (lo * pw 0) (hi * pw 0) x.

Lemma between_wider lo hi lo' hi' x : lo' <= lo -> hi <= hi' -> between lo hi x -> between lo' hi' x.
Proof. intros. pose proof (pw_pos 0 ltac:(lia)). eapply within_weaken; [| |done]; nia. Qed.

Lemma repr_integer z : 0 <= z <= 2 ^ 53 -> repr (z * pw 0).
Proof.
  intros Hz. destruct (Z.eq_dec z (2 ^ 53)) as [->|].
  - exists (2 ^ 52), 1. split; [split; lia|]. change 1 with (0 + 1). rewrite pw_add by lia. lia.
  - exists z, 0. split; [split; lia|done].
Qed.

Lemma int_small z : z <= 2 ^ 53 -> z * pw 0 < pw 1024.
Proof. intros Hz. change 1024 with (0 + 1024). rewrite pw_add by lia. pose proof (pw_pos 0 ltac:(lia)). nia. Qed.

(** Rounding an integral significand of either sign. *)
Lemma normalize_between x z e lo hi :
  Prim2SF x = binary_normalize prec emax z e false -> -4000 <= e ->
  - 2 ^ 53 <= lo -> hi <= 2 ^ 53 -> lo * pw 0 <= z * pw e <= hi * pw 0 -> between lo hi x.
Proof.
  intros Ex He Hlo Hhi Hb. pose proof (pw_pos 0 ltac:(lia)) as P0. pose proof (pw_pos e He) as Pe.
  unfold between, within, is_finite, val. rewrite Ex. destruct z as [|p|p]; cbn [binary_normalize].
  - split; [done|]. cbn [sval]. lia.
  - destruct (binary_round_aligned false p e He) as (m & e' & E & V & He').
    assert (W : within (Z.max lo 0 * pw 0) (hi * pw 0) x).
    { eapply round_within; [rewrite Ex; cbn [binary_normalize]; exact E|done|done|apply repr_integer; nia|apply repr_integer; nia|
        by apply int_small|nia|left; split; [done|nia]]. }
    destruct W as [Wf Wv]. unfold is_finite, val in *. rewrite Ex in *. cbn [binary_normalize] in *. split; [done|nia].
  - destruct (binary_round_aligned true p e He) as (m & e' & E & V & He'). rewrite E.
    destruct (repr_integer (Z.max (- hi) 0)) as (f & ef & Hf & Ef); [nia|].
    destruct (repr_integer (- lo)) as (g & eg & Hg & Eg); [nia|].
    pose proof (round_low true m e' loc_Exact f ef He' Hf ltac:(nia)) as L.
    pose proof (round_up true m e' loc_Exact g eg He' Hg ltac:(left; split; [done|nia])) as U.
    destruct (round_spec true m e' loc_Exact) as (q & Hs%rounded_sign & _); [lia|].
    pose proof (int_small (- lo) ltac:(lia)).
    rewrite <- Ef in L. rewrite <- Eg in U.
    destruct (binary_round_aux _ _ _ _ _ _) as [s|s| |s m' e'']; cbn [mag_ge mag_le sval] in *; subst;
      [split; [done|nia]|lia|done|split; [done|cbv zeta; nia]].
Qed.

Lemma finite_forms (x : num) : is_finite x = true ->
  (val x = 0 /\ exists s, Prim2SF x = S754_zero s)
  \/ exists s m e, Prim2SF x = S754_finite s m e /\ -1074 <= e /\ val x = cond_Zopp s (Zpos m) * pw e.
Proof.
  unfold is_finite, val. pose proof (Prim2SF_bounded x) as B. destruct (Prim2SF x) as [s|s| |s m e]; try done; intros _.
  - left. split; [done|by exists s].
  - right. exists s, m, e. destruct (bounded_elim m e (B _ _ _ eq_refl)) as (He & _ & _).
    split_and!; [done|lia|]. destruct s; cbn; lia.
Qed.

Lemma align_val s m e e' :
  -1074 <= e' <= e -> cond_Zopp s (Zpos (fst (shl_align m e e'))) * pw e' = cond_Zopp s (Zpos m) * pw e.
Proof.
  intros He. pose proof (shl_align_spec m e e') as A. destruct (shl_align m e e') as [m' e'']. destruct A as [-> A].
  cbn [fst]. rewrite A. replace (Z.min e e') with e' by lia.
  replace e with (e' + (e - e')) at 2 by lia. rewrite pw_add by lia. destruct s; cbn [cond_Zopp]; lia.
Qed.

(** The part of [SFadd] and [SFsub] that is no rounding. *)
Lemma kept_between x y lo hi :
  Prim2SF x = Prim2SF y -> is_finite y = true -> lo * pw 0 <= val y <= hi * pw 0 -> between lo hi x.
Proof. unfold between, within, is_finite, val. by intros ->. Qed.

Lemma plus_between x y lo hi :
  is_finite x = true -> is_finite y = true -> - 2 ^ 53 <= lo -> hi <= 2 ^ 53 ->
  lo * pw 0 <= val x + val y <= hi * pw 0 -> between lo hi (x + y)%float.
Proof.
  intros Fx Fy Hlo Hhi Hb. pose proof (add_spec x y) as E.
  destruct (finite_forms x Fx) as [(Vx & sx & Ex)|(sx & mx & ex & Ex & Hex & Vx)],
           (finite_forms y Fy) as [(Vy & sy & Ey)|(sy & my & ey & Ey & Hey & Vy)]; rewrite Ex, Ey in E.
  - unfold between, within, is_finite, val. rewrite E. destruct sx, sy; cbn; (split; [done|lia]).
  - apply (kept_between _ y); [by rewrite E, Ey|done|lia].
  - apply (kept_between _ x); [by rewrite E, Ex|done|lia].
  - apply (normalize_between _ _ _ lo hi E); [lia|done|done|].
    rewrite Z.mul_add_distr_r, !align_val by lia. lia.
Qed.

Lemma sub_between x y lo hi :
  is_finite x = true -> is_finite y = true -> - 2 ^ 53 <= lo -> hi <= 2 ^ 53 ->
  lo * pw 0 <= val x - val y <= hi * pw 0 -> between lo hi (x - y)%float.
Proof.
  intros Fx Fy Hlo Hhi Hb. pose proof (sub_spec x y) as E.
  destruct (finite_forms x Fx) as [(Vx & sx & Ex)|(sx & mx & ex & Ex & Hex & Vx)],
           (finite_forms y Fy) as [(Vy & sy & Ey)|(sy & my & ey & Ey & Hey & Vy)]; rewrite Ex, Ey in E.
  - unfold between, within, is_finite, val. rewrite E. destruct sx, sy; cbn; (split; [done|lia]).
  - unfold between, within, is_finite, val. rewrite E. cbn. split; [done|]. destruct sy; cbn in *; lia.
  - apply (kept_between _ x); [by rewrite E, Ex|done|lia].
  - apply (normalize_between _ _ _ lo hi E); [lia|done|done|].
    rewrite Z.mul_sub_distr_r, !align_val by lia. lia.
Qed.

Lemma opp_between x lo hi : between lo hi x -> between (- hi) (- lo) (- x)%float.
Proof.
  unfold between, within, is_finite, val. rewrite opp_spec.
  destruct (Prim2SF x) as [| | |[] m e]; cbn; intros [? ?]; try done; (split; [done|lia]).
Qed.

(** Every double of moderate size lies between two neighbouring integers. *)
Lemma between_floor x : is_finite x = true -> exists z, between z (z + 1) x /\ floor_Z x = Some z.
Proof.
  intros Fx. pose proof (pw_pos 0 ltac:(lia)) as P0.
  unfold floor_Z, between, within, is_finite, val in *. pose proof (Prim2SF_bounded x) as B.
  destruct (Prim2SF x) as [s|s| |s m e]; try done.
  - exists 0. cbn. split; [split; [done|lia]|done].
  - destruct (bounded_elim m e (B _ _ _ eq_refl)) as (He & _ & _). exists (sf_floor s m e). split; [|done].
    split; [done|]. unfold sf_floor. cbn [sval]. cbv zeta.
    set (v := if s then Zneg m else Zpos m).
    assert (Ev : (if s then - (Zpos m * pw e) else Zpos m * pw e) = v * pw e) by (destruct s; cbn; lia).
    rewrite Ev. destruct (Z.le_gt_cases 0 e) as [H0|H0].
    + rewrite Z.shiftl_mul_pow2 by done.
      assert (E0 : pw e = pw 0 * 2 ^ e) by (rewrite <- pw_add by lia; f_equal; lia). rewrite E0. nia.
    + rewrite Z.shiftl_div_pow2 by lia.
      assert (E0 : pw 0 = pw e * 2 ^ (- e)) by (rewrite <- pw_add by lia; f_equal; lia).
      assert (Hp : 0 < 2 ^ (- e)) by (apply Z.pow_pos_nonneg; lia). pose proof (pw_pos e ltac:(lia)) as Pe.
      pose proof (Z.div_mod v (2 ^ (- e)) ltac:(lia)). pose proof (Z.mod_pos_bound v (2 ^ (- e)) Hp). rewrite E0. nia.
Qed.

(** [x % k]. *)
Lemma rem_between x k : is_finite x = true -> 0 < k <= 2 ^ 53 -> between 0 k (num_rem x k).
Proof.
  intros Fx Hk. pose proof (pw_pos 0 ltac:(lia)) as P0. unfold num_rem.
  destruct (finite_forms x Fx) as [(Vx & s & Ex)|(s & m & e & Ex & He & Vx)]; rewrite Ex.
  - unfold between, within. rewrite Vx. split; [done|lia].
  - destruct (Z.leb_spec 0 e) as [H0|H0].
    + pose proof (Z.mod_pos_bound (Zpos m * 2 ^ e) k ltac:(lia)).
      destruct (of_Z_val (Zpos m * 2 ^ e mod k)) as [F V]; [lia|]. split; [done|]. rewrite V. nia.
    + assert (Hp : 0 < 2 ^ (- e)) by (apply Z.pow_pos_nonneg; lia).
      pose proof (Z.mod_pos_bound (Zpos m) (k * 2 ^ (- e)) ltac:(nia)) as Hm. pose proof (pw_pos e ltac:(lia)) as Pe.
      assert (E0 : pw 0 = pw e * 2 ^ (- e)) by (rewrite <- pw_add by lia; f_equal; lia).
      eapply normalize_between; [apply Prim2SF_SF2Prim, binary_normalize_valid; lia|lia|lia|lia|]. rewrite E0. nia.
Qed.

(** Counting up by a whole step. *)
Lemma count_between (d x : num) (step lo hi : Z) :
  is_finite d = true -> val d = step * pw 0 -> 0 <= step -> between lo hi x -> - 2 ^ 53 <= lo ->
  forall k : nat, hi + Z.of_nat k * step <= 2 ^ 53 ->
  between (lo + Z.of_nat k * step) (hi + Z.of_nat k * step) (Nat.iter k (fun x => (x + d)%float) x).
Proof.
  intros Fd Vd Hs Hx Hlo. induction k as [|k IH]; intros Hk.
  - cbn [Nat.iter]. by rewrite !Z.add_0_r.
  - destruct IH as [Fi Vi]; [lia|]. cbn [Nat.iter nat_rect]. fold (Nat.iter k (fun x => (x + d)%float) x).
    apply plus_between; [done|done|lia|lia|]. rewrite Vd. pose proof (pw_pos 0 ltac:(lia)). nia.
Qed.

(** Comparisons, from the enclosing integers. *)
Lemma between_not_leb lo hi lo' hi' x y : between lo hi x -> between lo' hi' y -> hi' < lo -> (x <=? y)%float = false.
Proof.
  intros [Fx Vx] [Fy Vy] H. rewrite leb_val by done. apply Z.leb_gt. pose proof (pw_pos 0 ltac:(lia)). nia.
Qed.
Lemma between_not_ltb lo hi lo' hi' x y : between lo hi x -> between lo' hi' y -> hi' <= lo -> (x <? y)%float = false.
Proof.
  intros [Fx Vx] [Fy Vy] H. rewrite ltb_val by done. apply Z.ltb_ge. pose proof (pw_pos 0 ltac:(lia)). nia.
Qed.
Lemma between_of_Z z : safe_int z -> between z z (of_Z z).
Proof. intros [F V]%of_Z_val. split; [done|]. rewrite V. lia. Qed.

(** ** Comparing by a difference *)

Lemma rounded_nonzero s p e :
  -1074 <= e -> match binary_round prec emax s p e with
                | S754_finite s' _ _ | S754_infinity s' => s' = s
                | _ => False
                end.
Proof.
  intros He. destruct (binary_round_aligned s p e ltac:(lia)) as (m & e' & -> & V & He').
  assert (R : representable 1 e) by (split; lia). pose proof (pw_pos e ltac:(lia)) as Pe.
  pose proof (round_low s m e' loc_Exact 1 e He' R ltac:(nia)) as L.
  destruct (round_spec s m e' loc_Exact) as (q & Hs%rounded_sign & _); [lia|].
  destruct (binary_round_aux _ _ _ _ _ _); cbn in *; try done. lia.
Qed.

(** What the sign of a double says. *)
Definition signed (x : spec_float) (v : Z) : Prop :=
  match x with
  | S754_zero _ => v = 0
  | S754_finite s _ _ | S754_infinity s => if s then v < 0 else 0 < v
  | S754_nan => False
  end.
Lemma signed_tests x v : signed (Prim2SF x) v -> ((x <? 0)%float = (v <? 0)) /\ ((0 <? x)%float = (0 <? v)).
Proof.
  rewrite !ltb_spec. change (Prim2SF 0) with (S754_zero false).
  destruct (Prim2SF x) as [[]|[]| |[] m e]; cbn; intros H; subst; split; symmetry; try done;
    first [apply Z.ltb_lt|apply Z.ltb_ge]; lia.
Qed.
Lemma signed_normalize z e v : -1074 <= e -> v = z * pw e -> signed (binary_normalize prec emax z e false) v.
Proof.
  intros He ->. pose proof (pw_pos e ltac:(lia)). destruct z as [|p|p]; cbn [binary_normalize]; [done|..].
  - pose proof (rounded_nonzero false p e He). destruct (binary_round _ _ _ _ _); cbn; subst; try done; nia.
  - pose proof (rounded_nonzero true p e He). destruct (binary_round _ _ _ _ _); cbn; subst; try done; nia.
Qed.

(** A difference has the sign of the comparison, also where it overflows. *)
Lemma sub_sign x y : is_finite x = true -> is_finite y = true ->
  ((x - y <? 0)%float = (val x <? val y)) /\ ((0 <? x - y)%float = (val y <? val x)).
Proof.
  intros Fx Fy.
  assert (S : signed (Prim2SF (x - y)%float) (val x - val y)).
  { rewrite sub_spec.
    destruct (finite_forms x Fx) as [(Vx & sx & Ex)|(sx & mx & ex & Ex & Hex & Vx)],
             (finite_forms y Fy) as [(Vy & sy & Ey)|(sy & my & ey & Ey & Hey & Vy)]; rewrite Ex, Ey, Vx, Vy.
    - by destruct sx, sy.
    - pose proof (pw_pos ey ltac:(lia)). destruct sy; cbn; nia.
    - pose proof (pw_pos ex ltac:(lia)). destruct sx; cbn; nia.
    - apply signed_normalize; [lia|]. rewrite Z.mul_sub_distr_r, !align_val by lia. done. }
  destruct (signed_tests _ _ S) as [-> ->].
  split; apply eq_iff_eq_true; rewrite !Z.ltb_lt; lia.
Qed.

Lemma max_val x y : is_finite x = true -> is_finite y = true ->
  is_finite (num_max x y) = true /\ val (num_max x y) = Z.max (val x) (val y).
Proof.
  intros Fx Fy. unfold num_max. rewrite !eqb_val, !Z.eqb_refl, !ltb_val by done. cbn [negb].
  destruct (Z.ltb_spec (val x) (val y)); [split; [done|lia]|].
  destruct (Z.ltb_spec (val y) (val x)); [split; [done|lia]|]. destruct (is_neg_zero x); (split; [done|lia]).
Qed.

(** ** The ground *)

Definition pit_ok (p : Entity) : Prop :=
  is_finite p.(e_x) = true /\ is_finite (p.(e_x) + p.(e_w))%float = true.
Definition in_pit (q : num) (p : Entity) : bool := (p.(e_x) <=? q)%float && (q <? p.(e_x) + p.(e_w))%float.
Definition in_span (q : num) (s : num * num) : bool := (s.1 <=? q)%float && (q <? s.2)%float.

Lemma by_x_val a b : is_finite a.(e_x) = true -> is_finite b.(e_x) = true ->
  by_x a b = match val a.(e_x) ?= val b.(e_x) with Lt => -1 | Eq => 0 | Gt => 1 end.
Proof.
  intros Fa Fb. unfold by_x. destruct (sub_sign _ _ Fa Fb) as [-> ->].
  destruct (Z.compare_spec (val (e_x a)) (val (e_x b))) as [E|E|E].
  - rewrite E, Z.ltb_irrefl. done.
  - by rewrite (proj2 (Z.ltb_lt _ _) E).
  - rewrite (proj2 (Z.ltb_ge _ _)) by lia. by rewrite (proj2 (Z.ltb_lt _ _) E).
Qed.

Lemma by_x_consistent : consistent by_x pit_ok.
Proof.
  split.
  - intros a b [Fa _] [Fb _]. rewrite !by_x_val by done. destruct (Z.compare_spec (val (e_x a)) (val (e_x b)));
      destruct (Z.compare_spec (val (e_x b)) (val (e_x a))); lia.
  - intros a b [Fa _] [Fb _]. rewrite !by_x_val by done. destruct (Z.compare_spec (val (e_x a)) (val (e_x b)));
      destruct (Z.compare_spec (val (e_x b)) (val (e_x a))); lia.
  - intros a b c [Fa _] [Fb _] [Fc _]. rewrite !by_x_val by done. destruct (Z.compare_spec (val (e_x a)) (val (e_x b)));
      destruct (Z.compare_spec (val (e_x b)) (val (e_x c))); destruct (Z.compare_spec (val (e_x a)) (val (e_x c))); lia.
Qed.

Lemma spans_cover (width q : num) : is_finite width = true -> is_finite q = true -> (q <? width)%float = true ->
  forall pits x, is_finite x = true -> Forall pit_ok pits -> StronglySorted (fun a b => by_x a b <= 0) pits ->
  existsb (in_span q) (ground_spans x width pits) = (x <=? q)%float && negb (existsb (in_pit q) pits).
Proof.
  intros Fw Fq Hq. rewrite ltb_val in Hq by done. apply Z.ltb_lt in Hq.
  assert (Span : forall a b, is_finite a = true -> is_finite b = true ->
    existsb (in_span q) (if (a <? b)%float then [(a, b)] else []) = (val a <=? val q) && (val q <? val b)).
  { intros a b Fa Fb. rewrite ltb_val by done. destruct (Z.ltb_spec (val a) (val b)); cbn.
    - unfold in_span. cbn. rewrite leb_val, ltb_val by done. by rewrite orb_false_r.
    - symmetry. apply andb_false_iff. destruct (Z.leb_spec (val a) (val q)); [right; apply Z.ltb_ge; lia|by left]. }
  induction pits as [|p pits IH]; intros x Fx Hok Hs; cbn [ground_spans existsb].
  - rewrite Span, leb_val by done. cbn. rewrite (proj2 (Z.ltb_lt _ _) Hq). done.
  - apply Forall_cons in Hok as [[Fp Fe] Hok]. apply StronglySorted_inv in Hs as [Hs Hp].
    destruct (max_val x (p.(e_x) + p.(e_w))%float Fx Fe) as [Fm Vm].
    rewrite existsb_app, Span, (IH _ Fm Hok Hs), leb_val, Vm, leb_val by done.
    unfold in_pit at 2. rewrite leb_val, ltb_val by done.
    assert (Left : val q < val p.(e_x) -> existsb (in_pit q) pits = false).
    { intros Hlt. apply not_true_is_false. intros (p' & Hp' & Hin)%existsb_exists.
      apply list_elem_of_In in Hp'. rewrite Forall_forall in Hp, Hok. destruct (Hok p' Hp') as [Fp' Fe'].
      specialize (Hp p' Hp'). rewrite by_x_val in Hp by done.
      unfold in_pit in Hin. rewrite leb_val in Hin by done. apply andb_true_iff in Hin as [Hin%Z.leb_le _].
      destruct (Z.compare_spec (val (e_x p)) (val (e_x p'))); lia. }
    destruct (Z.leb_spec (val x) (val q)), (Z.ltb_spec (val q) (val p.(e_x))),
      (Z.leb_spec (Z.max (val x) (val (e_x p + e_w p)%float)) (val q)), (Z.leb_spec (val p.(e_x)) (val q)),
      (Z.ltb_spec (val q) (val (e_x p + e_w p)%float)); cbn; try lia; try (rewrite Left by done); try done.
Qed.

(** C32: The ground line is drawn where there is ground.  A point of the screen is
    covered by one of the bars [drawGround] draws exactly when it lies in no
    pit, in whatever order the entities come and however the pits overlap. *)
Theorem ground_is_drawn_beside_pits (s : GameState) (width q : num) :
  Forall (fun e => e.(e_kind) = Pit -> pit_ok e) s.(g_entities) ->
  is_finite width = true -> is_finite q = true -> (0 <=? q)%float = true -> (q <? width)%float = true ->
  existsb (in_span q) (ground_spans 0 width (pits_of s))
  = negb (existsb (fun e => bool_decide (e.(e_kind) = Pit) && in_pit q e) s.(g_entities)).
Proof.
  intros Hok Fw Fq H0 Hq. unfold pits_of. set (pits := List.filter _ s.(g_entities)).
  assert (Hp : Forall pit_ok pits).
  { apply Forall_forall. intros e He. unfold pits in He. apply list_elem_of_In, filter_In in He as [He Hk].
    apply bool_decide_eq_true in Hk. rewrite Forall_forall in Hok. apply Hok; [by apply list_elem_of_In|done]. }
  rewrite (spans_cover width q Fw Fq Hq); [|done|..].
  - rewrite H0. cbn [andb]. f_equal. apply eq_iff_eq_true. rewrite !existsb_exists. unfold pits. split.
    + intros (e & He & Hin). apply list_elem_of_In in He. rewrite js_sort_perm in He.
      apply list_elem_of_In, filter_In in He as [He Hk]. exists e. by rewrite Hk, Hin.
    + intros (e & He & [Hk Hin]%andb_true_iff). exists e. split; [|done].
      apply list_elem_of_In. rewrite js_sort_perm. apply list_elem_of_In, filter_In. done.
  - by rewrite js_sort_perm.
  - by apply js_sort_sorted with (ok := pit_ok); [apply by_x_consistent|].
Qed.

(** ** The loops end *)

(** The loop's own test stops it within the fuel: more fuel changes nothing. *)
Definition loop_ends (fuel : nat) (continues : num -> bool) (next : num -> num) (x : num) : Prop :=
  exists k, (k <= fuel)%nat /\ continues (Nat.iter k next x) = false.

Lemma num_loop_enough fuel continues next body : forall x more, loop_ends fuel continues next x ->
  num_loop (fuel + more) continues next body x = num_loop fuel continues next body x.
Proof.
  induction fuel as [|fuel IH]; intros x more (k & Hk & E).
  - replace k with 0%nat in E by lia. cbn in E. destruct more; cbn; [done|]. by rewrite E.
  - cbn [num_loop Nat.add]. destruct (continues x) eqn:C; [|done]. f_equal. apply IH.
    destruct k as [|k]; [cbn in E; congruence|]. exists k. split; [lia|]. by rewrite <- Nat.iter_succ_r.
Qed.

Lemma between_add a b lo hi lo' hi' :
  between lo hi a -> between lo' hi' b -> - 2 ^ 53 <= lo + lo' -> hi + hi' <= 2 ^ 53 ->
  between (lo + lo') (hi + hi') (a + b)%float.
Proof. intros [Fa Va] [Fb Vb] ??. apply plus_between; try done. nia. Qed.
Lemma between_sub a b lo hi lo' hi' :
  between lo hi a -> between lo' hi' b -> - 2 ^ 53 <= lo - hi' -> hi - lo' <= 2 ^ 53 ->
  between (lo - hi') (hi - lo') (a - b)%float.
Proof. intros [Fa Va] [Fb Vb] ??. apply sub_between; try done. nia. Qed.

(** The numbers written in the source. *)
Lemma literal_between (x : num) (z : Z) : x = of_Z z -> safe_int z -> between z z x.
Proof. intros ->. apply between_of_Z. Qed.

(** Two loops of a rack. *)
Definition moderate (x : num) : Prop := between (- 2 ^ 40) (2 ^ 40) x.

Lemma moderate_floor x : moderate x -> exists z, between z (z + 1) x /\ - 2 ^ 40 - 1 <= z <= 2 ^ 40.
Proof.
  intros [Fx Vx]. destruct (between_floor x Fx) as (z & Hz & _). exists z. split; [done|]. destruct Hz as [_ Hz].
  pose proof (pw_pos 0 ltac:(lia)). nia.
Qed.

Ltac lit n := apply (literal_between _ n); [reflexivity|unfold safe_int; lia].

(** Counting up from about [z + a] by [step], against about [z + b]. *)
Lemma counts_past (x d limit one : num) (z a step b : Z) (k : nat) :
  between z (z + 1) x -> between step step d -> between 1 1 one -> Z.abs z <= 2 ^ 41 -> 0 <= step <= 100 -> 0 <= a <= 100 ->
  Z.of_nat k <= 100 -> between (z - 10) (z + b) limit -> b < a + Z.of_nat k * step + 1 ->
  forall start, between (z + a) (z + a + 1) start ->
  (Nat.iter k (fun y => (y + d)%float) start + one <=? limit)%float = false.
Proof.
  intros Hx [Fd Vd] H1 Hz Hs Ha Hk Hl Hb start Hstart.
  assert (C := count_between d start step (z + a) (z + a + 1) Fd ltac:(lia) ltac:(lia) Hstart ltac:(lia) k ltac:(nia)).
  eapply between_not_leb; [apply (between_add _ _ _ _ _ _ C H1); nia|exact Hl|]. lia.
Qed.

Lemma rack_loops_end (e : Entity) :
  moderate e.(e_x) -> moderate e.(e_y) -> between 0 60 e.(e_w) -> between 0 60 e.(e_h) ->
  let x0 := (e.(e_x) + 2)%float in let y0 := (e.(e_y) + 2)%float in
  let iw := (e.(e_w) - 4)%float in let ih := (e.(e_h) - 4)%float in
  loop_ends RACK_FUEL (fun y => (y + 1 <=? y0 + ih)%float) (fun y => (y + 5)%float) (y0 + 5)
  /\ loop_ends RACK_FUEL (fun x => (x + 1 <=? x0 + iw - 1)%float) (fun x => (x + 2)%float) (x0 + 1).
Proof.
  intros Hx Hy Hw Hh. destruct (moderate_floor _ Hx) as (zx & Zx & Bx). destruct (moderate_floor _ Hy) as (zy & Zy & By).
  clear Hx Hy. cbv zeta. destruct e as [i k x y w h t v]. cbn [e_x e_y e_w e_h] in *. clear i k t v.
  assert (L1 : between 1 1 1%float) by lit 1. assert (L2 : between 2 2 2%float) by lit 2.
  assert (L4 : between 4 4 4%float) by lit 4. assert (L5 : between 5 5 5%float) by lit 5.
  pose proof (between_sub _ _ _ _ _ _ Hw L4 ltac:(lia) ltac:(lia)) as Bw.
  pose proof (between_sub _ _ _ _ _ _ Hh L4 ltac:(lia) ltac:(lia)) as Bh.
  pose proof (between_add _ _ _ _ _ _ Zx L2 ltac:(lia) ltac:(lia)) as Bx0.
  pose proof (between_add _ _ _ _ _ _ Zy L2 ltac:(lia) ltac:(lia)) as By0.
  pose proof (between_add _ _ _ _ _ _ By0 Bh ltac:(lia) ltac:(lia)) as By1.
  pose proof (between_add _ _ _ _ _ _ By0 L5 ltac:(lia) ltac:(lia)) as By2.
  pose proof (between_add _ _ _ _ _ _ Bx0 Bw ltac:(lia) ltac:(lia)) as Bx1.
  pose proof (between_sub _ _ _ _ _ _ Bx1 L1 ltac:(lia) ltac:(lia)) as Bx2.
  pose proof (between_add _ _ _ _ _ _ Bx0 L1 ltac:(lia) ltac:(lia)) as Bx3.
  split; exists 32%nat; (split; [unfold RACK_FUEL; lia|]).
  - refine (counts_past y 5 _ 1 zy 7 5 60 32 Zy L5 L1 _ _ _ _ _ _ _ _); try lia.
    + refine (between_wider _ _ _ _ _ _ _ By1); lia.
    + refine (between_wider _ _ _ _ _ _ _ By2); lia.
  - refine (counts_past x 2 _ 1 zx 3 2 60 32 Zx L2 L1 _ _ _ _ _ _ _ _); try lia.
    + refine (between_wider _ _ _ _ _ _ _ Bx2); lia.
    + refine (between_wider _ _ _ _ _ _ _ Bx3); lia.
Qed.

Lemma dashes_end (width scroll : num) :
  is_finite scroll = true -> between 0 640 width ->
  loop_ends DASH_FUEL (fun dx => (dx <? width)%float) (fun dx => (dx + 24)%float) (- num_rem scroll 24).
Proof.
  intros Fs Hw. assert (L : between 24 24 24%float) by lit 24. destruct L as [F24 V24].
  pose proof (opp_between _ _ _ (rem_between scroll 24 Fs ltac:(lia))) as Hs.
  exists 28%nat. split; [unfold DASH_FUEL; lia|].
  pose proof (count_between 24 _ 24 _ _ F24 ltac:(lia) ltac:(lia) Hs ltac:(lia) 28%nat ltac:(lia)) as C.
  eapply between_not_ltb; [exact C|exact Hw|lia].
Qed.

Lemma of_Z_product a b : 0 <= a -> 0 <= b -> a * b <= 2 ^ 53 -> a <= 2 ^ 53 -> b <= 2 ^ 53 ->
  between (a * b) (a * b) (of_Z a * of_Z b)%float.
Proof.
  intros Ha Hb Hab La Lb. pose proof (pw_pos 0 ltac:(lia)) as P0.
  destruct (of_Z_val a ltac:(lia)) as [Fa Va]. destruct (of_Z_val b ltac:(lia)) as [Fb Vb].
  apply mul_within; [exact Fa|exact Fb|rewrite Va; nia|rewrite Vb; nia|apply repr_integer; nia|apply repr_integer; nia| |rewrite Va, Vb; nia].
  split; [nia|apply int_small; exact Hab].
Qed.

(** The tiles of a layer: a screen is crossed well before the fuel is used. *)
Lemma tiles_end (tile i : Z) (offset : num) :
  64 <= tile <= 120 -> is_finite offset = true -> val offset = 0 \/ pw (-10) <= val offset -> val offset <= 2 ^ 40 * pw 0 ->
  floor_Z (offset / of_Z tile)%float = Some i ->
  exists k : nat, (k <= TILE_FUEL)%nat /\ (of_Z (i + Z.of_nat k) * of_Z tile - offset <? VIEW_W)%float = false.
Proof.
  intros Ht Fo Lo Ho Hi. pose proof (pw_pos 0 ltac:(lia)) as P0. pose proof (pw_pos (-10) ltac:(lia)) as P10.
  destruct (between_floor offset Fo) as (n & [_ Hn] & _). set (m := n / tile).
  assert (Hm : m * tile <= n < m * tile + tile) by (pose proof (Z.div_mod n tile); pose proof (Z.mod_pos_bound n tile); lia).
  assert (Hn0 : 0 <= n + 1) by nia. assert (Hn1 : n <= 2 ^ 40) by nia.
  destruct (of_Z_val tile ltac:(lia)) as [Ft Vt].
  assert (Q : exists q, floor_Z (offset / of_Z tile)%float = Some q /\ m - 1 <= q <= 2 ^ 40 /\ 0 <= q + 1).
  { destruct Lo as [Z0|Lo].
    - destruct (finite_forms offset Fo) as [(_ & s & Es)|(s & mx & ex & Ex & Hex & Vx)].
      + exists 0. split; [|unfold m; assert (n <= 0) by nia; assert (n / tile <= 0) by (apply Z.div_le_upper_bound; lia); lia].
        unfold floor_Z. rewrite div_spec, Es. unfold is_finite, val in Ft, Vt.
        destruct (Prim2SF (of_Z tile)) as [s'|s'| |s' m' e']; [cbn in Vt; nia|done|done|]. by destruct s, s'.
      + pose proof (pw_pos ex ltac:(lia)). destruct s; cbn in Vx; nia.
    - assert (W : within (Z.max (m * pw 0) (pw (-20))) (2 ^ 40 * pw 0) (offset / of_Z tile)%float).
      { assert (E10 : pw (-10) = pw (-20) * 2 ^ 10) by (change (-10) with (-20 + 10); rewrite pw_add by lia; done).
        pose proof (pw_pos (-20) ltac:(lia)) as P20.
        apply div_within; [exact Fo|exact Ft|lia|rewrite Vt; nia| |apply repr_integer; lia| |apply int_small; lia|rewrite Vt].
        - destruct (Z.max_spec (m * pw 0) (pw (-20))) as [[_ ->]|[Hle ->]].
          + exists 1, (-20). split; [split; lia|lia].
          + apply repr_integer. nia.
        - pose proof (pw_le (-1000) (-20) ltac:(lia)). lia.
        - rewrite !Z.mul_assoc. split; (apply Z.mul_le_mono_nonneg_r; [lia|]).
          + assert (m * pw 0 * tile <= val offset) by (apply Z.le_trans with (n * pw 0); [|lia]; nia).
            apply Z.max_case_strong; intros _; [done|]. nia.
          + apply Z.le_trans with (2 ^ 40 * pw 0 * 1); [lia|]. apply Z.mul_le_mono_nonneg_l; lia. }
      destruct W as [Fq Vq]. destruct (between_floor _ Fq) as (q & [_ Hq] & Eq). exists q. split; [exact Eq|].
      pose proof (pw_pos (-20) ltac:(lia)) as P20. nia. }
  destruct Q as (q & Eq & Hq & Hq0). rewrite Eq in Hi. injection Hi as <-.
  exists 16%nat. split; [unfold TILE_FUEL; lia|]. change (Z.of_nat 16) with 16.
  pose proof (of_Z_product (q + 16) tile ltac:(lia) ltac:(lia) ltac:(nia) ltac:(nia) ltac:(nia)) as [Fp Vp].
  assert (D : between 480 (2 ^ 52) (of_Z (q + 16) * of_Z tile - offset)%float).
  { apply sub_between; [exact Fp|exact Fo|lia|lia|nia]. }
  assert (V : between 480 480 VIEW_W) by lit 480.
  eapply between_not_ltb; [exact D|exact V|lia].
Qed.

Lemma scaled_offset (x p : num) :
  is_finite x = true -> val x = 0 \/ pw 0 <= val x -> val x <= 2 ^ 40 * pw 0 ->
  is_finite p = true -> pw (-3) <= val p <= pw 0 ->
  is_finite (x * p)%float = true /\ (val (x * p)%float = 0 \/ pw (-10) <= val (x * p)%float)
  /\ val (x * p)%float <= 2 ^ 40 * pw 0.
Proof.
  intros Fx Hx Hx' Fp Vp. pose proof (pw_pos 0 ltac:(lia)) as P0. pose proof (pw_pos (-3) ltac:(lia)) as P3.
  destruct Hx as [Z0|Hx].
  - destruct (finite_forms x Fx) as [(_ & s & Es)|(s & m & e & Ex & He & Vx)].
    + unfold is_finite, val in *. rewrite mul_spec, Es. destruct (Prim2SF p) as [s'|s'| |s' m' e']; try done;
        destruct s, s'; cbn; (split; [done|lia]).
    + pose proof (pw_pos e ltac:(lia)). destruct s; cbn in Vx; nia.
  - assert (W : within (pw (-3)) (2 ^ 40 * pw 0) (x * p)%float).
    { apply mul_within; [exact Fx|exact Fp|lia|lia|by exists 1, (-3); split; [split; lia|lia]|apply repr_integer; lia| |].
      - split; [lia|apply int_small; lia].
      - nia. }
    destruct W as [Fw Vw]. pose proof (pw_le (-10) (-3) ltac:(lia)). split_and!; [done|right; lia|lia].
Qed.

(** The loops that draw end by themselves: the slots and the grille of every
    rack of a moderate size and place, the dashes of the ground at the width of
    the screen or of a lane, and the tiles of both layers of the background, from
    the first pixel of a run on.  The fuel is never what stops them. *)
Theorem drawing_loops_end (e : Entity) (scroll worldX : num) :
  moderate e.(e_x) -> moderate e.(e_y) -> between 0 60 e.(e_w) -> between 0 60 e.(e_h) ->
  is_finite scroll = true ->
  is_finite worldX = true -> val worldX = 0 \/ pw 0 <= val worldX -> val worldX <= 2 ^ 40 * pw 0 ->
  let x0 := (e.(e_x) + 2)%float in let y0 := (e.(e_y) + 2)%float in
  let iw := (e.(e_w) - 4)%float in let ih := (e.(e_h) - 4)%float in
  loop_ends RACK_FUEL (fun y => (y + 1 <=? y0 + ih)%float) (fun y => (y + 5)%float) (y0 + 5)
  /\ loop_ends RACK_FUEL (fun x => (x + 1 <=? x0 + iw - 1)%float) (fun x => (x + 2)%float) (x0 + 1)
  /\ Forall (fun width => loop_ends DASH_FUEL (fun dx => (dx <? width)%float) (fun dx => (dx + 24)%float)
               (- num_rem scroll 24)) [VIEW_W; (VIEW_W / LANE_SCALE)%float]
  /\ Forall (fun layer => forall i, floor_Z (worldX * layer.2 / of_Z layer.1)%float = Some i ->
       exists k : nat, (k <= TILE_FUEL)%nat
         /\ (of_Z (i + Z.of_nat k) * of_Z layer.1 - worldX * layer.2 <? VIEW_W)%float = false)
       [(FAR_TILE, FAR_PARALLAX); (NEAR_TILE, NEAR_PARALLAX)].
Proof.
  intros Hx Hy Hw Hh Fs Fx Lx Ux x0 y0 iw ih.
  destruct (rack_loops_end e Hx Hy Hw Hh) as [R1 R2]. split; [exact R1|]. split; [exact R2|]. split.
  - assert (B : between 0 640 VIEW_W /\ between 0 640 (VIEW_W / LANE_SCALE)%float).
    { split; (split; [reflexivity|]); vm_compute; split; discriminate. }
    constructor; [apply dashes_end; [exact Fs|apply B]|]. constructor; [apply dashes_end; [exact Fs|apply B]|constructor].
  - assert (P : forall tile p, 64 <= tile <= 120 -> is_finite p = true -> pw (-3) <= val p <= pw 0 ->
      forall i, floor_Z (worldX * p / of_Z tile)%float = Some i ->
      exists k : nat, (k <= TILE_FUEL)%nat /\ (of_Z (i + Z.of_nat k) * of_Z tile - worldX * p <? VIEW_W)%float = false).
    { intros tile p Ht Fp Vp i. destruct (scaled_offset worldX p Fx Lx Ux Fp Vp) as (F & L & U). by apply tiles_end. }
    constructor; [|constructor; [|constructor]]; cbn [fst snd]; apply P;
      try (unfold FAR_TILE, NEAR_TILE; lia); try reflexivity; vm_compute; split; discriminate.
Qed.

(** ** Witnesses *)

Definition drawn_entity (k : EntityKind) (id : Z) (x w : num) : Entity := {|
  e_id := id; e_kind := k; e_x := x; e_y := 200; e_w := w; e_h := 40; e_taken := false; e_vy := None |}.

(** Two pits that overlap and come in the other order, and a rack. *)
Definition pitted_state : GameState :=
  let start := {| s_level := L0; s_seed := 1; s_score := 0; s_elapsed := 0; s_distance := 0%float;
                  s_boss := false; s_retries := 0; s_shield := 0 |} in
  {| (initialState start LEVELS) with
     g_entities := [drawn_entity Pit 1 130 40; drawn_entity Low 2 20 24; drawn_entity Pit 3 100 50] |}.

Lemma ground_is_drawn_beside_pits_witness :
  existsb (in_span 60) (ground_spans 0 480 (pits_of pitted_state)) = true
  /\ existsb (in_span 140) (ground_spans 0 480 (pits_of pitted_state)) = false.
Proof.
  assert (P : Forall (fun e => e.(e_kind) = Pit -> pit_ok e) pitted_state.(g_entities)).
  { repeat constructor; intros; vm_compute; reflexivity. }
  split.
  - rewrite (ground_is_drawn_beside_pits pitted_state 480 60 P); vm_compute; reflexivity.
  - rewrite (ground_is_drawn_beside_pits pitted_state 480 140 P); vm_compute; reflexivity.
Defined.

Lemma drawing_loops_end_witness :
  let e := drawn_entity Low 2 20 24 in
  loop_ends RACK_FUEL (fun y => (y + 1 <=? e.(e_y) + 2 + (e.(e_h) - 4))%float) (fun y => (y + 5)%float) (e.(e_y) + 2 + 5).
Proof.
  assert (B : forall lo hi x, is_finite x = true -> lo * pw 0 <= val x <= hi * pw 0 -> between lo hi x) by by split.
  destruct (drawing_loops_end (drawn_entity Low 2 20 24) 7 3) as [L _]; [..|exact L].
  1-4: apply B; [reflexivity|vm_compute; split; discriminate].
  - reflexivity.
  - reflexivity.
  - right. vm_compute. discriminate.
  - vm_compute. discriminate.
Defined.
