(* ===== verification/RuntimeProps.v ===== *)
(** * What the runtime around the engine guarantees

    Rewinding, the tape, saves and the montage: [runtime/rewind.ts],
    [runtime/tape.ts], [runtime/persistence.ts] and [runtime/montage.ts]. *)

From S2P Require Import Prelude JsNum JsMap Types Levels Binary64 Rng RngFacts Step SpawnFacts StepInv.
From S2P Require Import Replayer RuntimeTypes Rewind Chaos Json Validate Tape Persistence Montage.
#[local] Open Scope string_scope.
#[local] Open Scope Z_scope.

(** ** Reading a tape back *)

(** Draws from a source, in some order of its two kinds. *)
Inductive Draw := DrawImpure | DrawChaos.

Section Draws.
Context {W : Type} (world_impure world_chaos : W -> num * W).

Definition draw (d : Draw) : Outside (W := W) -> num * Outside (W := W) :=
  match d with DrawImpure => source_impure world_impure | DrawChaos => source_chaos world_chaos end.

Fixpoint draws (ds : list Draw) (o : Outside (W := W)) : list num * Outside (W := W) :=
  match ds with
  | [] => ([], o)
  | d :: ds => let (v, o) := draw d o in let (vs, o) := draws ds o in (v :: vs, o)
  end.

Definition recorder_over (t : Tape) (w : W) : Outside := {| o_source := Recorder; o_tape := t; o_world := w |}.
Definition player_over (i c : nat) (t : Tape) (w : W) : Outside :=
  {| o_source := Player_ i c false; o_tape := t; o_world := w |}.
Definition player_at (t : Tape) (w : W) : Outside :=
  player_over (length t.(tp_impure)) (length t.(tp_chaos)) t w.

Lemma draw_recorder d t w :
  exists u w', draw d (recorder_over t w)
    = (toUnit u, recorder_over (match d with DrawImpure => push_impure u t | DrawChaos => push_chaos u t end) w').
Proof.
  destruct d; cbn [draw]; unfold source_impure, source_chaos, recorder_over; cbn [o_source o_tape o_world].
  - destruct (world_impure w) as [v w']. by do 2 eexists.
  - destruct (world_chaos w) as [v w']. by do 2 eexists.
Qed.

(** A recorder's tape only grows. *)
Lemma draws_recorder ds : forall t w,
  exists t' w', (draws ds (recorder_over t w)).2 = recorder_over t' w'
    /\ (exists l, tp_impure t' = tp_impure t ++ l)%list /\ (exists l, tp_chaos t' = tp_chaos t ++ l)%list.
Proof.
  induction ds as [|d ds IH]; intros t w; cbn [draws].
  { exists t, w. split_and!; [done|by exists []; rewrite app_nil_r..]. }
  destruct (draw_recorder d t w) as (u & w1 & ->). cbv beta iota.
  set (t1 := match d with DrawImpure => push_impure u t | DrawChaos => push_chaos u t end).
  destruct (IH t1 w1) as (t' & w' & E & [l1 H1] & [l2 H2]).
  destruct (draws ds _) as [vs o']. exists t', w'. split; [exact E|]. subst t1. destruct d; simpl in H1, H2.
  - split; [exists (u :: l1)|by exists l2]. by rewrite H1, <- app_assoc.
  - split; [by exists l1|exists (u :: l2)]. by rewrite H2, <- app_assoc.
Qed.

(** The outside world gives values between 0 and 1. *)
Definition unit_world (f : W -> num * W) : Prop :=
  forall w, is_finite (f w).1 = true /\ 0 <= val (f w).1 <= pw 0.

Lemma draws_u32 ds : unit_world world_impure -> unit_world world_chaos -> forall t w,
  Forall u32 (tp_impure t) -> Forall u32 (tp_chaos t) ->
  let t' := (draws ds (recorder_over t w)).2.(o_tape) in Forall u32 (tp_impure t') /\ Forall u32 (tp_chaos t').
Proof.
  intros Hi Hc. induction ds as [|d ds IH]; intros t w Ht1 Ht2; cbn [draws]; [by split|].
  destruct d; cbn [draw]; unfold recorder_over, source_impure, source_chaos; cbn [o_source o_tape o_world].
  - destruct (Hi w) as [F V]. destruct (world_impure w) as [v w']. cbv zeta. simpl in F, V.
    specialize (IH (push_impure (quantise v) t) w'). unfold recorder_over in IH.
    destruct (draws ds _) as [vs o']. apply IH; [|done]. apply Forall_app. split; [done|].
    constructor; [by apply quantise_u32|constructor].
  - destruct (Hc w) as [F V]. destruct (world_chaos w) as [v w']. cbv zeta. simpl in F, V.
    specialize (IH (push_chaos (quantise v) t) w'). unfold recorder_over in IH.
    destruct (draws ds _) as [vs o']. apply IH; [done|]. apply Forall_app. split; [done|].
    constructor; [by apply quantise_u32|constructor].
Qed.
End Draws.

Section Playback.
Context {W : Type} (world_impure world_chaos world_impure' world_chaos' : W -> num * W).

Lemma draw_player d i c t w u :
  match d with DrawImpure => tp_impure t !! i | DrawChaos => tp_chaos t !! c end = Some u ->
  draw world_impure' world_chaos' d (player_over i c t w)
  = (toUnit u, match d with DrawImpure => player_over (S i) c t w | DrawChaos => player_over i (S c) t w end).
Proof.
  destruct d; cbn [draw]; unfold source_impure, source_chaos, player_over; cbn [o_source o_tape o_world]; by intros ->.
Qed.

(** A player over the grown tape gives what the recorder gave. *)
Lemma draws_player w2 ds : forall t w,
  let r := draws world_impure world_chaos ds (recorder_over t w) in
  draws world_impure' world_chaos' ds (player_over (length (tp_impure t)) (length (tp_chaos t)) r.2.(o_tape) w2)
  = (r.1, player_at r.2.(o_tape) w2).
Proof.
  induction ds as [|d ds IH]; intros t w; cbn [draws]; [done|].
  destruct (draw_recorder world_impure world_chaos d t w) as (u & w1 & ->). cbv beta iota.
  set (t1 := match d with DrawImpure => push_impure u t | DrawChaos => push_chaos u t end).
  destruct (draws_recorder world_impure world_chaos ds t1 w1) as (t' & w' & E & [l1 H1] & [l2 H2]). specialize (IH t1 w1).
  destruct (draws world_impure world_chaos ds (recorder_over t1 w1)) as [vs o']. cbv zeta in IH |- *. cbn [fst snd] in *. subst o'.
  cbn [recorder_over o_tape] in *.
  assert (L : match d with DrawImpure => tp_impure t' !! length (tp_impure t)
              | DrawChaos => tp_chaos t' !! length (tp_chaos t) end = Some u).
  { subst t1. destruct d; simpl in H1, H2; rewrite ?H1, ?H2, <- app_assoc; by apply list_lookup_middle. }
  rewrite (draw_player d _ _ _ w2 u L).
  subst t1. destruct d; simpl in IH; rewrite length_app in IH; simpl in IH; rewrite Nat.add_1_r in IH; by rewrite IH.
Qed.

End Playback.

(** ** Properties *)

(** C13: a tape plays back what was recorded. Whatever random values and chaos
    draws a run took, in whatever order, a player over the recorder's tape gives
    exactly the same values in the same order, in any world; one more draw of
    either kind finds the tape exhausted. When the world gives values between 0
    and 1, everything on the tape is a 32-bit integer, as the reader of run
    codes demands. *)
Theorem tape_plays_back {W} (wi wc wi' wc' : W -> num * W) ds t w w2 :
  unit_world wi -> unit_world wc -> Forall u32 (tp_impure t) -> Forall u32 (tp_chaos t) ->
  let r := draws wi wc ds (recorder_over t w) in
  let tape := r.2.(o_tape) in
  let played := draws wi' wc' ds (player_over (length (tp_impure t)) (length (tp_chaos t)) tape w2) in
  played.1 = r.1
  /\ exhausted played.2.(o_source) = false
  /\ (forall d, let x := draw wi' wc' d played.2 in x.1 = 0%float /\ exhausted x.2.(o_source) = true)
  /\ Forall u32 (tp_impure tape) /\ Forall u32 (tp_chaos tape).
Proof.
  intros Hi Hc H1 H2. cbv zeta. rewrite draws_player. cbn [fst snd].
  split_and!; [done|done| |by apply draws_u32..].
  intros d. destruct d; cbn [draw]; unfold player_at, player_over, source_impure, source_chaos;
    cbn [o_source o_tape o_world]; by rewrite lookup_ge_None_2 by lia.
Qed.

(** C33: a retry rewinds to a sensible place. With anything in the buffer, the
    state picked is one the run went through; it is not before the floor (the
    last retry) unless everything is; it is at least the wanted distance back
    with no hazard near the hat whenever such a state is left, and then it is
    the latest of them. *)
Theorem rewind_picks_well b failedAt minBack floor :
  all b <> [] ->
  let limit := (of_Z failedAt - minBack)%float in
  let candidates := List.filter (fun s => floor <=? s.(g_tick)) (all b) in
  exists s, pick b failedAt minBack floor = Some s
    /\ s ∈ all b
    /\ (candidates <> [] -> floor <= s.(g_tick))
    /\ ((exists x, x ∈ candidates /\ safe_by limit x = true) ->
         safe_by limit s = true
         /\ exists l1 l2, candidates = (l1 ++ s :: l2)%list /\ Forall (fun y => safe_by limit y = false) l2).
Proof.
  intros H. cbv zeta. destruct (pick_total b failedAt minBack floor H) as [s Hs]. exists s.
  destruct (pick_cases b failedAt minBack floor s Hs) as (H1 & H2 & H3 & H4).
  split_and!; [done|done|exact H2|]. intros Hx. split; [by apply H3|]. apply H4.
  destruct Hx as (x & Hx & _). intros E. rewrite E in Hx. by apply elem_of_nil in Hx.
Qed.

(** the rewind animation shows the way back. Of the at most 181 states
    between the failure and the target it shows at most 30, in order and none
    twice, with the first and the last among them, and 30 whenever there are as
    many. *)
Theorem rewind_frames_thin_out {A} (items : list A) :
  (length items <= S REWIND_BUFFER_TICKS)%nat ->
  let f := sample items REWIND_FRAMES in
  f `sublist_of` items /\ head f = head items /\ last f = last items
  /\ length f = Nat.min (Z.to_nat REWIND_FRAMES) (length items).
Proof. apply sample_spec. Qed.

(** C14: the loader's check is exact, and nothing is lost. For any save the
    game can write (integers a double holds, finite numbers other than -0), the
    check of the loader accepts the written document exactly when the save is
    well-formed: dates, finite numbers, non-negative counters, and a history
    ordered by tick and not past the tick saved. Reading the document gives back
    the save. *)
Theorem save_check_exact s :
  save_safe s -> save_plain s ->
  (isSave (Some (json_of_save s)) = true <-> save_wf s) /\ save_of_json (json_of_save s) = s.
Proof. intros Hs Hp. split; [by apply isSave_written|by apply save_roundtrip]. Qed.

(** C15: the store keeps its promises. Over a storage that works, and texts
    that JSON and numbers survive, what was saved last is what is loaded, until
    it is cleared; the best score and the day's best come back, a best of
    another day does not, and saving a run leaves the scores alone. *)
Theorem local_store_keeps `{T : JsText} ok score `{!TextLaws ok score} v n d (s : gmap string string) :
  (forall s, ok s -> storable s) -> (forall n, score n -> score_storable n) -> ok v -> score n ->
  st_load (st_saveBest n (st_save v s)) = Some v
  /\ st_load (st_clear (st_save v s)) = None
  /\ st_loadBest (st_save v (st_saveBest n s)) = n
  /\ st_loadDailyBest d (st_save v (st_saveDailyBest d n s)) = n
  /\ (forall d', d' <> d -> st_loadDailyBest d' (st_saveDailyBest d n s) = 0).
Proof.
  intros Hok Hscore Hv Hn. pose proof (localSaveStore_lawful ok score Hok Hscore) as L.
  rewrite load_saveBest, best_save, load_save, load_clear, best_saved by done.
  split_and!; try done.
  - cbn [st_save st_loadDailyBest st_saveDailyBest localSaveStore]. unfold attempt_read, attempt_write.
    cbn [getItem setItem map_storage default]. unfold id. rewrite lookup_insert_ne by done.
    rewrite lookup_insert_eq. apply read_daily_written; [by apply Hscore|by apply parse_daily].
  - intros d' Hd. cbn [st_loadDailyBest st_saveDailyBest localSaveStore]. unfold attempt_read, attempt_write.
    cbn [getItem setItem map_storage default]. unfold id. rewrite lookup_insert_eq. unfold read_daily.
    rewrite parse_daily by done. simpl. by rewrite (proj2 (String.eqb_neq d d')) by congruence.
Qed.

(** C30: the montage shows what happened, and ends. Over segments that live
    play closed, no frame of the montage has diverged, and each shows a state of
    the recorded run of its segment, reached with the recorded events and orb
    values; every segment gets a frame that finishes its replay, in the very
    state the segment ended in; and after as many frames as the segments have
    ticks, and one each, the montage is over, with the last segment's end state
    on screen. *)
Theorem montage_shows_the_run levels segs states :
  segs <> [] -> Forall2 (genuine levels) segs states ->
  exists m, newMontage levels segs = Some m
  /\ (forall k, let mk := mo_frames levels k m in
        mk.(mo_replayer).(rp_divergedAt) = None
        /\ exists seg, shown_segment mk = Some seg /\ recorded_state levels seg (mo_state mk))
  /\ (forall i s, states !! i = Some s -> exists k, (k < mo_budget segs)%nat
        /\ let mk := mo_frames levels k m in
           mk.(mo_index) = i /\ (mo_next levels mk).(rp_done) = true /\ (mo_next levels mk).(rp_state) = s)
  /\ let e := mo_frames levels (mo_budget segs) m in mo_done e = true /\ last states = Some (mo_state e).
Proof.
  intros Hne Hg. destruct (newMontage_at levels segs Hne) as (m & Hm & Hs & Hat). exists m.
  pose proof (Forall2_length _ _ _ Hg) as Hlen.
  split_and!; [done| | |].
  - intros k mk. destruct (mo_shows_replayer levels segs mk) as (seg & n & Hseg & Hr).
    { apply mo_shows_frames. split; [done|left]. by exists O, O. }
    destruct (mo_shown_genuine levels segs states Hg mk seg) as [s Hgs]; [|done|].
    { subst mk. rewrite mo_frames_segments; [done|by exists O, O]. }
    destruct (genuine_shown levels seg s n Hgs) as (H1 & H2 & _). rewrite <- Hr in H1, H2.
    split; [done|]. by exists seg.
  - intros i s Hi. by destruct (mo_reaches_state levels segs states Hg m i s Hs Hat Hi) as (k & Hk & H1 & H2 & H3 & _); exists k.
  - destruct (last_is_Some states) as [_ [s Hl]]; [intros ->; by destruct segs|].
    rewrite last_lookup in Hl |- *.
    destruct (mo_reaches_state levels segs states Hg m _ s Hs Hat Hl) as (k & Hk & H1 & H2 & H3 & H4).
    rewrite Hl. destruct H4 as [Hd Hst]; [rewrite Hlen; apply lookup_lt_Some in Hl; lia|].
    replace (mo_budget segs) with (S k + (mo_budget segs - S k))%nat by lia.
    rewrite mo_frames_add, (mo_done_frames _ _ _ Hd). split; [done|]. by rewrite Hst.
Qed.

(** ** Witnesses *)

Definition half (w : unit) : num * unit := (0.5%float, w).
Lemma half_unit : unit_world half.
Proof. intros w. split; [done|]. split; apply Z.leb_le; vm_compute; reflexivity. Qed.

Lemma tape_plays_back_witness :
  let r := draws half half [DrawImpure; DrawChaos; DrawImpure] (recorder_over (emptyTape "2026-01-01") tt) in
  r.1 = [0.5; 0.5; 0.5]%float
  /\ (draws half half [DrawImpure; DrawChaos; DrawImpure] (player_over 0 0 r.2.(o_tape) tt)).1 = r.1.
Proof.
  split; [vm_compute; reflexivity|].
  apply (tape_plays_back half half half half [DrawImpure; DrawChaos; DrawImpure] (emptyTape "2026-01-01") tt tt
    half_unit half_unit); constructor.
Defined.

Lemma rewind_picks_well_witness :
  exists s, pick (reset (initialState (demo_start 1) LEVELS)) 30 20%float 0 = Some s /\ s.(g_tick) = 0.
Proof.
  destruct (rewind_picks_well (reset (initialState (demo_start 1) LEVELS)) 30 20%float 0) as (s & Hs & Hin & _).
  - discriminate.
  - exists s. split; [exact Hs|]. by apply list_elem_of_singleton in Hin as ->.
Defined.

Lemma rewind_frames_thin_out_witness :
  (length (seq 0 100) <= S REWIND_BUFFER_TICKS)%nat /\ length (sample (seq 0 100) REWIND_FRAMES) = 30%nat.
Proof.
  split; [vm_compute; lia|].
  apply (rewind_frames_thin_out (seq 0 100)). vm_compute. lia.
Defined.

Definition demo_save : Save := {|
  sv_body := {|
    sv_date := "2026-01-01"; sv_start := demo_start 1; sv_history := [InE (Input 0 Jump)]; sv_tick := 3;
    sv_stats := {| replays := 0; fromHistory := 0; executed := 0; incidents := 0; retriesUsed := 0;
                   circuitTrips := 0; boostsLost := 0 |};
    sv_divergedAt := None; sv_segments := []; sv_orbValues := [] |};
  sv_tape := emptyTape "2026-01-01" |}.

Lemma demo_save_storable : storable demo_save.
Proof.
  unfold storable, save_safe, save_plain, save_wf. cbn [demo_save sv_body sv_tape]. split_and!.
  - unfold body_safe, start_safe, stats_safe, pairs_safe, safe_int. cbn. split_and!; try lia; [..|done|constructor|constructor].
    + repeat constructor; lia.
    + repeat constructor; lia.
  - unfold tape_safe, safe_int. cbn. split_and!; try constructor; lia.
  - unfold body_plain. split_and!; [done| |constructor|constructor]. repeat constructor.
  - unfold tape_plain. split_and!; constructor.
  - unfold body_wf. cbn [sv_body sv_date sv_start sv_tick sv_history sv_segments sv_orbValues].
    split_and!; try constructor; try done; repeat constructor; cbn; lia.
  - unfold tape_wf. cbn. split_and!; try constructor; try done; lia.
Qed.

Lemma save_check_exact_witness :
  isSave (Some (json_of_save demo_save)) = true /\ save_of_json (json_of_save demo_save) = demo_save.
Proof.
  destruct demo_save_storable as (Hs & Hp & Hw).
  split; [by apply (save_check_exact demo_save Hs Hp)|apply (save_check_exact demo_save Hs Hp)].
Defined.

(** Texts for one save and one score. *)
Definition demo_text : JsText := {|
  stringify := fun j => match prop j "best" with Some _ => "D" +:+ get_str (prop j "date") | None => "S" end;
  parse := fun t => match t with
                    | String c d => if Ascii.eqb c (Ascii.ascii_of_nat 68) then Some (daily_doc d 5)
                                    else Some (json_of_save demo_save)
                    | EmptyString => None
                    end;
  string_of_score := fun _ => "5";
  number_of := fun _ => 5%float |}.

Lemma demo_text_laws : TextLaws (H := demo_text) (fun s => s = demo_save) (fun n => n = 5).
Proof. split; [by intros s ->..| |by intros n ->]. by intros d n ->. Qed.

Lemma local_store_keeps_witness :
  st_load (SaveStore := @localSaveStore _ map_storage demo_text)
    (st_save (SaveStore := @localSaveStore _ map_storage demo_text) demo_save ∅) = Some demo_save
  /\ st_load (SaveStore := @localSaveStore _ map_storage demo_text)
       (st_clear (SaveStore := @localSaveStore _ map_storage demo_text)
         (st_save (SaveStore := @localSaveStore _ map_storage demo_text) demo_save ∅)) = None.
Proof.
  split; [vm_compute; reflexivity|].
  apply (local_store_keeps (T := demo_text) (fun s => s = demo_save) (fun n => n = 5)
    (TextLaws0 := demo_text_laws) demo_save 5 "2026-01-01" ∅).
  - intros s ->. exact demo_save_storable.
  - intros n ->. split; [lia|]. unfold safe_int. lia.
  - reflexivity.
  - reflexivity.
Defined.

(** The run past an orb, as a closed segment. *)
Definition orb_segment (h : list HistoryEvent) (t : Z) : MontageSegment := {|
  sg_start := demo_start 7; sg_history := h; sg_endTick := t; sg_orbValues := [(1, 0.0625%float)] |}.

Lemma montage_shows_the_run_witness :
  exists h s m, genuine demo_levels (orb_segment h s.(g_tick)) s
    /\ newMontage demo_levels [orb_segment h s.(g_tick)] = Some m
    /\ mo_state (mo_frames demo_levels (mo_budget [orb_segment h s.(g_tick)]) m) = s.
Proof.
  pose proof orb_run_summary as H.
  destruct orb_run as [[[h s] log]|] eqn:E; [|discriminate H].
  simpl in H. injection H as Hh Ht Hl. apply record_run_sound in E.
  assert (Hg : genuine demo_levels (orb_segment h s.(g_tick)) s).
  { exists h, [], (orb_values log). rewrite app_nil_r.
    refine (conj E (conj eq_refl (conj eq_refl (conj _ _)))); [constructor|].
    rewrite Hh, Hl. repeat constructor. }
  destruct (montage_shows_the_run demo_levels [orb_segment h s.(g_tick)] [s]) as (m & Hm & _ & _ & _ & He).
  - discriminate.
  - constructor; [exact Hg|constructor].
  - exists h, s, m. split; [exact Hg|]. split; [exact Hm|]. injection He as He. symmetry. exact He.
Defined.
