(* ===== verification/Game.v ===== *)
(** * The game

    [runtime/game.ts]: the state machine between the keyboard, the engine, the
    tape and the save store.  The class's fields are one record, every method
    is a function on it; the outside world (random numbers, the date, the
    store) is threaded through.  Listeners are left out: [touch] only counts. *)

From stdpp Require Import pretty.
From S2P Require Import Prelude JsNum JsMap Types Levels Rng Step.
From S2P Require Import Replayer RuntimeTypes Json Tape Rewind Chaos Montage Persistence.
#[local] Open Scope string_scope.
#[local] Open Scope Z_scope.

(** ** Constants *)

Definition CRASH_FRAMES : Z := 90.
Definition REPLAY_MIN_TICKS_PER_FRAME : Z := 8.
Definition REPLAY_MAX_FRAMES : num := 120%float.
Definition NOTICE_TICKS : Z := 180.
Definition PLAYBACK_SPEEDS : list Z := [1; 2; 5; 10].

Definition emptyStats : RunStats := {|
  replays := 0; fromHistory := 0; executed := 0; incidents := 0; retriesUsed := 0; circuitTrips := 0;
  boostsLost := 0 |}.
Definition nextLevel (l : Level) : Level :=
  match l with L0 => L1 | L1 => L2 | L2 => L3 | L3 => L4 | L4 | L5 => L5 end.

Definition is_activity (e : HistoryEvent) : bool :=
  match e with OutE (ActivityCoinCollected _ _ _) | OutE (ActivityCrateCollected _ _ _ _) => true | _ => false end.

(** The tick of the last [RetryAttempt]. *)
Definition last_retry (h : list HistoryEvent) : option Z :=
  match List.find (fun e => match e with InE (RetryAttempt _ _ _) => true | _ => false end) (rev h) with
  | Some e => Some (ev_tick e)
  | None => None
  end.

Section Game.
Context {W St : Type} `{SaveStore St}.
Context (world_impure world_chaos : W -> num * W) (today : W -> string) (levels : LevelTable).

Abbreviation Out := (Outside (W := W)).
Abbreviation impure_ := (source_impure world_impure).
Abbreviation chaos_ := (source_chaos world_chaos).

(** ** State *)

Record Game := {
  gm_phase : Phase;
  gm_runDate : string;
  gm_dailyBest : Z;
  gm_start : StartInput;
  gm_history : list HistoryEvent;
  gm_state : GameState;
  gm_stats : RunStats;
  gm_best : Z;
  gm_divergedAt : option Z;
  gm_playback : bool;
  gm_speed : Z;
  gm_out : Out;
  gm_player : bool;
  gm_liveTick : Z;
  gm_inputCursor : nat;
  gm_restartCursor : nat;
  gm_prevState : option GameState;
  gm_notice : option (string * Z);
  gm_pending : list PlayerInput;
  gm_queued : list InputEvent;
  gm_slideHeld : bool;
  gm_segments : list MontageSegment;
  gm_orbValues : JsMap Z num;
  gm_montage : option Montage;
  gm_replayer : option (Replayer Out);
  gm_replayTicksPerFrame : Z;
  gm_crashTick : Z;
  gm_savedRun : option Save;
  gm_version : Z;
  gm_rewind : RewindBuffer;
  gm_chaos : ChaosScheduler;
  gm_store : St
}.

(** [tape], a field of the source, lives with the outside world. *)
Definition gm_tape (g : Game) : Tape := g.(gm_out).(o_tape).
Definition set_tape (t : Tape) (g : Game) : Game := {| g with gm_out := {| g.(gm_out) with o_tape := t |} |}.
Definition set_source (s : Source) (g : Game) : Game := {| g with gm_out := {| g.(gm_out) with o_source := s |} |}.

(** Runs an operation of the chaos scheduler. *)
Definition with_chaos (f : Out -> ChaosScheduler * Out) (g : Game) : Game :=
  let (c, o) := f g.(gm_out) in {| g with gm_chaos := c; gm_out := o |}.

(** ** Notices, phases and saves *)

Definition touch (g : Game) : Game := {| g with gm_version := g.(gm_version) + 1 |}.

Definition setNotice (text : string) (g : Game) : Game :=
  touch {| g with gm_notice := Some (text, g.(gm_state).(g_tick) + NOTICE_TICKS) |}.

Definition syncSlide (g : Game) : Game :=
  let pending := List.filter (fun k => bool_decide (k = Jump)) g.(gm_pending) in
  let sliding := (livePlayer g.(gm_state)).(p_sliding) in
  {| g with gm_pending :=
       if sliding && negb g.(gm_slideHeld) then pending ++ [SlideEnd]
       else if negb sliding && g.(gm_slideHeld) then pending ++ [SlideStart]
       else pending |}.

Definition setPhase (p : Phase) (g : Game) : Game :=
  let g := {| g with gm_phase := p |} in
  touch (if bool_decide (kind p = KPlaying) then syncSlide g else g).

Definition on_store (f : St -> St) (g : Game) : Game := {| g with gm_store := f g.(gm_store) |}.

(** What [save] would write. *)
Definition current_save (g : Game) : Save :=
  let k := kind g.(gm_phase) in
  let tick := if bool_decide (k = KCrashing) || bool_decide (k = KReplaying)
              then g.(gm_crashTick) else g.(gm_state).(g_tick) in
  {| sv_body := {|
       sv_date := g.(gm_runDate); sv_start := g.(gm_start); sv_history := g.(gm_history); sv_tick := tick;
       sv_stats := g.(gm_stats); sv_divergedAt := g.(gm_divergedAt); sv_segments := g.(gm_segments);
       sv_orbValues := g.(gm_orbValues) |};
     sv_tape := gm_tape g |}.

Definition saves (g : Game) : bool :=
  negb g.(gm_playback)
  && negb (bool_decide (kind g.(gm_phase) ∈ [KTitle; KResume; KOver; KLost]))
  && (levels g.(gm_start).(s_level)).(cfg_durable).

Definition save (g : Game) : Game :=
  if saves g then on_store (st_save (current_save g)) g else g.

Definition recordInput (e : InputEvent) (g : Game) : Game :=
  {| g with gm_history := g.(gm_history) ++ [InE e]; gm_queued := g.(gm_queued) ++ [e] |}.

(** ** Segments *)

Definition beginSegment (start : StartInput) (showTip : bool) (g : Game) : Game :=
  let g := {| g with
    gm_start := start; gm_history := []; gm_orbValues := []; gm_state := initialState start levels;
    gm_rewind := reset (initialState start levels); gm_prevState := None; gm_pending := []; gm_queued := [];
    gm_notice := None |} in
  let g := with_chaos (chaos_start chaos_ levels start.(s_level) showTip start.(s_elapsed)) g in
  save (setPhase (if showTip then PTip start.(s_level) else PPlaying) g).

Definition closeSegment (endTick : Z) (g : Game) : Game :=
  let cfg := levels g.(gm_start).(s_level) in
  if negb cfg.(cfg_durable) || negb (is_finite cfg.(cfg_length)) then g
  else {| g with gm_segments := g.(gm_segments) ++ [{|
            sg_start := g.(gm_start); sg_history := g.(gm_history); sg_endTick := endTick;
            sg_orbValues := g.(gm_orbValues) |}] |}.

Definition endMontage (g : Game) : Game :=
  setPhase (PTip g.(gm_start).(s_level)) {| g with gm_montage := None |}.

Definition first_start (level : Level) (seed : Z) : StartInput := {|
  s_level := level; s_seed := seed; s_score := 0; s_elapsed := 0; s_distance := 0; s_boss := false;
  s_retries := (levels level).(cfg_retries); s_shield := 0 |}.

(** [confirm]: dismisses a tip or "Progress lost" card. *)
Definition confirm (g : Game) : Game :=
  match kind g.(gm_phase) with
  | KTip => setPhase PPlaying g
  | KLost =>
      let g := {| g with gm_stats := emptyStats |} in
      setNotice "Dapr Workflow enabled"
        (beginSegment (first_start L1 (seedFrom (seedForDate g.(gm_runDate)))) true g)
  | _ => g
  end.

(** ** Runs *)

Definition startRun (g : Game) : Game :=
  let g := {| g with
    gm_stats := emptyStats; gm_divergedAt := None; gm_segments := []; gm_liveTick := 0;
    gm_inputCursor := 0; gm_restartCursor := 0 |} in
  beginSegment (first_start L0 (seedForDate g.(gm_runDate))) true g.

Definition leavePlayback (g : Game) : Game :=
  let date := today g.(gm_out).(o_world) in
  {| g with gm_playback := false; gm_speed := 1; gm_player := false; gm_runDate := date;
            gm_dailyBest := st_loadDailyBest date g.(gm_store) |}.

Definition newRun (g : Game) : Game :=
  let g := leavePlayback g in
  let g := set_source Recorder (set_tape (emptyTape g.(gm_runDate)) g) in
  startRun (on_store st_clear g).

(** [watch]: false, and nothing changed, for a malformed tape. *)
Definition watch (tape : Tape) (g : Game) : bool * Game :=
  if negb (isTape (Some (json_of_tape tape))) then (false, g)
  else
    let g := {| g with gm_playback := true; gm_runDate := tape.(tp_date); gm_player := true |} in
    (true, startRun (set_source newPlayer_ (set_tape tape g))).

Definition gameOver (reason : string) (g : Game) : Game :=
  let g :=
    if g.(gm_playback) then g
    else
      let g := on_store st_clear g in
      let score := g.(gm_state).(g_score) in
      let g := if g.(gm_best) <? score
               then on_store (st_saveBest score) {| g with gm_best := score |} else g in
      if bool_decide (g.(gm_runDate) = today g.(gm_out).(o_world)) && (g.(gm_dailyBest) <? score)
      then on_store (st_saveDailyBest g.(gm_runDate) score) {| g with gm_dailyBest := score |} else g in
  setPhase (POver reason) g.

(** ** Crash and replay *)

Definition crash (g : Game) : Game :=
  save (setPhase (PCrashing CRASH_FRAMES) {| g with gm_crashTick := g.(gm_state).(g_tick) |}).

Definition startReplay (g : Game) : Game :=
  if negb (levels g.(gm_start).(s_level)).(cfg_durable) then
    setPhase PLost (if g.(gm_playback) then g else on_store st_clear g)
  else
    let r := createReplayer levels g.(gm_start) g.(gm_crashTick) g.(gm_out) in
    setPhase PReplaying {| g with
      gm_stats := {| g.(gm_stats) with replays := g.(gm_stats).(replays) + 1 |};
      gm_replayer := Some r;
      gm_rewind := reset r.(rp_state);
      gm_replayTicksPerFrame := pace REPLAY_MIN_TICKS_PER_FRAME g.(gm_crashTick) REPLAY_MAX_FRAMES;
      gm_state := r.(rp_state);
      gm_prevState := None |}.

(** The loop of [advanceReplay]. *)
Fixpoint replay_ticks (history : list HistoryEvent) (toTick : Z) (n : nat) (r : Replayer Out)
    (b : RewindBuffer) : Replayer Out * RewindBuffer :=
  match n with
  | O => (r, b)
  | S n =>
      if r.(rp_done) then (r, b)
      else
        let r := advance levels history toTick impure_ 1 r in
        let b := if bool_decide (r.(rp_state).(g_status) = Running) then push b r.(rp_state) else b in
        replay_ticks history toTick n r b
  end.

Definition replay_succeeded (s : GameState) (g : Game) : Game :=
  let g := {| g with gm_state := s; gm_prevState := None |} in
  let g := with_chaos (scheduleNext chaos_ levels s.(g_level) s.(g_tick) s.(g_elapsed)) g in
  let waiting := omap as_input (List.filter (fun e => isInputEvent e && (ev_tick e =? s.(g_tick))) g.(gm_history)) in
  let g := recordInput (OrchestratorStarted s.(g_tick)) {| g with gm_queued := waiting |} in
  let n := Z.of_nat (length g.(gm_history)) in
  setPhase PPlaying (setNotice ("Replayed " +:+ pretty n +:+ " events · resumed at tick " +:+ pretty s.(g_tick)) g).

Definition boss_patch (s : StartInput) : StartInput := {| s with s_boss := true |}.

Definition replay_diverged (d : Z) (s : GameState) (g : Game) : Game :=
  let g := {| g with gm_stats := {| g.(gm_stats) with incidents := g.(gm_stats).(incidents) + 1 |};
                     gm_divergedAt := Some d |} in
  let g := closeSegment g.(gm_crashTick) g in
  let g := beginSegment (continueAsNew s boss_patch) false g in
  let g := recordInput (OrchestratorStarted 0) g in
  setNotice ("NonDeterministicError at event #" +:+ pretty (d + 1)) g.

Definition served (history : list HistoryEvent) (res : ReplayResult) : Z :=
  let h := match res with ReplayOk _ => history | ReplayDiverged d _ => take (Z.to_nat d) history end in
  Z.of_nat (length (List.filter is_activity h)).

Definition advanceReplay (g : Game) : Game :=
  match g.(gm_replayer) with
  | None => g
  | Some r =>
      let (r, b) := replay_ticks g.(gm_history) g.(gm_crashTick) (Z.to_nat g.(gm_replayTicksPerFrame))
                      {| r with rp_port := g.(gm_out) |} g.(gm_rewind) in
      let g := {| g with gm_replayer := Some r; gm_rewind := b; gm_out := r.(rp_port);
                         gm_state := r.(rp_state); gm_prevState := None |} in
      if negb r.(rp_done) then g
      else
        let g := {| g with gm_replayer := None |} in
        let res := result r in
        let g := {| g with gm_stats := {| g.(gm_stats) with
                      fromHistory := g.(gm_stats).(fromHistory) + served g.(gm_history) res |} |} in
        match res with
        | ReplayOk s => replay_succeeded s g
        | ReplayDiverged d s => replay_diverged d s g
        end
  end.

Definition hotfix (g : Game) : Game :=
  let g := closeSegment g.(gm_state).(g_tick) {| g with gm_divergedAt := None |} in
  setNotice "Hotfix deployed · continue-as-new" (beginSegment (continueAsNew g.(gm_state) id) false g).

Definition restartFromHistory (tick : Z) (g : Game) : Game :=
  let g := {| g with gm_montage := None; gm_crashTick := tick; gm_pending := []; gm_queued := [];
                     gm_notice := None |} in
  startReplay (with_chaos (chaos_start chaos_ levels g.(gm_start).(s_level) false g.(gm_start).(s_elapsed)) g).

Definition restoreSave (b : SaveBody) (g : Game) : Game :=
  let g := {| g with gm_start := b.(sv_start); gm_history := b.(sv_history); gm_stats := b.(sv_stats);
                     gm_divergedAt := b.(sv_divergedAt); gm_segments := b.(sv_segments);
                     gm_orbValues := map_of b.(sv_orbValues); gm_runDate := b.(sv_date) |} in
  let g := if g.(gm_playback) then g
           else {| g with gm_dailyBest := st_loadDailyBest b.(sv_date) g.(gm_store) |} in
  restartFromHistory b.(sv_tick) g.

Definition resumeSaved (v : Save) (g : Game) : Game :=
  let tape := v.(sv_tape) in
  let restart := {| rs_liveTick := tape.(tp_liveTick); rs_impureAt := length tape.(tp_impure);
                    rs_chaosAt := length tape.(tp_chaos); rs_save := v.(sv_body) |} in
  let g := {| g with gm_savedRun := None; gm_liveTick := tape.(tp_liveTick) |} in
  let g := set_source Recorder (set_tape {| tape with tp_restarts := tape.(tp_restarts) ++ [restart] |} g) in
  restoreSave v.(sv_body) g.

(** ** A live tick *)

(** RetryPolicy: rewind to a safe spot about half a screen back.  An empty
    buffer would throw in [pick]; [retry_target] shows there is none. *)
Definition retry (hit : GameState) (g : Game) : Game :=
  let cfg := levels hit.(g_level) in
  let floor := match last_retry g.(gm_history) with Some t => t + 1 | None => 0 end in
  let minBack := num_ceil (REWIND_PX / speedAt cfg hit.(g_elapsed))%float in
  match pick g.(gm_rewind) hit.(g_failedAt) minBack floor with
  | None => g
  | Some target =>
      let frames := sample (rev (between g.(gm_rewind) target.(g_tick) hit.(g_failedAt))) REWIND_FRAMES in
      let attempt := cfg.(cfg_retries) - target.(g_retries) + 1 in
      let g := {| g with
        gm_history := List.filter (fun e => ev_tick e <? target.(g_tick)) g.(gm_history);
        gm_rewind := dropAfter g.(gm_rewind) target.(g_tick);
        gm_state := target; gm_prevState := None; gm_pending := []; gm_queued := [];
        gm_stats := {| g.(gm_stats) with retriesUsed := g.(gm_stats).(retriesUsed) + 1 |} |} in
      let g := recordInput (RetryAttempt target.(g_tick) attempt hit.(g_failedAt)) g in
      let g := match g.(gm_chaos) with
               | None => with_chaos (scheduleNext chaos_ levels target.(g_level) target.(g_tick) target.(g_elapsed)) g
               | Some _ => g
               end in
      save (setPhase (PRewinding frames 0 attempt cfg.(cfg_retries)) g)
  end.

(** The recorded inputs of live tick [L]. *)
Fixpoint taped_inputs (L : Z) (inputs : list (Z * PlayerInput)) : list PlayerInput :=
  match inputs with
  | (t, k) :: inputs => if t =? L then k :: taped_inputs L inputs else []
  | [] => []
  end.

(** The player inputs of this tick, read from the tape or written to it. *)
Definition take_inputs (g : Game) : list PlayerInput * Game :=
  let L := g.(gm_liveTick) in
  let g := {| g with gm_liveTick := L + 1 |} in
  let (pending, g) :=
    if g.(gm_playback) then
      let pending := taped_inputs L (drop g.(gm_inputCursor) (gm_tape g).(tp_inputs)) in
      (pending, {| g with gm_inputCursor := (g.(gm_inputCursor) + length pending)%nat |})
    else
      let t := gm_tape g in
      (g.(gm_pending),
       set_tape {| t with tp_inputs := t.(tp_inputs) ++ map (pair L) g.(gm_pending); tp_liveTick := L + 1 |} g) in
  (pending, {| g with gm_pending := [] |}).

(** The ports of a live tick: both operations read the source, and every value
    is noted. *)
Definition live_ports : Ports (Out * list num) :=
  let call p := let (v, o) := impure_ p.1 in (v, (o, (p.2 ++ [v])%list)) in
  {| impure := call; crateValue := fun _ => call |}.

(** The orb values among the values of a tick, by orb id. *)
Fixpoint note_orbs (events : list OutcomeEvent) (calls : list num) (m : JsMap Z num) : JsMap Z num :=
  match events with
  | [] => m
  | OrbTaken _ id _ :: events => note_orbs events (drop 1 calls) (map_set id (default 0%float (head calls)) m)
  | ActivityCrateCollected _ _ _ _ :: events => note_orbs events (drop 1 calls) m
  | _ :: events => note_orbs events calls m
  end.

Definition coins_text (results : list Z) : string := String.concat " + " (map pretty results).

(** What the loop over a tick's events does for one of them. *)
Definition on_event (s : GameState) (g : Game) (e : OutcomeEvent) : Game :=
  let g := {| g with gm_history := g.(gm_history) ++ [OutE e] |} in
  let picked k g := with_chaos (onPickup chaos_ levels g.(gm_chaos) s.(g_level) k s.(g_tick)) g in
  let executed_ g := {| g with gm_stats := {| g.(gm_stats) with executed := g.(gm_stats).(executed) + 1 |} |} in
  match e with
  | OrbTaken _ _ _ => picked Orb g
  | ActivityCoinCollected _ _ _ => executed_ g
  | ActivityCrateCollected _ _ _ _ => picked Crate (executed_ g)
  | CircuitBreakerTripped _ _ _ =>
      {| g with gm_stats := {| g.(gm_stats) with circuitTrips := g.(gm_stats).(circuitTrips) + 1 |} |}
  | BoostLost _ _ _ =>
      {| g with gm_stats := {| g.(gm_stats) with boostsLost := g.(gm_stats).(boostsLost) + 1 |} |}
  | FanOut _ _ => setNotice ("fan-out · " +:+ pretty (Z.of_nat FAN_LANES) +:+ " activities in parallel") g
  | FanIn _ _ results => setNotice ("WhenAll · fan-in " +:+ coins_text results +:+ " coins") g
  end.

Definition fail_reason (s : GameState) (divergedAt : option Z) : string :=
  match divergedAt with
  | Some d => if 0 <? s.(g_bossUntil) then "non-determinism detected at event #" +:+ pretty (d + 1)
              else "hit an obstacle"
  | None => "hit an obstacle"
  end.

Definition next_patch (next : Level) (s : StartInput) : StartInput :=
  {| s with s_level := next; s_elapsed := 0; s_distance := 0%float; s_retries := (levels next).(cfg_retries) |}.

Definition level_done (s : GameState) (g : Game) : Game :=
  let g := closeSegment s.(g_tick) {| g with gm_divergedAt := None |} in
  let segments := if (levels s.(g_level)).(cfg_durable) then g.(gm_segments) else [] in
  let g := beginSegment (continueAsNew s (next_patch (nextLevel s.(g_level)))) true {| g with gm_segments := [] |} in
  match newMontage levels segments with
  | Some m => setPhase (PMontage m.(mo_events)) {| g with gm_montage := Some m |}
  | None => g
  end.

(** [tick], once the level goes on: hotfix, crash or save. *)
Definition play_on (events : list OutcomeEvent) (inputs : list InputKind) (s : GameState) (g : Game) : Game :=
  let happened := negb (bool_decide (events = [])) in
  let moved := happened || negb (bool_decide (inputs = [])) in
  if 0 <? s.(g_bossUntil) then
    if s.(g_bossUntil) <=? s.(g_tick) then hotfix g else if moved then touch g else g
  else if isDue g.(gm_chaos) s.(g_tick) then crash g
  else
    let g := if happened then save g else g in
    if moved then touch g else g.

(** [tick], from the engine's answer on: its state, its events and the values
    the outside world was asked for. *)
Definition after_step (inputs : list InputKind) (s : GameState) (events : list OutcomeEvent)
    (calls : list num) (g : Game) : Game :=
  if bool_decide (s.(g_status) = RetryNeeded) then retry s g
  else
    let g := {| g with gm_state := s; gm_orbValues := note_orbs events calls g.(gm_orbValues) |} in
    let g := fold_left (on_event s) events g in
    if bool_decide (s.(g_status) = Failed) then gameOver (fail_reason s g.(gm_divergedAt)) g
    else if bool_decide (s.(g_status) = LevelDone) then level_done s g
    else play_on events inputs s {| g with gm_rewind := push g.(gm_rewind) s |}.

Definition tick (g : Game) : Game :=
  let t := g.(gm_state).(g_tick) in
  let queued := g.(gm_queued) in
  let (pending, g) := take_inputs {| g with gm_queued := [] |} in
  let inputs := (map inputOf queued ++ map Press pending)%list in
  let g := {| g with gm_history := g.(gm_history) ++ map (fun k => InE (Input t k)) pending;
                     gm_prevState := Some g.(gm_state) |} in
  let r := step live_ports levels g.(gm_state) inputs (g.(gm_out), []) in
  after_step inputs r.(state) r.(events) r.(port).2 {| g with gm_out := r.(port).1 |}.

(** ** Frames *)

(** Playback only: the next recorded resume is due before any more ticks. *)
Definition restartDue (g : Game) : bool :=
  g.(gm_playback)
  && match (gm_tape g).(tp_restarts) !! g.(gm_restartCursor) with
     | Some r => r.(rs_liveTick) =? g.(gm_liveTick)
     | None => false
     end.

Fixpoint live_ticks (n : nat) (g : Game) : Game :=
  match n with
  | O => g
  | S n =>
      if bool_decide (kind g.(gm_phase) = KPlaying) && negb (restartDue g)
      then live_ticks n (tick g) else g
  end.

(** Playback confirms cards by itself and repeats the recorded resumes. *)
Definition autoplay (g : Game) : Game :=
  let k := kind g.(gm_phase) in
  let g := if bool_decide (k = KTip) || bool_decide (k = KLost) then confirm g else g in
  match (gm_tape g).(tp_restarts) !! g.(gm_restartCursor) with
  | Some r =>
      if (r.(rs_liveTick) =? g.(gm_liveTick)) && g.(gm_player)
         && negb (bool_decide (k = KOver)) && negb (bool_decide (k = KTitle))
      then
        let g := {| g with gm_restartCursor := S g.(gm_restartCursor) |} in
        restoreSave r.(rs_save) (set_source (seek r.(rs_impureAt) r.(rs_chaosAt) g.(gm_out).(o_source)) g)
      else g
  | None => g
  end.

Definition step_phase (liveTicks : nat) (g : Game) : Game :=
  match g.(gm_phase) with
  | PPlaying => live_ticks liveTicks g
  | PCrashing framesLeft =>
      if 1 <? framesLeft then {| g with gm_phase := PCrashing (framesLeft - 1) |} else startReplay g
  | PReplaying => advanceReplay g
  | PRewinding frames index attempt of_ =>
      if (S index <? length frames)%nat
      then {| g with gm_phase := PRewinding frames (S index) attempt of_ |}
      else setPhase PPlaying g
  | PMontage _ =>
      let g := {| g with gm_montage := mo_advance levels <$> g.(gm_montage) |} in
      match g.(gm_montage) with
      | Some m => if mo_done m then endMontage g else g
      | None => endMontage g
      end
  | _ => g
  end.

Definition frameStep (liveTicks : nat) (g : Game) : Game :=
  let g := if g.(gm_playback) then autoplay g else g in
  let g := step_phase liveTicks g in
  if g.(gm_playback) && exhausted g.(gm_out).(o_source) && negb (bool_decide (kind g.(gm_phase) = KOver))
  then gameOver "Run code ended early" g else g.

Definition playbackSpeed (g : Game) : Z := if g.(gm_playback) then g.(gm_speed) else 1.

Definition frame (liveTicks : nat) (g : Game) : Game :=
  Nat.iter (Z.to_nat (playbackSpeed g)) (frameStep liveTicks) g.

Definition setPlaybackSpeed (speed : Z) (g : Game) : Game :=
  if negb g.(gm_playback) || negb (bool_decide (speed ∈ PLAYBACK_SPEEDS)) then g
  else touch {| g with gm_speed := speed |}.

(** ** Commands *)

Definition is_slide (c : Command) : option bool :=
  match c with CSlideStart => Some true | CSlideEnd => Some false | _ => None end.

(** The [switch] on the phase. *)
Definition phase_command (c : Command) (g : Game) : Game :=
  match g.(gm_phase) with
  | PTitle | POver _ => if bool_decide (c = CConfirm) then newRun g else g
  | PResume _ =>
      match c, g.(gm_savedRun) with
      | CConfirm, Some v => resumeSaved v g
      | CCancel, _ => setPhase PTitle (on_store st_clear {| g with gm_savedRun := None |})
      | _, _ => g
      end
  | PTip _ | PLost => if bool_decide (c = CConfirm) then confirm g else g
  | PMontage _ => if bool_decide (c = CConfirm) then endMontage g else g
  | PPlaying =>
      match c with
      | CCancel | CPause => save (setPhase PPaused g)
      | _ =>
          match command_input c with
          | Some k => {| g with gm_pending := g.(gm_pending) ++ [k] |}
          | None => g
          end
      end
  | PPaused => if bool_decide (c ∈ [CCancel; CPause; CConfirm]) then setPhase PPlaying g else g
  | PCrashing _ | PReplaying | PRewinding _ _ _ _ => g
  end.

Definition command (c : Command) (g : Game) : Game :=
  let g := match is_slide c with Some held => {| g with gm_slideHeld := held |} | None => g end in
  if g.(gm_playback) then
    let k := kind g.(gm_phase) in
    if bool_decide (c = CConfirm) && bool_decide (k = KOver) then newRun g
    else if bool_decide (c = CCancel) && negb (bool_decide (k = KPaused)) then setPhase PTitle (leavePlayback g)
    else
      let unpause := bool_decide (c = CConfirm) && bool_decide (k = KPaused) in
      if negb (bool_decide (c = CPause)) && negb (bool_decide (c = CCancel)) && negb unpause then g
      else phase_command c g
  else phase_command c g.

Definition suspend (g : Game) : Game :=
  save (if bool_decide (kind g.(gm_phase) = KPlaying) then setPhase PPaused g else g).

(** ** Construction and view *)

Definition newGame (w : W) (store : St) : Game :=
  let date := today w in
  let start := {| s_level := L0; s_seed := 1; s_score := 0; s_elapsed := 0; s_distance := 0%float;
                  s_boss := false; s_retries := 0; s_shield := 0 |} in
  let saved := st_load store in
  {| gm_phase := match saved with Some v => PResume v.(sv_body).(sv_tick) | None => PTitle end;
     gm_runDate := date; gm_dailyBest := st_loadDailyBest date store; gm_start := start; gm_history := [];
     gm_state := initialState start levels; gm_stats := emptyStats; gm_best := st_loadBest store;
     gm_divergedAt := None; gm_playback := false; gm_speed := 1;
     gm_out := {| o_source := Recorder; o_tape := emptyTape date; o_world := w |};
     gm_player := false; gm_liveTick := 0; gm_inputCursor := 0; gm_restartCursor := 0; gm_prevState := None;
     gm_notice := None; gm_pending := []; gm_queued := []; gm_slideHeld := false; gm_segments := [];
     gm_orbValues := []; gm_montage := None; gm_replayer := None;
     gm_replayTicksPerFrame := REPLAY_MIN_TICKS_PER_FRAME; gm_crashTick := 0; gm_savedRun := saved;
     gm_version := 0; gm_rewind := rewind_new; gm_chaos := None; gm_store := store |}.

Record GameView := {
  vw_state : GameState;
  vw_phase : Phase;
  vw_notice : option string;
  vw_divergedAt : option Z;
  vw_prev : option GameState;
  vw_montage : option (Z * Z * list num);
  vw_playbackDate : option string;
  vw_playbackSpeed : option Z
}.

Definition view (g : Game) : GameView :=
  let s := g.(gm_state) in
  let m := if bool_decide (kind g.(gm_phase) = KMontage) then g.(gm_montage) else None in
  {| vw_state :=
       match m, g.(gm_phase) with
       | Some m, _ => mo_state m
       | None, PRewinding frames index _ _ => default s (frames !! index)
       | None, _ => s
       end;
     vw_phase := g.(gm_phase);
     vw_divergedAt := g.(gm_divergedAt);
     vw_prev :=
       match g.(gm_prevState) with
       | Some p => if bool_decide (kind g.(gm_phase) = KPlaying) && (p.(g_tick) =? s.(g_tick) - 1)
                   then Some p else None
       | None => None
       end;
     vw_notice :=
       match g.(gm_notice) with
       | Some (text, untilTick) => if s.(g_tick) <? untilTick then Some text else None
       | None => None
       end;
     vw_montage := (fun m => (m.(mo_events), m.(mo_flash), m.(mo_trail))) <$> m;
     vw_playbackDate := if g.(gm_playback) then Some g.(gm_runDate) else None;
     vw_playbackSpeed := if g.(gm_playback) then Some g.(gm_speed) else None |}.
End Game.
