(* ===== verification/GameFacts.v ===== *)
(** * What the game's operations leave alone

    Most of the game's methods touch a few of its fields.  [core] keeps the
    fields the correctness of a run rests on; the lemmas here say which
    operations leave it, the phase or the outside world as they were, and carry
    them in the hint database [game]. *)

From S2P Require Import Prelude JsNum JsMap Types Levels Rng Step.
From S2P Require Import Replayer RuntimeTypes Json Tape Rewind Chaos Montage Persistence Game.
#[local] Open Scope Z_scope.

(** ** Definitions *)

(** The fields a run and its recovery depend on. *)
Record Core {O : Type} := {
  k_start : StartInput;
  k_history : list HistoryEvent;
  k_state : GameState;
  k_queued : list InputEvent;
  k_rewind : RewindBuffer;
  k_replayer : option (Replayer O);
  k_crash : Z;
  k_saved : option Save;
  k_restarts : list Restart;
  k_playback : bool
}.
#[global] Arguments Core : clear implicits.

Definition is_player (s : Source) : bool := match s with Recorder => false | Player_ _ _ _ => true end.

Create HintDb game discriminated.

(** Unfolds a method without inlining its [let]s. *)
Tactic Notation "expose" reference(f) := cbv delta [f]; cbv beta.

(** Names the value of a [let] at the head of the goal, with its equation. *)
Lemma let_elim {A B} (P : B -> Prop) (v : A) (b : A -> B) :
  (forall x, x = v -> P (b x)) -> P (let x := v in b x).
Proof. intros H. by apply H. Qed.
Tactic Notation "let_name" ident(x) ident(E) :=
  lazymatch goal with |- ?P (let y := ?v in @?b y) =>
    let H := fresh in
    assert (H : forall x, x = v -> P (b x)); [intros x E; cbv beta|exact_no_check (let_elim P v b H)] end.

Section GameFacts.
Context {W St : Type} `{SaveStore St}.
Context (world_impure world_chaos : W -> num * W) (today : W -> string) (levels : LevelTable).

Abbreviation Out := (Outside (W := W)).
Abbreviation chaos_ := (source_chaos world_chaos).
Abbreviation impure_ := (source_impure world_impure).
Abbreviation G := (@Game W St).

Definition core (g : G) : Core Out := {|
  k_start := g.(gm_start); k_history := g.(gm_history); k_state := g.(gm_state); k_queued := g.(gm_queued);
  k_rewind := g.(gm_rewind); k_replayer := g.(gm_replayer); k_crash := g.(gm_crashTick);
  k_saved := g.(gm_savedRun); k_restarts := tp_restarts (gm_tape g); k_playback := g.(gm_playback) |}.

(** Same core, same phase. *)
Definition same (g g' : G) : Prop := core g' = core g /\ g'.(gm_phase) = g.(gm_phase).

(** Same but for the phase. *)
Definition moved (p : Phase) (g g' : G) : Prop := core g' = core g /\ g'.(gm_phase) = p.

(** ** The outside world *)

(** Reading a source keeps the resumes of its tape, and what kind of source it
    is; a player leaves the world and the tape alone. *)
Definition out_kept (o o' : Out) : Prop :=
  tp_restarts o'.(o_tape) = tp_restarts o.(o_tape)
  /\ is_player o'.(o_source) = is_player o.(o_source)
  /\ (is_player o.(o_source) = true -> o'.(o_world) = o.(o_world) /\ o'.(o_tape) = o.(o_tape)).

Lemma out_kept_refl o : out_kept o o.
Proof. by split_and!. Qed.
Lemma out_kept_trans o1 o2 o3 : out_kept o1 o2 -> out_kept o2 o3 -> out_kept o1 o3.
Proof. intros (A1 & A2 & A3) (B1 & B2 & B3). split_and!; [congruence..|]. intros Hp.
  destruct (A3 Hp) as [<- <-]. apply B3. congruence.
Qed.

Lemma impure_kept o : out_kept o (impure_ o).2.
Proof.
  unfold source_impure, out_kept. destruct o as [[|i c e] t w]; simpl.
  - by destruct (world_impure w).
  - by destruct (tp_impure t !! i).
Qed.

Lemma chaos_kept o : out_kept o (chaos_ o).2.
Proof.
  unfold source_chaos, out_kept. destruct o as [[|i c e] t w]; simpl.
  - by destruct (world_chaos w).
  - by destruct (tp_chaos t !! c).
Qed.

Lemma scheduleNext_kept l t e o : out_kept o (scheduleNext chaos_ levels l t e o).2.
Proof.
  unfold scheduleNext. destruct (chaosMeanTicks _ _); [|apply out_kept_refl].
  pose proof (chaos_kept o) as K. by destruct (chaos_ o).
Qed.

Lemma between_kept r o : out_kept o (chaos_between chaos_ r o).2.
Proof. unfold chaos_between. destruct r. pose proof (chaos_kept o) as K. by destruct (chaos_ o). Qed.

Lemma chaos_start_kept l b e o : out_kept o (chaos_start chaos_ levels l b e o).2.
Proof.
  unfold chaos_start. destruct (cfg_scriptedCrashAt _); [apply out_kept_refl|].
  destruct (cfg_firstCrashTicks _) as [r|]; [|apply scheduleNext_kept].
  destruct b; [|apply scheduleNext_kept].
  pose proof (between_kept r o) as K. by destruct (chaos_between _ r o).
Qed.

Lemma onPickup_kept c l k t o : out_kept o (onPickup chaos_ levels c l k t o).2.
Proof.
  unfold onPickup. destruct (cfg_crashAfterPickup _) as [ks|]; [|apply out_kept_refl].
  destruct (bool_decide _); [|apply out_kept_refl].
  pose proof (between_kept CRASH_AFTER_PICKUP o) as K. destruct (chaos_between _ _ o).
  by destruct c as [d|]; [destruct (_ <? d)%float|].
Qed.

(** ** Same core *)

Lemma same_refl g : same g g.
Proof. done. Qed.
Lemma same_trans g1 g2 g3 : same g1 g2 -> same g2 g3 -> same g1 g3.
Proof. intros [A1 A2] [B1 B2]. split; congruence. Qed.
Lemma moved_same p g1 g2 g3 : moved p g1 g2 -> same g2 g3 -> moved p g1 g3.
Proof. intros [A1 A2] [B1 B2]. split; congruence. Qed.

Lemma touch_same g : same g (touch g).
Proof. done. Qed.
Lemma setNotice_same t g : same g (setNotice t g).
Proof. done. Qed.
Lemma on_store_same f g : same g (on_store f g).
Proof. done. Qed.
Lemma syncSlide_same g : same g (syncSlide g).
Proof. done. Qed.
Lemma save_same g : same g (save levels g).
Proof. unfold save. by destruct (saves levels g). Qed.
Lemma setPhase_moved p g : moved p g (setPhase p g).
Proof. unfold setPhase. by destruct (bool_decide (kind p = KPlaying)). Qed.

Lemma with_chaos_same f g : (forall o, out_kept o (f o).2) -> same g (with_chaos f g).
Proof.
  intros Hf. unfold with_chaos, same, core, gm_tape. specialize (Hf g.(gm_out)).
  destruct (f g.(gm_out)) as [c o]. simpl in *. destruct Hf as [Hf _]. by rewrite Hf.
Qed.

Lemma on_event_core s g e :
  core (on_event world_chaos levels s g e) = {| (core g) with k_history := g.(gm_history) ++ [OutE e] |}
  /\ gm_phase (on_event world_chaos levels s g e) = gm_phase g.
Proof.
  unfold on_event. cbv zeta. destruct e; try done.
  all: match goal with |- core (with_chaos ?f ?h) = _ /\ _ =>
         destruct (with_chaos_same f h (onPickup_kept _ _ _ _)) as [-> ->] end.
  all: done.
Qed.

Lemma on_events_core s evs : forall g,
  core (fold_left (on_event world_chaos levels s) evs g)
    = {| (core g) with k_history := g.(gm_history) ++ map OutE evs |}
  /\ gm_phase (fold_left (on_event world_chaos levels s) evs g) = gm_phase g.
Proof.
  induction evs as [|e evs IH]; intros g; cbn [fold_left map].
  - by rewrite app_nil_r.
  - destruct (IH (on_event world_chaos levels s g e)) as [-> ->].
    destruct (on_event_core s g e) as [Ec ->]. split; [|done].
    assert (Eh : gm_history (on_event world_chaos levels s g e) = g.(gm_history) ++ [OutE e])
      by exact (f_equal k_history Ec).
    rewrite Ec, Eh, <- app_assoc. done.
Qed.

Lemma take_inputs_same g : same g (take_inputs g).2.
Proof. unfold take_inputs, same, core. simpl. by destruct (gm_playback g). Qed.

End GameFacts.

#[export] Hint Resolve same_refl touch_same setNotice_same on_store_same syncSlide_same save_same : game.
#[export] Hint Resolve setPhase_moved scheduleNext_kept chaos_start_kept onPickup_kept : game.
