(* ===== verification/GameInv.v ===== *)
(** * Histories that explain their states

    What the game maintains about a run, free of the game itself: a history
    accounts for a state ([recorded]), every state in the rewind buffer has its
    prefix of the history ([buffered]), and a replay keeps both
    ([replay_stage]). *)

From S2P Require Import Prelude JsNum Types Levels Rng Step StepFacts StepInv Replayer.
From S2P Require Import RuntimeTypes Json Validate Tape Rewind Game.
#[local] Open Scope Z_scope.

(** ** Definitions *)

(** The events before a tick. *)
Definition before (t : Z) (h : list HistoryEvent) : list HistoryEvent :=
  List.filter (fun e => ev_tick e <? t) h.

(** What a replay needs of a history: ordered, no event too late. *)
Record replayable (h : list HistoryEvent) (toTick : Z) : Prop := {
  rb_sorted : sorted_ticks h;
  rb_ticks : Forall (fun e => 0 <= ev_tick e) h;
  rb_upto : Forall (upto toTick) h;
  rb_to : 0 <= toTick
}.

Definition resumable (s : GameState) : Prop := s.(g_status) <> Failed /\ s.(g_status) <> RetryNeeded.

Section Explained.
Context (levels : LevelTable) (start : StartInput).

(** Some run of the engine reached [s] with the inputs of [pre] and with
    outcomes that a replay would accept for those of [pre]. *)
Definition explained (pre : list HistoryEvent) (s : GameState) : Prop :=
  exists h orbs,
    Run levels start h s orbs
    /\ omap as_input pre = omap as_input h
    /\ matches (omap as_outcome pre) (omap as_outcome h) = true.

(** The history of a game at [s]: what explains [s], then the runtime inputs
    that wait for the next tick. *)
Definition recorded (h : list HistoryEvent) (queued : list InputEvent) (s : GameState) : Prop :=
  exists pre,
    h = pre ++ map InE queued
    /\ sorted_ticks pre /\ Forall (fun e => 0 <= ev_tick e < s.(g_tick)) pre
    /\ Forall (fun e => input_tick e = s.(g_tick)) queued
    /\ explained pre s.

(** A state of the rewind buffer of a game at [s]. *)
Definition buffered (h : list HistoryEvent) (s x : GameState) : Prop :=
  x.(g_status) = Running /\ x.(g_tick) <= s.(g_tick) /\ explained (before x.(g_tick) h) x.

Definition anchored (b : RewindBuffer) : Prop :=
  all b <> [] /\ forall a, b.(rb_anchor) = Some a -> a.(g_tick) = 0.

(** ** Histories *)

Lemma before_app t h h' : before t (h ++ h') = before t h ++ before t h'.
Proof. apply List.filter_app. Qed.

Lemma before_all t h : Forall (fun e => ev_tick e < t) h -> before t h = h.
Proof. induction 1 as [|e l He _ IH]; simpl; [done|]. rewrite (proj2 (Z.ltb_lt _ _) He). by f_equal. Qed.

Lemma before_none t h : Forall (fun e => t <= ev_tick e) h -> before t h = [].
Proof. induction 1 as [|e l He _ IH]; simpl; [done|]. by rewrite (proj2 (Z.ltb_ge _ _) He). Qed.

Lemma before_before t t' h : t <= t' -> before t (before t' h) = before t h.
Proof.
  intros Ht. induction h as [|e h IH]; simpl; [done|].
  destruct (Z.ltb_spec (ev_tick e) t'); simpl; [by rewrite IH|].
  rewrite IH. by rewrite (proj2 (Z.ltb_ge _ _)) by lia.
Qed.

Lemma before_Forall P t h : Forall P h -> Forall (fun e => P e /\ ev_tick e < t) (before t h).
Proof.
  rewrite !Forall_forall. intros H e He. apply elem_of_List_filter in He as [Hlt He].
  split; [by apply H|]. by apply Z.ltb_lt.
Qed.

Lemma before_sorted t h : sorted_ticks h -> sorted_ticks (before t h).
Proof.
  induction 1 as [|e l Hl IH He]; simpl; [constructor|].
  destruct (ev_tick e <? t); [|done]. constructor; [done|].
  apply (Forall_impl _ _ _ (before_Forall _ t l He)). by intros ? [? _].
Qed.

Lemma sorted_app h h' t :
  sorted_ticks h -> sorted_ticks h' -> Forall (fun e => ev_tick e <= t) h -> Forall (fun e => t <= ev_tick e) h' ->
  sorted_ticks (h ++ h').
Proof.
  intros Hh Hh' Hl Hg. induction Hh as [|e l Hs IH He]; cbn; [done|].
  inversion Hl; subst. constructor; [by apply IH|]. apply Forall_app. split; [done|].
  eapply Forall_impl; [exact Hg|]. simpl. lia.
Qed.

Lemma sorted_same t h : Forall (fun e => ev_tick e = t) h -> sorted_ticks h.
Proof.
  induction 1 as [|e l He Hl IH]; constructor; [done|].
  eapply Forall_impl; [exact Hl|]. simpl. lia.
Qed.

Lemma sorted_app_l h h' : sorted_ticks (h ++ h') -> sorted_ticks h.
Proof.
  induction h as [|e h IH]; [constructor|]. cbn. intros H. inversion H as [|? ? Hs Hf]; subst.
  constructor; [by apply IH|]. by apply Forall_app in Hf as [? _].
Qed.

Lemma queued_ticks t qs : Forall (fun e => input_tick e = t) qs -> Forall (fun e => ev_tick e = t) (map InE qs).
Proof. intros H. rewrite Forall_map. exact H. Qed.

(** ** Explained states *)

Lemma explained_start : explained [] (initialState start levels).
Proof. exists [], []. split_and!; [constructor|done|done]. Qed.

Lemma explained_run pre s : explained pre s -> 0 <= s.(g_tick) /\ resumable s.
Proof. intros (h & orbs & HR & _). destruct (Run_step _ _ _ _ _ HR) as (? & _ & ? & ?). done. Qed.

Lemma recorded_start : recorded [] [] (initialState start levels).
Proof. exists []. split_and!; try constructor. apply explained_start. Qed.

(** One more tick, over any ports. *)
Lemma explained_tick {P} (ports : Ports P) pre s ins p :
  explained pre s -> s.(g_status) = Running -> Forall (fun e => input_tick e = s.(g_tick)) ins ->
  let r := step ports levels s (map inputOf ins) p in
  resumable r.(state) ->
  explained (pre ++ map InE ins ++ map OutE r.(events)) r.(state).
Proof.
  intros (h & orbs & HR & Hin & Hm) Hs Hi. cbv zeta.
  pose proof (Run_live ports levels start h s orbs ins p HR Hs Hi) as Hlive. cbv zeta in Hlive.
  destruct (step _ _ _ _ _) as [s' evs p']. simpl in *. intros [Hf Hr].
  destruct (Hlive Hf Hr) as (ans & _ & _ & HR'). do 2 eexists. split_and!; [exact HR'| |].
  - rewrite (omap_app as_input pre), (omap_app as_input h), Hin. done.
  - rewrite (omap_app as_outcome pre), (omap_app as_outcome h). apply matches_app; [done|]. apply matches_refl.
Qed.

Lemma recorded_tick {P} (ports : Ports P) h q s ins p :
  recorded h q s -> s.(g_status) = Running -> Forall (fun e => input_tick e = s.(g_tick)) ins ->
  let r := step ports levels s (map inputOf q ++ map inputOf ins) p in
  resumable r.(state) ->
  recorded ((h ++ map InE ins) ++ map OutE r.(events)) [] r.(state).
Proof.
  intros (pre & -> & Hsort & Ht & Hq & Hx) Hs Hi. rewrite <- map_app. cbv zeta. intros Hr.
  assert (Hqi : Forall (fun e => input_tick e = s.(g_tick)) (q ++ ins)) by (by apply Forall_app).
  pose proof (explained_tick ports pre s (q ++ ins) p Hx Hs Hqi Hr) as Hx'.
  destruct (step_clock ports levels s (map inputOf (q ++ ins)) p Hs) as ((Hc & _) & He & _).
  destruct (step ports levels s (map inputOf (q ++ ins)) p) as [s' evs p']. simpl in *.
  assert (Hnew : Forall (fun e => ev_tick e = s.(g_tick)) (map InE (q ++ ins) ++ map OutE evs)).
  { apply Forall_app. split; [by apply queued_ticks|]. rewrite Forall_map. exact He. }
  exists (pre ++ map InE (q ++ ins) ++ map OutE evs).
  destruct (explained_run _ _ Hx) as [Hpos _].
  split_and!; [| | |constructor|exact Hx'].
  - rewrite map_app, app_nil_r. by rewrite <- !app_assoc.
  - apply (sorted_app _ _ s.(g_tick)); [done|by eapply sorted_same| |].
    + eapply Forall_impl; [exact Ht|]. simpl. lia.
    + eapply Forall_impl; [exact Hnew|]. simpl. lia.
  - rewrite Hc. apply Forall_app. split.
    + eapply Forall_impl; [exact Ht|]. simpl. lia.
    + eapply Forall_impl; [exact Hnew|]. simpl. lia.
Qed.

(** ** The rewind buffer *)

Lemma recorded_before h q s : recorded h q s ->
  exists pre, before s.(g_tick) h = pre /\ sorted_ticks pre /\ h = pre ++ map InE q /\ explained pre s
    /\ Forall (fun e => 0 <= ev_tick e < s.(g_tick)) pre.
Proof.
  intros (pre & -> & Hsort & Ht & Hq & Hx). exists pre. split_and!; try done.
  rewrite before_app, before_all, before_none, app_nil_r; [done| |].
  - eapply Forall_impl; [by apply queued_ticks|]. simpl. lia.
  - eapply Forall_impl; [exact Ht|]. simpl. lia.
Qed.

Lemma buffered_self h q s : recorded h q s -> s.(g_status) = Running -> buffered h s s.
Proof. intros H Hs. destruct (recorded_before _ _ _ H) as (pre & E & _ & _ & Hx & _). split_and!; [done|lia|by rewrite E]. Qed.

(** The history grows. *)
Lemma buffered_grow h ext s s' x :
  Forall (fun e => s.(g_tick) <= ev_tick e) ext -> s.(g_tick) <= s'.(g_tick) ->
  buffered h s x -> buffered (h ++ ext) s' x.
Proof.
  intros He Hs (H1 & H2 & H3). split_and!; [done|lia|].
  rewrite before_app, (before_none _ ext), app_nil_r; [done|].
  eapply Forall_impl; [exact He|]. simpl. lia.
Qed.

Lemma buffer_push h s b : Forall (buffered h s) (all b) -> buffered h s s -> Forall (buffered h s) (all (push b s)).
Proof. rewrite !Forall_forall. intros Hb Hs x [Hx| ->]%all_push; [by apply Hb|done]. Qed.

Lemma anchored_push b s : anchored b -> anchored (push b s).
Proof.
  intros [_ Ha]. split.
  - pose proof (push_new b s) as Hn. intros E. rewrite E in Hn. by apply elem_of_nil in Hn.
  - unfold push. by destruct (_ <? _)%nat.
Qed.

Lemma anchored_reset : anchored (reset (initialState start levels)).
Proof. split; [done|]. by intros a [= <-]. Qed.

Lemma buffer_reset : Forall (buffered [] (initialState start levels)) (all (reset (initialState start levels))).
Proof. constructor; [|constructor]. exact (buffered_self _ _ _ recorded_start eq_refl). Qed.

(** A rewind: the history is cut at the state picked. *)
Lemma rewind_recorded h q s x e :
  recorded h q s -> buffered h s x -> input_tick e = x.(g_tick) ->
  recorded (before x.(g_tick) h ++ [InE e]) [e] x.
Proof.
  intros Hrec (Hx & Hle & Hex) He. destruct (recorded_before _ _ _ Hrec) as (pre & _ & Hsort & Eh & _ & Ht).
  destruct Hrec as (pre' & Eh' & _ & _ & Hq & _).
  assert (E : before x.(g_tick) h = before x.(g_tick) pre).
  { rewrite Eh, before_app, (before_none _ (map InE q)), app_nil_r; [done|].
    eapply Forall_impl; [by apply queued_ticks|]. simpl. lia. }
  exists (before x.(g_tick) h). split_and!; [done| | |by constructor|done].
  - rewrite E. by apply before_sorted.
  - rewrite E. eapply Forall_impl; [exact (before_Forall _ x.(g_tick) _ Ht)|]. simpl. lia.
Qed.

Lemma dropAfter_all_le b t x : anchored b -> 0 <= t -> x ∈ all (dropAfter b t) -> x ∈ all b /\ x.(g_tick) <= t.
Proof.
  intros [_ Ha] Ht Hx. split; [by eapply all_dropAfter|].
  unfold all in Hx. simpl in Hx.
  assert (Hr : x ∈ rb_ring (dropAfter b t) -> x.(g_tick) <= t) by apply dropAfter_le.
  destruct (rb_wrapped b), (rb_anchor b) as [a|] eqn:Ea; try by apply Hr.
  apply elem_of_cons in Hx as [-> |Hx]; [|by apply Hr]. rewrite (Ha a eq_refl). lia.
Qed.

Lemma rewind_buffer h s x e b :
  Forall (buffered h s) (all b) -> anchored b -> x ∈ all b -> input_tick e = x.(g_tick) ->
  anchored (dropAfter b x.(g_tick))
  /\ Forall (buffered (before x.(g_tick) h ++ [InE e]) x) (all (dropAfter b x.(g_tick))).
Proof.
  intros Hb Ha Hx He. rewrite Forall_forall in Hb.
  destruct (explained_run _ _ (proj2 (proj2 (Hb x Hx)))) as [Hpos _].
  assert (Hin : x ∈ all (dropAfter b x.(g_tick))).
  { destruct Ha as [_ Ha]. unfold all, dropAfter in *. simpl.
    assert (Hf : x ∈ rb_ring b -> x ∈ List.filter (fun s => g_tick s <=? g_tick x) (rb_ring b)).
    { intros Hr. apply elem_of_List_filter. split; [apply Z.leb_le; lia|done]. }
    destruct (rb_wrapped b), (rb_anchor b); auto.
    apply elem_of_cons in Hx as [-> |Hx]; [by left|right; auto]. }
  split; [split|].
  - intros E. rewrite E in Hin. by apply elem_of_nil in Hin.
  - apply Ha.
  - rewrite Forall_forall. intros y Hy.
    destruct (dropAfter_all_le _ _ _ Ha Hpos Hy) as [Hyb Hyx]. destruct (Hb y Hyb) as (H1 & _ & H3).
    split_and!; [done|done|].
    rewrite before_app, before_before by done. rewrite (before_none _ [InE e]), app_nil_r; [done|].
    constructor; [|constructor]. simpl. lia.
Qed.

(** ** Replays *)

Section Stage.
Context {P : Type} (history : list HistoryEvent) (toTick : Z) (impure_ : P -> num * P).
Abbreviation adv1 := (advance_tick levels history toTick impure_).

(** A replay in progress, or settled. *)
Definition replay_stage (r : Replayer P) (b : RewindBuffer) : Prop :=
  faithful levels start history r
  /\ ((r.(rp_done) = false /\ exists n, going toTick n r)
      \/ r.(rp_done) = true
         /\ (r.(rp_divergedAt) = None -> r.(rp_state).(g_status) = Running -> r.(rp_state).(g_tick) = toTick))
  /\ resumable r.(rp_state)
  /\ anchored b
  /\ (r.(rp_divergedAt) = None -> Forall (buffered history r.(rp_state)) (all b)).

Lemma replay_stage_port (r : Replayer P) b p :
  replay_stage r b -> replay_stage {| r with rp_port := p |} b.
Proof. done. Qed.

Lemma replay_stage_start p :
  replayable history toTick ->
  replay_stage (createReplayer levels start toTick p) (reset (initialState start levels)).
Proof.
  intros [Hs Ht Hu Hto]. split_and!.
  - exact (advance_faithful levels start history toTick impure_ p 0 Hs Ht).
  - destruct (Z.leb_spec toTick 0) as [Hle|Hgt]; simpl.
    + right. split; [by apply Z.leb_le|]. intros _ _. lia.
    + left. split; [by apply Z.leb_gt|]. exists O. split_and!; [done|done|]. simpl. lia.
  - by split.
  - apply anchored_reset.
  - intros _. constructor; [|constructor]. split_and!; [done|done|]. simpl.
    rewrite before_none by done. apply explained_start.
Qed.

Lemma faithful_buffered (r : Replayer P) :
  faithful levels start history r -> r.(rp_divergedAt) = None -> r.(rp_state).(g_status) = Running ->
  buffered history r.(rp_state) r.(rp_state).
Proof.
  intros Hf Hd Hs. destruct (Hf Hd) as (pre & rest & h & orbs & E & _ & _ & Hpre & Hrest & HR & Hin & Hm).
  split_and!; [done|lia|].
  rewrite E, before_app, before_all, before_none, app_nil_r by done. by exists h, orbs.
Qed.

(** A tick of the replay: what it does to the clock, and to a divergence. *)
Lemma advance_tick_clock n (r : Replayer P) :
  going toTick n r ->
  let r' := adv1 r in
  (r'.(rp_divergedAt) = None -> r.(rp_divergedAt) = None)
  /\ ((r'.(rp_state) = r.(rp_state) /\ r'.(rp_done) = true /\ r'.(rp_divergedAt) <> None)
      \/ r'.(rp_state).(g_tick) = r.(rp_state).(g_tick) + 1 /\ resumable r'.(rp_state)
         /\ (r'.(rp_done) = true -> r'.(rp_state).(g_status) = Running -> toTick <= r'.(rp_state).(g_tick))).
Proof.
  intros (Hs & Ht & Hn). cbv zeta. unfold advance_tick. cbv zeta.
  set (ins := map inputOf _).
  pose proof (step_clock (rp_ports history impure_) levels (rp_state r) ins (rp_port r) Hs) as ((Hc & _) & _).
  destruct (step _ _ _ _ _) as [s' evs p']. simpl in *.
  destruct (bool_decide_reflect (g_status s' = Failed)) as [|Hf]; simpl.
  { split; [by destruct (rp_divergedAt r)|]. left. split_and!; try done. by repeat case_match. }
  destruct (bool_decide_reflect (g_status s' = RetryNeeded)) as [|Hr]; simpl.
  { split; [by destruct (rp_divergedAt r)|]. left. split_and!; try done. by repeat case_match. }
  split; [by destruct (rp_divergedAt r)|]. right. split_and!; [done|done|].
  intros Hd Hrun. rewrite Hrun in Hd. simpl in Hd. rewrite orb_false_r in Hd. by apply Z.leb_le.
Qed.

Lemma replay_stage_tick (r : Replayer P) b :
  r.(rp_done) = false -> replay_stage r b ->
  let r' := adv1 r in
  replay_stage r' (if bool_decide (r'.(rp_state).(g_status) = Running) then push b r'.(rp_state) else b).
Proof.
  intros Hnd (Hf & Hst & Hres & Hanch & Hbuf). cbv zeta.
  destruct Hst as [[_ [n Hg]]|[Hd _]]; [|congruence].
  pose proof (advance_tick_faithful levels start history toTick impure_ n r Hg Hf) as Hf'.
  pose proof (advance_tick_going levels history toTick impure_ n r Hg) as Hg'.
  destruct (advance_tick_clock n r Hg) as [Hdiv Hcl]. cbv zeta in Hcl. set (r' := adv1 r) in *.
  destruct Hg as (Hrun & Htick & Hlt).
  assert (Hgrow : r'.(rp_divergedAt) = None -> Forall (buffered history r'.(rp_state)) (all b)).
  { intros Hn. destruct Hcl as [(_ & _ & Hc)|(Hc & _)]; [done|].
    eapply Forall_impl; [exact (Hbuf (Hdiv Hn))|]. intros x (H1 & H2 & H3). split_and!; [done|lia|done]. }
  split_and!.
  - done.
  - destruct (rp_done r') eqn:D.
    + right. split; [done|]. intros Hn Hr. destruct Hcl as [(_ & _ & Hc)|(Hc & _ & Hd)]; [done|].
      specialize (Hd eq_refl Hr). lia.
    + left. split; [done|]. destruct Hg' as [Hg'|Hg']; [done|]. by exists (S n).
  - destruct Hcl as [(-> & _)|(_ & Hr & _)]; done.
  - destruct (bool_decide _); [by apply anchored_push|done].
  - intros Hn. destruct (bool_decide_reflect (g_status (rp_state r') = Running)) as [Hr|_]; [|by apply Hgrow].
    apply buffer_push; [by apply Hgrow|by apply faithful_buffered].
Qed.

(** A settled replay that reported no divergence: the history explains the
    state, and the inputs at its tick are the ones that wait. *)
Definition waiting (t : Z) : list InputEvent :=
  omap as_input (List.filter (fun e => isInputEvent e && (ev_tick e =? t)) history).

Lemma waiting_app t pre rest :
  Forall (fun e => ev_tick e < t) pre -> Forall (upto t) rest -> Forall (fun e => t <= ev_tick e) rest ->
  history = pre ++ rest -> rest = map InE (waiting t) /\ Forall (fun e => input_tick e = t) (waiting t).
Proof.
  intros Hpre Hu Hge E0. unfold waiting. rewrite E0, List.filter_app. clear E0.
  assert (E : List.filter (fun e => isInputEvent e && (ev_tick e =? t)) pre = []).
  { induction Hpre as [|e l He _ IH]; cbn [List.filter]; [done|].
    rewrite (proj2 (Z.eqb_neq _ _)) by lia. by rewrite andb_false_r. }
  rewrite E. cbn [app]. clear E. induction Hu as [|e l He _ IH]; [done|].
  inversion Hge as [|? ? Hle Hge']; subst. destruct (IH Hge') as [E1 E2].
  destruct e as [e|e]; unfold upto in He; [|lia]. cbn [List.filter isInputEvent andb].
  rewrite (proj2 (Z.eqb_eq _ _)) by lia. cbn. split; [by f_equal|]. constructor; [simpl in *; lia|done].
Qed.

Lemma replay_stage_settled (r : Replayer P) b :
  replayable history toTick -> replay_stage r b -> r.(rp_done) = true -> r.(rp_divergedAt) = None ->
  r.(rp_state).(g_status) = Running ->
  recorded history (waiting r.(rp_state).(g_tick)) r.(rp_state) /\ Forall (buffered history r.(rp_state)) (all b).
Proof.
  intros [Hs Ht Hu Hto] (Hf & Hst & _ & _ & Hbuf) Hd Hn Hrun. split; [|by apply Hbuf].
  destruct Hst as [[H _]|[_ Hst]]; [congruence|]. specialize (Hst Hn Hrun).
  destruct (Hf Hn) as (pre & rest & h & orbs & E & _ & _ & Hpre & Hrest & HR & Hin & Hm).
  rewrite <- Hst, E, Forall_app in Hu. destruct Hu as [_ Hu].
  destruct (waiting_app _ _ _ Hpre Hu Hrest E) as [E1 E2].
  exists pre. split_and!; [by rewrite <- E1| | |done|by exists h, orbs].
  - rewrite E in Hs. by eapply sorted_app_l.
  - rewrite E, Forall_app in Ht. destruct Ht as [Ht _]. rewrite Forall_forall in *. intros e He. split; auto.
Qed.
End Stage.

(** A recorded history can be replayed. *)
Lemma recorded_replayable h q s : recorded h q s -> replayable h s.(g_tick).
Proof.
  intros (pre & -> & Hsort & Ht & Hq & Hx). destruct (explained_run _ _ Hx) as [Hpos _].
  pose proof (queued_ticks _ _ Hq) as Hq'.
  split; [|rewrite Forall_app; split..|done].
  - apply (sorted_app _ _ s.(g_tick)); [done|by eapply sorted_same| |];
      (eapply Forall_impl; [eassumption|]; simpl; lia).
  - eapply Forall_impl; [exact Ht|]. simpl. lia.
  - eapply Forall_impl; [exact Hq'|]. simpl. lia.
  - eapply Forall_impl; [exact Ht|]. intros [e|e]; simpl; lia.
  - rewrite Forall_map. eapply Forall_impl; [exact Hq|]. simpl. lia.
Qed.
End Explained.

(** What the checks of a save guarantee is what a replay needs. *)
Lemma ordered_replayable t h : forall prev,
  ordered_wf t prev h -> sorted_ticks h /\ Forall (upto t) h
  /\ (forall p, prev = Some p -> Forall (fun e => p <= ev_tick e) h).
Proof.
  induction h as [|e h IH]; intros prev; simpl; [intros _; split; [constructor|split; [|intros p _]]; constructor|].
  intros (Hp & Hu & Ho). destruct (IH _ Ho) as (H1 & H2 & H3). specialize (H3 _ eq_refl).
  split_and!; [by constructor|by constructor|].
  intros p ->. constructor; [done|]. eapply Forall_impl; [exact H3|]. intros x Hx. cbv beta in *. lia.
Qed.

Lemma body_replayable b : body_wf b -> replayable b.(sv_history) b.(sv_tick).
Proof.
  intros (_ & _ & Ht & He & _ & _ & Ho). destruct (ordered_replayable _ _ _ Ho) as (H1 & H2 & _).
  split; [done| |done|done]. eapply Forall_impl; [exact He|]. by intros e [? _].
Qed.
