(* ===== verification/GamePlay.v ===== *)
(** * The game keeps its history

    Whatever keys are pressed and however many frames pass, a game being played
    holds a history that explains its state: the invariant [Inv], kept by every
    operation of [runtime/game.ts], and reachability. *)

From S2P Require Import Prelude JsNum JsMap Types Levels Rng Step StepFacts StepInv.
From S2P Require Import Replayer RuntimeTypes Json Validate Tape Rewind Chaos Montage Persistence.
From S2P Require Import Game GameFacts GameInv.
#[local] Open Scope Z_scope.

(** ** Definitions *)

Section GamePlay.
Context {W St : Type} `{SaveStore St}.
Context (world_impure world_chaos : W -> num * W) (today : W -> string) (levels : LevelTable).

Abbreviation Out := (Outside (W := W)).
Abbreviation G := (@Game W St).
Abbreviation impure_ := (source_impure world_impure).

(** The engine can get to [s] from [start]. *)
Definition reached (start : StartInput) (s : GameState) : Prop := exists h orbs, Run levels start h s orbs.

(** While a run is being played: the history explains the state, and every
    state the rewind buffer could go back to.  (A level that is done is no
    longer played: the next tick leaves it.) *)
Definition live (c : Core Out) : Prop :=
  reached c.(k_start) c.(k_state) /\ anchored c.(k_rewind)
  /\ (c.(k_state).(g_status) = Running ->
      recorded levels c.(k_start) c.(k_history) c.(k_queued) c.(k_state)
      /\ Forall (buffered levels c.(k_start) c.(k_history) c.(k_state)) (all c.(k_rewind))).

(** While a run is being rebuilt from its history. *)
Definition replaying (c : Core Out) : Prop :=
  exists r, c.(k_replayer) = Some r /\ replayable c.(k_history) c.(k_crash)
    /\ replay_stage levels c.(k_start) c.(k_history) c.(k_crash) r c.(k_rewind)
    /\ c.(k_state) = r.(rp_state).

Definition phase_ok (k : PhaseKind) (c : Core Out) : Prop :=
  match k with
  | KTitle | KResume | KOver | KLost => True
  | KCrashing => replayable c.(k_history) c.(k_crash)
  | KReplaying => replaying c
  | KTip | KPlaying | KPaused | KRewinding | KMontage => live c
  end.

(** The saves at hand passed the loader's checks. *)
Definition base_ok (c : Core Out) : Prop :=
  (forall v, c.(k_saved) = Some v -> replayable v.(sv_body).(sv_history) v.(sv_body).(sv_tick))
  /\ (c.(k_playback) = true ->
      Forall (fun r => replayable r.(rs_save).(sv_history) r.(rs_save).(sv_tick)) c.(k_restarts)).

Definition Inv (g : G) : Prop := base_ok (core g) /\ phase_ok (kind g.(gm_phase)) (core g).

(** The games a player can get to. *)
Inductive Reach : G -> Prop :=
  | Reach_new w store :
      (forall v, st_load store = Some v -> body_wf v.(sv_body)) -> Reach (newGame today levels w store)
  | Reach_command c g : Reach g -> Reach (command world_chaos today levels c g)
  | Reach_frame n g : Reach g -> Reach (frame world_impure world_chaos today levels n g)
  | Reach_suspend g : Reach g -> Reach (suspend levels g)
  | Reach_save g : Reach g -> Reach (save levels g)
  | Reach_speed v g : Reach g -> Reach (setPlaybackSpeed v g)
  | Reach_watch tape g : Reach g -> tape_safe tape -> Reach (watch world_chaos levels tape g).2.

(** ** Moving the invariant along *)

Lemma Inv_same (g g' : G) : same g g' -> Inv g -> Inv g'.
Proof. intros [E1 E2] [H1 H2]. split; by rewrite ?E1, ?E2. Qed.

Lemma Inv_moved p (g g' : G) : moved p g g' -> base_ok (core g) -> phase_ok (kind p) (core g) -> Inv g'.
Proof. intros [E1 E2] H1 H2. split; by rewrite ?E1, ?E2. Qed.

Lemma core_if (b : bool) (x y : G) c : core x = c -> core y = c -> core (if b then x else y) = c.
Proof. by destruct b. Qed.

(** A new segment is live. *)
Lemma beginSegment_core start b (g : G) :
  let g' := beginSegment world_chaos levels start b g in
  core g' = {| k_start := start; k_history := []; k_state := initialState start levels; k_queued := [];
               k_rewind := reset (initialState start levels); k_replayer := g.(gm_replayer);
               k_crash := g.(gm_crashTick); k_saved := g.(gm_savedRun);
               k_restarts := tp_restarts (gm_tape g); k_playback := g.(gm_playback) |}
  /\ g'.(gm_phase) = (if b then PTip start.(s_level) else PPlaying).
Proof.
  cbv zeta. unfold beginSegment.
  match goal with |- context [with_chaos ?f ?h] =>
    destruct (with_chaos_same f h (chaos_start_kept _ _ _ _ _)) as [Ec _] end.
  match goal with |- context [save _ (setPhase ?p ?h)] =>
    destruct (save_same levels (setPhase p h)) as [Es Ep]; destruct (setPhase_moved p h) as [Em Epm] end.
  rewrite Es, Ep, Em, Epm, Ec. by split.
Qed.

Lemma beginSegment_live start b (g : G) : live (core (beginSegment world_chaos levels start b g)).
Proof.
  destruct (beginSegment_core start b g) as [-> _]. split_and!; [do 2 eexists; constructor|apply anchored_reset|].
  intros _. split; [apply recorded_start|apply buffer_reset].
Qed.

Lemma beginSegment_inv start b (g : G) : base_ok (core g) -> Inv (beginSegment world_chaos levels start b g).
Proof.
  intros Hb. pose proof (beginSegment_live start b g) as Hl.
  destruct (beginSegment_core start b g) as [Ec Ep]. split.
  - rewrite Ec. exact Hb.
  - rewrite Ep. by destruct b.
Qed.

Lemma closeSegment_same t (g : G) : same g (closeSegment levels t g).
Proof. unfold closeSegment. by destruct (_ || _). Qed.

(** Starting a replay. *)
Lemma startReplay_inv (g : G) :
  base_ok (core g) -> replayable g.(gm_history) g.(gm_crashTick) -> Inv (startReplay levels g).
Proof.
  intros Hb Hr. unfold startReplay. destruct (negb _).
  - eapply (Inv_moved PLost); [apply setPhase_moved| |done]. destruct (gm_playback g); exact Hb.
  - cbv zeta. match goal with |- Inv (setPhase ?p ?h) =>
      apply (Inv_moved p h); [apply setPhase_moved|exact Hb|] end.
    cbn [kind phase_ok]. eexists. split_and!; [reflexivity|exact Hr| |reflexivity].
    exact (replay_stage_start _ _ _ _ impure_ _ Hr).
Qed.

Lemma restartFromHistory_inv t (g : G) :
  base_ok (core g) -> replayable g.(gm_history) t -> Inv (restartFromHistory world_chaos levels t g).
Proof.
  intros Hb Hr. expose restartFromHistory. let_name g1 E1.
  destruct (with_chaos_same (chaos_start (source_chaos world_chaos) levels (s_level (gm_start g1)) false
    (s_elapsed (gm_start g1))) g1 (chaos_start_kept _ _ _ _ _)) as [Ec _]. rewrite E1 in Ec at 4.
  set (g2 := with_chaos _ g1) in *. clearbody g2.
  apply startReplay_inv; [by rewrite Ec|].
  change (replayable (k_history (core g2)) (k_crash (core g2))). by rewrite Ec.
Qed.

Lemma restoreSave_inv b (g : G) :
  base_ok (core g) -> replayable b.(sv_history) b.(sv_tick) ->
  Inv (restoreSave world_chaos levels b g).
Proof.
  intros Hb Hr. expose restoreSave. let_name g1 E1. let_name g2 E2.
  assert (E : core g2 = core g1) by (rewrite E2; apply core_if; reflexivity).
  apply restartFromHistory_inv; [rewrite E, E1; exact Hb|].
  change (replayable (k_history (core g2)) (sv_tick b)). rewrite E, E1. exact Hr.
Qed.

(** ** A live tick *)

Lemma supplies_kept {Q} (ports : Ports Q) (R : Q -> Q -> Prop) p ans p' :
  (forall p, R p p) -> (forall p1 p2 p3, R p1 p2 -> R p2 p3 -> R p1 p3) ->
  (forall p, R p (ports.(impure) p).2) -> (forall id p, R p (ports.(crateValue) id p).2) ->
  supplies ports p ans p' -> R p p'.
Proof.
  intros Hr Ht Hi Hc. induction 1 as [|p p1 p2 v l HA _ IH|p p1 p2 id v l HA _ IH]; [apply Hr|..].
  - eapply Ht; [|exact IH]. pose proof (Hi p) as K. by rewrite HA in K.
  - eapply Ht; [|exact IH]. pose proof (Hc id p) as K. by rewrite HA in K.
Qed.

(** The outside world of a live tick is only read. *)
Lemma live_ports_kept s ins o : out_kept o (step (live_ports world_impure) levels s ins (o, [])).(port).1.
Proof.
  destruct (step_factors (live_ports world_impure) levels s ins (o, [])) as (ans & Hs & _).
  apply (supplies_kept _ (fun p p' => out_kept p.1 p'.1)) in Hs; [exact Hs| | | |].
  - intros p. apply out_kept_refl.
  - intros p1 p2 p3. apply out_kept_trans.
  - intros [p l]. simpl. pose proof (impure_kept world_impure p) as K. by destruct (impure_ p).
  - intros id [p l]. simpl. pose proof (impure_kept world_impure p) as K. by destruct (impure_ p).
Qed.

(** RetryPolicy. *)
Lemma retry_inv q s hit (g : G) :
  base_ok (core g) -> anchored g.(gm_rewind) ->
  recorded levels g.(gm_start) g.(gm_history) q s ->
  Forall (buffered levels g.(gm_start) g.(gm_history) s) (all g.(gm_rewind)) ->
  Inv (retry world_chaos levels hit g).
Proof.
  intros Hb Ha Hq Hbuf. unfold retry. cbv zeta.
  match goal with |- context [pick ?b ?f ?m ?fl] =>
    destruct (pick_total b f m fl (proj1 Ha)) as [x Hx] end.
  rewrite Hx. apply pick_in in Hx.
  assert (Hxb : buffered levels g.(gm_start) g.(gm_history) s x) by (by eapply Forall_forall in Hbuf).
  destruct Hxb as (Hrun & Hle & Hex).
  set (e := RetryAttempt x.(g_tick) _ hit.(g_failedAt)).
  pose proof (rewind_recorded _ _ _ _ _ x e Hq (conj Hrun (conj Hle Hex)) eq_refl) as Hrec'.
  destruct (rewind_buffer _ _ _ _ x e _ Hbuf Ha Hx eq_refl) as [Ha' Hbuf'].
  match goal with |- Inv (save _ (setPhase ?p (match ?c with Some _ => ?h | None => ?h' end))) =>
    assert (Hl : base_ok (core h) /\ live (core h));
    [|assert (Es : forall o : ChaosScheduler, same h (match o with Some _ => h | None => h' end));
      [|specialize (Es c); set (M := match c with Some _ => h | None => h' end) in *]] end.
  - split; [exact Hb|]. split_and!; [|exact Ha'|].
    + destruct Hex as (h & orbs & HR & _). by exists h, orbs.
    + intros _. split; [exact Hrec'|exact Hbuf'].
  - intros [d|]; [apply same_refl|apply with_chaos_same; intros o; apply scheduleNext_kept].
  - destruct Es as [Ec _]. eapply Inv_same; [apply save_same|].
    eapply Inv_moved; [apply setPhase_moved|rewrite Ec; apply Hl..].
Qed.

Lemma gameOver_core r (g : G) : moved (POver r) g (gameOver today r g).
Proof.
  unfold gameOver. cbv zeta. match goal with |- moved _ _ (setPhase _ ?h) => assert (E : core h = core g) end.
  { apply core_if; [reflexivity|]. simpl.
    destruct (gm_best g <? g_score (gm_state g)); simpl; apply core_if; reflexivity. }
  split; [|apply setPhase_moved]. rewrite <- E. apply setPhase_moved.
Qed.

Lemma gameOver_inv r (g : G) : base_ok (core g) -> Inv (gameOver today r g).
Proof. intros Hb. by eapply Inv_moved; [apply gameOver_core|..]. Qed.

Lemma crash_inv (g : G) : base_ok (core g) -> replayable g.(gm_history) g.(gm_state).(g_tick) -> Inv (crash levels g).
Proof.
  intros Hb Hr. unfold crash. eapply Inv_same; [apply save_same|].
  eapply Inv_moved; [apply setPhase_moved|exact Hb|exact Hr].
Qed.

Lemma newMontage_phase m : kind (PMontage m) = KMontage.
Proof. done. Qed.

Lemma level_done_inv s (g : G) : base_ok (core g) -> Inv (level_done world_chaos levels s g).
Proof.
  intros Hb. expose level_done. let_name g1 E1.
  assert (Hb1 : base_ok (core g1)).
  { rewrite E1. by rewrite (proj1 (closeSegment_same s.(g_tick) {| g with gm_divergedAt := None |})). }
  let_name segs E2. let_name g2 E3.
  assert (Hi : Inv g2 /\ live (core g2)).
  { rewrite E3. split; [by apply beginSegment_inv|apply beginSegment_live]. }
  destruct (newMontage _ _) as [m|]; [|apply Hi].
  eapply Inv_moved; [apply setPhase_moved|apply Hi|apply Hi].
Qed.

Lemma hotfix_inv (g : G) : base_ok (core g) -> Inv (hotfix world_chaos levels g).
Proof.
  intros Hb. unfold hotfix. cbv zeta.
  destruct (closeSegment_same g.(gm_state).(g_tick) {| g with gm_divergedAt := None |}) as [Ec _].
  set (g1 := closeSegment levels _ _) in *. clearbody g1.
  eapply Inv_same; [apply setNotice_same|]. apply beginSegment_inv. by rewrite Ec.
Qed.


(** ** One tick *)

(** The tick, once the level goes on. *)
Lemma play_on_inv evs inputs s (g : G) :
  Inv g -> replayable g.(gm_history) g.(gm_state).(g_tick) ->
  Inv (play_on world_chaos levels evs inputs s g).
Proof.
  intros Hi Hr. expose play_on. let_name happened Eh. let_name moved Em. clear Eh Em.
  assert (Ht : forall g, Inv g -> Inv (if moved then touch g else g)).
  { intros g' Hg. destruct moved; [|exact Hg]. by eapply Inv_same; [apply touch_same|]. }
  destruct (0 <? _); [destruct (_ <=? _); [apply hotfix_inv, Hi|by apply Ht]|].
  destruct (isDue _ _); [apply crash_inv; [apply Hi|exact Hr]|]. let_name g1 E1.
  apply Ht. rewrite E1. destruct happened; [|exact Hi]. by eapply Inv_same; [apply save_same|].
Qed.

(** What the engine's answer [s], [evs] finds: the game before it, with the
    inputs of the tick recorded. *)
Definition stepping (s : GameState) (evs : list OutcomeEvent) (g : G) : Prop :=
  base_ok (core g) /\ kind g.(gm_phase) = KPlaying /\ anchored g.(gm_rewind) /\ g.(gm_queued) = []
  /\ (s.(g_status) = LevelDone \/
      exists q s0, recorded levels g.(gm_start) g.(gm_history) q s0
      /\ Forall (buffered levels g.(gm_start) g.(gm_history) s0) (all g.(gm_rewind))
      /\ (resumable s ->
          recorded levels g.(gm_start) (g.(gm_history) ++ map OutE evs) [] s
          /\ Forall (buffered levels g.(gm_start) (g.(gm_history) ++ map OutE evs) s) (all g.(gm_rewind)))).

(** A tick that goes on: the new state, its events and its place in the rewind
    buffer are in. *)
Lemma stepping_on s evs m (g : G) :
  stepping s evs g -> s.(g_status) = Running ->
  let g1 := fold_left (on_event world_chaos levels s) evs {| g with gm_state := s; gm_orbValues := m |} in
  let g2 := {| g1 with gm_rewind := push g1.(gm_rewind) s |} in
  Inv g2 /\ replayable g2.(gm_history) g2.(gm_state).(g_tick).
Proof.
  intros (Hb & Hk & Ha & Hq & Hcase) Hrun g1. pose proof (eq_refl : g1 = _) as E1. unfold g1 at 2 in E1. clearbody g1.
  destruct Hcase as [Hl|(q & s0 & _ & _ & Hnext)]; [congruence|].
  destruct Hnext as [Hrec Hbuf]; [by split; congruence|].
  match type of E1 with _ = fold_left _ _ ?g0 =>
    destruct (on_events_core world_chaos levels s evs g0) as [Ec Ep] end. rewrite <- E1 in Ec, Ep.
  assert (Er : gm_rewind g1 = gm_rewind g) by (change (k_rewind (core g1) = gm_rewind g); by rewrite Ec).
  rewrite Er. intros g2. pose proof (eq_refl : g2 = _) as E2. unfold g2 at 2 in E2. clearbody g2.
  assert (Eg : core g2
    = {| (core g) with k_state := s; k_history := gm_history g ++ map OutE evs; k_rewind := push (gm_rewind g) s |}).
  { rewrite E2. change ({| (core g1) with k_rewind := push (gm_rewind g) s |}
      = {| (core g) with k_state := s; k_history := gm_history g ++ map OutE evs; k_rewind := push (gm_rewind g) s |}).
    by rewrite Ec. }
  change (gm_history g2) with (k_history (core g2)). change (gm_state g2) with (k_state (core g2)).
  split; [split|]; rewrite Eg; [exact Hb| |by eapply recorded_replayable].
  rewrite E2. cbn [gm_phase]. rewrite Ep. cbn [gm_phase]. rewrite Hk. split_and!.
  - destruct Hrec as (pre & _ & _ & _ & _ & h & orbs & HR & _). by exists h, orbs.
  - by apply anchored_push.
  - intros _. cbn. rewrite Hq. split; [exact Hrec|]. apply buffer_push; [exact Hbuf|by eapply buffered_self].
Qed.

(** The tick, from the engine's answer on. *)
Lemma after_step_inv inputs s evs calls (g : G) :
  stepping s evs g -> Inv (after_step world_chaos today levels inputs s evs calls g).
Proof.
  intros Hst. pose proof Hst as (Hb & Hk & Ha & Hq & Hcase). expose after_step.
  destruct (bool_decide_reflect (g_status s = RetryNeeded)) as [Hr|Hnr].
  { destruct Hcase as [Hl|(q & s0 & Hrec & Hbuf & _)]; [congruence|by eapply retry_inv]. }
  let_name g1 E1. let_name g2 E2.
  destruct (on_events_core world_chaos levels s evs g1) as [Ec Ep]. rewrite <- E2 in Ec, Ep.
  assert (Hb2 : base_ok (core g2)) by (rewrite Ec, E1; exact Hb).
  destruct (bool_decide_reflect (g_status s = Failed)) as [|Hnf]; [by apply gameOver_inv|].
  destruct (bool_decide_reflect (g_status s = LevelDone)) as [|Hnl]; [by apply level_done_inv|].
  rewrite E2, E1. destruct (stepping_on s evs (note_orbs evs calls g.(gm_orbValues)) g Hst) as [Hi Hrep];
    [by destruct (g_status s)|]. by apply play_on_inv.
Qed.

(** What a live tick adds to the history, for the state it reaches and for the
    states it could rewind to. *)
Lemma tick_explains start h q s0 b ins (o : Out) :
  recorded levels start h q s0 -> Forall (buffered levels start h s0) (all b) -> s0.(g_status) = Running ->
  Forall (fun e => input_tick e = s0.(g_tick)) ins ->
  let r := step (live_ports world_impure) levels s0 (map inputOf q ++ map inputOf ins) (o, []) in
  recorded levels start (h ++ map InE ins) (q ++ ins) s0
  /\ Forall (buffered levels start (h ++ map InE ins) s0) (all b)
  /\ (resumable r.(state) ->
      recorded levels start ((h ++ map InE ins) ++ map OutE r.(events)) [] r.(state)
      /\ Forall (buffered levels start ((h ++ map InE ins) ++ map OutE r.(events)) r.(state)) (all b)).
Proof.
  intros Hrec Hbuf Hrun Hins. cbv zeta.
  assert (Hbuf2 : Forall (buffered levels start (h ++ map InE ins) s0) (all b)).
  { eapply Forall_impl; [exact Hbuf|]. intros x. apply buffered_grow; [|lia].
    eapply Forall_impl; [by apply queued_ticks|]. simpl. lia. }
  split_and!; [|exact Hbuf2|].
  - destruct Hrec as (pre & -> & H1 & H2 & H3 & H4). exists pre.
    split_and!; [by rewrite map_app, app_assoc|done|done|by apply Forall_app|done].
  - intros Hres. split; [by apply (recorded_tick levels _ _ _ _ s0)|].
    destruct (step_clock (live_ports world_impure) levels s0 (map inputOf q ++ map inputOf ins) (o, []) Hrun)
      as ((Hc & _) & He & _).
    eapply Forall_impl; [exact Hbuf2|]. intros x. apply buffered_grow; [|lia].
    rewrite Forall_map. eapply Forall_impl; [exact He|]. simpl. lia.
Qed.

(** A tick of play asks the engine. *)
Lemma tick_steps (g : G) :
  base_ok (core g) -> live (core g) -> kind g.(gm_phase) = KPlaying ->
  exists inputs s evs calls (g' : G),
    tick world_impure world_chaos today levels g = after_step world_chaos today levels inputs s evs calls g'
    /\ stepping s evs g' /\ g'.(gm_store) = g.(gm_store).
Proof.
  intros Hb (Hres & Ha & Hlive) Hk. simpl in Hres, Ha, Hlive. cbv delta [tick] beta.
  destruct (take_inputs {| g with gm_queued := [] |}) as [pending g1] eqn:Eg1.
  assert (Est : gm_store g1 = gm_store g).
  { pose proof (f_equal (fun x => gm_store x.2) Eg1) as E. cbn [snd] in E. rewrite <- E.
    unfold take_inputs. cbn. by destruct (gm_playback g). }
  pose proof (take_inputs_same {| g with gm_queued := [] |}) as [Etc Etp]. rewrite Eg1 in Etc, Etp. cbn [snd] in Etc, Etp.
  clear Eg1. cbv beta iota zeta. do 5 eexists. split; [reflexivity|].
  set (t := g_tick (gm_state g)). set (q := gm_queued g).
  match goal with |- context [step _ _ (gm_state ?x) ?i _] => set (g2 := x); set (inputs := i) end.
  set (r := step _ _ _ _ _).
  assert (Hins : Forall (fun e => input_tick e = (gm_state g).(g_tick)) (map (Input t) pending)).
  { rewrite Forall_map. by apply Forall_true. }
  assert (Ein : inputs = map inputOf q ++ map inputOf (map (Input t) pending)) by (by rewrite map_map).
  assert (Er' : r = step (live_ports world_impure) levels (gm_state g) inputs (gm_out g1, [])).
  { subst r g2. cbn. change (gm_state g1) with (k_state (core g1)). by rewrite Etc. }
  assert (E4 : core {| g2 with gm_out := (port r).1 |}
    = {| (core g) with k_history := gm_history g ++ map InE (map (Input t) pending); k_queued := [] |}).
  { pose proof (live_ports_kept (gm_state g) inputs (gm_out g1)) as [Ho _]. rewrite <- Er' in Ho.
    clearbody r inputs. subst g2. rewrite map_map. unfold core, gm_tape in *. cbn in *. injection Etc. intros. by f_equal; congruence. }
  assert (Ep : gm_phase {| g2 with gm_out := (port r).1 |} = gm_phase g) by done.
  split; [|exact Est]. clearbody r inputs. set (g3 := {| g2 with gm_out := _ |}) in *. clearbody g3 g2.
  assert (H4 : gm_start g3 = gm_start g /\ gm_history g3 = gm_history g ++ map InE (map (Input t) pending)
    /\ gm_queued g3 = [] /\ gm_rewind g3 = gm_rewind g).
  { change (gm_start g3) with (k_start (core g3)). change (gm_history g3) with (k_history (core g3)).
    change (gm_queued g3) with (k_queued (core g3)). change (gm_rewind g3) with (k_rewind (core g3)).
    by rewrite E4. }
  destruct H4 as (H41 & H42 & H43 & H44).
  split_and!; [by rewrite E4|by rewrite Ep|by rewrite H44|done|].
  rewrite H41, H42, H44, Er', Ein.
  destruct (bool_decide_reflect (g_status (gm_state g) = Running)) as [Hrun|Hrun].
  - right. exists (q ++ map (Input t) pending), (gm_state g). destruct (Hlive Hrun) as [Hrec Hbuf]. by apply tick_explains.
  - left. unfold step. rewrite bool_decide_false by done. cbn [negb state].
    destruct Hres as (h & orbs & HR). destruct (Run_step _ _ _ _ _ HR) as (_ & _ & H1 & H2).
    by destruct (g_status (gm_state g)).
Qed.

Lemma tick_inv (g : G) :
  base_ok (core g) -> live (core g) -> kind g.(gm_phase) = KPlaying ->
  Inv (tick world_impure world_chaos today levels g).
Proof.
  intros Hb Hl Hk. destruct (tick_steps g Hb Hl Hk) as (i & s & evs & c & g' & -> & Hst & _). by apply after_step_inv.
Qed.

(** ** Replaying *)

(** A runtime input is recorded at once. *)
Lemma live_recordInput e (g : G) :
  live (core g) -> input_tick e = g.(gm_state).(g_tick) -> live (core (recordInput e g)).
Proof.
  intros (Hres & Ha & Hl) He. split_and!; [exact Hres|exact Ha|].
  intros Hrun. destruct (Hl Hrun) as [(pre & Eh & H1 & H2 & H3 & H4) Hbuf]. cbn in *. split.
  - exists pre. rewrite Eh, map_app, <- app_assoc. split_and!; [done|done|done| |done].
    apply Forall_app. split; [done|by constructor].
  - eapply Forall_impl; [exact Hbuf|]. intros x. apply buffered_grow; [|lia].
    constructor; [simpl; lia|constructor].
Qed.

Lemma rp_ports_kept h s ins (o : Out) : out_kept o (step (rp_ports h impure_) levels s ins o).(port).
Proof.
  destruct (step_factors (rp_ports h impure_) levels s ins o) as (ans & Hs & _).
  apply (supplies_kept _ out_kept) in Hs; [exact Hs|apply out_kept_refl|apply out_kept_trans|apply impure_kept|].
  intros id p. unfold rp_ports, replay_ports. simpl.
  destruct (crateResults h !! id); [apply out_kept_refl|apply impure_kept].
Qed.

Lemma advance_tick_kept h t (r : Replayer Out) :
  out_kept r.(rp_port) (advance_tick levels h t impure_ r).(rp_port).
Proof.
  unfold advance_tick. cbv zeta. set (ins := map inputOf _).
  pose proof (rp_ports_kept h (rp_state r) ins (rp_port r)) as K.
  destruct (step _ _ _ _ _) as [s' evs p']. simpl in *. by destruct (_ || _).
Qed.

Lemma replay_ticks_stage start h t n : forall (r : Replayer Out) b,
  replay_stage levels start h t r b ->
  let x := replay_ticks world_impure levels h t n r b in
  replay_stage levels start h t x.1 x.2 /\ out_kept r.(rp_port) x.1.(rp_port).
Proof.
  induction n as [|n IH]; intros r b Hs; cbn [replay_ticks]; [split; [done|apply out_kept_refl]|].
  destruct (rp_done r) eqn:D; [split; [done|apply out_kept_refl]|].
  cbn [advance]. rewrite D.
  pose proof (replay_stage_tick levels start h t impure_ r b D Hs) as Hs'. cbv zeta in Hs'.
  destruct (IH _ _ Hs') as [H1 H2]. split; [exact H1|].
  eapply out_kept_trans; [apply advance_tick_kept|exact H2].
Qed.

Lemma replay_succeeded_inv s (g : G) :
  base_ok (core g) -> reached g.(gm_start) s -> anchored g.(gm_rewind) ->
  (s.(g_status) = Running ->
     recorded levels g.(gm_start) g.(gm_history) (waiting g.(gm_history) s.(g_tick)) s
     /\ Forall (buffered levels g.(gm_start) g.(gm_history) s) (all g.(gm_rewind))) ->
  Inv (replay_succeeded world_chaos levels s g).
Proof.
  intros Hb Hres Ha Hrun. expose replay_succeeded. let_name g1 E1. let_name g2 E2.
  assert (Ec : core g2 = core g1).
  { rewrite E2. apply with_chaos_same. intros o. apply scheduleNext_kept. }
  let_name qs Eq. let_name g3 E3. let_name n En.
  assert (Hq : qs = waiting (gm_history g) s.(g_tick)).
  { rewrite Eq. change (gm_history g2) with (k_history (core g2)). by rewrite Ec, E1. }
  assert (Hg : core {| g2 with gm_queued := qs |} = {| (core g) with k_state := s; k_queued := qs |}).
  { change ({| (core g2) with k_queued := qs |} = {| (core g) with k_state := s; k_queued := qs |}).
    by rewrite Ec, E1. }
  assert (Hl : live (core g3) /\ base_ok (core g3)).
  { rewrite E3. split.
    - apply live_recordInput; [rewrite Hg|].
      + split_and!; [exact Hres|exact Ha|]. intros Hr. cbn. rewrite Hq. by apply Hrun.
      + change (s.(g_tick) = (k_state (core {| g2 with gm_queued := qs |})).(g_tick)). by rewrite Hg.
    - change (base_ok (core {| g2 with gm_queued := qs |})). rewrite Hg. exact Hb. }
  eapply Inv_moved; [apply setPhase_moved|apply Hl|apply Hl].
Qed.

Lemma replay_diverged_inv d s (g : G) : base_ok (core g) -> Inv (replay_diverged world_chaos levels d s g).
Proof.
  intros Hb. expose replay_diverged. let_name g1 E1. let_name g2 E2.
  assert (Hb2 : base_ok (core g2)).
  { rewrite E2, (proj1 (closeSegment_same _ _)), E1. exact Hb. }
  let_name g3 E3. let_name g4 E4.
  destruct (beginSegment_core (continueAsNew s boss_patch) false g2) as [Ec Ep].
  pose proof (beginSegment_live (continueAsNew s boss_patch) false g2) as Hl. rewrite <- E3 in Ec, Ep, Hl.
  eapply Inv_same; [apply setNotice_same|]. rewrite E4. split.
  - change (base_ok (core g3)). rewrite Ec. exact Hb2.
  - change (gm_phase (recordInput (OrchestratorStarted 0) g3)) with (gm_phase g3). rewrite Ep.
    apply live_recordInput; [exact Hl|]. change (gm_state g3) with (k_state (core g3)). by rewrite Ec.
Qed.

Lemma advanceReplay_inv (g : G) :
  base_ok (core g) -> replaying (core g) -> kind g.(gm_phase) = KReplaying ->
  Inv (advanceReplay world_impure world_chaos levels g).
Proof.
  intros Hb (r & Er & Hrep & Hs & Est) Hk. simpl in Er, Hrep, Hs, Est. expose advanceReplay. rewrite Er. cbv beta iota.
  pose proof (replay_ticks_stage (gm_start g) (gm_history g) (gm_crashTick g)
    (Z.to_nat (gm_replayTicksPerFrame g)) {| r with rp_port := gm_out g |} (gm_rewind g) Hs) as [Hs' Ho].
  destruct (replay_ticks _ _ _ _ _ _ _) as [r' b']. cbn [fst snd rp_port] in Hs', Ho. cbv beta iota.
  let_name g1 E1.
  assert (Ec : core g1 = {| (core g) with k_replayer := Some r'; k_rewind := b'; k_state := r'.(rp_state) |}).
  { rewrite E1. unfold core, gm_tape. cbn. by rewrite (proj1 Ho). }
  assert (Ep : gm_phase g1 = gm_phase g) by (by rewrite E1). clear E1.
  destruct (rp_done r') eqn:D; cbv beta iota delta [negb].
  2: { split; rewrite Ec; [exact Hb|]. rewrite Ep, Hk. by exists r'. }
  let_name g2 E2. let_name res Eres. let_name g3 E3.
  assert (Ec3 : core g3 = {| (core g1) with k_replayer := None |}) by (by rewrite E3, E2).
  rewrite Ec in Ec3. clear Ec Ep E2 E3.
  assert (Hb3 : base_ok (core g3)) by (rewrite Ec3; exact Hb).
  destruct res as [s|d s]; [|by apply replay_diverged_inv].
  unfold result in Eres. destruct (rp_divergedAt r') eqn:Dv; [done|]. injection Eres as ->.
  pose proof Hs' as (Hf & _ & _ & Ha & _).
  apply replay_succeeded_inv; [done| | |].
  - change (gm_start g3) with (k_start (core g3)). rewrite Ec3.
    destruct (Hf Dv) as (_ & _ & h & orbs & _ & _ & _ & _ & _ & HR & _). by exists h, orbs.
  - change (anchored (k_rewind (core g3))). by rewrite Ec3.
  - intros Hrun. change (gm_start g3) with (k_start (core g3)). change (gm_history g3) with (k_history (core g3)).
    change (gm_rewind g3) with (k_rewind (core g3)). rewrite Ec3. by eapply replay_stage_settled.
Qed.

(** ** Frames *)

Lemma confirm_inv (g : G) : Inv g -> Inv (confirm world_chaos levels g).
Proof.
  intros Hi. pose proof Hi as [Hb Hp]. unfold confirm. destruct (kind (gm_phase g)) eqn:K; try exact Hi.
  - eapply Inv_moved; [apply setPhase_moved|exact Hb|exact Hp].
  - eapply Inv_same; [apply setNotice_same|]. by apply beginSegment_inv.
Qed.

Lemma core_playback (g : G) : gm_playback g = k_playback (core g).
Proof. done. Qed.

Lemma confirm_playback (g : G) : gm_playback (confirm world_chaos levels g) = gm_playback g.
Proof.
  unfold confirm. destruct (kind _); try done. rewrite core_playback.
  by rewrite (proj1 (setNotice_same _ _)), (proj1 (beginSegment_core _ _ _)).
Qed.

Lemma live_ticks_inv n : forall g : G, Inv g -> Inv (live_ticks world_impure world_chaos today levels n g).
Proof.
  induction n as [|n IH]; intros g Hi; cbn [live_ticks]; [done|].
  destruct (bool_decide_reflect (kind (gm_phase g) = KPlaying)) as [K|K]; [|done].
  destruct (negb _); [|done]. apply IH. destruct Hi as [Hb Hp]. rewrite K in Hp. by apply tick_inv.
Qed.

Lemma autoplay_inv (g : G) : Inv g -> g.(gm_playback) = true -> Inv (autoplay world_chaos levels g).
Proof.
  intros Hi Hpb. expose autoplay. let_name k Ek. let_name g1 E1.
  assert (Hi1 : Inv g1) by (rewrite E1; destruct (_ || _); [by apply confirm_inv|done]).
  assert (Hpb1 : gm_playback g1 = true).
  { rewrite E1. destruct (_ || _); [|done]. by rewrite confirm_playback. }
  clear E1. destruct (tp_restarts (gm_tape g1) !! gm_restartCursor g1) as [r|] eqn:L; [|done].
  destruct (_ && _); [|done]. let_name g2 E2.
  destruct Hi1 as [Hb1 _].
  apply restoreSave_inv; [rewrite E2; exact Hb1|].
  destruct Hb1 as [_ Hb1]. specialize (Hb1 Hpb1). exact (Forall_lookup_1 _ _ _ _ Hb1 L).
Qed.

Lemma endMontage_inv (g : G) : base_ok (core g) -> live (core g) -> Inv (endMontage g).
Proof. intros Hb Hl. unfold endMontage. eapply Inv_moved; [apply setPhase_moved|exact Hb|exact Hl]. Qed.

Lemma step_phase_inv n (g : G) : Inv g -> Inv (step_phase world_impure world_chaos today levels n g).
Proof.
  intros Hi. pose proof Hi as [Hb Hp]. expose step_phase.
  destruct (gm_phase g) eqn:P; cbn [kind phase_ok] in Hp; try exact Hi.
  - by apply live_ticks_inv.
  - destruct (1 <? _); [by split|by apply startReplay_inv].
  - by apply advanceReplay_inv; [..|rewrite P].
  - destruct (_ <? _)%nat; [by split|]. eapply Inv_moved; [apply setPhase_moved|exact Hb|exact Hp].
  - let_name g1 E1. assert (Hb1 : base_ok (core g1)) by (rewrite E1; exact Hb).
    assert (Hl1 : live (core g1)) by (rewrite E1; exact Hp).
    assert (Hi1 : Inv g1) by (rewrite E1; split; [exact Hb|exact Hp]).
    destruct (gm_montage g1) as [m|]; [destruct (mo_done m)|]; try exact Hi1; by apply endMontage_inv.
Qed.

Lemma frameStep_inv n (g : G) : Inv g -> Inv (frameStep world_impure world_chaos today levels n g).
Proof.
  intros Hi. expose frameStep. let_name g1 E1.
  assert (Hi1 : Inv g1) by (rewrite E1; destruct (gm_playback g) eqn:Pb; [by apply autoplay_inv|done]).
  let_name g2 E2. assert (Hi2 : Inv g2) by (rewrite E2; by apply step_phase_inv).
  destruct (_ && _); [apply gameOver_inv, Hi2|done].
Qed.

Lemma frame_inv n (g : G) : Inv g -> Inv (frame world_impure world_chaos today levels n g).
Proof.
  intros Hi. unfold frame. generalize (Z.to_nat (playbackSpeed g)). intros m.
  induction m as [|m IH]; simpl; [done|by apply frameStep_inv].
Qed.

(** ** Commands *)

Lemma leavePlayback_base (g : G) : base_ok (core g) -> base_ok (core (leavePlayback today g)).
Proof. intros [H1 _]. by split. Qed.

Lemma startRun_inv (g : G) : base_ok (core g) -> Inv (startRun world_chaos levels g).
Proof. intros Hb. unfold startRun. by apply beginSegment_inv. Qed.

Lemma newRun_inv (g : G) : base_ok (core g) -> Inv (newRun world_chaos today levels g).
Proof.
  intros Hb. expose newRun. let_name g1 E1. let_name g2 E2. apply startRun_inv.
  assert (H1 : base_ok (core g1)) by (rewrite E1; by apply leavePlayback_base).
  rewrite E2. destruct H1 as [H1 _]. split; [exact H1|]. intros Hp. rewrite E1 in Hp. discriminate Hp.
Qed.

Lemma resumeSaved_inv v (g : G) :
  base_ok (core g) -> g.(gm_savedRun) = Some v -> g.(gm_playback) = false -> Inv (resumeSaved world_chaos levels v g).
Proof.
  intros [H1 _] Hv Hp. expose resumeSaved. let_name tp Et. let_name rs Er. let_name g1 E1. let_name g2 E2.
  apply restoreSave_inv; [|exact (H1 _ Hv)].
  rewrite E2, E1. split; [done|]. cbn. rewrite Hp. done.
Qed.

Lemma phase_command_inv c (g : G) :
  Inv g -> (g.(gm_playback) = true -> kind g.(gm_phase) = KResume -> c = CPause) ->
  Inv (phase_command world_chaos today levels c g).
Proof.
  intros Hi Hk. pose proof Hi as [Hb Hp]. expose phase_command.
  destruct (gm_phase g) eqn:P; cbn [kind phase_ok] in Hp, Hk; try exact Hi.
  - destruct (bool_decide _); [by apply newRun_inv|done].
  - assert (Hc : Inv (setPhase PTitle (on_store st_clear {| g with gm_savedRun := None |}))).
    { eapply Inv_moved; [apply setPhase_moved|split; [done|apply Hb]|done]. }
    destruct c, (gm_savedRun g) as [v|] eqn:V; try exact Hi; try exact Hc.
    apply resumeSaved_inv; [done|done|]. destruct (gm_playback g); [by specialize (Hk eq_refl eq_refl)|done].
  - destruct (bool_decide _); [by apply confirm_inv|done].
  - assert (Hpause : Inv (save levels (setPhase PPaused g))).
    { eapply Inv_same; [apply save_same|]. eapply Inv_moved; [apply setPhase_moved|exact Hb|exact Hp]. }
    destruct c; try exact Hpause; cbn [command_input]; try exact Hi; split; cbn [gm_phase]; rewrite ?P; done.
  - destruct (bool_decide _); [|done]. eapply Inv_moved; [apply setPhase_moved|exact Hb|exact Hp].
  - destruct (bool_decide _); [by apply endMontage_inv|done].
  - destruct (bool_decide _); [by apply confirm_inv|done].
  - destruct (bool_decide _); [by apply newRun_inv|done].
Qed.

Lemma command_inv c (g : G) : Inv g -> Inv (command world_chaos today levels c g).
Proof.
  intros Hi. expose command. let_name g1 E1.
  assert (Hi1 : Inv g1) by (rewrite E1; by destruct (is_slide c)). clear E1.
  destruct (gm_playback g1) eqn:Pb.
  2: { apply phase_command_inv; [done|]. by rewrite Pb. }
  let_name k Ek.
  destruct (bool_decide (c = CConfirm) && bool_decide (k = KOver)) eqn:A1; [apply newRun_inv, Hi1|].
  destruct (bool_decide (c = CCancel) && negb _) eqn:A2.
  { eapply Inv_moved; [apply setPhase_moved|by apply leavePlayback_base, Hi1|done]. }
  let_name unpause Eu. destruct (_ && _ && _) eqn:A3; [done|].
  apply phase_command_inv; [done|]. intros _ K. rewrite <- Ek in K. rewrite Eu in A3. clear Ek Eu.
  rewrite K in *. clear -A2 A3. destruct c; first [reflexivity|vm_compute in A2; discriminate A2|vm_compute in A3; discriminate A3].
Qed.

Lemma suspend_inv (g : G) : Inv g -> Inv (suspend levels g).
Proof.
  intros Hi. unfold suspend. eapply Inv_same; [apply save_same|].
  destruct (bool_decide_reflect (kind (gm_phase g) = KPlaying)) as [K|K]; [|done].
  destruct Hi as [Hb Hp]. rewrite K in Hp. eapply Inv_moved; [apply setPhase_moved|exact Hb|exact Hp].
Qed.

Lemma setPlaybackSpeed_inv v (g : G) : Inv g -> Inv (setPlaybackSpeed v g).
Proof. intros Hi. unfold setPlaybackSpeed. by destruct (_ || _). Qed.

(** The saves on an accepted tape can be replayed. *)
Lemma tape_restarts_ok tape :
  tape_safe tape -> isTape (Some (json_of_tape tape)) = true ->
  Forall (fun r => replayable r.(rs_save).(sv_history) r.(rs_save).(sv_tick)) tape.(tp_restarts).
Proof.
  intros Ht T. apply (isTape_written _ Ht) in T as (_ & _ & _ & Hr).
  eapply Forall_impl; [exact Hr|]. intros r [_ Hw]. by apply body_replayable.
Qed.

Lemma watch_inv tape (g : G) : tape_safe tape -> Inv g -> Inv (watch world_chaos levels tape g).2.
Proof.
  intros Ht Hi. pose proof Hi as [[Hs _] Hp]. unfold watch.
  destruct (isTape (Some (json_of_tape tape))) eqn:T; cbn [negb snd]; [|exact Hi].
  apply startRun_inv. split; [exact Hs|]. intros _. by apply tape_restarts_ok.
Qed.

Lemma newGame_inv w store :
  (forall v, st_load store = Some v -> body_wf v.(sv_body)) -> Inv (newGame today levels w store).
Proof.
  intros Hs. split; [|by cbn; destruct (st_load store)]. split.
  - intros v Hv. by apply body_replayable, Hs.
  - by intros.
Qed.

Lemma reach_inv (g : G) : Reach g -> Inv g.
Proof.
  induction 1; eauto using newGame_inv, command_inv, frame_inv, suspend_inv, Inv_same, save_same, setPlaybackSpeed_inv,
    watch_inv.
Qed.

(** ** Properties *)

Definition in_run (g : G) : bool :=
  match kind g.(gm_phase) with KTip | KPlaying | KPaused | KRewinding | KMontage => true | _ => false end.

(** C2: the central invariant of the game. Whatever commands a player gives,
    however many frames pass, whatever save was found or run code is watched:
    during a run the recorded history, less the runtime inputs that wait for the
    next tick, is that of a genuine run of the engine that reached the present
    state with the same inputs and with outcomes a replay accepts. The same
    holds for every state a retry could rewind to, with the history cut at it,
    and there is always one. *)
Theorem game_history_explains_state (g : G) :
  Reach g -> in_run g = true -> g.(gm_state).(g_status) = Running ->
  recorded levels g.(gm_start) g.(gm_history) g.(gm_queued) g.(gm_state)
  /\ all g.(gm_rewind) <> []
  /\ Forall (buffered levels g.(gm_start) g.(gm_history) g.(gm_state)) (all g.(gm_rewind)).
Proof.
  intros [_ Hp]%reach_inv Hin Hrun. unfold in_run in Hin.
  assert (Hl : live (core g)) by (by destruct (kind (gm_phase g))).
  destruct Hl as (_ & [Ha _] & Hl). destruct (Hl Hrun) as [Hrec Hbuf]. by split_and!.
Qed.

Lemma replayable_ordered t h : replayable h t -> ordered_wf t None h /\ Forall (fun e => 0 <= ev_tick e) h.
Proof.
  intros [Hs Ht Hu _]. split; [|done].
  assert (Hg : forall prev, (forall p, prev = Some p -> Forall (fun e => p <= ev_tick e) h) -> ordered_wf t prev h);
    [|by apply Hg].
  clear Ht. induction Hs as [|e l Hl IH He]; intros prev Hp; simpl; [done|].
  inversion Hu; subst. split_and!; [|done|].
  - destruct prev as [p|]; [|done]. by specialize (Hp p eq_refl); inversion Hp; subst.
  - apply IH; [done|]. by intros p [= <-].
Qed.
End GamePlay.

#[global] Arguments Reach {W St _}.

(** ** Witnesses *)

(** A browser that stores nothing, and a still world. *)
#[export] Instance no_store : SaveStore unit := {|
  st_load := fun _ => None; st_save := fun _ s => s; st_clear := fun s => s; st_loadBest := fun _ => 0;
  st_saveBest := fun _ s => s; st_loadDailyBest := fun _ _ => 0; st_saveDailyBest := fun _ _ s => s |}.
Definition still (w : unit) : num * unit := (0.5%float, w).
Definition a_day (w : unit) : string := "2026-01-01".

Definition demo_command (c : Command) (g : Game (W := unit) (St := unit)) := command still a_day LEVELS c g.
Definition demo_frame (n : nat) (g : Game (W := unit) (St := unit)) := frame still still a_day LEVELS n g.

(** Title, new run, the tip dismissed, a jump, and three ticks. *)
Definition demo_game : Game (W := unit) (St := unit) :=
  demo_frame 3 (demo_command CJump (demo_command CConfirm (demo_command CConfirm (newGame a_day LEVELS tt tt)))).

Lemma demo_game_reached : Reach still still a_day LEVELS demo_game.
Proof. apply Reach_frame. do 3 apply Reach_command. by apply Reach_new. Qed.

Lemma demo_game_check :
  in_run demo_game = true /\ demo_game.(gm_state).(g_status) = Running
  /\ demo_game.(gm_state).(g_tick) = 3 /\ demo_game.(gm_history) = [InE (Input 0 Jump)].
Proof. vm_compute. by split_and!. Qed.

Lemma game_history_explains_state_witness :
  demo_game.(gm_history) = [InE (Input 0 Jump)]
  /\ recorded LEVELS demo_game.(gm_start) demo_game.(gm_history) demo_game.(gm_queued) demo_game.(gm_state).
Proof.
  destruct demo_game_check as (H1 & H2 & _ & H4). split; [exact H4|].
  apply (game_history_explains_state still still a_day LEVELS demo_game demo_game_reached H1 H2).
Defined.
