(* ===== verification/GameCrash.v ===== *)
(** * A crash is survived

    [crash], [startReplay] and [advanceReplay] of [runtime/game.ts] composed
    over frames: the countdown, the replay a few ticks per frame, and the
    resumption. *)

From S2P Require Import Prelude JsNum JsMap Types Levels Rng Step StepFacts StepInv.
From S2P Require Import Replayer RuntimeTypes Json Tape Rewind Chaos Montage Persistence.
From S2P Require Import Game GameFacts GameInv GamePlay.
#[local] Open Scope Z_scope.

(** ** Definitions *)

Section GameCrash.
Context {W St : Type} `{SaveStore St}.
Context (world_impure world_chaos : W -> num * W) (today : W -> string) (levels : LevelTable).

Abbreviation Out := (Outside (W := W)).
Abbreviation G := (@Game W St).
Abbreviation impure_ := (source_impure world_impure).
Abbreviation frame_ := (frame world_impure world_chaos today levels).

(** What a replay may not change. *)
Definition kept (g0 g : G) : Prop :=
  g.(gm_start) = g0.(gm_start) /\ g.(gm_history) = g0.(gm_history) /\ g.(gm_segments) = g0.(gm_segments)
  /\ g.(gm_orbValues) = g0.(gm_orbValues) /\ g.(gm_divergedAt) = g0.(gm_divergedAt)
  /\ g.(gm_playback) = g0.(gm_playback).

Definition one_replay (st : RunStats) (served : Z) : RunStats :=
  {| st with replays := st.(replays) + 1; fromHistory := st.(fromHistory) + served |}.

(** Play goes on where it stopped; history tells that the orchestrator
    started again. *)
Definition resumed (g0 g : G) : Prop :=
  let e := OrchestratorStarted g0.(gm_state).(g_tick) in
  g.(gm_phase) = PPlaying /\ g.(gm_state) = g0.(gm_state)
  /\ g.(gm_history) = g0.(gm_history) ++ [InE e] /\ g.(gm_queued) = g0.(gm_queued) ++ [e]
  /\ g.(gm_start) = g0.(gm_start) /\ g.(gm_segments) = g0.(gm_segments)
  /\ g.(gm_orbValues) = g0.(gm_orbValues) /\ g.(gm_divergedAt) = g0.(gm_divergedAt)
  /\ g.(gm_playback) = g0.(gm_playback)
  /\ g.(gm_stats) = one_replay g0.(gm_stats)
       (Z.of_nat (length (List.filter is_activity g0.(gm_history)))).

(** ** The countdown *)

Lemma frame_once n (g : G) :
  g.(gm_playback) = false -> frame_ n g = frameStep world_impure world_chaos today levels n g.
Proof. intros Hp. unfold frame, playbackSpeed. by rewrite Hp. Qed.

Lemma frameStep_live n (g g' : G) :
  g.(gm_playback) = false -> step_phase world_impure world_chaos today levels n g = g' ->
  g'.(gm_playback) = false -> frameStep world_impure world_chaos today levels n g = g'.
Proof. intros Hp E Hp'. unfold frameStep. by rewrite Hp, E, Hp'. Qed.

Definition counting (f : Z) (g : G) : G := {| g with gm_phase := PCrashing f |}.

Lemma countdown k (g : G) m : g.(gm_playback) = false ->
  Nat.iter m (frame_ k) (counting (Z.of_nat m + 1) g) = counting 1 g.
Proof.
  intros Hp. induction m as [|m IH]; [done|].
  rewrite Nat.iter_succ_r. rewrite <- IH. f_equal.
  rewrite frame_once by done. apply frameStep_live; [done| |done].
  cbn [step_phase counting gm_phase]. rewrite (proj2 (Z.ltb_lt _ _)) by lia. unfold counting. simpl.
  do 2 f_equal. lia.
Qed.

(** ** The replay *)

Lemma replay_ticks_advance h t n : forall (r : Replayer Out) b,
  (replay_ticks world_impure levels h t n r b).1 = advance levels h t impure_ n r.
Proof.
  induction n as [|n IH]; intros r b; cbn [replay_ticks]; [done|].
  destruct (rp_done r) eqn:D; [by rewrite advance_done|].
  rewrite IH. cbn [advance]. by rewrite D.
Qed.

Section Recovery.
Context (g0 : G) (h : list HistoryEvent) (orbs : list num) (p0 : Out).
Abbreviation toTick := (g0.(gm_state).(g_tick)).
Abbreviation create := (createReplayer levels g0.(gm_start) toTick p0).
Abbreviation adv n := (advance levels g0.(gm_history) toTick impure_ n create).

Hypothesis Hrun : Run levels g0.(gm_start) h g0.(gm_state) orbs.
Hypothesis Hstatus : g0.(gm_state).(g_status) = Running.
Hypothesis Hhist : g0.(gm_history) = h ++ map InE g0.(gm_queued).
Hypothesis Hqueued : Forall (fun e => input_tick e = toTick) g0.(gm_queued).
Hypothesis Hgives : gives impure_ p0 orbs.

(** The replay is done exactly as live play left it. *)
Lemma adv_end :
  exists p, adv (Z.to_nat toTick)
    = {| rp_state := g0.(gm_state); rp_cursor := length h; rp_divergedAt := None; rp_done := true; rp_port := p |}.
Proof.
  pose proof (Run_ids _ _ _ _ _ Hrun) as [_ _ _ Hn _ _].
  rewrite <- (app_nil_r orbs) in Hgives.
  destruct (advance_run levels g0.(gm_start) impure_ toTick g0.(gm_history) h g0.(gm_state) orbs Hrun
              (map InE g0.(gm_queued)) [] p0 Hhist) as (p' & Ha & _); [|done| |done|].
  - rewrite Forall_map. eapply Forall_impl; [exact Hqueued|]. simpl. lia.
  - intros t id hash v Hin. rewrite Hhist, crateResults_inputs. by eapply crateResults_lookup.
  - exists p'. by rewrite Ha, Z.leb_refl.
Qed.

Lemma adv_done n : (adv n).(rp_done) = true -> adv n = adv (Z.to_nat toTick).
Proof.
  intros D. destruct (Nat.le_ge_cases n (Z.to_nat toTick)) as [Hle|Hge].
  - replace (Z.to_nat toTick) with (n + (Z.to_nat toTick - n))%nat by lia.
    by rewrite advance_add, (advance_done _ _ _ _ _ (adv n)).
  - destruct adv_end as [p E]. replace n with (Z.to_nat toTick + (n - Z.to_nat toTick))%nat by lia.
    rewrite advance_add, advance_done; [done|]. by rewrite E.
Qed.

Lemma adv_past n : (Z.to_nat toTick <= n)%nat -> (adv n).(rp_done) = true.
Proof.
  intros Hle. replace n with (Z.to_nat toTick + (n - Z.to_nat toTick))%nat by lia.
  destruct adv_end as [p E]. rewrite advance_add, advance_done; by rewrite E.
Qed.

(** A game that is [n] ticks into the replay. *)
Definition into (n : nat) (g : G) : Prop :=
  g.(gm_phase) = PReplaying /\ kept g0 g /\ g.(gm_crashTick) = toTick
  /\ g.(gm_replayer) = Some (adv n) /\ g.(gm_out) = (adv n).(rp_port)
  /\ 1 <= g.(gm_replayTicksPerFrame)
  /\ g.(gm_stats) = {| g0.(gm_stats) with replays := g0.(gm_stats).(replays) + 1 |}.

Lemma waiting_queued : waiting g0.(gm_history) toTick = g0.(gm_queued).
Proof.
  destruct (Run_step _ _ _ _ _ Hrun) as (_ & Ht & _).
  destruct (waiting_app g0.(gm_history) toTick h (map InE g0.(gm_queued))) as [E _]; [| | |done|].
  - eapply Forall_impl; [exact Ht|]. simpl. lia.
  - rewrite Forall_map. eapply Forall_impl; [exact Hqueued|]. simpl. lia.
  - rewrite Forall_map. eapply Forall_impl; [exact Hqueued|]. simpl. lia.
  - apply (f_equal (omap as_input)) in E.
    pose proof (fun q => proj1 (omap_in_map q [])) as Hm. cbn in Hm. setoid_rewrite app_nil_r in Hm.
    by rewrite !Hm in E.
Qed.

(** The end of the replay. *)
Lemma replay_succeeded_resumed (g : G) :
  kept g0 g ->
  g.(gm_stats) = one_replay g0.(gm_stats) (Z.of_nat (length (List.filter is_activity g0.(gm_history)))) ->
  resumed g0 (replay_succeeded world_chaos levels g0.(gm_state) g).
Proof.
  intros (K1 & K2 & K3 & K4 & K5 & K6) Hst. expose replay_succeeded. let_name g1 E1. let_name g2 E2.
  assert (E : gm_start g2 = gm_start g0 /\ gm_history g2 = gm_history g0 /\ gm_segments g2 = gm_segments g0
    /\ gm_orbValues g2 = gm_orbValues g0 /\ gm_divergedAt g2 = gm_divergedAt g0 /\ gm_stats g2 = gm_stats g
    /\ gm_state g2 = gm_state g0 /\ gm_playback g2 = gm_playback g0).
  { rewrite E2, E1. unfold with_chaos. cbn. by destruct (scheduleNext _ _ _ _ _ _). }
  destruct E as (F1 & F2 & F3 & F4 & F5 & F6 & F7 & F8).
  let_name qs Eq. assert (Hq : qs = g0.(gm_queued)) by (rewrite Eq, F2; exact waiting_queued).
  let_name g3 E3. let_name n En. unfold resumed. cbn. rewrite E3. cbn. rewrite Hq, F1, F2, F3, F4, F5, F6, F7, F8.
  by split_and!.
Qed.

(** A frame of replay: further into it, or play resumes. *)
Lemma advanceReplay_into n (g : G) :
  into n g ->
  resumed g0 (advanceReplay world_impure world_chaos levels g)
  \/ (exists n', (n < n')%nat /\ (n' < Z.to_nat toTick)%nat
        /\ into n' (advanceReplay world_impure world_chaos levels g)).
Proof.
  intros (P & Hk & Hc & Hr & Ho & Hper & Hst). pose proof Hk as (K1 & K2 & K3 & K4 & K5 & K6).
  expose advanceReplay. rewrite Hr, Hc, K2. cbv beta iota.
  assert (Ep : {| (adv n) with rp_port := gm_out g |} = adv n) by (rewrite Ho; by destruct (adv n)).
  rewrite Ep. set (m := Z.to_nat g.(gm_replayTicksPerFrame)).
  pose proof (replay_ticks_advance (gm_history g0) toTick m (adv n) (gm_rewind g)) as Er.
  destruct (replay_ticks _ _ _ _ _ _ _) as [r b]. cbn [fst] in Er.
  rewrite <- advance_add in Er. cbv beta iota.
  match goal with |- resumed g0 ?z \/ _ =>
    change ((fun x => resumed g0 x \/ (exists n', (n < n')%nat /\ (n' < Z.to_nat toTick)%nat /\ into n' x)) z) end.
  let_name g1 E1.
  assert (Hk1 : kept g0 g1) by (rewrite E1; by split_and!).
  destruct (rp_done r) eqn:D; cbv beta iota delta [negb].
  - left. let_name g2 E2. let_name res Eres. let_name g3 E3.
    rewrite Er in D. pose proof (adv_done _ D) as Ed. rewrite <- Er in Ed. destruct adv_end as [p Ee].
    rewrite Ed, Ee in Eres. cbv in Eres. rewrite Eres.
    apply replay_succeeded_resumed; [rewrite E3, E2; exact Hk1|]. clear Hk1.
    rewrite E3, E2, Eres. cbn. rewrite E1. cbn. rewrite Hst. done.
  - right. exists (n + m)%nat. split_and!; [subst m; lia| |].
    + destruct (Nat.le_gt_cases (Z.to_nat toTick) (n + m)) as [Hle|]; [|done].
      apply adv_past in Hle. congruence.
    + rewrite E1, Er. split_and!; done.
Qed.

Lemma replay_frame k n (g : G) :
  g0.(gm_playback) = false -> into n g ->
  resumed g0 (frame_ k g) \/ (exists n', (n < n')%nat /\ (n' < Z.to_nat toTick)%nat /\ into n' (frame_ k g)).
Proof.
  intros Hp0 Hin. pose proof Hin as (P & Hk & _). pose proof Hk as (_ & _ & _ & _ & _ & K6).
  assert (Hp : g.(gm_playback) = false) by congruence. rewrite frame_once by done.
  assert (E : step_phase world_impure world_chaos today levels k g = advanceReplay world_impure world_chaos levels g)
    by (unfold step_phase; by rewrite P).
  destruct (advanceReplay_into n g Hin) as [Hr|(n' & H1 & H2 & H3)].
  - left. rewrite (frameStep_live k g _ Hp E); [done|]. destruct Hr as (_ & _ & _ & _ & _ & _ & _ & _ & Hr & _).
    congruence.
  - right. exists n'. rewrite (frameStep_live k g _ Hp E); [done|]. destruct H3 as (_ & (_ & _ & _ & _ & _ & Hr) & _).
    congruence.
Qed.

(** Frames enough for what is left of the replay. *)
Lemma replay_frames k fuel : forall n (g : G),
  g0.(gm_playback) = false -> into n g -> (Z.to_nat toTick - n < fuel)%nat ->
  exists m, (m <= fuel)%nat /\ resumed g0 (Nat.iter m (frame_ k) g).
Proof.
  induction fuel as [|fuel IH]; intros n g Hp Hin Hf; [lia|].
  destruct (replay_frame k n g Hp Hin) as [Hr|(n' & H1 & H2 & H3)].
  - exists 1%nat. split; [lia|done].
  - destruct (IH n' _ Hp H3) as (m & Hm & Hr); [lia|]. exists (S m). split; [lia|].
    by rewrite Nat.iter_succ_r.
Qed.
End Recovery.

(** ** The crash *)

Lemma crash_counting (g : G) :
  exists g1, crash levels g = counting CRASH_FRAMES g1 /\ kept g g1 /\ g1.(gm_crashTick) = g.(gm_state).(g_tick)
    /\ g1.(gm_out) = g.(gm_out) /\ g1.(gm_stats) = g.(gm_stats).
Proof.
  exists (crash levels g). unfold crash, save. destruct (saves _ _); by split_and!.
Qed.

Lemma pace_pos floor ticks frames : floor <= pace floor ticks frames.
Proof. unfold pace. lia. Qed.

(** ** Properties *)

(** C3: a crash is survived. When the process crashes during a run on a durable
    level, the countdown and the replay take only so many frames, whatever the
    frame rate, and then the game is back in play in exactly the state it
    crashed in, with the inputs that were waiting, when the orbs of the run get
    the values they got live (a run that took none asks for nothing). The
    history has grown by the one event that tells of the restart, nothing
    diverged, and the statistics count one replay and the activities it served
    from history. *)
Theorem crash_is_survived (g : G) h orbs k :
  (levels g.(gm_start).(s_level)).(cfg_durable) = true -> g.(gm_playback) = false ->
  Run levels g.(gm_start) h g.(gm_state) orbs -> g.(gm_state).(g_status) = Running ->
  g.(gm_history) = h ++ map InE g.(gm_queued) ->
  Forall (fun e => input_tick e = g.(gm_state).(g_tick)) g.(gm_queued) ->
  gives impure_ g.(gm_out) orbs ->
  exists n, (n <= 91 + Z.to_nat g.(gm_state).(g_tick))%nat
    /\ resumed g (Nat.iter n (frame_ k) (crash levels g)).
Proof.
  intros Hd Hp HR Hrun Hh Hq Hg.
  destruct (crash_counting g) as (g1 & Ec & Hk & Hc & Ho & Hs). rewrite Ec. pose proof Hk as (K1 & K2 & K3 & K4 & K5 & K6).
  assert (Hp1 : gm_playback g1 = false) by congruence.
  assert (Hi : into g (gm_out g) 0 (frame_ k (counting 1 g1))).
  { rewrite frame_once by done.
    assert (E : step_phase world_impure world_chaos today levels k (counting 1 g1) = startReplay levels (counting 1 g1)) by done.
    assert (Hd1 : (levels (gm_start (counting 1 g1)).(s_level)).(cfg_durable) = true) by (simpl; by rewrite K1).
    unfold startReplay in E. rewrite Hd1 in E. cbn [negb] in E.
    rewrite (frameStep_live k (counting 1 g1) _ Hp1 E) by done.
    unfold into, kept. cbn -[pace]. rewrite K1, K2, K3, K4, K5, K6, Hc, Ho, Hs. split_and!; try done.
    etransitivity; [|apply pace_pos]. done. }
  destruct (replay_frames g h orbs (gm_out g) HR Hh Hq Hg k
    (S (Z.to_nat g.(gm_state).(g_tick))) 0 _ Hp Hi) as (m & Hm & Hr); [lia|].
  exists (m + 1 + 89)%nat. split; [lia|].
  rewrite !Nat.iter_add. change 90 with (Z.of_nat 89 + 1). by rewrite countdown.
Qed.
End GameCrash.

(** ** Witness *)

(** Three ticks of play on a durable level. *)
Definition durable_game : Game (W := unit) (St := unit) :=
  let cmd c := command still a_day demo_levels c in
  frame still still a_day demo_levels 3 (cmd CJump (cmd CConfirm (cmd CConfirm (newGame a_day demo_levels tt tt)))).

Lemma durable_game_check : durable_game.(gm_state).(g_status) = Running /\ durable_game.(gm_state).(g_tick) = 3.
Proof. vm_compute. by split. Qed.

Lemma durable_game_run :
  record_run demo_levels durable_game.(gm_start) (fun _ => 0.5%float) [[Jump]; []; []]
  = Some (durable_game.(gm_history), durable_game.(gm_state), [])
  /\ durable_game.(gm_queued) = [].
Proof. vm_compute. by split. Qed.

Lemma crash_is_survived_witness :
  durable_game.(gm_history) = [InE (Input 0 Jump)]
  /\ exists n, (n <= 94)%nat
     /\ resumed durable_game
          (Nat.iter n (frame still still a_day demo_levels 1) (crash demo_levels durable_game)).
Proof.
  destruct durable_game_run as [Hr Hq]. apply record_run_sound in Hr.
  destruct durable_game_check as (H2 & Ht'). split; [vm_compute; reflexivity|].
  destruct (crash_is_survived still still a_day demo_levels durable_game _ _ 1
    eq_refl eq_refl Hr H2) as (n & Hn & Hres).
  - rewrite Hq. cbn. by rewrite app_nil_r.
  - rewrite Hq. constructor.
  - constructor.
  - exists n. split; [rewrite Ht' in Hn; exact Hn|exact Hres].
Defined.
