(* ===== verification/GameWatch.v ===== *)
(** * What the game writes

    While a run code is played back, frames write nothing to the save store and
    take nothing from the world: everything comes from the tape.  Otherwise
    every save the game writes, whatever it is doing, has a history that the
    loader takes. *)

From S2P Require Import Prelude JsNum JsMap Types Levels Rng Step StepFacts StepInv.
From S2P Require Import Replayer RuntimeTypes Json Validate Tape Rewind Chaos Montage Persistence.
From S2P Require Import Game GameFacts GameInv GamePlay.
#[local] Open Scope Z_scope.

(** ** Definitions *)

Section GameWatch.
Context {W St : Type} `{SaveStore St}.
Context (world_impure world_chaos : W -> num * W) (today : W -> string) (levels : LevelTable).

Abbreviation Out := (Outside (W := W)).
Abbreviation G := (@Game W St).
Abbreviation impure_ := (source_impure world_impure).

Context (st : St) (w : W) (tape : Tape).

(** A game that plays back this tape, its store and world as given. *)
Definition watching (g : G) : Prop :=
  g.(gm_playback) = true /\ g.(gm_store) = st
  /\ is_player g.(gm_out).(o_source) = true /\ g.(gm_out).(o_world) = w /\ gm_tape g = tape.

(** ** Every step of a frame keeps watching *)

Lemma watching_out o (g : G) : watching g -> out_kept g.(gm_out) o -> watching {| g with gm_out := o |}.
Proof.
  intros (H1 & H2 & H3 & H4 & H5) (_ & K1 & K2). destruct (K2 H3) as [K3 K4].
  split_and!; [done|done|cbn; congruence|by cbn; rewrite K3|by unfold gm_tape in *; cbn; rewrite K4].
Qed.

Lemma save_watching (g : G) : watching g -> watching (save levels g).
Proof. intros Hw. unfold save, saves. by rewrite (proj1 Hw). Qed.

Lemma setPhase_watching p (g : G) : watching g -> watching (setPhase p g).
Proof. intros Hw. unfold setPhase. by destruct (bool_decide _). Qed.

Lemma setNotice_watching t (g : G) : watching g -> watching (setNotice t g).
Proof. done. Qed.

Lemma recordInput_watching e (g : G) : watching g -> watching (recordInput e g).
Proof. done. Qed.

Lemma with_chaos_watching f (g : G) :
  (forall o, out_kept o (f o).2) -> watching g -> watching (with_chaos f g).
Proof.
  intros Hf Hw. unfold with_chaos. specialize (Hf (gm_out g)). destruct (f (gm_out g)) as [c o].
  exact (watching_out o g Hw Hf).
Qed.

Lemma beginSegment_watching start b (g : G) :
  watching g -> watching (beginSegment world_chaos levels start b g).
Proof.
  intros Hw. expose beginSegment. let_name g1 E1. let_name g2 E2.
  apply save_watching, setPhase_watching. rewrite E2. apply with_chaos_watching; [intros o; apply chaos_start_kept|].
  rewrite E1. exact Hw.
Qed.

(** A new segment, of the same run. *)
Lemma beginSegment_fields start b (g : G) :
  let g' := beginSegment world_chaos levels start b g in
  g'.(gm_phase) = (if b then PTip start.(s_level) else PPlaying)
  /\ g'.(gm_runDate) = g.(gm_runDate) /\ g'.(gm_liveTick) = g.(gm_liveTick).
Proof.
  cbv zeta. split; [apply beginSegment_core|]. unfold beginSegment, save, setPhase, with_chaos.
  destruct (chaos_start _ _ _ _ _) as [c o]. destruct b; cbn; by destruct (saves _ _).
Qed.

Lemma closeSegment_watching t (g : G) : watching g -> watching (closeSegment levels t g).
Proof. intros Hw. unfold closeSegment. by destruct (_ || _). Qed.

Lemma confirm_watching (g : G) : watching g -> watching (confirm world_chaos levels g).
Proof.
  intros Hw. expose confirm.
  destruct (kind _); [exact Hw|exact Hw|by apply setPhase_watching|exact Hw..| |exact Hw].
  let_name g1 E1. assert (H1 : watching g1) by (rewrite E1; exact Hw).
  by apply setNotice_watching, beginSegment_watching.
Qed.

Lemma startReplay_watching (g : G) : watching g -> watching (startReplay levels g).
Proof.
  intros Hw. unfold startReplay. destruct (negb _).
  - rewrite (proj1 Hw). by apply setPhase_watching.
  - cbv zeta. apply setPhase_watching. exact Hw.
Qed.

Lemma restoreSave_watching b (g : G) : watching g -> watching (restoreSave world_chaos levels b g).
Proof.
  intros Hw. expose restoreSave. let_name g1 E1. let_name g2 E2.
  assert (H1 : watching g1) by (rewrite E1; exact Hw).
  assert (H2 : watching g2) by (rewrite E2, (proj1 H1); exact H1).
  expose restartFromHistory. let_name g3 E3. apply startReplay_watching, with_chaos_watching.
  - intros o. apply chaos_start_kept.
  - rewrite E3. exact H2.
Qed.

Lemma gameOver_watching r (g : G) : watching g -> watching (gameOver today r g).
Proof. intros Hw. unfold gameOver. rewrite (proj1 Hw). cbv zeta. by apply setPhase_watching. Qed.

Lemma crash_watching (g : G) : watching g -> watching (crash levels g).
Proof. intros Hw. unfold crash. apply save_watching, setPhase_watching. exact Hw. Qed.

Lemma hotfix_watching (g : G) : watching g -> watching (hotfix world_chaos levels g).
Proof.
  intros Hw. expose hotfix. let_name g1 E1.
  assert (H1 : watching g1) by (rewrite E1; by apply closeSegment_watching).
  by apply setNotice_watching, beginSegment_watching.
Qed.

Lemma level_done_watching s (g : G) : watching g -> watching (level_done world_chaos levels s g).
Proof.
  intros Hw. expose level_done. let_name g1 E1. let_name segs E2. let_name g2 E3.
  assert (H2 : watching g2).
  { rewrite E3. apply beginSegment_watching. rewrite E1.
    exact (closeSegment_watching s.(g_tick) {| g with gm_divergedAt := None |} Hw). }
  destruct (newMontage _ _); [by apply setPhase_watching|exact H2].
Qed.

Lemma retry_watching hit (g : G) : watching g -> watching (retry world_chaos levels hit g).
Proof.
  intros Hw. expose retry. let_name cfg Ecfg. let_name fl Ef. let_name mb Em.
  destruct (pick _ _ _ _) as [x|]; [|exact Hw].
  let_name fr Efr. let_name at_ Ea. let_name g1 E1. let_name g2 E2. let_name g3 E3.
  assert (H2 : watching g2) by (rewrite E2, E1; exact Hw).
  apply save_watching, setPhase_watching. rewrite E3.
  destruct (gm_chaos g2); [exact H2|]. apply with_chaos_watching; [intros o; apply scheduleNext_kept|exact H2].
Qed.

Lemma on_event_watching s (g : G) e : watching g -> watching (on_event world_chaos levels s g e).
Proof.
  intros Hw. unfold on_event. cbv zeta.
  destruct e; try exact Hw; (apply with_chaos_watching; [intros o; apply onPickup_kept|exact Hw]).
Qed.

Lemma on_events_watching s evs : forall g : G,
  watching g -> watching (fold_left (on_event world_chaos levels s) evs g).
Proof. induction evs as [|e evs IH]; intros g Hw; cbn [fold_left]; [done|]. by apply IH, on_event_watching. Qed.

Lemma play_on_watching evs inputs s (g : G) :
  watching g -> watching (play_on world_chaos levels evs inputs s g).
Proof.
  intros Hw. expose play_on. let_name happened Eh. let_name moved Em. clear Eh Em.
  assert (Ht : forall g, watching g -> watching (if moved then touch g else g)) by (by destruct moved).
  destruct (0 <? _); [destruct (_ <=? _); [by apply hotfix_watching|by apply Ht]|].
  destruct (isDue _ _); [by apply crash_watching|]. let_name g1 E1.
  apply Ht. rewrite E1. destruct happened; [by apply save_watching|done].
Qed.

Lemma after_step_watching inputs s evs calls (g : G) :
  watching g -> watching (after_step world_chaos today levels inputs s evs calls g).
Proof.
  intros Hw. expose after_step. destruct (bool_decide _); [by apply retry_watching|].
  let_name g1 E1. let_name g2 E2.
  assert (H2 : watching g2) by (rewrite E2; apply on_events_watching; rewrite E1; exact Hw).
  destruct (bool_decide _); [by apply gameOver_watching|].
  destruct (bool_decide _); [by apply level_done_watching|]. by apply play_on_watching.
Qed.

Lemma take_inputs_watching (g : G) : watching g -> watching (take_inputs g).2.
Proof.
  intros Hw. unfold take_inputs. destruct Hw as (H1 & H2 & H3 & H4 & H5). cbn. rewrite H1. by split_and!.
Qed.

Lemma tick_watching (g : G) : watching g -> watching (tick world_impure world_chaos today levels g).
Proof.
  intros Hw. expose tick. let_name t Et. let_name q Eq.
  pose proof (take_inputs_watching {| g with gm_queued := [] |} Hw) as H1.
  destruct (take_inputs _) as [pending g1]. cbn [snd] in H1.
  let_name inputs Ei. let_name g2 E2. let_name r Er. apply after_step_watching.
  assert (H2 : watching g2) by (rewrite E2; exact H1). apply (watching_out _ g2 H2).
  rewrite Er. apply live_ports_kept.
Qed.

Lemma advance_watching h t n : forall (r : Replayer Out) b,
  out_kept r.(rp_port) (replay_ticks world_impure levels h t n r b).1.(rp_port).
Proof.
  induction n as [|n IH]; intros r b; cbn [replay_ticks]; [apply out_kept_refl|].
  destruct (rp_done r) eqn:D; [apply out_kept_refl|]. cbn [advance]. rewrite D.
  eapply out_kept_trans; [apply advance_tick_kept|apply IH].
Qed.

Lemma advanceReplay_watching (g : G) :
  watching g -> watching (advanceReplay world_impure world_chaos levels g).
Proof.
  intros Hw. expose advanceReplay. destruct (gm_replayer g) as [r|]; [|exact Hw].
  pose proof (advance_watching (gm_history g) (gm_crashTick g) (Z.to_nat (gm_replayTicksPerFrame g))
    {| r with rp_port := gm_out g |} (gm_rewind g)) as Ho.
  destruct (replay_ticks _ _ _ _ _ _ _) as [r' b]. cbn [fst] in Ho. cbv beta iota.
  let_name g1 E1.
  assert (H1 : watching g1) by (rewrite E1; exact (watching_out _ g Hw Ho)).
  destruct (rp_done r'); cbv beta iota delta [negb]; [|exact H1].
  let_name g2 E2. let_name res Er. let_name g3 E3.
  assert (H3 : watching g3) by (rewrite E3, E2; exact H1).
  destruct res as [s|d s].
  - expose replay_succeeded. let_name g4 E4. let_name g5 E5. let_name qs Eq. let_name g6 E6. let_name n En.
    assert (H4 : watching g4) by (rewrite E4; exact H3).
    assert (H5 : watching g5) by (rewrite E5; apply with_chaos_watching; [intros o; apply scheduleNext_kept|exact H4]).
    apply setPhase_watching, setNotice_watching. rewrite E6. apply recordInput_watching. exact H5.
  - expose replay_diverged. let_name g4 E4. let_name g5 E5. let_name g6 E6. let_name g7 E7.
    assert (H6 : watching g6).
    { rewrite E6. apply beginSegment_watching. rewrite E5. apply closeSegment_watching. rewrite E4. exact H3. }
    apply setNotice_watching. rewrite E7. by apply recordInput_watching.
Qed.

(** ** A frame *)

Lemma live_ticks_watching n : forall g : G,
  watching g -> watching (live_ticks world_impure world_chaos today levels n g).
Proof.
  induction n as [|n IH]; intros g Hw; cbn [live_ticks]; [done|].
  destruct (_ && _); [|done]. by apply IH, tick_watching.
Qed.

Lemma autoplay_watching (g : G) : watching g -> watching (autoplay world_chaos levels g).
Proof.
  intros Hw. expose autoplay. let_name k Ek. let_name g1 E1.
  assert (H1 : watching g1) by (rewrite E1; destruct (_ || _); [by apply confirm_watching|done]).
  destruct (_ !! _) as [r|]; [|done]. destruct (_ && _); [|done]. let_name g2 E2.
  apply restoreSave_watching. rewrite E2. destruct H1 as (H1 & H2 & H3 & H4 & H5).
  split_and!; [done|done| |done|done]. cbn. by destruct (o_source (gm_out g1)).
Qed.

Lemma frameStep_watching n (g : G) :
  watching g -> watching (frameStep world_impure world_chaos today levels n g).
Proof.
  intros Hw. expose frameStep. let_name g1 E1.
  assert (H1 : watching g1) by (rewrite E1, (proj1 Hw); by apply autoplay_watching).
  let_name g2 E2.
  assert (H2 : watching g2).
  { rewrite E2. expose step_phase. destruct (gm_phase g1); try exact H1.
    - by apply live_ticks_watching.
    - destruct (1 <? _); [exact H1|by apply startReplay_watching].
    - by apply advanceReplay_watching.
    - destruct (_ <? _)%nat; [exact H1|by apply setPhase_watching].
    - let_name g3 E3. assert (H3 : watching g3) by (rewrite E3; exact H1).
      destruct (gm_montage g3) as [m|]; [destruct (mo_done m)|]; try exact H3; exact H3. }
  destruct (_ && _); [by apply gameOver_watching|exact H2].
Qed.

Lemma frame_watching n (g : G) : watching g -> watching (frame world_impure world_chaos today levels n g).
Proof.
  intros Hw. unfold frame. generalize (Z.to_nat (playbackSpeed g)). intros m.
  induction m as [|m IHm]; simpl; [done|by apply frameStep_watching].
Qed.

(** So do the page's calls, and a change of speed. *)
Lemma suspend_watching (g : G) : watching g -> watching (suspend levels g).
Proof. intros Hw. unfold suspend. apply save_watching. destruct (bool_decide _); [by apply setPhase_watching|done]. Qed.

Lemma setPlaybackSpeed_watching v (g : G) : watching g -> watching (setPlaybackSpeed v g).
Proof. intros Hw. unfold setPlaybackSpeed. by destruct (_ || _). Qed.
End GameWatch.

(** An accepted run code is watched from its start. *)
Lemma watch_watching {W St} `{SaveStore St} (world_chaos : W -> num * W) levels tape (g g' : Game (W := W) (St := St)) :
  watch world_chaos levels tape g = (true, g') ->
  watching g.(gm_store) g.(gm_out).(o_world) tape g'
  /\ g'.(gm_phase) = PTip L0 /\ g'.(gm_runDate) = tape.(tp_date) /\ g'.(gm_liveTick) = 0.
Proof.
  unfold watch. destruct (negb _); [done|]. intros [= <-]. unfold startRun. cbv zeta.
  match goal with |- context [beginSegment _ _ ?s true ?x] =>
    destruct (beginSegment_fields world_chaos levels s true x) as (F1 & F2 & F3) end.
  split; [|by rewrite F1, F2, F3]. apply beginSegment_watching. by split_and!.
Qed.

(** ** What is written *)

(** A save the loader's order check accepts: the events are ordered by tick,
    none is negative, the inputs are at most at the tick saved and the outcomes
    before it. *)
Definition in_order (b : SaveBody) : Prop :=
  ordered_wf b.(sv_tick) None b.(sv_history) /\ Forall (fun e => 0 <= ev_tick e) b.(sv_history) /\ 0 <= b.(sv_tick).

(** The level of a save is over at the tick saved. *)
Definition level_over (levels : LevelTable) (b : SaveBody) : Prop :=
  exists h s orbs, Run levels b.(sv_start) h s orbs /\ s.(g_status) = LevelDone /\ s.(g_tick) = b.(sv_tick).

Definition sound_save (levels : LevelTable) (v : Save) : Prop := in_order v.(sv_body) \/ level_over levels v.(sv_body).

Section GameSaves.
Context {W St : Type} `{SaveStore St}.
Context (world_impure world_chaos : W -> num * W) (today : W -> string) (levels : LevelTable).

Abbreviation G := (@Game W St).

Lemma replayable_in_order b : replayable b.(sv_history) b.(sv_tick) -> in_order b.
Proof. intros Hr. destruct (replayable_ordered _ _ Hr) as [H1 H2]. split_and!; [done|done|apply Hr]. Qed.

(** What a game would write at any moment. *)
Lemma current_save_sound (g : G) :
  phase_ok levels (kind g.(gm_phase)) (core g) -> saves levels g = true -> sound_save levels (current_save g).
Proof.
  intros Hp Hs. unfold saves in Hs. apply andb_true_iff in Hs as [[_ Hs]%andb_true_iff _].
  unfold sound_save, current_save. cbn [sv_body].
  destruct (kind (gm_phase g)); try discriminate Hs; cbn [phase_ok] in Hp.
  all: try (left; apply replayable_in_order; cbn [sv_history sv_tick];
    first [exact Hp|destruct Hp as (r & _ & Hr & _); exact Hr]).
  all: destruct Hp as ((h & orbs & HR) & _ & Hp); destruct (Run_step _ _ _ _ _ HR) as (_ & _ & H1 & H2).
  all: destruct (g_status (k_state (core g))) eqn:S; try done; first
    [by right; exists h, g.(gm_state), orbs
    |left; apply replayable_in_order; destruct (Hp eq_refl) as [Hrec _]; exact (recorded_replayable _ _ _ _ _ Hrec)].
Qed.

(** A property of the store that sound saves, clearing and scores keep. *)
Context (P : St -> Prop).
Context (Hsave : forall v s, sound_save levels v -> P s -> P (st_save v s)).
Context (Hclear : forall s, P s -> P (st_clear s)) (Hbest : forall n s, P s -> P (st_saveBest n s)).
Context (Hdaily : forall d n s, P s -> P (st_saveDailyBest d n s)).

Abbreviation Inv := (Inv levels).
Definition stored (g : G) : Prop := P g.(gm_store).

Lemma save_stored (g : G) : Inv (save levels g) -> stored g -> stored (save levels g).
Proof.
  intros [_ Hp] Hg. destruct (save_same levels g) as [Ec Ep]. rewrite Ec, Ep in Hp.
  unfold save. destruct (saves levels g) eqn:S; [|done]. apply Hsave; [by apply current_save_sound|done].
Qed.

(** *** What does not write *)

Lemma store_setPhase p (g : G) : gm_store (setPhase p g) = gm_store g.
Proof. unfold setPhase. by destruct (bool_decide _). Qed.

Lemma stored_setNotice t (g : G) : stored g -> stored (setNotice t g).
Proof. intros Hg. exact Hg. Qed.

Lemma stored_recordInput e (g : G) : stored g -> stored (recordInput e g).
Proof. intros Hg. exact Hg. Qed.

Lemma store_with_chaos f (g : G) : gm_store (with_chaos f g) = gm_store g.
Proof. unfold with_chaos. by destruct (f _). Qed.

Lemma store_closeSegment t (g : G) : gm_store (closeSegment levels t g) = gm_store g.
Proof. unfold closeSegment. by destruct (_ || _). Qed.

Lemma store_on_events s evs : forall g : G,
  gm_store (fold_left (on_event world_chaos levels s) evs g) = gm_store g.
Proof.
  induction evs as [|e evs IH]; intros g; cbn [fold_left]; [done|]. rewrite IH. unfold on_event. cbv zeta.
  destruct e; rewrite ?store_with_chaos; done.
Qed.

Lemma store_startReplay (g : G) : stored g -> stored (startReplay levels g).
Proof.
  intros Hg. unfold startReplay. destruct (negb _); cbv zeta; unfold stored; rewrite store_setPhase; [|exact Hg].
  destruct (gm_playback g); [exact Hg|by apply Hclear].
Qed.

Lemma store_restoreSave b (g : G) : stored g -> stored (restoreSave world_chaos levels b g).
Proof.
  intros Hg. unfold restoreSave, restartFromHistory. cbv zeta. apply store_startReplay.
  unfold stored; rewrite store_with_chaos. cbn. by destruct (gm_playback g).
Qed.

Lemma store_gameOver r (g : G) : stored g -> stored (gameOver today r g).
Proof.
  intros Hg. unfold gameOver. cbv zeta. unfold stored; rewrite store_setPhase. destruct (gm_playback g); [done|].
  match goal with |- context [if ?b then on_store _ {| ?x with gm_dailyBest := _ |} else _] =>
    assert (Hx : P (gm_store x)); [|set (y := x) in *; clearbody y] end.
  - destruct (_ <? _); cbn; auto.
  - destruct (_ && _); cbn; auto.
Qed.

(** *** What writes *)

Lemma beginSegment_stored start b (g : G) :
  base_ok (core g) -> stored g -> stored (beginSegment world_chaos levels start b g).
Proof.
  intros Hb Hg. pose proof (beginSegment_inv world_chaos levels start b g Hb) as Hi.
  unfold beginSegment in *. cbv zeta in *. apply save_stored; [exact Hi|].
  by unfold stored; rewrite store_setPhase, store_with_chaos.
Qed.

Lemma confirm_stored (g : G) : Inv g -> stored g -> stored (confirm world_chaos levels g).
Proof.
  intros [Hb _] Hg. expose confirm. destruct (kind _); try exact Hg.
  let_name g1 E1. apply stored_setNotice, beginSegment_stored; by rewrite E1.
Qed.

Lemma hotfix_stored (g : G) : Inv g -> stored g -> stored (hotfix world_chaos levels g).
Proof.
  intros [Hb _] Hg. expose hotfix. let_name g1 E1. apply stored_setNotice, beginSegment_stored.
  - by rewrite E1, (proj1 (closeSegment_same _ _ _)).
  - by unfold stored; rewrite E1, store_closeSegment.
Qed.

Lemma level_done_stored s (g : G) : base_ok (core g) -> stored g -> stored (level_done world_chaos levels s g).
Proof.
  intros Hb Hg. expose level_done. let_name g1 E1.
  assert (H1 : base_ok (core g1) /\ stored g1).
  { rewrite E1. split; [by rewrite (proj1 (closeSegment_same _ _ _))|by unfold stored; rewrite store_closeSegment]. }
  destruct H1 as [Hb1 Hg1]. clear E1. let_name segs E2. let_name g2 E3.
  assert (H2 : stored g2) by (rewrite E3; by apply beginSegment_stored).
  destruct (newMontage _ _); [|exact H2]. by unfold stored; rewrite store_setPhase.
Qed.

(** An operation that at most writes the present save, at its end. *)
Definition ends_with_save (g g' : G) : Prop :=
  g' = g \/ exists x, g' = save levels x /\ gm_store x = gm_store g.

Lemma retry_ends hit (g : G) : ends_with_save g (retry world_chaos levels hit g).
Proof.
  expose retry. let_name cfg Ecfg. let_name fl Ef. let_name mb Em.
  destruct (pick _ _ _ _) as [x|]; [|by left].
  let_name fr Efr. let_name at_ Ea. let_name g1 E1. let_name g2 E2. let_name g3 E3. right.
  eexists. split; [reflexivity|]. rewrite store_setPhase, E3.
  destruct (gm_chaos g2); rewrite ?store_with_chaos; by rewrite E2, E1.
Qed.

Lemma ended_stored (g g' : G) : ends_with_save g g' -> Inv g' -> stored g -> stored g'.
Proof.
  intros [->|(x & -> & E)] Hi Hg; [done|]. apply save_stored; [exact Hi|]. unfold stored. by rewrite E.
Qed.

Lemma play_on_stored evs inputs s (g : G) :
  Inv g -> replayable g.(gm_history) g.(gm_state).(g_tick) -> stored g ->
  stored (play_on world_chaos levels evs inputs s g).
Proof.
  intros Hi Hr Hg. pose proof (crash_inv levels g (proj1 Hi) Hr) as Hc.
  pose proof (Inv_same levels _ _ (save_same levels g) Hi) as Hs.
  expose play_on. let_name happened Eh. let_name moved Em. clear Eh Em.
  assert (Ht : forall g, stored g -> stored (if moved then touch g else g)) by (by destruct moved).
  destruct (0 <? _); [destruct (_ <=? _); [by apply hotfix_stored|by apply Ht]|]. destruct (isDue _ _).
  - unfold crash in *. apply save_stored; [exact Hc|]. by unfold stored; rewrite store_setPhase.
  - let_name g1 E1. apply Ht. rewrite E1. destruct happened; [by apply save_stored|done].
Qed.

Lemma after_step_stored inputs s evs calls (g : G) :
  stepping levels s evs g -> stored g -> stored (after_step world_chaos today levels inputs s evs calls g).
Proof.
  intros Hst Hg. pose proof (after_step_inv world_chaos today levels inputs s evs calls g Hst) as Hi.
  destruct (bool_decide_reflect (g_status s = RetryNeeded)) as [Hr|Hnr].
  { revert Hi. unfold after_step. rewrite bool_decide_true by done. intros Hi.
    by eapply ended_stored; [apply retry_ends|..]. }
  clear Hi. expose after_step. rewrite bool_decide_false by done. let_name g1 E1. let_name g2 E2.
  assert (Hg2 : stored g2) by (by unfold stored; rewrite E2, store_on_events, E1).
  destruct (bool_decide_reflect (g_status s = Failed)) as [|Hnf]; [by apply store_gameOver|].
  destruct (bool_decide_reflect (g_status s = LevelDone)) as [|Hnl].
  { apply level_done_stored; [|done]. rewrite E2, (proj1 (on_events_core _ _ _ _ _)), E1. apply Hst. }
  destruct (stepping_on world_chaos levels s evs (note_orbs evs calls g.(gm_orbValues)) g Hst) as [Hi Hrep];
    [by destruct (g_status s)|]. rewrite <- E1, <- E2 in Hi, Hrep. by apply play_on_stored.
Qed.

Lemma tick_stored (g : G) :
  Inv g -> kind g.(gm_phase) = KPlaying -> stored g -> stored (tick world_impure world_chaos today levels g).
Proof.
  intros [Hb Hp] Hk Hg. rewrite Hk in Hp.
  destruct (tick_steps world_impure world_chaos today levels g Hb Hp Hk) as (i & s & evs & c & g' & -> & Hst & Es).
  apply after_step_stored; [done|]. by unfold stored; rewrite Es.
Qed.

Lemma live_ticks_stored n : forall g : G,
  Inv g -> stored g -> stored (live_ticks world_impure world_chaos today levels n g).
Proof.
  induction n as [|n IH]; intros g Hi Hg; cbn [live_ticks]; [done|].
  destruct (bool_decide_reflect (kind (gm_phase g) = KPlaying)) as [K|K]; [|done].
  destruct (negb _); [|done]. apply IH; [|by apply tick_stored].
  destruct Hi as [Hb Hp]. rewrite K in Hp. by apply tick_inv.
Qed.

Lemma replay_succeeded_stored s (g : G) : stored g -> stored (replay_succeeded world_chaos levels s g).
Proof.
  intros Hg. expose replay_succeeded. let_name g1 E1. let_name g2 E2. let_name qs Eq. let_name g3 E3. let_name n En.
  assert (H2 : stored g2) by (by unfold stored; rewrite E2, store_with_chaos, E1).
  unfold stored. rewrite store_setPhase. apply stored_setNotice. rewrite E3. apply stored_recordInput. exact H2.
Qed.

Lemma replay_diverged_stored d s (g : G) :
  base_ok (core g) -> stored g -> stored (replay_diverged world_chaos levels d s g).
Proof.
  intros Hb Hg. expose replay_diverged. let_name g1 E1. let_name g2 E2. let_name g3 E3. let_name g4 E4.
  apply stored_setNotice. rewrite E4. apply stored_recordInput. rewrite E3. apply beginSegment_stored.
  - by rewrite E2, (proj1 (closeSegment_same _ _ _)), E1.
  - by unfold stored; rewrite E2, store_closeSegment, E1.
Qed.

Lemma advanceReplay_stored (g : G) : base_ok (core g) -> stored g -> stored (advanceReplay world_impure world_chaos levels g).
Proof.
  intros Hb Hg. expose advanceReplay. destruct (gm_replayer g) as [r|]; [|exact Hg].
  pose proof (advance_watching world_impure levels (gm_history g) (gm_crashTick g) (Z.to_nat (gm_replayTicksPerFrame g))
    {| r with rp_port := gm_out g |} (gm_rewind g)) as [Ho _].
  destruct (replay_ticks _ _ _ _ _ _ _) as [r' b]. cbn [fst rp_port] in Ho. cbv beta iota.
  let_name g1 E1.
  assert (Hb1 : base_ok (core g1)).
  { rewrite E1. split; [apply Hb|]. unfold core, gm_tape. cbn. rewrite Ho. apply Hb. }
  assert (Hg1 : stored g1) by (by rewrite E1). clear E1.
  destruct (rp_done r'); cbv beta iota delta [negb]; [|exact Hg1].
  let_name g2 E2. let_name res Er. let_name g3 E3.
  assert (Hg3 : stored g3) by (by rewrite E3, E2).
  destruct res as [s|d s]; [by apply replay_succeeded_stored|]. apply replay_diverged_stored; [|done].
  by rewrite E3, E2.
Qed.

Lemma autoplay_stored (g : G) : Inv g -> stored g -> stored (autoplay world_chaos levels g).
Proof.
  intros Hi Hg. expose autoplay. let_name k Ek. let_name g1 E1.
  assert (Hg1 : stored g1) by (rewrite E1; destruct (_ || _); [by apply confirm_stored|done]).
  destruct (_ !! _) as [r|]; [|done]. destruct (_ && _); [|done]. let_name g2 E2.
  apply store_restoreSave. by rewrite E2.
Qed.

Lemma step_phase_stored n (g : G) : Inv g -> stored g -> stored (step_phase world_impure world_chaos today levels n g).
Proof.
  intros Hi Hg. pose proof Hi as [Hb _]. expose step_phase. destruct (gm_phase g); try exact Hg.
  - by apply live_ticks_stored.
  - destruct (1 <? _); [exact Hg|by apply store_startReplay].
  - by apply advanceReplay_stored.
  - destruct (_ <? _)%nat; [exact Hg|by unfold stored; rewrite store_setPhase].
  - let_name g1 E1. assert (Hg1 : stored g1) by (by rewrite E1).
    destruct (gm_montage g1) as [m|]; [destruct (mo_done m)|]; try exact Hg1; exact Hg1.
Qed.

Lemma frameStep_stored n (g : G) : Inv g -> stored g -> stored (frameStep world_impure world_chaos today levels n g).
Proof.
  intros Hi Hg. expose frameStep. let_name g1 E1.
  assert (Hi1 : Inv g1) by (rewrite E1; destruct (gm_playback g) eqn:Pb; [by apply autoplay_inv|done]).
  assert (Hg1 : stored g1) by (rewrite E1; destruct (gm_playback g); [by apply autoplay_stored|done]).
  let_name g2 E2. assert (Hg2 : stored g2) by (rewrite E2; by apply step_phase_stored).
  destruct (_ && _); [by apply store_gameOver|done].
Qed.

Lemma frame_stored n (g : G) : Inv g -> stored g -> stored (frame world_impure world_chaos today levels n g).
Proof.
  intros Hi Hg. unfold frame. generalize (Z.to_nat (playbackSpeed g)). intros m.
  enough (Inv (Nat.iter m (frameStep world_impure world_chaos today levels n) g)
    /\ stored (Nat.iter m (frameStep world_impure world_chaos today levels n) g)) as [_ K] by exact K.
  induction m as [|m [IH1 IH2]]; simpl; [done|]. split; [by apply frameStep_inv|by apply frameStep_stored].
Qed.

(** *** Commands *)

Lemma startRun_stored (g : G) : base_ok (core g) -> stored g -> stored (startRun world_chaos levels g).
Proof. intros Hb Hg. unfold startRun. by apply beginSegment_stored. Qed.

Lemma newRun_stored (g : G) : base_ok (core g) -> stored g -> stored (newRun world_chaos today levels g).
Proof.
  intros [Hb _] Hg. unfold newRun. cbv zeta. apply startRun_stored; [split; [exact Hb|discriminate]|].
  cbn. by apply Hclear.
Qed.

Lemma save_phase_stored p (g : G) :
  Inv g -> phase_ok levels (kind p) (core g) -> stored g -> stored (save levels (setPhase p g)).
Proof.
  intros Hi Hp Hg. apply save_stored; [|by unfold stored; rewrite store_setPhase].
  eapply Inv_same; [apply save_same|]. eapply Inv_moved; [apply setPhase_moved|apply Hi|exact Hp].
Qed.

Lemma phase_command_stored c (g : G) : Inv g -> stored g -> stored (phase_command world_chaos today levels c g).
Proof.
  intros Hi Hg. pose proof Hi as [Hb Hp]. unfold phase_command. destruct (gm_phase g) eqn:Ph; try exact Hg.
  - destruct (bool_decide _); [by apply newRun_stored|done].
  - assert (Hc : stored (setPhase PTitle (on_store st_clear {| g with gm_savedRun := None |}))).
    { unfold stored; rewrite store_setPhase. by apply Hclear. }
    destruct c, (gm_savedRun g) as [v|]; try exact Hg; try exact Hc.
    unfold resumeSaved. cbv zeta. by apply store_restoreSave.
  - destruct (bool_decide _); [by apply confirm_stored|done].
  - assert (Hpause : stored (save levels (setPhase PPaused g))) by (by apply save_phase_stored).
    destruct c; first [exact Hpause|exact Hg].
  - destruct (bool_decide _); [by unfold stored; rewrite store_setPhase|done].
  - destruct (bool_decide _); [unfold endMontage; by unfold stored; rewrite store_setPhase|done].
  - destruct (bool_decide _); [by apply confirm_stored|done].
  - destruct (bool_decide _); [by apply newRun_stored|done].
Qed.

Lemma command_stored c (g : G) : Inv g -> stored g -> stored (command world_chaos today levels c g).
Proof.
  intros Hi Hg. unfold command. cbv zeta. set (g1 := match is_slide c with Some _ => _ | None => g end).
  assert (H1 : Inv g1 /\ stored g1) by (subst g1; by destruct (is_slide c)). destruct H1 as [Hi1 Hg1]. clearbody g1.
  destruct (gm_playback g1); [|by apply phase_command_stored].
  destruct (_ && _); [apply newRun_stored; [apply Hi1|done]|].
  destruct (_ && _); [by unfold stored; rewrite store_setPhase|]. destruct (_ && _); [done|by apply phase_command_stored].
Qed.

Lemma suspend_stored (g : G) : Inv g -> stored g -> stored (suspend levels g).
Proof.
  intros Hi Hg. pose proof (suspend_inv levels g Hi) as Hs. unfold suspend in *.
  apply save_stored; [exact Hs|]. destruct (bool_decide _); [by unfold stored; rewrite store_setPhase|done].
Qed.

Lemma watch_stored tape (g : G) : tape_safe tape -> Inv g -> stored g -> stored (watch world_chaos levels tape g).2.
Proof.
  intros Ht Hi Hg. unfold watch. destruct (isTape _) eqn:T; cbn [negb snd]; [|exact Hg].
  apply startRun_stored; [|exact Hg]. split; [apply Hi|]. intros _. by apply (tape_restarts_ok tape).
Qed.

(** *** Any play *)

(** What a player and the browser do to a game. *)
Inductive Play :=
  | PlayCommand (c : Command) | PlayFrame (liveTicks : nat) | PlaySuspend | PlaySave | PlaySpeed (speed : Z)
  | PlayWatch (tape : Tape).

Definition play_safe (e : Play) : Prop := match e with PlayWatch tape => tape_safe tape | _ => True end.

Definition play_event (g : G) (e : Play) : G :=
  match e with
  | PlayCommand c => command world_chaos today levels c g
  | PlayFrame n => frame world_impure world_chaos today levels n g
  | PlaySuspend => suspend levels g
  | PlaySave => save levels g
  | PlaySpeed v => setPlaybackSpeed v g
  | PlayWatch tape => (watch world_chaos levels tape g).2
  end.

Definition play_game (w : W) (store : St) (es : list Play) : G :=
  fold_left play_event es (newGame today levels w store).

Lemma play_stored w store es :
  (forall v, st_load store = Some v -> body_wf v.(sv_body)) -> Forall play_safe es ->
  P store -> P (gm_store (play_game w store es)).
Proof.
  intros Hw Hes Hs. enough (Inv (play_game w store es) /\ stored (play_game w store es)) as [_ K] by exact K.
  revert Hes. unfold play_game. induction es as [|e es IH] using rev_ind; intros Hes.
  { split; [by apply newGame_inv|exact Hs]. }
  apply Forall_app in Hes as [Hes [He _]%Forall_cons]. destruct (IH Hes) as [Hi Hg].
  rewrite fold_left_app. cbn [fold_left]. set (g := fold_left _ es _) in *. clearbody g.
  assert (Hsv : Inv (save levels g)) by (eapply Inv_same; [apply save_same|done]).
  destruct e; cbn [play_event play_safe] in *; split;
    eauto using command_inv, frame_inv, suspend_inv, setPlaybackSpeed_inv, watch_inv,
      command_stored, frame_stored, suspend_stored, save_stored, watch_stored.
  unfold setPlaybackSpeed. by destruct (_ || _).
Qed.
End GameSaves.

(** A store that also keeps every save it is given. *)
#[local] Instance recording_store {St} `{SaveStore St} : SaveStore (St * list Save) := {|
  st_load := fun s => st_load s.1; st_save := fun v s => (st_save v s.1, (s.2 ++ [v])%list);
  st_clear := fun s => (st_clear s.1, s.2); st_loadBest := fun s => st_loadBest s.1;
  st_saveBest := fun n s => (st_saveBest n s.1, s.2); st_loadDailyBest := fun d s => st_loadDailyBest d s.1;
  st_saveDailyBest := fun d n s => (st_saveDailyBest d n s.1, s.2) |}.

(** ** Properties *)

(** C11: watching a run code is safe. From the moment [watch] accepts a run
    code, no number of frames, at any frame rate and playback speed, changes the
    save store (no save, no best or daily score) or takes anything from the
    outside world: random values and the end of the run come from the tape
    alone, and the game stays in playback. *)
Theorem watching_writes_nothing {W St} `{SaveStore St} (world_impure world_chaos : W -> num * W)
    (today : W -> string) levels tape (g g' : Game (W := W) (St := St)) (frames : list nat) :
  watch world_chaos levels tape g = (true, g') ->
  let g'' := fold_left (fun g n => frame world_impure world_chaos today levels n g) frames g' in
  g''.(gm_store) = g.(gm_store) /\ g''.(gm_out).(o_world) = g.(gm_out).(o_world)
  /\ g''.(gm_playback) = true.
Proof.
  intros Hw. cbv zeta.
  apply watch_watching in Hw as [Hw _].
  assert (Hf : watching (gm_store g) (o_world (gm_out g)) tape
    (fold_left (fun g n => frame world_impure world_chaos today levels n g) frames g')).
  { revert g' Hw. induction frames as [|n frames IH]; intros g' Hw; simpl; [done|]. by apply IH, frame_watching. }
  destruct Hf as (H1 & H2 & _ & H4 & _). done.
Qed.

(** C12: every save the game writes, the loader's history check accepts.
    Whatever keys are pressed, however many frames pass, whatever run codes are
    watched and whenever the page is hidden: each save handed to the store, at a
    new segment, an event, a retry, a crash, a pause or by the page, has its
    events ordered by tick, none negative, the inputs at most at the tick saved
    and the outcomes before it, so that a resumed run can be rebuilt. The one
    exception is a save taken while the level is already over at the tick saved
    (a rebuilt run that is left on its next tick). *)
Theorem written_save_is_ordered {W St} `{SaveStore St} (world_impure world_chaos : W -> num * W)
    (today : W -> string) levels w (store : St) (es : list Play) :
  (forall v, st_load store = Some v -> body_wf v.(sv_body)) -> Forall play_safe es ->
  let g := play_game world_impure world_chaos today levels w (store, []) es in
  Forall (fun v => in_order v.(sv_body) \/ level_over levels v.(sv_body)) g.(gm_store).2.
Proof.
  intros Hw Hes. apply (play_stored world_impure world_chaos today levels (fun s => Forall (sound_save levels) s.2));
    try done. intros v s Hv Hs. cbn. apply Forall_app. by split; [|constructor].
Qed.

(** ** Witnesses *)

Definition empty_day : Tape := emptyTape "2026-01-01".

Lemma watch_empty_day :
  (watch still LEVELS empty_day demo_game).1 = true.
Proof. vm_compute. reflexivity. Qed.

Lemma watching_writes_nothing_witness :
  exists g', watch still LEVELS empty_day demo_game = (true, g')
    /\ (fold_left (fun g n => frame still still a_day LEVELS n g) [1; 1; 2]%nat g').(gm_playback) = true.
Proof.
  pose proof watch_empty_day as Hw. destruct (watch still LEVELS empty_day demo_game) as [ok g'] eqn:E.
  cbn [fst] in Hw. subst ok. exists g'. split; [reflexivity|].
  apply (watching_writes_nothing still still a_day LEVELS empty_day demo_game g' [1; 1; 2]%nat E).
Defined.

(** On a durable level, where the game is saved: a new run, its tip dismissed, a
    jump, three ticks and a pause. *)
Definition durable_play : list Play :=
  [PlayCommand CConfirm; PlayCommand CConfirm; PlayCommand CJump; PlayFrame 3; PlayCommand CPause].

Definition paused_game : Game (W := unit) (St := unit * list Save) :=
  play_game still still a_day demo_levels tt (tt, []) durable_play.

Lemma durable_saves : map (fun v => (v.(sv_body).(sv_tick), v.(sv_body).(sv_history))) paused_game.(gm_store).2
  = [(0, []); (3, [InE (Input 0 Jump)])].
Proof. vm_compute. reflexivity. Qed.

Lemma written_save_is_ordered_witness :
  map (fun v => v.(sv_body).(sv_tick)) paused_game.(gm_store).2 = [0; 3]
  /\ Forall (fun v => in_order v.(sv_body) \/ level_over demo_levels v.(sv_body)) paused_game.(gm_store).2.
Proof.
  split; [vm_compute; reflexivity|].
  apply (written_save_is_ordered still still a_day demo_levels tt tt durable_play).
  - discriminate.
  - repeat constructor.
Defined.
