(* ===== verification/ReplayPage.v ===== *)
(** * The page of the game

    [pages/replay/Replay.tsx] with [Overlay.tsx] and [HistoryPanel.tsx]: keys and
    frames for the game, the execution ID of a finished run (a run code, made in
    the background), and runs watched from one.  Encodings and decodings under
    way are part of the state; they end in any order. *)

From stdpp Require Import pretty.
From S2P Require Import Prelude JsNum Types Levels Step RuntimeTypes Json Validate Tape Persistence Chaos.
From S2P Require Import Text RunCode Loop Konami Decimal Montage Game GameFacts GamePlay GameWatch Display Canvas.
From S2P Require Import Sprites Scene.
#[local] Open Scope string_scope.
#[local] Open Scope Z_scope.

(** ** Keys of the page *)

(** An element the event passes on its way up. *)
Record Elem := { el_tagName : string; el_role : option string; el_contenteditable : option string }.
Record KeyTarget := { kt_target : option Target; kt_path : list Elem }.

Definition matches_interactive (e : Elem) : bool :=
  existsb (String.eqb e.(el_tagName)) ["A"; "BUTTON"; "INPUT"; "TEXTAREA"; "SELECT"; "SUMMARY"]
  || bool_decide (e.(el_role) = Some "button") || bool_decide (e.(el_role) = Some "dialog")
  || match e.(el_contenteditable) with Some v => negb (String.eqb v "false") | None => false end.
Definition isInteractiveTarget (t : KeyTarget) : bool :=
  isEditableTarget t.(kt_target) || existsb matches_interactive t.(kt_path).

Record KeyEvent := {
  ke_key : string; ke_repeat : bool; ke_ctrl : bool; ke_meta : bool; ke_alt : bool; ke_target : KeyTarget
}.

(** ** HistoryPanel.tsx *)

Definition SHOWN : nat := 60.

Definition input_name (k : PlayerInput) : string :=
  match k with Jump => "jump" | JumpEnd => "jumpEnd" | SlideStart => "slideStart" | SlideEnd => "slideEnd" end.

(** [join(' / ')]. *)
Definition lane_coins (results : list Z) : string := String.concat " / " (map pretty results).

Definition describeEvent (e : HistoryEvent) : string * string :=
  match e with
  | InE (Input _ k) => ("Input", input_name k)
  | InE (OrchestratorStarted _) => ("OrchestratorStarted", "replay resumed · 1 s grace")
  | InE (RetryAttempt _ attempt failedAt) =>
      ("RetryAttempt", "attempt " +:+ pretty attempt +:+ " · failed at t" +:+ pretty failedAt)
  | OutE (CircuitBreakerTripped _ id _) =>
      ("CircuitBreakerTripped", if id =? 0 then "pit bridged" else "rack " +:+ pretty id +:+ " smashed")
  | OutE (BoostLost _ _ _) => ("BoostLost", "×3 boost absorbed the hit")
  | OutE (FanOut _ _) => ("FanOut", pretty (Z.of_nat FAN_LANES) +:+ " activities in parallel")
  | OutE (FanIn _ _ results) => ("FanIn", "WhenAll · coins " +:+ lane_coins results)
  | OutE (OrbTaken _ id _) => ("NonDeterministicCall", "orb " +:+ pretty id +:+ " · value not recorded")
  | OutE (ActivityCoinCollected _ id _) => ("ActivityCoinCollected", "coin " +:+ pretty id)
  | OutE (ActivityCrateCollected _ id _ result) =>
      ("ActivityCrateCollected", "crate " +:+ pretty id +:+ " · result " +:+ toFixed 3 result)
  end.

Definition node_class (e : HistoryEvent) : string :=
  match e with
  | InE _ | OutE (FanOut _ _) | OutE (FanIn _ _ _) => "n-sched"
  | OutE (BoostLost _ _ _) | OutE (OrbTaken _ _ _) => "n-fail"
  | OutE _ => "n-done"
  end.

(** The rows: an event with its index in the history, the newest first. *)
Definition history_rows (history : list HistoryEvent) : list (HistoryEvent * nat) :=
  let first := (length history - SHOWN)%nat in
  reverse (imap (fun i e => (e, (first + i)%nat)) (drop first history)).

(** The panel shows the newest [SHOWN] events, each under its own number in the
    history, from the newest down without a gap. *)
Theorem history_rows_numbered (history : list HistoryEvent) (k : nat) (e : HistoryEvent) (i : nat) :
  history_rows history !! k = Some (e, i)
  <-> history !! i = Some e /\ (k < SHOWN)%nat /\ (i + k + 1 = length history)%nat.
Proof.
  unfold history_rows. rewrite reverse_lookup_Some, list_lookup_imap, lookup_drop, length_imap, length_drop.
  set (n := length history). set (first := (n - SHOWN)%nat). unfold SHOWN in *. split.
  - intros [H Hk]. destruct (history !! _) as [e'|] eqn:E; [|done]. injection H as -> <-.
    split; [done|]. lia.
  - intros (E & Hk & Hi). assert (i < n)%nat by (apply lookup_lt_Some in E; done).
    split; [|lia]. replace (first + (n - first - S k))%nat with i by lia. by rewrite E.
Qed.

(** ** Overlay.tsx *)

Inductive IdShown :=
  | IdReady (id : text) (copied : bool)
  | IdFailed (message : string)
  | IdCreating.

(** The cards over the canvas, with what they show of the game. *)
Inductive Card :=
  | TitleCard (date : string) (bests : option (Z * Z)) (watchError : option string)
  | ResumeCard (tick : Z)
  | TipCard (level : Level) (name : string)
  | PausedCard
  | LostCard
  | OverCard (playback : bool) (reason : string) (level score best : Z) (stats : RunStats) (id : IdShown).

Section Page.
Context {W St : Type} `{SaveStore St} `{Platform}.
Context (world_impure world_chaos : W -> num * W) (today : W -> string) (levels : LevelTable) (reducedMotion : bool).

Abbreviation G := (@Game W St).

(** ** Replay.tsx *)

Inductive PageEffect := Tracked (action : string) | CopiedText (t : text) | FocusStage.

(** Which code is being decoded: the page's own, or a pasted one. *)
Inductive Decoding := OwnCode (code : text) | PastedCode (code : text).
Definition decoded_code (d : Decoding) : text := match d with OwnCode c | PastedCode c => c end.

Record ReplayPage := {
  gp_game : G;
  gp_shareOpen : bool;
  gp_executionId : option text;
  gp_executionIdError : option string;
  gp_idCopied : bool;
  gp_cardToken : nat;
  gp_watchError : option string;
  gp_frame : Z;
  gp_hatPose : HatPose;
  gp_kind : PhaseKind;                    (* the phase the effect ran for *)
  gp_encodings : list (nat * Tape);       (* with the token of their card *)
  gp_decodings : list Decoding;
  gp_effects : list PageEffect
}.

Definition set_game (g : G) (p : ReplayPage) : ReplayPage := {| p with gp_game := g |}.
Definition on_game (f : G -> G) (p : ReplayPage) : ReplayPage := set_game (f p.(gp_game)) p.
Definition emit (l : list PageEffect) (p : ReplayPage) : ReplayPage := {| p with gp_effects := p.(gp_effects) ++ l |}.

(** The effect on the phase. *)
Definition phase_effect (p : ReplayPage) : ReplayPage :=
  let k := kind p.(gp_game).(gm_phase) in
  let p := {| p with gp_kind := k |} in
  if bool_decide (k = KOver)
  then {| p with gp_encodings := p.(gp_encodings) ++ [(p.(gp_cardToken), gm_tape p.(gp_game))] |}
  else {| p with gp_cardToken := S p.(gp_cardToken); gp_executionId := None; gp_executionIdError := None;
                 gp_idCopied := false |}.
(** It runs when the phase's kind is another one. *)
Definition run_effect (p : ReplayPage) : ReplayPage :=
  if bool_decide (kind p.(gp_game).(gm_phase) = p.(gp_kind)) then p else phase_effect p.

(** The page when it is mounted; the stage takes the focus. *)
Definition mount (w : W) (store : St) : ReplayPage :=
  emit [FocusStage] (phase_effect {|
    gp_game := newGame today levels w store; gp_shareOpen := false; gp_executionId := None;
    gp_executionIdError := None; gp_idCopied := false; gp_cardToken := 0; gp_watchError := None; gp_frame := 0;
    gp_hatPose := newHatPose; gp_kind := KTitle; gp_encodings := []; gp_decodings := []; gp_effects := [] |}).

(** An encoding ends, after the card it was started for may have gone. *)
Definition encoded (n : nat) (p : ReplayPage) : ReplayPage :=
  match p.(gp_encodings) !! n with
  | None => p
  | Some (token, tape) =>
      let p := {| p with gp_encodings := delete n p.(gp_encodings) |} in
      if negb (token =? p.(gp_cardToken))%nat then p
      else
        match shareableRunCode tape with
        | Some (Some id) => {| p with gp_executionId := Some id |}
        | Some None => {| p with gp_executionIdError := Some "This run is too long to share." |}
        | None => {| p with gp_executionIdError := Some "Couldn't create an execution ID." |}
        end
  end.

(** [game.watch(tape)], and the stage takes the focus when it plays. *)
Definition watch_tape (tape : Tape) (p : ReplayPage) : bool * ReplayPage :=
  let (ok, g) := watch world_chaos levels tape p.(gp_game) in
  (ok, let p := set_game g p in if ok then emit [FocusStage] p else p).

(** [replayFrom] after its [await]. *)
Definition replay_from (code : text) (p : ReplayPage) : bool * ReplayPage :=
  match decodeRun code with None => (false, p) | Some tape => watch_tape tape p end.

Definition decoded (n : nat) (p : ReplayPage) : ReplayPage :=
  match p.(gp_decodings) !! n with
  | None => p
  | Some d =>
      let p := {| p with gp_decodings := delete n p.(gp_decodings) |} in
      let (ok, p) := replay_from (decoded_code d) p in
      match d with
      | OwnCode _ => p
      | PastedCode _ =>
          {| p with gp_watchError := if ok then None else Some "That execution ID isn't valid." |}
      end
  end.

Definition onCopyExecutionId (p : ReplayPage) : ReplayPage :=
  match p.(gp_executionId) with
  | None | Some [] => p
  | Some id => emit [Tracked "replay_share_copy"; CopiedText id; FocusStage] {| p with gp_idCopied := true |}
  end.

Definition onReplayRun (p : ReplayPage) : ReplayPage :=
  let p := emit [Tracked "replay_rerun"] p in
  match p.(gp_executionId) with
  | None | Some [] => (watch_tape (gm_tape p.(gp_game)) p).2
  | Some id => {| p with gp_decodings := p.(gp_decodings) ++ [OwnCode id] |}
  end.

Definition onSpeed (speed : Z) (p : ReplayPage) : ReplayPage :=
  emit [Tracked "replay_speed"; FocusStage] (on_game (setPlaybackSpeed speed) p).

Definition onWatch (code : text) (p : ReplayPage) : ReplayPage :=
  let p := emit [Tracked "replay_watch"] p in {| p with gp_decodings := p.(gp_decodings) ++ [PastedCode code] |}.

Definition onPageKeyDown (e : KeyEvent) (p : ReplayPage) : ReplayPage :=
  if e.(ke_ctrl) || e.(ke_meta) || e.(ke_alt) || isInteractiveTarget e.(ke_target) then p
  else
    match keyToCommand e.(ke_key) e.(ke_repeat) true with
    | Some c => on_game (command world_chaos today levels c) p
    | None => p
    end.
Definition onPageKeyUp (e : KeyEvent) (p : ReplayPage) : ReplayPage :=
  match keyToCommand e.(ke_key) e.(ke_repeat) false with
  | Some c => on_game (command world_chaos today levels c) p
  | None => p
  end.

(** A frame of the loop. *)
Definition onFrame (ticks : nat) (p : ReplayPage) : ReplayPage :=
  let p := on_game (frame world_impure world_chaos today levels ticks) p in
  {| p with gp_frame := p.(gp_frame) + 1;
            gp_hatPose := (hat_update (livePlayer p.(gp_game).(gm_state)) reducedMotion p.(gp_hatPose)).2 |}.

(** What that frame draws; the hat's pose is that of the frame. *)
Definition frame_view (before : HatPose) (alpha pixelScale : num) (p : ReplayPage) : RenderView :=
  let v := view p.(gp_game) in
  {| rv_state := blend v.(vw_prev) v.(vw_state) alpha; rv_phase := v.(vw_phase); rv_notice := v.(vw_notice);
     rv_reducedMotion := reducedMotion; rv_frame := p.(gp_frame);
     rv_pose := Some (hat_update (livePlayer p.(gp_game).(gm_state)) reducedMotion before).1;
     rv_pixelScale := Some pixelScale; rv_playbackDate := v.(vw_playbackDate);
     rv_playbackSpeed := v.(vw_playbackSpeed); rv_montage := v.(vw_montage) |}.

Inductive PageEvent :=
  | EvKeyDown (e : KeyEvent) | EvKeyUp (e : KeyEvent) | EvFrame (ticks : nat)
  | EvHidden | EvBlur | EvPageHide | EvUnmount
  | EvEncoded (n : nat) | EvDecoded (n : nat)
  | EvCopy | EvReplayRun | EvSpeed (speed : Z) | EvWatch (code : text) | EvShareOpen | EvShareClose.

(** A button is only there on its card: the ID, the replay and the share button
    on the end card, the form on the title card, the speeds during playback. *)
Definition page_handler (p : ReplayPage) (e : PageEvent) : ReplayPage :=
  let over := bool_decide (kind p.(gp_game).(gm_phase) = KOver) in
  match e with
  | EvKeyDown e => onPageKeyDown e p
  | EvKeyUp e => onPageKeyUp e p
  | EvFrame ticks => onFrame ticks p
  | EvHidden | EvBlur | EvUnmount => on_game (suspend levels) p
  | EvPageHide => on_game (save levels) p
  | EvEncoded n => encoded n p
  | EvDecoded n => decoded n p
  | EvCopy => if over then onCopyExecutionId p else p
  | EvReplayRun => if over then onReplayRun p else p
  | EvSpeed speed => if p.(gp_game).(gm_playback) then onSpeed speed p else p
  | EvWatch code => if bool_decide (kind p.(gp_game).(gm_phase) = KTitle) then onWatch code p else p
  | EvShareOpen => if over then emit [Tracked "share_open"] {| p with gp_shareOpen := true |} else p
  | EvShareClose => {| p with gp_shareOpen := false |}
  end.
Definition page_event (p : ReplayPage) (e : PageEvent) : ReplayPage := run_effect (page_handler p e).
Definition page_run (w : W) (store : St) (es : list PageEvent) : ReplayPage := fold_left page_event es (mount w store).

(** [<Overlay>] and [<HistoryPanel>]. *)
Definition card (p : ReplayPage) : option Card :=
  let g := p.(gp_game) in
  match g.(gm_phase) with
  | PTitle =>
      Some (TitleCard g.(gm_runDate)
              (if (0 <? g.(gm_best)) || (0 <? g.(gm_dailyBest)) then Some (g.(gm_dailyBest), g.(gm_best)) else None)
              p.(gp_watchError))
  | PResume t => Some (ResumeCard t)
  | PTip l => Some (TipCard l (levels l).(cfg_name))
  | PPaused => Some PausedCard
  | PLost => Some LostCard
  | POver reason =>
      Some (OverCard g.(gm_playback) reason (level_num g.(gm_state).(g_level)) g.(gm_state).(g_score) g.(gm_best) g.(gm_stats)
        (match p.(gp_executionId), p.(gp_executionIdError) with
         | Some (c :: id), _ => IdReady (c :: id) p.(gp_idCopied)
         | _, Some message => IdFailed message
         | _, None => IdCreating
         end))
  | _ => None
  end.
Definition history_panel (p : ReplayPage) : option (list (HistoryEvent * nat)) :=
  if 1 <=? level_num p.(gp_game).(gm_state).(g_level) then Some (history_rows p.(gp_game).(gm_history)) else None.

(** ** The end card *)

Lemma save_fields (g : G) : (save levels g).(gm_phase) = g.(gm_phase) /\ gm_tape (save levels g) = gm_tape g.
Proof. unfold save. by destruct (saves levels g). Qed.

Lemma beginSegment_phase start b (g : G) :
  (beginSegment world_chaos levels start b g).(gm_phase) = if b then PTip start.(s_level) else PPlaying.
Proof. unfold beginSegment. rewrite (proj1 (save_fields _)). by rewrite (proj2 (setPhase_moved _ _)). Qed.

Lemma startRun_kind (g : G) : kind (startRun world_chaos levels g).(gm_phase) = KTip.
Proof. unfold startRun. by rewrite beginSegment_phase. Qed.
Lemma newRun_kind (g : G) : kind (newRun world_chaos today levels g).(gm_phase) = KTip.
Proof. unfold newRun. apply startRun_kind. Qed.

(** While the game is over its tape stays, until another phase begins. *)
Definition over_kept (g g' : G) : Prop :=
  kind g.(gm_phase) = KOver -> kind g'.(gm_phase) = KOver -> gm_tape g' = gm_tape g.

Lemma frameStep_over n (g : G) :
  kind g.(gm_phase) = KOver -> frameStep world_impure world_chaos today levels n g = g.
Proof.
  intros Hk. assert (Ea : autoplay world_chaos levels g = g).
  { unfold autoplay. rewrite Hk. cbn. destruct (_ !! _) as [r|]; [|done]. by rewrite !andb_false_r. }
  assert (Es : step_phase world_impure world_chaos today levels n g = g).
  { unfold step_phase. by destruct (gm_phase g). }
  unfold frameStep. rewrite Ea. destruct (gm_playback g); rewrite Es, Hk; cbn; by rewrite ?andb_false_r.
Qed.

Lemma frame_over n (g : G) : over_kept g (frame world_impure world_chaos today levels n g).
Proof.
  intros Hk _. unfold frame. generalize (Z.to_nat (playbackSpeed g)). intros m.
  enough (E : Nat.iter m (frameStep world_impure world_chaos today levels n) g = g) by by rewrite E.
  induction m as [|m IH]; [done|]. cbn [Nat.iter nat_rect]. fold (Nat.iter m (frameStep world_impure world_chaos today levels n) g).
  rewrite IH. by apply frameStep_over.
Qed.

Lemma phase_command_over c (g : G) : over_kept g (phase_command world_chaos today levels c g).
Proof.
  intros Hk. unfold phase_command. destruct (gm_phase g) eqn:E; try done. destruct (bool_decide _); [|done].
  by rewrite newRun_kind.
Qed.

Lemma command_over c (g : G) : over_kept g (command world_chaos today levels c g).
Proof.
  unfold command. set (g0 := match is_slide c with Some _ => _ | None => _ end).
  assert (E : gm_phase g0 = gm_phase g /\ gm_tape g0 = gm_tape g) by (unfold g0; by destruct (is_slide c)).
  destruct E as [Ep Et]. intros Hk. rewrite <- Ep in Hk. rewrite <- Et. revert Hk.
  assert (D : over_kept g0 (phase_command world_chaos today levels c g0)) by apply phase_command_over.
  cbv zeta. destruct (gm_playback g0); [|exact D]. intros Hk.
  destruct (bool_decide (c = CConfirm) && _); [by rewrite newRun_kind|].
  destruct (bool_decide (c = CCancel) && _); [by rewrite (proj2 (setPhase_moved _ _))|].
  destruct (negb _ && _ && _); [done|by apply D].
Qed.

Lemma watch_over tape (g : G) : over_kept g (watch world_chaos levels tape g).2.
Proof. unfold watch. destruct (negb _); [done|]. intros _. cbn [snd]. by rewrite startRun_kind. Qed.

Lemma suspend_over (g : G) : over_kept g (suspend levels g).
Proof.
  intros Hk. unfold suspend. rewrite Hk, bool_decide_false by done. by destruct (save_fields g) as [-> ->].
Qed.

(** A page whose game plays back a tape, and what happens on it that does not
    leave the playback: frames, pauses, other speeds, a hidden page, the cards'
    buttons but another replay. *)
Definition page_watching (store : St) (w : W) (tape : Tape) (p : ReplayPage) : Prop := watching store w tape p.(gp_game).

Definition stays (e : PageEvent) : bool :=
  match e with
  | EvFrame _ | EvHidden | EvBlur | EvPageHide | EvUnmount | EvEncoded _ | EvCopy | EvSpeed _ | EvShareOpen | EvShareClose
  | EvKeyUp _ => true
  | EvKeyDown _ | EvDecoded _ | EvReplayRun | EvWatch _ => false
  end.

Lemma run_effect_game p : (run_effect p).(gp_game) = p.(gp_game).
Proof. unfold run_effect, phase_effect. by repeat destruct (bool_decide _). Qed.

(** What holds of a page whose effect has not run yet after [g]. *)
Record in_step (g : G) (p : ReplayPage) : Prop := {
  step_kind : p.(gp_kind) = kind g.(gm_phase);
  step_id : forall id, p.(gp_executionId) = Some id ->
    kind g.(gm_phase) = KOver /\ shareableRunCode (gm_tape g) = Some (Some id);
  step_encodings : Forall (fun e : nat * Tape => (e.1 <= p.(gp_cardToken))%nat
    /\ (e.1 = p.(gp_cardToken) -> kind g.(gm_phase) = KOver /\ e.2 = gm_tape g)) p.(gp_encodings);
  step_copied : Forall (fun f => match f with CopiedText t => exists tape, shareableRunCode tape = Some (Some t) | _ => True end)
    p.(gp_effects)
}.
Definition page_ok (p : ReplayPage) : Prop := in_step p.(gp_game) p.

Lemma effect_ok (g : G) p : in_step g p -> over_kept g p.(gp_game) -> page_ok (run_effect p).
Proof.
  intros [Hk Hid He Hc] Ho. unfold run_effect.
  destruct (bool_decide_reflect (kind (gm_phase (gp_game p)) = gp_kind p)) as [Ek|Ek].
  - rewrite Hk in Ek. split; [by rewrite Hk, Ek|..|done].
    + intros id Hi. destruct (Hid id Hi) as [Hov Hs]. rewrite Ek. split; [done|]. rewrite Ho; [done|done|by rewrite Ek].
    + eapply Forall_impl; [exact He|]. intros [t tape] [Hle Heq]. cbn in *. split; [done|]. intros Et.
      destruct (Heq Et) as [Hov ->]. rewrite Ek. split; [done|]. rewrite Ho; [done|done|by rewrite Ek].
  - rewrite Hk in Ek. unfold phase_effect.
    destruct (bool_decide_reflect (kind (gm_phase (gp_game p)) = KOver)) as [Eo|Eo].
    + assert (Hn : kind (gm_phase g) <> KOver) by congruence.
      split; cbn; [done| |..|done].
      * intros id Hi. by destruct (Hid id Hi).
      * apply Forall_app. split; [|by constructor].
        eapply Forall_impl; [exact He|]. intros [t tape] [Hle Heq]. cbn in *. split; [done|]. intros Et.
        by destruct (Heq Et).
    + split; cbn; [done|done| |done].
      eapply Forall_impl; [exact He|]. intros [t tape] [Hle _]. cbn in *. split; [lia|]. intros ->. lia.
Qed.

Lemma emit_in_step g l p :
  Forall (fun f => match f with CopiedText t => exists tape, shareableRunCode tape = Some (Some t) | _ => True end) l ->
  in_step g p -> in_step g (emit l p).
Proof. intros Hl [Hk Hid He Hc]. split; try done. cbn. by apply Forall_app. Qed.

Lemma in_step_same g p q :
  in_step g p -> q.(gp_kind) = p.(gp_kind) -> q.(gp_executionId) = p.(gp_executionId) ->
  q.(gp_cardToken) = p.(gp_cardToken) -> q.(gp_encodings) = p.(gp_encodings) -> q.(gp_effects) = p.(gp_effects) ->
  in_step g q.
Proof. intros [Hk Hid He Hc] Ek Ei Et Ee Ef. split; by rewrite ?Ek, ?Ei, ?Et, ?Ee, ?Ef. Qed.

Lemma watch_tape_step tape g p : in_step g p -> p.(gp_game) = g ->
  in_step g (watch_tape tape p).2 /\ over_kept g (watch_tape tape p).2.(gp_game).
Proof.
  intros Hs Hg. unfold watch_tape. pose proof (watch_over tape p.(gp_game)) as Ho. rewrite Hg in *.
  destruct (watch _ _ _ _) as [ok g']. cbn [snd] in *. destruct ok; (split; [|exact Ho]).
  - apply emit_in_step; [by repeat constructor|]. by destruct Hs.
  - by destruct Hs.
Qed.

Lemma handler_ok p e : page_ok p -> in_step p.(gp_game) (page_handler p e) /\ over_kept p.(gp_game) (page_handler p e).(gp_game).
Proof.
  unfold page_ok. intros Hp.
  assert (Refl : over_kept p.(gp_game) p.(gp_game)) by done.
  assert (Run : forall f : G -> G, over_kept p.(gp_game) (f p.(gp_game)) ->
    in_step p.(gp_game) (on_game f p) /\ over_kept p.(gp_game) (on_game f p).(gp_game)).
  { intros f Hf. split; [by destruct Hp|done]. }
  destruct e as [e|e|ticks| | | | |n|n| | |speed|code| |]; cbn [page_handler].
  - unfold onPageKeyDown. destruct (_ || _); [done|]. destruct (keyToCommand _ _ _); [apply Run, command_over|done].
  - unfold onPageKeyUp. destruct (keyToCommand _ _ _); [apply Run, command_over|done].
  - destruct (Run _ (frame_over ticks _)) as [[H1 H2 H3 H4] Ho]. split; [by split|done].
  - apply Run, suspend_over.
  - apply Run, suspend_over.
  - apply Run. intros _ _. exact (proj2 (save_fields _)).
  - apply Run, suspend_over.
  - split; [|unfold encoded; destruct (_ !! n) as [[t tape]|]; [|done]; destruct (negb _); [done|];
              destruct (shareableRunCode tape) as [[id|]|]; done].
    unfold encoded. destruct Hp as [Hk Hid He Hc]. destruct (_ !! n) as [[t tape]|] eqn:E; [|by split].
    assert (Hd : Forall (fun e : nat * Tape => (e.1 <= p.(gp_cardToken))%nat
      /\ (e.1 = p.(gp_cardToken) -> kind p.(gp_game).(gm_phase) = KOver /\ e.2 = gm_tape p.(gp_game))) (delete n p.(gp_encodings))).
    { by apply Forall_delete. }
    rewrite Forall_lookup in He. destruct (He _ _ E) as [_ Ht]. cbn in Ht.
    cbn [gp_cardToken]. destruct (Nat.eqb_spec t p.(gp_cardToken)) as [->|Hne]; cbn [negb]; [|by split].
    destruct (Ht eq_refl) as [Ho ->].
    destruct (shareableRunCode (gm_tape p.(gp_game))) as [[id|]|] eqn:Es;
      (split; [exact Hk| |exact Hd|exact Hc]); cbn; intros id' Hi; [injection Hi as <-; by split|..]; by destruct (Hid id' Hi).
  - unfold decoded. destruct (_ !! n) as [d|]; [|done].
    set (p' := Build_ReplayPage _ _ _ _ _ _ _ _ _ _ _ _ _).
    assert (Hp' : in_step p.(gp_game) p') by by destruct Hp.
    assert (R : in_step p.(gp_game) (replay_from (decoded_code d) p').2
                /\ over_kept p.(gp_game) (replay_from (decoded_code d) p').2.(gp_game)).
    { unfold replay_from. destruct (decodeRun _) as [tape|]; [|done]. by apply watch_tape_step. }
    destruct (replay_from _ _) as [ok q]. cbn [snd] in R. destruct R as [R1 R2].
    destruct d; [done|]. split; [by apply (in_step_same _ _ _ R1)|exact R2].
  - destruct (bool_decide _); [|done]. unfold onCopyExecutionId.
    destruct (gp_executionId p) as [[|c id]|] eqn:Ei; [done| |done]. split; [|done].
    apply emit_in_step; [|by apply (in_step_same _ _ _ Hp)]. destruct (step_id _ _ Hp _ Ei) as [_ Hs].
    constructor; [done|]. constructor; [by eexists|]. by constructor.
  - destruct (bool_decide _); [|done]. unfold onReplayRun.
    assert (Hp' : in_step p.(gp_game) (emit [Tracked "replay_rerun"] p)) by (apply emit_in_step; [by repeat constructor|done]).
    assert (Wt : in_step p.(gp_game) (watch_tape (gm_tape (gp_game (emit [Tracked "replay_rerun"] p))) (emit [Tracked "replay_rerun"] p)).2
              /\ over_kept p.(gp_game) (watch_tape (gm_tape (gp_game (emit [Tracked "replay_rerun"] p))) (emit [Tracked "replay_rerun"] p)).2.(gp_game))
      by by apply watch_tape_step.
    cbn [emit gp_executionId] in *. destruct (gp_executionId p) as [[|c id]|] eqn:Ei; [done| |done].
    split; [by apply (in_step_same _ _ _ Hp')|done].
  - destruct (gm_playback _); [|done]. unfold onSpeed. split.
    + apply emit_in_step; [by repeat constructor|]. by destruct Hp.
    + cbn. unfold setPlaybackSpeed. by destruct (_ || _).
  - destruct (bool_decide _); [|done]. unfold onWatch. split; [|done].
    assert (Hp' : in_step p.(gp_game) (emit [Tracked "replay_watch"] p)) by (apply emit_in_step; [by repeat constructor|done]).
    by apply (in_step_same _ _ _ Hp').
  - destruct (bool_decide _); [|done]. split; [|done]. apply emit_in_step; [by repeat constructor|by destruct Hp].
  - split; [by destruct Hp|done].
Qed.

Lemma page_run_ok w store es : page_ok (page_run w store es).
Proof.
  unfold page_run. apply (fold_left_inv page_ok).
  - intros p e _ Hp. destruct (handler_ok p e Hp) as [Hs Ho]. by eapply effect_ok.
  - unfold mount. apply emit_in_step; [by repeat constructor|]. unfold phase_effect.
    set (g := newGame today levels w store). cbn [gp_game].
    assert (Hn : kind (gm_phase g) <> KOver) by (unfold g, newGame; cbn; by destruct (st_load store)).
    rewrite bool_decide_false by done. split; cbn; [done|done|constructor|constructor].
Qed.

(** ** Keys *)

(** Keys with a modifier, and keys aimed at the page around the game, are not
    game keys. *)
Lemma foreign_keys_ignored e p :
  e.(ke_ctrl) || e.(ke_meta) || e.(ke_alt) || isInteractiveTarget e.(ke_target) = true -> onPageKeyDown e p = p.
Proof. unfold onPageKeyDown. by intros ->. Qed.

Lemma keyup_command key repeat c : keyToCommand key repeat false = Some c -> c = CSlideEnd \/ c = CJumpEnd.
Proof.
  unfold keyToCommand. cbn [negb]. destruct (_ || _); [intros [= <-]; by left|].
  destruct (_ || _); [|done]. intros [= <-]. by right.
Qed.

Lemma release_command c (g : G) : c = CSlideEnd \/ c = CJumpEnd ->
  phase_command world_chaos today levels c g = g
  \/ g.(gm_phase) = PPlaying /\ exists k, phase_command world_chaos today levels c g = {| g with gm_pending := g.(gm_pending) ++ [k] |}.
Proof.
  intros Hc. unfold phase_command. destruct (gm_phase g) eqn:Ep.
  all: try (left; destruct Hc as [-> | ->]; rewrite ?bool_decide_false by set_solver; done).
  right. split; [done|]. destruct Hc as [-> | ->]; by eexists.
Qed.

Lemma release_watching store w tape c (g : G) :
  c = CSlideEnd \/ c = CJumpEnd -> watching store w tape g ->
  watching store w tape (command world_chaos today levels c g).
Proof.
  intros Hc Hw. unfold command. set (g0 := match is_slide c with Some _ => _ | None => _ end).
  assert (Hw0 : watching store w tape g0) by (unfold g0; by destruct (is_slide c)). clearbody g0. cbv zeta.
  rewrite (proj1 Hw0). by destruct Hc as [-> | ->].
Qed.

(** Letting go of a key, whatever has the focus, only ever ends a slide or a
    jump: the phase stays, and during playback nothing is put in. *)
Lemma release_keeps_phase e p :
  (onPageKeyUp e p).(gp_game).(gm_phase) = p.(gp_game).(gm_phase)
  /\ (p.(gp_game).(gm_playback) = true -> (onPageKeyUp e p).(gp_game).(gm_pending) = p.(gp_game).(gm_pending)).
Proof.
  unfold onPageKeyUp. destruct (keyToCommand _ _ _) as [c|] eqn:E; [|done]. apply keyup_command in E.
  cbn [on_game set_game gp_game]. generalize (gp_game p). intros g. unfold command.
  set (g0 := match is_slide c with Some _ => _ | None => _ end).
  assert (E0 : gm_phase g0 = gm_phase g /\ gm_pending g0 = gm_pending g /\ gm_playback g0 = gm_playback g)
    by (unfold g0; by destruct (is_slide c)).
  destruct E0 as (<- & <- & <-). clearbody g0. cbv zeta.
  destruct (release_command c g0 E) as [R|[Hp [k R]]]; rewrite R; clear R;
    (destruct E as [-> | ->]; rewrite !bool_decide_false by done; destruct (gm_playback g0); done).
Qed.

Lemma stays_watching store w tape p e :
  stays e = true -> page_watching store w tape p ->
  page_watching store w tape (page_event p e).
Proof.
  unfold page_watching, page_event. rewrite run_effect_game. intros He Hw. destruct e; try done; cbn [page_handler].
  - unfold onPageKeyUp. destruct (keyToCommand _ _ _) as [c|] eqn:E; [|done]. apply keyup_command in E.
    by apply release_watching.
  - by apply frame_watching.
  - by apply suspend_watching.
  - by apply suspend_watching.
  - by apply save_watching.
  - by apply suspend_watching.
  - unfold encoded. destruct (_ !! n) as [[t tp]|]; [|done]. destruct (negb _); [done|].
    by destruct (shareableRunCode tp) as [[id|]|].
  - destruct (bool_decide _); [|done]. unfold onCopyExecutionId. by destruct (gp_executionId p) as [[|c id]|].
  - destruct (gm_playback _); [|done]. by apply setPlaybackSpeed_watching.
  - by destruct (bool_decide _).
Qed.
End Page.

(** ** Properties *)

(** C18: The execution ID on the end card is that of the run the card is about.
    Encodings end in any order, long after their card has gone, and a next run
    may be over by then: whatever happens on the page, the ID the card shows is
    the run code of the tape of the run that has just ended, and a text is only
    ever copied if it is the run code of a tape. *)
Theorem card_shows_its_run {W St} `{SaveStore St} `{Platform} (world_impure world_chaos : W -> num * W)
    (today : W -> string) levels reducedMotion (w : W) (store : St) (es : list PageEvent) :
  let p := page_run world_impure world_chaos today levels reducedMotion w store es in
  (forall playback reason level score best stats id copied,
     card levels p = Some (OverCard playback reason level score best stats (IdReady id copied)) ->
     shareableRunCode (gm_tape p.(gp_game)) = Some (Some id))
  /\ (forall t, CopiedText t ∈ p.(gp_effects) -> exists tape, shareableRunCode tape = Some (Some t)).
Proof.
  cbv zeta. pose proof (page_run_ok world_impure world_chaos today levels reducedMotion w store es) as Hok.
  set (p := page_run _ _ _ _ _ _ _ _) in *. destruct Hok as [_ Hid _ Hc]. split.
  - intros playback reason level score best stats id copied Hcard. unfold card in Hcard.
    destruct (gm_phase (gp_game p)) as [| | | | | | | | | |r]; try done. injection Hcard as _ _ _ _ _ _ Hcard.
    destruct (gp_executionId p) as [[|c i]|] eqn:E; try by destruct (gp_executionIdError p).
    injection Hcard as <- _. by apply Hid.
  - intros t Ht. rewrite Forall_forall in Hc. exact (Hc _ Ht).
Qed.


(** ** Witnesses *)

(** Levels on which a run is soon over. *)
Definition fast_levels (l : Level) : LevelConfig :=
  {| (LEVELS l) with cfg_speed := 60%float; cfg_maxSpeed := 60%float |}.

(** The tape of a first run: one jump, and an obstacle at tick 111. *)
Definition jump_tape : Tape := {|
  tp_date := "2026-01-01"; tp_inputs := [(0, Jump)]; tp_impure := []; tp_chaos := []; tp_restarts := [];
  tp_liveTick := 111 |}.

(** A platform on which a text of two bytes stands for it. *)
#[local] Instance demo_platform : Platform := {
  encode_json := fun _ => [123; 125];
  decode_json := fun b => if bool_decide (b = [123; 125]) then Some (json_of_tape jump_tape) else None;
  deflate_raw := fun b => {| st_chunks := [b]; st_fails := false |};
  inflate_raw := fun b => {| st_chunks := [b]; st_fails := false |} }.
#[local] Instance demo_laws : PlatformLaws (eq jump_tape).
Proof.
  split; cbn -[json_of_tape jump_tape]; intros; rewrite ?app_nil_r; try done.
  - repeat constructor; done.
  - by subst t.
Qed.

Lemma jump_tape_shareable : shareable jump_tape.
Proof.
  split_and!; [split_and!|split_and!|split_and!]; repeat constructor; try done; unfold safe_int; simpl; lia.
Qed.

Abbreviation demo_page es := (page_run (W := unit) (St := unit) still still a_day fast_levels false tt tt es).
Definition key (k : string) : KeyEvent := {| ke_key := k; ke_repeat := false; ke_ctrl := false; ke_meta := false;
  ke_alt := false; ke_target := {| kt_target := None; kt_path := [] |} |}.

(** A run is started and played to its end; its ID gets on the card. *)
Definition run_events : list PageEvent :=
  [EvKeyDown (key "Enter"); EvKeyDown (key "Enter"); EvKeyDown (key "ArrowUp"); EvFrame 120; EvEncoded 0].

Lemma over_page_check :
  (demo_page run_events).(gp_executionId) = Some (u "RPL1.e30")
  /\ gm_tape (demo_page run_events).(gp_game) = jump_tape.
Proof. vm_compute. done. Qed.

Lemma card_shows_its_run_witness :
  shareableRunCode (gm_tape (demo_page run_events).(gp_game)) = Some (Some (u "RPL1.e30"))
  /\ exists tape, shareableRunCode tape = Some (Some (u "RPL1.e30")).
Proof.
  destruct (card_shows_its_run still still a_day fast_levels false tt tt (run_events ++ [EvCopy])) as [_ H2].
  destruct (card_shows_its_run still still a_day fast_levels false tt tt run_events) as [H1 _]. split.
  - apply (H1 false "hit an obstacle" 0 0 0 emptyStats (u "RPL1.e30") false). vm_compute. reflexivity.
  - apply H2. apply list_elem_of_In. vm_compute. auto 10.
Defined.

(** Someone submits a pasted ID and starts a run of their own while the ID is
    being decoded. *)
Definition pasted_id : text := u "RPL1." ++ [10] ++ u "e30 ".
Definition busy_page : ReplayPage (W := unit) (St := unit) :=
  demo_page [EvWatch pasted_id; EvKeyDown (key "Enter"); EvKeyDown (key "Enter"); EvFrame 1].


(** What is watched is what was played: the same end, on the same tick, with the
    same history. *)
Lemma watched_run_ends_alike :
  let p := demo_page run_events in
  let q := fold_left (page_event still still a_day fast_levels false) [EvDecoded 0; EvFrame 120] busy_page in
  q.(gp_game).(gm_phase) = p.(gp_game).(gm_phase) /\ q.(gp_game).(gm_history) = p.(gp_game).(gm_history)
  /\ q.(gp_game).(gm_state).(g_tick) = p.(gp_game).(gm_state).(g_tick)
  /\ q.(gp_game).(gm_liveTick) = 111 /\ p.(gp_game).(gm_liveTick) = 111.
Proof. vm_compute. by split_and!. Qed.

(** Unlike encodings, decodings are not tied to the card they were asked for on:
    one that ends late takes a run of the player's own away. *)
Lemma late_decoding_ends_a_run :
  let q' := page_event still still a_day fast_levels false busy_page (EvDecoded 0) in
  kind busy_page.(gp_game).(gm_phase) = KPlaying /\ busy_page.(gp_game).(gm_playback) = false
  /\ busy_page.(gp_game).(gm_liveTick) = 1
  /\ kind q'.(gp_game).(gm_phase) = KTip /\ q'.(gp_game).(gm_playback) = true.
Proof. vm_compute. by split_and!. Qed.
