(* ===== verification/Widgets.v ===== *)
(** * Dialogs, toasts and followed logs

    [hooks/useModalFocus.ts], [components/Modal.tsx] and
    [components/ConfirmDialog.tsx]: where the keyboard's focus is while a dialog
    is open, and which of its buttons act.  What Tab does by itself is the
    browser's: it goes through the page's tab stops in their order.
    [lib/toast.tsx] over the browser's timers, and [hooks/useFollowScroll.ts]
    over the browser's scrolling. *)

From S2P Require Import Prelude.

(** ** The page and its tab stops *)

(** What has the focus: a tab stop, the dialog's own element, or nothing (the
    document's body). *)
Inductive Focus := OnElement (e : nat) | OnDialog | OnBody.
#[export] Instance Focus_eq_dec : EqDecision Focus.
Proof. solve_decision. Defined.

(** The tab stops of the document, those of the dialog being what the hook's
    selector finds in it. *)
Record Stops := { st_before : list nat; st_focusable : list nat; st_after : list nat }.
Definition all_stops (s : Stops) : list nat := st_before s ++ st_focusable s ++ st_after s.

(** [dialog.contains(active)]. *)
Definition contains (s : Stops) (active : Focus) : bool :=
  match active with
  | OnElement e => bool_decide (e ∈ st_focusable s)
  | OnDialog => true
  | OnBody => false
  end.

(** The stop that follows. *)
Fixpoint next_in (l : list nat) (e : nat) : option nat :=
  match l with
  | [] => None
  | x :: l => if decide (x = e) then head l else next_in l e
  end.
Definition focus_of (e : option nat) : Focus := match e with Some e => OnElement e | None => OnBody end.

(** Tab, or Shift and Tab, when nothing prevents it: the neighbour in the tab
    order.  The dialog's element is before its first stop. *)
Definition browser_tab (shift : bool) (s : Stops) (active : Focus) : Focus :=
  match active with
  | OnElement e => focus_of (next_in (if shift then reverse (all_stops s) else all_stops s) e)
  | OnDialog => focus_of (if shift then last (st_before s) else head (st_focusable s ++ st_after s))
  | OnBody => focus_of (if shift then last (all_stops s) else head (all_stops s))
  end.

(** ** useModalFocus.ts *)

(** [onKeyDown] for Tab: where it puts the focus, if it prevents the default. *)
Definition trap_tab (shift : bool) (s : Stops) (active : Focus) : option Focus :=
  match head (st_focusable s), last (st_focusable s) with
  | Some first, Some last =>
      let escaped := negb (contains s active) in
      if negb shift && (bool_decide (active = OnElement last) || escaped) then Some (OnElement first)
      else if shift && (bool_decide (active = OnElement first) || escaped) then Some (OnElement last)
      else None
  | _, _ => Some OnDialog
  end.
Definition press_tab (shift : bool) (s : Stops) (active : Focus) : Focus :=
  default (browser_tab shift s active) (trap_tab shift s active).

(** The hook's state, with the focus. [md_onCloses] counts the calls of
    [onClose]; [md_timer] is the timer that moves the focus in. *)
Record ModalFocus := {
  md_open : bool;
  md_trigger : option Focus;
  md_timer : bool;
  md_active : Focus;
  md_onCloses : nat
}.

Inductive ModalEvent :=
  | MdOpen                                 (* [open] becomes true *)
  | MdClose (document : Focus -> bool)     (* [open] becomes false; what is left in the document *)
  | MdTimer (initial : option nat)         (* with [initialFocusRef] *)
  | MdEscape
  | MdTab (shift : bool) (s : Stops)
  | MdFocus (f : Focus).                   (* a click, or the rest of the page *)

(** Focusing the body does nothing. *)
Definition focus_on (f active : Focus) : Focus := match f with OnBody => active | _ => f end.

Definition modal_event (m : ModalFocus) (e : ModalEvent) : ModalFocus :=
  match e with
  | MdOpen =>
      if m.(md_open) then m
      else {| m with md_open := true; md_trigger := Some m.(md_active); md_timer := true |}
  | MdClose document =>
      if negb m.(md_open) then m
      else
        let active := if document m.(md_active) then m.(md_active) else OnBody in
        {| m with md_open := false; md_trigger := None; md_timer := false;
             md_active := match m.(md_trigger) with
                          | Some t => if document t then focus_on t active else active
                          | None => active
                          end |}
  | MdTimer initial =>
      if m.(md_timer)
      then {| m with md_timer := false; md_active := match initial with Some e => OnElement e | None => OnDialog end |}
      else m
  | MdEscape => if m.(md_open) then {| m with md_onCloses := S m.(md_onCloses) |} else m
  | MdTab shift s =>
      {| m with md_active := if m.(md_open) then press_tab shift s m.(md_active) else browser_tab shift s m.(md_active) |}
  | MdFocus f => {| m with md_active := f |}
  end.

(** ** Modal.tsx, ConfirmDialog.tsx *)

Inductive ConfirmEvent := CfEscape | CfBackdrop (on_backdrop : bool) | CfCancel | CfConfirm.
Inductive ConfirmCall := OnConfirm | OnCancel.

(** The calls an event makes: a disabled button is not clicked, and a busy
    dialog's [onClose] does nothing. *)
Definition confirm_calls (open busy : bool) (e : ConfirmEvent) : list ConfirmCall :=
  if negb open then []
  else
    let onClose := if busy then [] else [OnCancel] in
    match e with
    | CfEscape => onClose
    | CfBackdrop on_backdrop => if on_backdrop then onClose else []
    | CfCancel => if busy then [] else [OnCancel]
    | CfConfirm => if busy then [] else [OnConfirm]
    end.

Definition confirm_label (busy : bool) (confirmLabel : string) (busyLabel : option string) : string :=
  if busy then default confirmLabel busyLabel else confirmLabel.

(** ** Tab stays in the dialog *)

Lemma next_in_lookup l e i : NoDup l -> l !! i = Some e -> next_in l e = l !! S i.
Proof.
  revert i. induction l as [|x l IH]; intros i Hn Hi; [done|]. apply NoDup_cons in Hn as [Hx Hn]. cbn.
  destruct i as [|i]; cbn in *.
  - injection Hi as ->. rewrite decide_True by done. by destruct l.
  - rewrite decide_False; [by apply IH|]. intros ->. apply Hx. by eapply list_elem_of_lookup_2.
Qed.

Lemma next_in_dialog s e i :
  NoDup (all_stops s) -> st_focusable s !! i = Some e -> (S i < length (st_focusable s))%nat ->
  next_in (all_stops s) e = st_focusable s !! S i.
Proof.
  intros Hn Hi Hl. rewrite (next_in_lookup _ _ (length (st_before s) + i)); [|done|].
  - unfold all_stops. rewrite lookup_app_r, lookup_app_l by lia. f_equal. lia.
  - unfold all_stops. apply lookup_lt_Some in Hi as ?. rewrite lookup_app_r, lookup_app_l by lia.
    rewrite <- Hi. f_equal. lia.
Qed.

Lemma previous_in_dialog s e i :
  NoDup (all_stops s) -> st_focusable s !! S i = Some e ->
  next_in (reverse (all_stops s)) e = st_focusable s !! i.
Proof.
  intros Hn Hi. set (flip := {| st_before := reverse (st_after s); st_focusable := reverse (st_focusable s);
                                st_after := reverse (st_before s) |}).
  assert (E : reverse (all_stops s) = all_stops flip).
  { unfold all_stops, flip. cbn. by rewrite !reverse_app, app_assoc. }
  apply lookup_lt_Some in Hi as Hl. rewrite E.
  assert (L : forall j, (j < length (st_focusable s))%nat ->
    st_focusable flip !! (length (st_focusable s) - S j)%nat = st_focusable s !! j).
  { intros j Hj. cbn. rewrite reverse_lookup by lia. f_equal. lia. }
  rewrite (next_in_dialog flip e (length (st_focusable s) - S (S i))).
  - rewrite <- (L i) by lia. f_equal. lia.
  - rewrite <- E. by rewrite reverse_Permutation.
  - by rewrite L.
  - cbn. rewrite length_reverse. lia.
Qed.

Lemma ends_of (l : list nat) i e : l !! i = Some e -> NoDup l ->
  exists first last', head l = Some first /\ last l = Some last'
  /\ (e = first <-> i = 0%nat) /\ (e = last' <-> S i = length l).
Proof.
  intros Hi Hn. destruct l as [|x l]; [done|]. exists x.
  destruct (last (x :: l)) as [y|] eqn:Hy; [|by apply last_None in Hy]. exists y. split_and!; try done.
  - split; [intros ->|intros ->; by injection Hi]. eapply (NoDup_lookup _ i 0); [done|done|done].
  - rewrite last_lookup in Hy. apply lookup_lt_Some in Hi as ?. split.
    + intros ->. pose proof (NoDup_lookup _ _ _ _ Hn Hi Hy). lia.
    + intros E. rewrite <- E in Hy. cbn [pred] in Hy. congruence.
Qed.

Lemma trap_inside s i e shift :
  NoDup (st_focusable s) -> st_focusable s !! i = Some e ->
  press_tab shift s (OnElement e)
  = if shift then match i with 0%nat => focus_of (last (st_focusable s)) | _ => browser_tab true s (OnElement e) end
    else if (S i =? length (st_focusable s))%nat then focus_of (head (st_focusable s)) else browser_tab false s (OnElement e).
Proof.
  intros Hn Hi. destruct (ends_of _ _ _ Hi Hn) as (f & l & Hf & Hl & Ef & El). unfold press_tab, trap_tab.
  rewrite Hf, Hl. cbn [contains]. rewrite (bool_decide_true (e ∈ _)) by by eapply list_elem_of_lookup_2.
  rewrite !orb_false_r. destruct shift; cbn [negb andb].
  - destruct i as [|i].
    + by rewrite (proj2 Ef), bool_decide_true.
    + rewrite bool_decide_false; [done|]. intros [= E]. by apply Ef in E.
  - destruct (Nat.eqb_spec (S i) (length (st_focusable s))) as [E|E].
    + by rewrite (proj2 El), bool_decide_true.
    + rewrite bool_decide_false; [done|]. intros [= ?]. by apply E, El.
Qed.

(** The focus goes around in an open dialog.  From any of its elements, Tab
    leads to the next one and Shift with Tab to the one before, past either end
    to the other end; and from anywhere else on the page Tab leads to the first
    and Shift with Tab to the last.  With nothing to stop at, the focus is put
    on the dialog itself. *)
Theorem tab_goes_around (s : Stops) (active : Focus) :
  NoDup (all_stops s) ->
  let n := length (st_focusable s) in
  (n = 0%nat -> forall shift, press_tab shift s active = OnDialog)
  /\ (forall i e, active = OnElement e -> st_focusable s !! i = Some e ->
        press_tab false s active = focus_of (st_focusable s !! (S i mod n)%nat)
        /\ press_tab true s active = focus_of (st_focusable s !! ((i + n - 1) mod n)%nat))
  /\ ((0 < n)%nat -> contains s active = false ->
        press_tab false s active = focus_of (st_focusable s !! 0%nat)
        /\ press_tab true s active = focus_of (st_focusable s !! (n - 1)%nat)).
Proof.
  intros Hall n. assert (Hn : NoDup (st_focusable s)).
  { unfold all_stops in Hall. apply NoDup_app in Hall as (_ & _ & Hall). by apply NoDup_app in Hall as (? & _). }
  split_and!.
  - intros H0 shift. unfold press_tab, trap_tab. by destruct (st_focusable s).
  - intros i e -> Hi. pose proof (lookup_lt_Some _ _ _ Hi) as Hl. fold n in Hl.
    rewrite !(trap_inside s i e) by done. fold n. split.
    + destruct (Nat.eqb_spec (S i) n) as [E|E].
      * rewrite E, Nat.Div0.mod_same. by rewrite head_lookup.
      * rewrite Nat.mod_small by lia. cbn. by rewrite (next_in_dialog s e i) by (done || (fold n; lia)).
    + destruct i as [|i].
      * rewrite Nat.mod_small by lia. rewrite last_lookup. f_equal. f_equal. fold n. lia.
      * replace (S i + n - 1)%nat with (i + 1 * n)%nat by lia. rewrite Nat.Div0.mod_add, Nat.mod_small by lia.
        cbn. by rewrite (previous_in_dialog s e i).
  - intros H0 Hc. unfold press_tab, trap_tab. rewrite head_lookup, last_lookup. fold n.
    destruct (lookup_lt_is_Some_2 (st_focusable s) 0 H0) as [f Hf].
    destruct (lookup_lt_is_Some_2 (st_focusable s) (n - 1) ltac:(fold n; lia)) as [l Hl].
    replace (Nat.pred n) with (n - 1)%nat by lia. rewrite Hf, Hl, Hc. cbn [negb]. by rewrite !orb_true_r.
Qed.

(** The way out: the dialog's own element, where the focus is put when there is
    no other initial one, is inside the dialog but not its first stop, so that
    Shift with Tab leaves the dialog from there. *)
Lemma shift_tab_leaves_the_dialog :
  press_tab true {| st_before := [1]; st_focusable := [2; 3]; st_after := [4] |} OnDialog = OnElement 1.
Proof. reflexivity. Qed.

(** ** Opening and closing *)

Definition modal_events (m : ModalFocus) (es : list ModalEvent) : ModalFocus := fold_left modal_event es m.
Definition stays_open (e : ModalEvent) : bool := match e with MdClose _ => false | _ => true end.

(** The focus comes back.  Whatever happens between the opening of a dialog and
    its closing, the element that had the focus before has it again, if it is
    still in the document; and a dialog that is closed before its timer fires
    does not take the focus any more. *)
Theorem focus_comes_back (m : ModalFocus) (es : list ModalEvent) (document : Focus -> bool) (t : nat) :
  m.(md_open) = false -> m.(md_active) = OnElement t -> document (OnElement t) = true ->
  forallb stays_open es = true ->
  let m' := modal_events m ((MdOpen :: es) ++ [MdClose document]) in
  m'.(md_open) = false /\ m'.(md_active) = OnElement t
  /\ forall initial, modal_event m' (MdTimer initial) = m'.
Proof.
  intros Ho Ha Hd Hes. cbv zeta. unfold modal_events. rewrite fold_left_app. cbn [fold_left modal_event].
  rewrite Ho, Ha. set (m1 := Build_ModalFocus _ _ _ _ _).
  assert (I : forall es m, forallb stays_open es = true -> md_open m = true -> md_trigger m = Some (OnElement t) ->
    md_open (fold_left modal_event es m) = true /\ md_trigger (fold_left modal_event es m) = Some (OnElement t)).
  { clear. induction es as [|e es IH]; intros m Hes Ho Ht; [done|]. cbn in Hes. apply andb_true_iff in Hes as [He Hes].
    cbn. apply IH; [done|..]; destruct e; cbn in *; rewrite ?Ho; try done; by destruct (md_timer m). }
  destruct (I es m1 Hes eq_refl eq_refl) as [Eo Et]. rewrite Eo, Et, Hd. by split_and!.
Qed.

(** A dialog at work cannot be confirmed again nor dismissed. *)
Lemma busy_dialog_inert open e : confirm_calls open true e = [].
Proof. destruct open, e; try done. by destruct on_backdrop. Qed.

(** ** Witnesses *)

Lemma tab_goes_around_witness :
  let s := {| st_before := [1]; st_focusable := [2; 3; 5]; st_after := [4] |} in
  press_tab false s (OnElement 5) = OnElement 2 /\ press_tab true s (OnElement 2) = OnElement 5.
Proof.
  assert (N : NoDup (all_stops {| st_before := [1]; st_focusable := [2; 3; 5]; st_after := [4] |})).
  { vm_compute. repeat (apply NoDup_cons; split; [set_solver|]). constructor. }
  split.
  - exact (proj1 (proj1 (proj2 (tab_goes_around _ (OnElement 5) N)) 2%nat 5 eq_refl eq_refl)).
  - exact (proj2 (proj1 (proj2 (tab_goes_around _ (OnElement 2) N)) 0%nat 2 eq_refl eq_refl)).
Defined.

Lemma focus_comes_back_witness :
  let m := {| md_open := false; md_trigger := None; md_timer := false; md_active := OnElement 7; md_onCloses := 0 |} in
  (modal_events m [MdOpen; MdTimer None; MdTab false {| st_before := [7]; st_focusable := [8]; st_after := [] |};
                   MdEscape; MdClose (fun f => bool_decide (f = OnElement 7))]).(md_active) = OnElement 7.
Proof.
  exact (proj1 (proj2 (focus_comes_back
    {| md_open := false; md_trigger := None; md_timer := false; md_active := OnElement 7; md_onCloses := 0 |}
    [MdTimer None; MdTab false {| st_before := [7]; st_focusable := [8]; st_after := [] |}; MdEscape]
    (fun f => bool_decide (f = OnElement 7)) 7 eq_refl eq_refl eq_refl eq_refl))).
Defined.

#[local] Open Scope Z_scope.

(** ** lib/toast.tsx *)

Definition TOAST_MS : Z := 1400.

(** The hook's state, and the browser's: the clock, the next timer's id, the
    timers set with the times they are due. *)
Record ToastState := {
  ts_msg : option string;
  ts_timerRef : option nat;
  ts_now : Z;
  ts_next : nat;
  ts_timers : list (nat * Z)
}.
Definition no_toast (now : Z) : ToastState := {|
  ts_msg := None; ts_timerRef := None; ts_now := now; ts_next := 1; ts_timers := [] |}.

Definition clear_timer (id : option nat) (timers : list (nat * Z)) : list (nat * Z) :=
  match id with None => timers | Some id => filter (fun t => t.1 <> id) timers end.

(** [show]. *)
Definition toast_show (text : string) (s : ToastState) : ToastState := {|
  ts_msg := Some text; ts_timerRef := Some s.(ts_next); ts_now := s.(ts_now); ts_next := S s.(ts_next);
  ts_timers := clear_timer s.(ts_timerRef) s.(ts_timers) ++ [(s.(ts_next), s.(ts_now) + TOAST_MS)] |}.

(** The effect's cleanup. *)
Definition toast_unmount (s : ToastState) : ToastState :=
  {| s with ts_timers := clear_timer s.(ts_timerRef) s.(ts_timers) |}.

(** [ms] pass; then the browser runs what is due, each callback emptying the
    message. *)
Definition toast_elapse (ms : Z) (s : ToastState) : ToastState :=
  let now := s.(ts_now) + ms in
  let due := filter (fun t => t.2 <= now) s.(ts_timers) in
  {| s with ts_now := now; ts_timers := filter (fun t => ~ t.2 <= now) s.(ts_timers);
            ts_msg := if bool_decide (due = []) then s.(ts_msg) else None |}.

(** [Toast]: its class and text. *)
Definition toast_view (s : ToastState) : bool * string :=
  match s.(ts_msg) with Some EmptyString | None => (false, EmptyString) | Some t => (true, t) end.

Inductive ToastEvent := TtShow (text : string) | TtElapse (ms : Z).
Definition toast_event (s : ToastState) (e : ToastEvent) : ToastState :=
  match e with TtShow text => toast_show text s | TtElapse ms => toast_elapse ms s end.
Definition toast_run (now : Z) (es : list ToastEvent) : ToastState := fold_left toast_event es (no_toast now).

(** What it should be: the text shown last, with its time. *)
Definition announce (x : option (string * Z) * Z) (e : ToastEvent) : option (string * Z) * Z :=
  match e with TtShow text => (Some (text, x.2), x.2) | TtElapse ms => (x.1, x.2 + ms) end.
Definition announced (now : Z) (es : list ToastEvent) : option (string * Z) * Z := fold_left announce es (None, now).

Definition toast_ok (x : option (string * Z) * Z) (s : ToastState) : Prop :=
  s.(ts_now) = x.2
  /\ match x.1 with
     | None => s.(ts_msg) = None /\ s.(ts_timers) = []
     | Some (text, since) =>
         exists id, s.(ts_timerRef) = Some id
         /\ if x.2 <? since + TOAST_MS then s.(ts_msg) = Some text /\ s.(ts_timers) = [(id, since + TOAST_MS)]
            else s.(ts_msg) = None /\ s.(ts_timers) = []
     end.

Definition forward (e : ToastEvent) : Prop := match e with TtShow _ => True | TtElapse ms => 0 <= ms end.

Lemma toast_event_ok x s e : forward e -> toast_ok x s -> toast_ok (announce x e) (toast_event s e).
Proof.
  destruct x as [last now]. intros He [Hn Hs]. cbn in Hn. destruct e as [text|ms]; cbn in *.
  - split; [done|]. cbn. eexists. split; [done|]. rewrite (proj2 (Z.ltb_lt now (now + TOAST_MS))) by (unfold TOAST_MS; lia).
    split; [done|]. rewrite Hn. enough (E : clear_timer (ts_timerRef s) (ts_timers s) = []) by by rewrite E.
    destruct last as [[t since]|].
    + destruct Hs as (id & -> & Hs). destruct (now <? since + TOAST_MS); destruct Hs as [_ ->]; [|done].
      unfold clear_timer. rewrite filter_cons_False; [done|]. cbn. congruence.
    + destruct Hs as [_ ->]. by destruct (ts_timerRef s).
  - split; [cbn; congruence|]. unfold toast_elapse. cbn. rewrite Hn. destruct last as [[t since]|].
    + destruct Hs as (id & Hr & Hs). exists id. split; [done|].
      destruct (Z.ltb_spec now (since + TOAST_MS)); destruct Hs as [-> ->].
      * destruct (Z.ltb_spec (now + ms) (since + TOAST_MS)).
        -- rewrite !filter_cons_False, filter_cons_True by (cbn; lia). done.
        -- rewrite filter_cons_True, filter_cons_False by (cbn; lia). done.
      * rewrite (proj2 (Z.ltb_ge (now + ms) _)) by lia. done.
    + destruct Hs as [-> ->]. done.
Qed.

(** A toast shows what was shown last, for [TOAST_MS] and no longer.  However
    shows and waits follow one another, the message is the text of the last show
    as long as less than [TOAST_MS] have passed since then, and gone after that;
    a timer of an earlier show never takes it away. *)
Theorem toast_shows_the_last (now : Z) (es : list ToastEvent) :
  Forall forward es ->
  (toast_run now es).(ts_msg)
  = match announced now es with
    | (Some (text, since), t) => if t <? since + TOAST_MS then Some text else None
    | (None, _) => None
    end
  /\ (length (toast_run now es).(ts_timers) <= 1)%nat.
Proof.
  intros Hf. assert (I : toast_ok (announced now es) (toast_run now es)).
  { unfold announced, toast_run. assert (B : toast_ok (None, now) (no_toast now)) by done. revert B.
    generalize (no_toast now), (@None (string * Z), now). induction Hf as [|e es He _ IH]; intros s x B; [done|].
    cbn. by apply IH, toast_event_ok. }
  destruct (announced now es) as [[[text since]|] t]; destruct I as [_ I]; cbn in I.
  - destruct I as (id & _ & I). destruct (t <? _); destruct I as [-> ->]; cbn; split; done || lia.
  - destruct I as [-> ->]. cbn. split; [done|lia].
Qed.

(** ** hooks/useFollowScroll.ts *)

Definition SCROLL_THRESHOLD : Z := 24.

(** The scrolled element, and the state of its owner. *)
Record Followed := {
  fo_scrollHeight : Z;
  fo_scrollTop : Z;
  fo_clientHeight : Z;
  fo_following : bool;
  fo_stale : bool          (* lines arrived since the effect last ran *)
}.

(** The browser keeps [scrollTop] in its range. *)
Definition clamp (f : Followed) (top : Z) : Z := Z.max 0 (Z.min top (f.(fo_scrollHeight) - f.(fo_clientHeight))).
Definition scroll_to (top : Z) (f : Followed) : Followed := {| f with fo_scrollTop := clamp f top |}.

(** The effect on [revision] and [following]. *)
Definition follow_effect (f : Followed) : Followed :=
  let f := {| f with fo_stale := false |} in
  if negb f.(fo_following) then f
  else if 0 <? f.(fo_scrollHeight) then scroll_to f.(fo_scrollHeight) f else f.

Definition handleScroll (f : Followed) : Followed :=
  if f.(fo_scrollHeight) =? 0 then f
  else
    let distFromBottom := f.(fo_scrollHeight) - f.(fo_scrollTop) - f.(fo_clientHeight) in
    if (SCROLL_THRESHOLD <? distFromBottom) && f.(fo_following) then {| f with fo_following := false |} else f.

Inductive FollowEvent :=
  | FwLines (scrollHeight : Z)     (* lines are rendered; the effect is still to run *)
  | FwEffect
  | FwScroll                       (* the browser reports a scroll *)
  | FwUser (top : Z)               (* the user scrolls *)
  | FwFollow.                      (* following is switched on *)
Definition follow_event (f : Followed) (e : FollowEvent) : Followed :=
  match e with
  | FwLines h => let f := {| f with fo_scrollHeight := h; fo_stale := true |} in scroll_to f.(fo_scrollTop) f
  | FwEffect => follow_effect f
  | FwScroll => handleScroll f
  | FwUser top => scroll_to top f
  | FwFollow => {| f with fo_following := true; fo_stale := true |}
  end.
Definition follow_events (f : Followed) (es : list FollowEvent) : Followed := fold_left follow_event es f.

(** No event of the user's, and no scroll reported before the effect has run. *)
Fixpoint untouched (stale : bool) (es : list FollowEvent) : Prop :=
  match es with
  | [] => True
  | FwLines h :: es => 0 <= h /\ untouched true es
  | FwEffect :: es => untouched false es
  | FwScroll :: es => stale = false /\ untouched false es
  | FwUser _ :: _ => False
  | FwFollow :: es => untouched true es
  end.

(** At the bottom, as far as it can be. *)
Definition at_bottom (f : Followed) : Prop := f.(fo_scrollHeight) - f.(fo_scrollTop) - f.(fo_clientHeight) <= 0.
Definition followed_ok (f : Followed) : Prop :=
  f.(fo_following) = true /\ 0 <= f.(fo_scrollHeight) /\ 0 <= f.(fo_clientHeight) /\ 0 <= f.(fo_scrollTop)
  /\ (f.(fo_stale) = false -> at_bottom f).

Lemma scroll_to_end f : 0 <= f.(fo_clientHeight) -> at_bottom (scroll_to f.(fo_scrollHeight) f).
Proof. intros H. unfold at_bottom, scroll_to, clamp. cbn. lia. Qed.

Lemma follow_event_ok f e es :
  followed_ok f -> untouched f.(fo_stale) (e :: es) ->
  followed_ok (follow_event f e) /\ untouched (follow_event f e).(fo_stale) es.
Proof.
  intros (Hf & Hs & Hc & Ht & Hb). destruct e; cbn; intros Hu.
  - destruct Hu as [Hh Hu]. split; [|done]. split_and!; try done. unfold scroll_to, clamp. cbn. lia.
  - unfold follow_effect. cbn. rewrite Hf. cbn. destruct (Z.ltb_spec 0 (fo_scrollHeight f)).
    + split; [|done]. unfold followed_ok. split_and!; [done|done|done|cbn; unfold clamp; lia|]. intros _.
      by apply (scroll_to_end {| f with fo_stale := false |}).
    + split; [|done]. split_and!; try done. intros _. unfold at_bottom. cbn. lia.
  - destruct Hu as [Est Hu]. unfold handleScroll. destruct (_ =? 0); [by rewrite Est|].
    rewrite (proj2 (Z.ltb_ge _ _)) by (specialize (Hb Est); unfold at_bottom, SCROLL_THRESHOLD in *; lia).
    cbn. by rewrite Est.
  - done.
  - split; [|done]. by split_and!.
Qed.

(** Only the user ends following.  As long as the user does not scroll, and no
    scroll is reported between new lines and the effect they cause, a followed
    log stays followed and, once the effect has run, at its bottom; and a user
    who scrolls away from the bottom by more than the threshold ends it. *)
Theorem follow_until_scrolled (f : Followed) :
  followed_ok f ->
  (forall es, untouched f.(fo_stale) es ->
     let f' := follow_events f es in
     f'.(fo_following) = true /\ (f'.(fo_stale) = false -> at_bottom f'))
  /\ (forall top, SCROLL_THRESHOLD < f.(fo_scrollHeight) - f.(fo_clientHeight) - top -> 0 <= top ->
        (follow_events f [FwUser top; FwScroll]).(fo_following) = false).
Proof.
  intros Hf. split.
  - intros es Hu. cbv zeta. assert (I : followed_ok (follow_events f es)).
    { revert f Hf Hu. induction es as [|e es IH]; intros f Hf Hu; [done|]. cbn.
      destruct (follow_event_ok f e es Hf Hu) as [Hf' Hu']. by apply IH. }
    destruct I as (H1 & _ & _ & _ & H2). done.
  - intros top Hd Ht. destruct Hf as (H1 & H2 & H3 & _ & _). unfold SCROLL_THRESHOLD in Hd.
    cbn. unfold handleScroll, scroll_to, clamp. cbn.
    rewrite (proj2 (Z.eqb_neq (fo_scrollHeight f) 0)) by lia.
    rewrite H1. match goal with |- context [?a <? ?b] => rewrite (proj2 (Z.ltb_lt a b)) by (unfold SCROLL_THRESHOLD; lia) end.
    done.
Qed.

(** A scroll that is reported between the two is taken for the user's. *)
Lemma late_scroll_ends_following :
  let f := {| fo_scrollHeight := 500; fo_scrollTop := 300; fo_clientHeight := 200; fo_following := true; fo_stale := false |} in
  at_bottom f /\ (follow_events f [FwLines 540; FwScroll; FwEffect]).(fo_following) = false.
Proof. vm_compute. split; [discriminate|reflexivity]. Qed.

(** ** Witnesses *)

Lemma toast_shows_the_last_witness :
  (toast_run 0 [TtShow "Added a"; TtElapse 1000; TtShow "Disconnected b"; TtElapse 1000]).(ts_msg) = Some "Disconnected b"%string
  /\ (toast_run 0 [TtShow "Added a"; TtElapse 1400]).(ts_msg) = None.
Proof.
  split.
  - apply (proj1 (toast_shows_the_last 0 [TtShow "Added a"; TtElapse 1000; TtShow "Disconnected b"; TtElapse 1000]
      ltac:(repeat constructor; discriminate))).
  - apply (proj1 (toast_shows_the_last 0 [TtShow "Added a"; TtElapse 1400] ltac:(repeat constructor; discriminate))).
Defined.

Definition full_log : Followed :=
  {| fo_scrollHeight := 500; fo_scrollTop := 300; fo_clientHeight := 200; fo_following := true; fo_stale := false |}.
Lemma follow_until_scrolled_witness :
  (follow_events full_log [FwLines 540; FwEffect; FwScroll]).(fo_following) = true
  /\ (follow_events full_log [FwUser 100; FwScroll]).(fo_following) = false.
Proof.
  assert (O : followed_ok full_log) by (vm_compute; split_and!; done).
  destruct (follow_until_scrolled full_log O) as [H1 H2]. split.
  - apply (H1 [FwLines 540; FwEffect; FwScroll]). vm_compute. split_and!; done.
  - apply H2; vm_compute; done.
Defined.
