(* ===== verification/StorePanel.v ===== *)
(** * State store connections

    [components/StateStoreConnectionsPanel.tsx] with [hooks/useStoreMutations.ts]:
    the list of stores, the confirmation of a disconnect, and the requests it
    sends.  Requests are answered in any order; the rest of a handler after its
    [await] is the event of the answer, with the store the handler was called
    for. *)

From S2P Require Import Prelude ApiTypes Apps AppPages Widgets.
#[local] Open Scope string_scope.

(** ** hooks/useStoreMutations.ts *)

Inductive StoreRequest (Body : Type) :=
  | AddStore (p : Body)
  | UpdateStore (id : string) (p : Body)
  | DeleteStore (id : string).
Arguments AddStore {Body}.
Arguments UpdateStore {Body}.
Arguments DeleteStore {Body}.

(** Method, path and body of a request; [encode] is [encodeURIComponent]. *)
Definition store_path {Body} (encode : string -> string) (r : StoreRequest Body) : string * string * option Body :=
  match r with
  | AddStore p => ("POST", "/statestores", Some p)
  | UpdateStore id p => ("PUT", "/statestores/" +:+ encode id, Some p)
  | DeleteStore id => ("DELETE", "/statestores/" +:+ encode id, None)
  end.

(** ** The panel *)

#[export] Instance StateStore_eq_dec : EqDecision StateStore.
Proof. solve_decision. Defined.

Record StorePanel := {
  sp_stores : option (list StateStore);
  sp_addOpen : bool;
  sp_pendingDelete : option StateStore;
  sp_deleteError : option string;
  sp_toast : ToastState;
  sp_waiting : list (nat * StateStore);      (* deletes under way, with the store of their handler *)
  sp_sent : list string;                     (* the id of every delete sent, in order *)
  sp_invalidated : nat                       (* how often the list was asked for anew *)
}.

Definition store_panel (now : Z) : StorePanel := {|
  sp_stores := None; sp_addOpen := false; sp_pendingDelete := None; sp_deleteError := None;
  sp_toast := no_toast now; sp_waiting := []; sp_sent := []; sp_invalidated := 0 |}.

Definition openDeleteConfirm (s : StateStore) (p : StorePanel) : StorePanel :=
  {| p with sp_deleteError := None; sp_pendingDelete := Some s |}.
Definition closeDeleteConfirm (p : StorePanel) : StorePanel :=
  {| p with sp_deleteError := None; sp_pendingDelete := None |}.

(** [handleConfirmDelete], up to its [await]. *)
Definition handleConfirmDelete (p : StorePanel) : StorePanel :=
  match p.(sp_pendingDelete) with
  | None => p
  | Some s => {| p with sp_deleteError := None; sp_sent := (p.(sp_sent) ++ [s.(ss_id)])%list;
                        sp_waiting := (p.(sp_waiting) ++ [(length p.(sp_sent), s)])%list |}
  end.

(** Its rest, for the store [s]. *)
Definition delete_answered (s : StateStore) (failed : option string) (p : StorePanel) : StorePanel :=
  match failed with
  | None =>
      closeDeleteConfirm {| p with sp_invalidated := S p.(sp_invalidated);
                                   sp_toast := toast_show ("Disconnected " +:+ s.(ss_name)) p.(sp_toast) |}
  | Some message => {| p with sp_deleteError := Some message |}
  end.

Definition onSaved (name : string) (p : StorePanel) : StorePanel :=
  {| p with sp_addOpen := false; sp_invalidated := S p.(sp_invalidated);
            sp_toast := toast_show ("Added " +:+ name) p.(sp_toast) |}.

(** A row offers to disconnect its store unless it is the active one. *)
Definition disconnectable (p : StorePanel) (s : StateStore) : bool :=
  bool_decide (s ∈ default [] p.(sp_stores)) && negb s.(ss_active).

(** The text under the question. *)
Definition delete_note (s : StateStore) : string :=
  if String.eqb s.(ss_source) "auto"
  then "It will stay hidden unless it becomes the active workflow state store again."
  else "This only removes it from the dashboard registry.".

Inductive StorePanelEvent :=
  | SpStores (stores : list StateStore)       (* the query's data *)
  | SpDisconnect (s : StateStore)
  | SpCancel
  | SpConfirm
  | SpAnswer (n : nat) (a : Answer)
  | SpAdd | SpAddClose | SpSaved (name : string)
  | SpElapse (ms : Z).

Section Panel.
Context (number_text : Z -> string).

Definition store_panel_event (p : StorePanel) (e : StorePanelEvent) : StorePanel :=
  match e with
  | SpStores stores => {| p with sp_stores := Some stores |}
  | SpDisconnect s =>
      if disconnectable p s then openDeleteConfirm s p else p
  | SpCancel => closeDeleteConfirm p
  | SpConfirm => handleConfirmDelete p
  | SpAnswer n a =>
      match List.find (fun w => Nat.eqb w.1 n) p.(sp_waiting) with
      | None => p
      | Some (_, s) =>
          delete_answered s (failure number_text a)
            {| p with sp_waiting := filter (fun w => w.1 <> n) p.(sp_waiting) |}
      end
  | SpAdd => {| p with sp_addOpen := true |}
  | SpAddClose => {| p with sp_addOpen := false |}
  | SpSaved name => if p.(sp_addOpen) then onSaved name p else p
  | SpElapse ms => {| p with sp_toast := toast_elapse ms p.(sp_toast) |}
  end.
Definition store_panel_run (now : Z) (es : list StorePanelEvent) : StorePanel := fold_left store_panel_event es (store_panel now).

(** ** What is sent and what is told *)

(** A confirmed disconnect of [s] among the events. *)
Definition confirmed_disconnect (now : Z) (es : list StorePanelEvent) (s : StateStore) : Prop :=
  exists es1 es2 es3, es = (es1 ++ SpDisconnect s :: es2 ++ SpConfirm :: es3)%list
    /\ disconnectable (store_panel_run now es1) s = true /\ SpCancel ∉ es2.
(** The same, not yet confirmed. *)
Definition asked_disconnect (now : Z) (es : list StorePanelEvent) (s : StateStore) : Prop :=
  exists es1 es2, es = (es1 ++ SpDisconnect s :: es2)%list
    /\ disconnectable (store_panel_run now es1) s = true /\ SpCancel ∉ es2.

(** What a toast may say. *)
Definition told (now : Z) (es : list StorePanelEvent) (t : string) : Prop :=
  (exists es1 n a es2 s, es = (es1 ++ SpAnswer n a :: es2)%list /\ failure number_text a = None
     /\ (n, s) ∈ (store_panel_run now es1).(sp_waiting) /\ t = "Disconnected " +:+ s.(ss_name))
  \/ (exists name, SpSaved name ∈ es /\ t = "Added " +:+ name).

Lemma confirmed_snoc now es e s : confirmed_disconnect now es s -> confirmed_disconnect now (es ++ [e])%list s.
Proof.
  intros (es1 & es2 & es3 & -> & H1 & H2). exists es1, es2, (es3 ++ [e])%list. split; [|done].
  by rewrite <- app_assoc; cbn; rewrite <- app_assoc.
Qed.
Lemma asked_snoc now es e s : e <> SpCancel -> asked_disconnect now es s -> asked_disconnect now (es ++ [e])%list s.
Proof.
  intros He (es1 & es2 & -> & H1 & H2). exists es1, (es2 ++ [e])%list. split_and!; [by rewrite <- app_assoc|done|].
  rewrite elem_of_app, list_elem_of_singleton. intros [?|?]; [done|congruence].
Qed.
Lemma asked_confirm now es s : asked_disconnect now es s -> confirmed_disconnect now (es ++ [SpConfirm])%list s.
Proof.
  intros (es1 & es2 & -> & H1 & H2). exists es1, es2, []. split; [|done]. by rewrite <- app_assoc.
Qed.
Lemma told_snoc now es e t : told now es t -> told now (es ++ [e])%list t.
Proof.
  intros [(es1 & n & a & es2 & s & -> & H)|(name & H & ->)].
  - left. exists es1, n, a, (es2 ++ [e])%list, s. split; [by rewrite <- app_assoc|done].
  - right. exists name. split; [|done]. apply elem_of_app. by left.
Qed.

Record panel_ok (now : Z) (es : list StorePanelEvent) (p : StorePanel) : Prop := {
  pnl_pending : forall s, p.(sp_pendingDelete) = Some s -> asked_disconnect now es s;
  pnl_sent : Forall (fun id => exists s, ss_id s = id /\ confirmed_disconnect now es s) p.(sp_sent);
  pnl_waiting : Forall (fun w => p.(sp_sent) !! w.1 = Some (ss_id w.2)) p.(sp_waiting);
  pnl_toast : forall t, p.(sp_toast).(ts_msg) = Some t -> told now es t
}.

Lemma sent_snoc now es e l :
  Forall (fun id => exists s, ss_id s = id /\ confirmed_disconnect now es s) l ->
  Forall (fun id => exists s, ss_id s = id /\ confirmed_disconnect now (es ++ [e])%list s) l.
Proof. intros H. eapply Forall_impl; [exact H|]. intros id (s & Hs & Hc). exists s. split; [done|by apply confirmed_snoc]. Qed.

Lemma find_waiting (l : list (nat * StateStore)) n w :
  List.find (fun w => Nat.eqb w.1 n) l = Some w -> w ∈ l /\ w.1 = n.
Proof. intros [H ->%Nat.eqb_eq]%List.find_some. split; [by apply list_elem_of_In|done]. Qed.

Lemma store_panel_event_ok now es e :
  panel_ok now es (store_panel_run now es) -> panel_ok now (es ++ [e])%list (store_panel_run now (es ++ [e])%list).
Proof.
  set (p := store_panel_run now es). intros [Hp Hs Hw Ht].
  assert (Er : store_panel_run now (es ++ [e])%list = store_panel_event p e).
  { unfold store_panel_run. by rewrite fold_left_app. }
  rewrite Er. assert (Keep : e <> SpCancel -> panel_ok now (es ++ [e])%list p).
  { intros He. split; [intros; by apply asked_snoc, Hp|by apply sent_snoc|done|intros; by apply told_snoc, Ht]. }
  destruct e as [stores|s| | |n a| | |name|ms]; cbn [store_panel_event].
  - by destruct Keep.
  - destruct (disconnectable p s) eqn:D; [|by apply Keep]. destruct Keep; [done|]. split; [|done..].
    intros s' [= <-]. exists es, []. split_and!; [done|done|apply not_elem_of_nil].
  - split; cbn; [done|by apply sent_snoc|done|intros; by apply told_snoc, Ht].
  - unfold handleConfirmDelete. destruct (sp_pendingDelete p) as [s|] eqn:E; [|by apply Keep].
    destruct Keep as [K1 K2 K3 K4]; [done|]. split; cbn; [intros s' Hs'; apply K1; congruence| | |exact K4].
    + apply Forall_app. split; [exact K2|]. constructor; [|constructor]. exists s. split; [done|]. by apply asked_confirm, Hp.
    + apply Forall_app. split; [|constructor; [by rewrite list_lookup_middle|constructor]].
      eapply Forall_impl; [exact K3|]. intros w Hl. by apply lookup_app_l_Some.
  - destruct (List.find _ _) as [[m s]|] eqn:F; [|by apply Keep]. apply find_waiting in F as [Hin Em]. cbn in Em. subst m.
    destruct Keep as [K1 K2 K3 K4]; [done|].
    assert (K3' : Forall (fun w => sp_sent p !! w.1 = Some (ss_id w.2)) (filter (fun w => w.1 <> n) (sp_waiting p))).
    { apply Forall_forall. intros w [_ Hx]%list_elem_of_filter. rewrite Forall_forall in K3. by apply K3. }
    unfold delete_answered. destruct (failure number_text a) as [msg|] eqn:Ef; [by split|].
    split; cbn; [done|done|done|]. intros t [= <-]. left. by exists es, n, a, [], s.
  - by destruct Keep.
  - by destruct Keep.
  - destruct (sp_addOpen p); [|by apply Keep]. destruct Keep as [K1 K2 K3 K4]; [done|]. split; cbn; [done..|].
    intros t [= <-]. right. exists name. split; [|done]. apply elem_of_app. right. by left.
  - destruct Keep as [K1 K2 K3 K4]; [done|]. split; cbn; [done..|]. intros t Hm. apply K4. by case_bool_decide.
Qed.
End Panel.

(** ** Properties *)

(** C26: Stores are disconnected on request only.  Whatever happens in the panel, and
    in whatever order answers come: the requests sent are for stores whose
    Disconnect was clicked while the list showed them as not active, and that
    were confirmed before the question was cancelled; and a toast names a store
    whose disconnection the server has granted, or one that was added. *)
Theorem disconnects_are_confirmed (number_text : Z -> string) (now : Z) (es : list StorePanelEvent) :
  let p := store_panel_run number_text now es in
  Forall (fun id => exists s, ss_id s = id /\ confirmed_disconnect number_text now es s) p.(sp_sent)
  /\ (forall t, p.(sp_toast).(ts_msg) = Some t -> told number_text now es t)
  /\ Forall (fun w => p.(sp_sent) !! w.1 = Some (ss_id w.2)) p.(sp_waiting).
Proof.
  cbv zeta. assert (I : panel_ok number_text now es (store_panel_run number_text now es)).
  { induction es as [|e es IH] using rev_ind; [|by apply store_panel_event_ok]. by split; cbn. }
  by destruct I.
Qed.

(** ** What the panel does not rule out *)

Definition sample_store (id : string) : StateStore := {|
  ss_id := id; ss_name := "store " +:+ id; ss_type := "state.redis"; ss_source := "manual"; ss_path := ""; ss_active := false;
  ss_connection := ""; ss_updatedAt := None; ss_secretIssue := None |}.
Definition panel_of (es : list StorePanelEvent) : StorePanel :=
  store_panel_run (fun _ => "404") 0 (SpStores [sample_store "a"; sample_store "b"] :: es).

(** The dialog is not tied to the request under way: an answer that comes after
    another store's question was opened closes that question, or shows its error
    there; and Confirm, not disabled meanwhile, sends the request again. *)
Lemma late_answer_hits_another_question :
  let asked := [SpDisconnect (sample_store "a"); SpConfirm; SpCancel; SpDisconnect (sample_store "b")] in
  (panel_of asked).(sp_pendingDelete) = Some (sample_store "b")
  /\ (panel_of (asked ++ [SpAnswer 0 (Response 204 None)])%list).(sp_pendingDelete) = None
  /\ (panel_of (asked ++ [SpAnswer 0 (Response 404 None)])%list).(sp_deleteError) = Some "request failed: 404"
  /\ (panel_of [SpDisconnect (sample_store "a"); SpConfirm; SpConfirm]).(sp_sent) = ["a"; "a"].
Proof. vm_compute. done. Qed.
