(* ===== verification/Shell.v ===== *)
(** * The dashboard around its pages

    [App.tsx], [components/TopNav.tsx], [components/RefreshControl.tsx],
    [components/ThemeToggle.tsx], [components/ResourcesSidebar.tsx] and the links
    of [lib/share.ts]: what the shell shows, and what of it the browser's
    storage keeps. *)

From Stdlib Require Import Ascii.
From stdpp Require Import pretty.
From S2P Require Import Prelude JsNum Decimal Json Text Persistence AppPages Prefs WorkflowsPage.
#[local] Open Scope string_scope.
#[local] Open Scope Z_scope.

(** ** components/TopNav.tsx *)

Inductive CapabilityName := CapWorkflows | CapState | CapControlPlane | CapLogs.
Definition has_capability (caps : Capabilities) (c : CapabilityName) : bool :=
  match c with
  | CapWorkflows => caps.(cap_workflows)
  | CapState => default false caps.(cap_state)
  | CapControlPlane => caps.(cap_controlPlane)
  | CapLogs => caps.(cap_logs)
  end.

Record NavItem := { nv_label : string; nv_to : string; nv_cap : option CapabilityName }.
Definition NAV_ITEMS : list NavItem := [
  {| nv_label := "Applications"; nv_to := "/"; nv_cap := None |};
  {| nv_label := "Components"; nv_to := "/components"; nv_cap := None |};
  {| nv_label := "Workflows"; nv_to := "/workflows"; nv_cap := Some CapWorkflows |};
  {| nv_label := "State"; nv_to := "/state"; nv_cap := Some CapState |};
  {| nv_label := "Actors"; nv_to := "/actors"; nv_cap := None |};
  {| nv_label := "Subscriptions"; nv_to := "/subscriptions"; nv_cap := None |};
  {| nv_label := "Resiliency"; nv_to := "/resiliency"; nv_cap := None |};
  {| nv_label := "HTTP Endpoints"; nv_to := "/http-endpoints"; nv_cap := None |};
  {| nv_label := "Configurations"; nv_to := "/configurations"; nv_cap := None |};
  {| nv_label := "Control Plane"; nv_to := "/control-plane"; nv_cap := Some CapControlPlane |};
  {| nv_label := "Logs"; nv_to := "/logs"; nv_cap := Some CapLogs |}].
Definition nav_items (caps : Capabilities) : list NavItem :=
  List.filter (fun i => match i.(nv_cap) with None => true | Some c => has_capability caps c end) NAV_ITEMS.

(** ** components/RefreshControl.tsx *)

Definition INTERVAL_OPTIONS : list (string * Z) := [("1s", 1000); ("3s", 3000); ("5s", 5000); ("10s", 10000); ("Off", 0)].

Section RefreshControl.
(** [number_text]: [String] of a number. *)
Context (number_text : num -> string).

Definition intervalLabel (ms : Z) : string :=
  match List.find (fun o => o.2 =? ms) INTERVAL_OPTIONS with
  | Some o => o.1
  | None => number_text (of_Z ms / 1000)%float +:+ "s"
  end.

(** The class of the dot and the title of its button. *)
Definition refresh_look (r : Refresh) (online : bool) : string * string :=
  let off := r.(rf_intervalMs) =? 0 in
  let live := negb r.(rf_paused) && negb off in
  let offline := negb online in
  (if offline then " offline" else if live then "" else " off",
   if offline then "Backend unreachable — retrying…"
   else if off then "Auto-refresh off"
   else if r.(rf_paused) then "Auto-refresh paused — click to resume"
   else "Auto-refresh every " +:+ intervalLabel r.(rf_intervalMs) +:+ " — click to pause").

(** [healthPollMs] is followed, and a failed health check is offline. *)
Definition online (health_failed : bool) : bool := negb health_failed.
End RefreshControl.

(** ** components/ResourcesSidebar.tsx *)

Definition MONTHS : list string :=
  ["Jan"; "Feb"; "Mar"; "Apr"; "May"; "Jun"; "Jul"; "Aug"; "Sep"; "Oct"; "Nov"; "Dec"].

(** The digits at the start, as many as asked for, and the rest. *)
Definition digits_n (n : nat) (t : text) : option (text * text) :=
  if (n <=? length t)%nat && forallb is_digit_unit (take n t) then Some (take n t, drop n t) else None.
Definition dash (t : text) : option text := match t with 45 :: t => Some t | _ => None end.

Definition formatPublishDate (iso : option text) : option string :=
  match iso with
  | None | Some [] => None
  | Some iso =>
      '(y, t) ← digits_n 4 iso;
      t ← dash t;
      '(m, t) ← digits_n 2 t;
      t ← dash t;
      '(d, _) ← digits_n 2 t;
      if digits_value y <=? 1 then None
      else
        let i := digits_value m - 1 in
        month ← (if i <? 0 then None else MONTHS !! Z.to_nat i);
        Some (month +:+ " " +:+ pretty (digits_value d))
  end.

Definition newsSubtitle (publishedAt : option text) (label : string) : string :=
  match formatPublishDate publishedAt with Some date => label +:+ " · " +:+ date | None => label end.

(** ** The shell

    Its React state and the browser's storage.  [sl_news] are the four slots of
    the last answer. *)

Definition SIDEBAR_COLLAPSED_KEY : string := "devdash.sidebarCollapsed".

Section Shell.
Context {St : Type} `{Storage St} `{JsText}.

Record ShellState := {
  sl_store : St;
  sl_refresh : Refresh;
  sl_theme : Theme;
  sl_collapsed : bool;
  sl_seen : list json;
  sl_news : option (list (option string));
  sl_updateAvailable : bool
}.

Definition getInitialCollapsed (s : St) : bool := bool_decide (safeGet SIDEBAR_COLLAPSED_KEY s = Some "true").

(** The page is loaded. *)
Definition shell_load (s : St) : ShellState := {|
  sl_store := s; sl_refresh := refresh_load s; sl_theme := getTheme s; sl_collapsed := getInitialCollapsed s;
  sl_seen := getSeen s; sl_news := None; sl_updateAvailable := false |}.

(** [unseen], which [onHasNewChange] hands to the shell. *)
Definition unseen (st : ShellState) : bool :=
  match st.(sl_news) with
  | None => false
  | Some news => existsb (fun url => negb (existsb (same_value (JStr url)) st.(sl_seen))) (newsUrls news)
  end.

Definition handleMarkSeen (st : ShellState) : ShellState :=
  match st.(sl_news) with
  | None => st
  | Some news =>
      let urls := newsUrls news in
      {| st with sl_store := markSeen urls st.(sl_store);
                 sl_seen := fold_left (fun seen url => set_put (JStr url) seen) urls st.(sl_seen) |}
  end.

Definition toggle_sidebar (st : ShellState) : ShellState :=
  let next := negb st.(sl_collapsed) in
  {| st with sl_store := safeSet SIDEBAR_COLLAPSED_KEY (if next then "true" else "false") st.(sl_store);
             sl_collapsed := next |}.

Definition toggle_theme (st : ShellState) : ShellState :=
  let next := match st.(sl_theme) with Dark => Light | Light => Dark end in
  {| st with sl_store := setTheme next st.(sl_store); sl_theme := next |}.

Definition pick_interval (ms : Z) (st : ShellState) : ShellState :=
  let (r, s) := setInterval ms st.(sl_refresh) st.(sl_store) in {| st with sl_refresh := r; sl_store := s |}.
Definition toggle_paused (st : ShellState) : ShellState :=
  let (r, s) := setPaused (negb st.(sl_refresh).(rf_paused)) st.(sl_refresh) st.(sl_store) in
  {| st with sl_refresh := r; sl_store := s |}.

Inductive ShellEvent :=
  | ShNews (slots : list (option string))       (* the query's data *)
  | ShUpdate (available : bool)
  | ShMarkSeen                                  (* a bell, or a link of the news *)
  | ShToggleSidebar
  | ShSidebarKey (key : string)                 (* on the collapsed sidebar's text *)
  | ShToggleTheme
  | ShInterval (ms : Z)                         (* an option of the picker *)
  | ShPause
  | ShReload.

Definition shell_event (st : ShellState) (e : ShellEvent) : ShellState :=
  match e with
  | ShNews slots => {| st with sl_news := Some slots |}
  | ShUpdate b => {| st with sl_updateAvailable := b |}
  | ShMarkSeen => handleMarkSeen st
  | ShToggleSidebar => toggle_sidebar st
  | ShSidebarKey key => if String.eqb key "Enter" || String.eqb key " " then toggle_sidebar st else st
  | ShToggleTheme => toggle_theme st
  | ShInterval ms => if existsb (fun o => o.2 =? ms) INTERVAL_OPTIONS then pick_interval ms st else st
  | ShPause => toggle_paused st
  | ShReload => shell_load st.(sl_store)
  end.
Definition shell_run (s : St) (es : list ShellEvent) : ShellState := fold_left shell_event es (shell_load s).

(** ** App.tsx *)

Definition appClass (st : ShellState) : string :=
  String.concat " " (List.filter (fun c => negb (String.eqb c ""))
    ["app"; if st.(sl_collapsed) then "collapsed" else ""; if unseen st then "has-new" else "";
     if st.(sl_updateAvailable) then "update-available" else ""]).

(** The view of the innermost route that names one. *)
Definition rumView (matches : list (option string)) : option string :=
  List.find (fun v => negb (String.eqb v "")) (omap id (rev matches)).

(** The values of the command line's placeholders: the route's own, else the
    query's. *)
Definition cliValues (app_param instance_param app_query : option string) : option string * option string :=
  (match app_param with Some a => Some a | None => app_query end, instance_param).

(** Where the hidden key sequence leads. *)
Definition konami_target (pathname : string) : option string :=
  if String.eqb pathname "/replay" then None else Some "/replay".
End Shell.
Arguments ShellState : clear implicits.

(** ** lib/share.ts *)

Definition REPO_URL : string := "https://github.com/diagridio/dev-dashboard".
Record ShareContent := { sh_emailSubject : string; sh_fullMessage : string; sh_shortSocial : string }.

Section Share.
(** [encode]: [encodeURIComponent]; [content]: the parsed YAML file. *)
Context (encode : string -> string) (content : ShareContent).
Definition newline : string := String (Ascii.ascii_of_nat 10) "".
Definition emailUrl : string :=
  "mailto:?subject=" +:+ encode content.(sh_emailSubject) +:+ "&body=" +:+ encode content.(sh_fullMessage).
Definition xUrl : string :=
  "https://x.com/intent/tweet?text=" +:+ encode content.(sh_shortSocial) +:+ "&url=" +:+ encode REPO_URL.
Definition blueskyUrl : string :=
  "https://bsky.app/intent/compose?text=" +:+ encode (content.(sh_shortSocial) +:+ newline +:+ REPO_URL).
Definition linkedinUrl : string :=
  "https://www.linkedin.com/feed/?shareActive=true&text=" +:+ encode (content.(sh_shortSocial) +:+ newline +:+ REPO_URL).
End Share.

(** ** lib/clipboard.ts *)

(** What is done to copy: the clipboard when there is one and the page is
    secure; if that is refused, or otherwise, a selected text area. *)
Inductive CopyWay := ClipboardApi | LegacyCopy.
Definition copyText (clipboard secure refused : bool) : list CopyWay :=
  if clipboard && secure then ClipboardApi :: (if refused then [LegacyCopy] else []) else [LegacyCopy].

(** ** The navigation *)

(** The pages a server without a capability cannot serve are not offered, the
    others always are, in their order. *)
Lemma nav_items_offered caps i :
  i ∈ nav_items caps <-> i ∈ NAV_ITEMS /\ forall c, i.(nv_cap) = Some c -> has_capability caps c = true.
Proof.
  unfold nav_items. rewrite list_elem_of_In, filter_In, <- list_elem_of_In.
  destruct (nv_cap i) as [c|]; split; intros [H1 H2]; (split; [done|]); try done.
  - by intros ? [= <-].
  - by apply H2.
Qed.

(** ** Publish dates *)

Lemma digits_n_spec n t d r : digits_n n t = Some (d, r) <-> t = (d ++ r)%list /\ length d = n /\ forallb is_digit_unit d = true.
Proof.
  unfold digits_n. destruct (Nat.leb_spec n (length t)); cbn [andb].
  - destruct (forallb _ _) eqn:E; split.
    + intros [= <- <-]. split_and!; [by rewrite take_drop|rewrite length_take; lia|done].
    + intros (-> & <- & _). by rewrite take_app_length, drop_app_length.
    + done.
    + intros (-> & <- & Hd). by rewrite take_app_length, Hd in E.
  - split; [done|]. intros (-> & <- & _). rewrite length_app in H. lia.
Qed.

Lemma dash_spec t r : dash t = Some r <-> t = 45 :: r.
Proof.
  split; [|by intros ->]. unfold dash. destruct t as [|c t]; [done|].
  destruct (Z.eq_dec c 45) as [->|H]; [by intros [= ->]|]. intros E. exfalso. apply H.
  destruct c as [|p|p]; try done. repeat (destruct p as [p|p|]; try done).
Qed.

(** A date is shown exactly for a text that begins with a year after 1, a month
    of the year and a day, of four, two and two digits; all else shows none. *)
Theorem formatPublishDate_exact (iso : text) (shown : string) :
  formatPublishDate (Some iso) = Some shown
  <-> exists y m d rest month,
        iso = (y ++ 45 :: m ++ 45 :: d ++ rest)%list
        /\ length y = 4%nat /\ length m = 2%nat /\ length d = 2%nat
        /\ forallb is_digit_unit (y ++ m ++ d)%list = true
        /\ 1 < digits_value y /\ 1 <= digits_value m
        /\ MONTHS !! Z.to_nat (digits_value m - 1) = Some month
        /\ shown = month +:+ " " +:+ pretty (digits_value d).
Proof.
  unfold formatPublishDate. split.
  - destruct iso as [|c iso]; [done|]. set (t := c :: iso). intros H.
    apply bind_Some in H as ([y t1] & Hy & H). apply bind_Some in H as (t2 & H2 & H).
    apply bind_Some in H as ([m t3] & Hm & H). apply bind_Some in H as (t4 & H4 & H).
    apply bind_Some in H as ([d rest] & Hd & H).
    apply digits_n_spec in Hy as (Ey & Ly & Dy), Hm as (Em & Lm & Dm), Hd as (Ed & Ld & Dd).
    apply dash_spec in H2, H4. subst t1 t2 t3 t4.
    destruct (Z.leb_spec (digits_value y) 1) as [|Hy]; [done|]. cbv zeta in H.
    apply bind_Some in H as (month & Hmonth & [= <-]). destruct (Z.ltb_spec (digits_value m - 1) 0); [done|].
    exists y, m, d, rest, month. rewrite !forallb_app, Dy, Dm, Dd. split_and!; try done. lia.
  - intros (y & m & d & rest & month & -> & Ly & Lm & Ld & Hd & Hy & Hm & Hmonth & ->).
    rewrite !forallb_app in Hd. apply andb_true_iff in Hd as [Dy [Dm Dd]%andb_true_iff].
    assert (E : exists c r, (y ++ 45 :: m ++ 45 :: d ++ rest)%list = c :: r) by (destruct y; [done|by do 2 eexists]).
    destruct E as (c & r & E). rewrite E, <- E.
    rewrite (proj2 (digits_n_spec 4 _ y (45 :: m ++ 45 :: d ++ rest)%list)) by done. cbn.
    rewrite (proj2 (digits_n_spec 2 _ m (45 :: d ++ rest)%list)) by done. cbn.
    rewrite (proj2 (digits_n_spec 2 _ d rest)) by done. cbn.
    rewrite (proj2 (Z.leb_gt _ _)) by done. rewrite (proj2 (Z.ltb_ge _ _)) by lia. by rewrite Hmonth.
Qed.

(** ** What a reload gives back *)

#[local] Arguments safeSet : simpl never.
#[local] Arguments safeGet : simpl never.
Create Rewrite HintDb keys.

Section Reload.
Context `{JsText}.
Abbreviation Shell := (ShellState (gmap string string)).

Lemma safeGet_set k k' v (s : gmap string string) :
  safeGet k' (safeSet k v s) = if decide (k = k') then Some v else safeGet k' s.
Proof. unfold safeGet, safeSet. cbn. destruct (decide (k = k')) as [->|]; [by rewrite lookup_insert_eq|by rewrite lookup_insert_ne]. Qed.

(** The URLs marked so far, beside the news shown. *)
Definition news_step (x : option (list (option string)) * list string) (e : ShellEvent) :=
  match e with
  | ShNews slots => (Some slots, x.2)
  | ShMarkSeen => (x.1, (x.2 ++ newsUrls (default [] x.1))%list)
  | ShReload => (None, x.2)
  | _ => x
  end.
Definition marked_run (es : list ShellEvent) := fold_left news_step es (None, []).

Definition seen_url (l : list json) (url : string) : bool := existsb (same_value (JStr url)) l.

Record shell_ok (initial : list json) (x : option (list (option string)) * list string) (st : Shell) : Prop := {
  so_refresh : st.(sl_refresh) = refresh_load st.(sl_store);
  so_theme : st.(sl_theme) = getTheme st.(sl_store);
  so_collapsed : st.(sl_collapsed) = getInitialCollapsed st.(sl_store);
  so_news : st.(sl_news) = x.1;
  so_texts : Forall is_text st.(sl_seen) /\ Forall is_text (getSeen st.(sl_store));
  so_seen : forall url, seen_url st.(sl_seen) url = seen_url initial url || existsb (String.eqb url) x.2;
  so_stored : forall url, seen_url (getSeen st.(sl_store)) url = seen_url initial url || existsb (String.eqb url) x.2
}.

(** Writing another key changes neither what is seen nor another choice. *)
Lemma getSeen_other k v (s : gmap string string) : k <> NEWS_KEY -> getSeen (safeSet k v s) = getSeen s.
Proof. intros Hk. unfold getSeen. by rewrite safeGet_set, decide_False. Qed.
Lemma refresh_other k v (s : gmap string string) :
  k <> REFRESH_MS_KEY -> k <> REFRESH_PAUSED_KEY -> refresh_load (safeSet k v s) = refresh_load s.
Proof. intros H1 H2. unfold refresh_load, readIntervalMs, readPaused. by rewrite !safeGet_set, !decide_False. Qed.
Lemma theme_other k v (s : gmap string string) : k <> THEME_KEY -> getTheme (safeSet k v s) = getTheme s.
Proof. intros Hk. unfold getTheme. by rewrite safeGet_set, decide_False. Qed.
Lemma collapsed_other k v (s : gmap string string) :
  k <> SIDEBAR_COLLAPSED_KEY -> getInitialCollapsed (safeSet k v s) = getInitialCollapsed s.
Proof. intros Hk. unfold getInitialCollapsed. by rewrite safeGet_set, decide_False. Qed.

Hint Rewrite getSeen_other refresh_other theme_other collapsed_other using done : keys.

Lemma interval_back ms (s : gmap string string) :
  existsb (fun o => o.2 =? ms) INTERVAL_OPTIONS = true -> readIntervalMs (safeSet REFRESH_MS_KEY (pretty ms) s) = ms.
Proof.
  intros Hms. unfold readIntervalMs. rewrite safeGet_set, decide_True by done.
  apply existsb_exists in Hms as ([l v] & Hin & Hv). apply Z.eqb_eq in Hv. cbn in Hv. subst v.
  cbn in Hin. destruct_or! Hin; try done; injection Hin as <- <-; vm_compute; reflexivity.
Qed.

Lemma seen_after_mark urls (s : gmap string string) url : array_text_law -> Forall is_text (getSeen s) ->
  Forall is_text (getSeen (markSeen urls s))
  /\ seen_url (getSeen (markSeen urls s)) url = seen_url (getSeen s) url || existsb (String.eqb url) urls.
Proof.
  intros L T. unfold markSeen. destruct (put_all_elem urls url (getSeen s) T) as [T' E]. unfold seen_url. rewrite <- E.
  destruct (L _ T') as [Ln Lp].
  assert (G : getSeen (safeSet NEWS_KEY (stringify (JArr (fold_left (fun seen url => set_put (JStr url) seen) urls (getSeen s)))) s)
              = fold_left (fun s x => set_put x s) (fold_left (fun seen url => set_put (JStr url) seen) urls (getSeen s)) []).
  { unfold getSeen at 1. rewrite safeGet_set, decide_True by done. destruct (stringify _) eqn:Es; [done|]. by rewrite Lp. }
  rewrite G. by apply read_back_seen.
Qed.

Lemma toggle_sidebar_ok initial x (st : Shell) : shell_ok initial x st -> shell_ok initial x (toggle_sidebar st).
Proof.
  intros [Hr Ht Hc Hn [Hs Hg] Hse Hst]. split; cbn; autorewrite with keys; try done.
  unfold getInitialCollapsed. rewrite safeGet_set, decide_True by done. by destruct (sl_collapsed st).
Qed.

Lemma shell_event_ok initial x (st : Shell) e :
  array_text_law -> shell_ok initial x st -> shell_ok initial (news_step x e) (shell_event st e).
Proof.
  intros L [Hr Ht Hc Hn [Hs Hg] Hse Hst]. destruct e as [slots|b| | |key| |ms| |]; cbn [shell_event news_step].
  - by split.
  - by split.
  - unfold handleMarkSeen. rewrite Hn. destruct x as [[news|] marked]; cbn [fst snd default];
      [|by rewrite app_nil_r; split].
    split; cbn; unfold markSeen; autorewrite with keys; try done.
    + destruct (put_all_elem (newsUrls news) "" _ Hs) as [? _]. split; [done|]. by apply (seen_after_mark _ _ "").
    + intros url. destruct (put_all_elem (newsUrls news) url _ Hs) as [_ E]. unfold seen_url. rewrite E, existsb_app.
      fold (seen_url (sl_seen st) url). by rewrite Hse, orb_assoc.
    + intros url. destruct (seen_after_mark (newsUrls news) _ url L Hg) as [_ E]. unfold markSeen in E.
      by rewrite E, existsb_app, Hst, orb_assoc.
  - by apply toggle_sidebar_ok.
  - destruct (_ || _); [by apply toggle_sidebar_ok|by split].
  - split; cbn; unfold setTheme; autorewrite with keys; try done.
    unfold getTheme. rewrite safeGet_set, decide_True by done. by destruct (sl_theme st).
  - destruct (existsb _ _) eqn:E; [|by split]. unfold pick_interval. cbn.
    split; cbn; autorewrite with keys; try done. unfold refresh_load. rewrite interval_back by done. rewrite Hr. cbn.
    unfold readPaused. by rewrite safeGet_set, decide_False.
  - unfold toggle_paused. cbn. split; cbn; autorewrite with keys; try done. rewrite Hr. unfold refresh_load. cbn.
    match goal with |- context [safeSet _ ?v _] => set (w := v) end.
    assert (Ei : readIntervalMs (safeSet REFRESH_PAUSED_KEY w (sl_store st)) = readIntervalMs (sl_store st))
      by (unfold readIntervalMs; by rewrite safeGet_set, decide_False).
    assert (Ep : readPaused (safeSet REFRESH_PAUSED_KEY w (sl_store st)) = bool_decide (w = "true"))
      by (unfold readPaused; rewrite safeGet_set, decide_True by done; apply bool_decide_ext; split; congruence).
    rewrite Ei, Ep. unfold w. by destruct (readPaused (sl_store st)).
  - by split.
Qed.
End Reload.

(** ** Properties *)

(** C27: A reload changes nothing.  With a storage that works, after any picks,
    pauses, toggles, news, bells and reloads: a page loaded now would have the
    interval, the pause, the theme and the sidebar that are shown, the interval
    is one of the picker's, and the bell rings exactly for news with an item
    whose URL was neither marked, before or after any reload, nor known as seen
    at the start. *)
Theorem shell_survives_reload `{JsText} (s : gmap string string) (es : list ShellEvent) :
  array_text_law -> Forall is_text (getSeen s) ->
  let st := shell_run s es in
  let back := shell_load st.(sl_store) in
  back.(sl_refresh) = st.(sl_refresh) /\ back.(sl_theme) = st.(sl_theme) /\ back.(sl_collapsed) = st.(sl_collapsed)
  /\ existsb (fun o => o.2 =? st.(sl_refresh).(rf_intervalMs)) INTERVAL_OPTIONS = true
  /\ unseen st = match (marked_run es).1 with
                 | None => false
                 | Some news => existsb (fun url => negb (seen_url (getSeen s) url || existsb (String.eqb url) (marked_run es).2))
                                  (newsUrls news)
                 end.
Proof.
  intros L T. cbv zeta. assert (I : shell_ok (getSeen s) (marked_run es) (shell_run s es)).
  { unfold shell_run, marked_run. assert (B : shell_ok (getSeen s) (None, []) (shell_load s)).
    { split; cbn; try done; intros url; by rewrite orb_false_r. }
    revert B. generalize (shell_load s), (@None (list (option string)), @nil string).
    induction es as [|e es IH]; intros st x B; [done|]. cbn. by apply IH, shell_event_ok. }
  destruct I as [Hr Ht Hc Hn _ Hse _]. split_and!; [by rewrite Hr|by rewrite Ht|by rewrite Hc| |].
  - rewrite Hr. destruct (intervals_in_range (shell_run s es).(sl_store) 0) as [V _].
    unfold VALID_INTERVAL_MS in V. cbn [refresh_load rf_intervalMs] in *. set (ms := readIntervalMs _) in *.
    clearbody ms. set_unfold in V. by destruct_or! V; subst ms.
  - unfold unseen. rewrite Hn. destruct (marked_run es).1 as [news|]; [|done].
    clear Hn. induction (newsUrls news) as [|url urls IH]; [done|]. cbn. rewrite IH. f_equal. f_equal. apply Hse.
Qed.

(** ** Witnesses *)

(** A text of an array of texts: every character is escaped, every text and the
    array have an end. *)
Fixpoint write_text (s k : string) : string :=
  match s with EmptyString => String "y"%char k | String c s => String "x"%char (String c (write_text s k)) end.
Fixpoint write_texts (l : list string) : string :=
  match l with [] => "z" | s :: l => write_text s (write_texts l) end.
Fixpoint read_texts (t acc : string) (out : list string) : list string :=
  match t with
  | String "x"%char (String c t) => read_texts t (acc +:+ String c "") out
  | String "y"%char t => read_texts t "" (out ++ [acc])%list
  | _ => out
  end.

Lemma string_app_empty (a : string) : a +:+ "" = a.
Proof. induction a as [|c a IH]; [done|]. change (String c (a +:+ "") = String c a). by rewrite IH. Qed.
Lemma read_write_text s : forall acc k out,
  read_texts (write_text s k) acc out = read_texts k "" (out ++ [acc +:+ s])%list.
Proof.
  induction s as [|c s IH]; intros acc k out; cbn; [by rewrite string_app_empty|]. rewrite IH. by rewrite string_app_assoc.
Qed.
Lemma read_write_texts l : forall out, read_texts (write_texts l) "" out = (out ++ l)%list.
Proof.
  induction l as [|s l IH]; intros out; cbn; [by rewrite app_nil_r|]. by rewrite read_write_text, IH, <- app_assoc.
Qed.

#[local] Instance texts_codec : JsText := {
  stringify := fun j => match j with
                        | JArr l => write_texts (omap (fun x => match x with JStr s => Some s | _ => None end) l)
                        | _ => "" end;
  parse := fun t => Some (JArr (map JStr (read_texts t "" [])));
  string_of_score := fun _ => ""; number_of := fun _ => 0%float }.

Lemma texts_codec_law : array_text_law.
Proof.
  intros l Hl. cbn. assert (E : map JStr (omap (fun x => match x with JStr s => Some s | _ => None end) l) = l).
  { induction Hl as [|j l [x ->] _ IH]; [done|]. cbn. by rewrite IH. }
  split; [by destruct (omap _ l) as [|[] ?]|].
  rewrite read_write_texts. exact (f_equal (fun l => Some (JArr l)) E).
Qed.

Definition shell_events : list ShellEvent :=
  [ShToggleTheme; ShNews [Some "blog"; None; Some "talk"]; ShMarkSeen; ShInterval 5000; ShReload; ShNews [Some "blog"; Some "report"]].

Lemma shell_survives_reload_witness :
  let st := shell_run (∅ : gmap string string) shell_events in
  (shell_load st.(sl_store)).(sl_theme) = st.(sl_theme) /\ unseen st = true.
Proof.
  assert (T : Forall is_text (getSeen (∅ : gmap string string))) by (vm_compute; constructor).
  destruct (shell_survives_reload ∅ shell_events texts_codec_law T) as (_ & Ht & _ & _ & Hu).
  split; [exact Ht|]. rewrite Hu. vm_compute. reflexivity.
Defined.
