(* ===== verification/BuilderPage.v ===== *)
(** * The component builder's page

    [pages/component-builder/ComponentBuilder.tsx], [StepType.tsx],
    [StepAuth.tsx], [StepConfigure.tsx] with [components/wizard],
    [components/MetadataFieldInput.tsx] and the catalog of
    [hooks/useComponentSchemas.ts]: what can be clicked and typed on each step,
    over the reducer of [ComponentBuilder]. *)

From S2P Require Import Prelude JsNum JsMap JsSort Text Validation ComponentBuilder.
#[local] Open Scope string_scope.
#[local] Open Scope Z_scope.

(** ** The catalog *)

(** [byType]: the schemas under their type, in the order of first appearance. *)
Definition byType (schemas : list ComponentMetadataSchema) : JsMap string (list ComponentMetadataSchema) :=
  fold_left (fun m s => map_set s.(sc_type) (default [] (map_get s.(sc_type) m) ++ [s])%list m) schemas [].

Definition compare_names (a b : string) : Z := compare_texts (u a) (u b).
Definition categories (schemas : list ComponentMetadataSchema) : list string :=
  js_sort compare_names (keys (byType schemas)).

Section Builder.
(** [lowercase]: [toLowerCase]; [schemas]: the catalog, once it is loaded. *)
Context (lowercase : text -> text) (schemas : list ComponentMetadataSchema).

(** ** StepType.tsx *)

Definition listed_schemas (category : string) (q : text) : list ComponentMetadataSchema :=
  let query := lowercase (trim q) in
  List.filter (fun s => match query with [] => true | _ =>
      includes (lowercase (u s.(sc_title))) query || includes (lowercase (u s.(sc_name))) query end)
    (default [] (map_get category (byType schemas))).
Definition schema_selected (state : ComponentBuilderState) (s : ComponentMetadataSchema) : bool :=
  same_text s.(sc_type) (sc_type <$> state.(schema)) && same_text s.(sc_name) (sc_name <$> state.(schema)).

(** ** StepAuth.tsx *)

Definition auth_profiles (state : ComponentBuilderState) : list AuthenticationProfile :=
  match state.(schema) with Some s => default [] s.(sc_authenticationProfiles) | None => [] end.
Definition find_profile (state : ComponentBuilderState) (title : string) : option AuthenticationProfile :=
  List.find (fun p => String.eqb p.(au_title) title) (auth_profiles state).

(** ** StepConfigure.tsx *)

Definition optional_fields (state : ComponentBuilderState) : list MetadataField :=
  match state.(schema) with Some s => (activeFields s state.(authProfile)).2 | None => [] end.
Definition notAdded (state : ComponentBuilderState) : list MetadataField :=
  List.filter (fun f => negb (bool_decide (f.(mf_name) ∈ state.(optionalAdded)))) (optional_fields state).
Definition shown_name_error (state : ComponentBuilderState) : option string :=
  if String.eqb state.(name) "" then None else validateResourceName (u state.(name)).
Definition secret_ref (state : ComponentBuilderState) (field : string) : SecretRef :=
  default {| sr_name := ""; sr_key := "" |} (map_get field state.(secretRefs)).

(** MetadataFieldInput.tsx: the kind of input, and what it can be set to. *)
Inductive InputKind := KSelect (options : list string) | KCheckbox | KInput (type : string).
Definition input_kind (f : MetadataField) : InputKind :=
  match f.(mf_allowedValues) with
  | Some (v :: vs) => KSelect (v :: vs)
  | _ =>
      match f.(mf_type) with
      | Some FBool => KCheckbox
      | Some FNumber => KInput (if default false f.(mf_sensitive) then "password" else "number")
      | _ => KInput (if default false f.(mf_sensitive) then "password" else "text")
      end
  end.
Definition can_be_set (f : MetadataField) (v : string) : bool :=
  match input_kind f with
  | KSelect options => String.eqb v "" || existsb (String.eqb v) options
  | KCheckbox => String.eqb v "true" || String.eqb v ""
  | KInput _ => true
  end.

(** ** components/wizard *)

Definition step_class (activeStep i : Z) : string :=
  "step" ++ (if i =? activeStep then " active" else "") ++ (if i <? activeStep then " done" else "").
Definition STEP_COUNT : Z := 4.

(** ** The page *)

Record BuilderPage := { bp_state : ComponentBuilderState; bp_q : text }.
Definition opened_builder : BuilderPage := {| bp_state := initialState; bp_q := [] |}.

Inductive BuilderEvent :=
  | BpCategory (c : string)
  | BpSearch (q : text)
  | BpPick (n : nat)                        (* a row of the list *)
  | BpAuth (title : string)
  | BpName (v : string) | BpNamespace (v : string)
  | BpUseSecret (f : MetadataField) (on : bool)
  | BpSecretName (f : MetadataField) (v : string) | BpSecretKey (f : MetadataField) (v : string)
  | BpValue (f : MetadataField) (v : string)
  | BpRemove (f : MetadataField)
  | BpAdd (f : MetadataField)
  | BpBack | BpContinue.

(** The action an event dispatches, if its control is there. *)
Definition dispatched (p : BuilderPage) (e : BuilderEvent) : option Action :=
  let s := p.(bp_state) in
  let on_step (n : Z) (b : bool) (a : Action) := if (s.(activeStep) =? n) && b then Some a else None in
  let shown (f : MetadataField) := existsb (fun g => String.eqb g.(mf_name) f.(mf_name)) (configureFields s) in
  let ref f := secret_ref s f.(mf_name) in
  match e with
  | BpCategory c => on_step 0 (existsb (String.eqb c) (categories schemas)) (SELECT_CATEGORY c)
  | BpSearch _ => None
  | BpPick n =>
      match s.(category) with
      | None | Some "" => None
      | Some c =>
          match listed_schemas c p.(bp_q) !! n with
          | Some x => on_step 0 true (SELECT_SCHEMA x x.(sc_version))
          | None => None
          end
      end
  | BpAuth title =>
      on_step 1 (match auth_profiles s with [] => false | _ => true end) (SET_AUTH_PROFILE (find_profile s title))
  | BpName v => on_step 2 true (SET_NAME v)
  | BpNamespace v => on_step 2 true (SET_NAMESPACE v)
  | BpUseSecret f on => on_step 2 (shown f) (TOGGLE_SECRET f.(mf_name) on)
  | BpSecretName f v =>
      on_step 2 (shown f && uses_secret s f.(mf_name)) (SET_SECRET f.(mf_name) {| sr_name := v; sr_key := (ref f).(sr_key) |})
  | BpSecretKey f v =>
      on_step 2 (shown f && uses_secret s f.(mf_name)) (SET_SECRET f.(mf_name) {| sr_name := (ref f).(sr_name); sr_key := v |})
  | BpValue f v =>
      on_step 2 (shown f && negb (uses_secret s f.(mf_name)) && can_be_set f v) (SET_VALUE f.(mf_name) v)
  | BpRemove f => on_step 2 (shown f && negb (is_required f)) (REMOVE_OPTIONAL f.(mf_name))
  | BpAdd f =>
      on_step 2 (existsb (fun g => String.eqb g.(mf_name) f.(mf_name)) (notAdded s) && negb (String.eqb f.(mf_name) ""))
        (ADD_OPTIONAL f.(mf_name))
  | BpBack => if 0 <? s.(activeStep) then Some BACK else None
  | BpContinue => if negb (s.(activeStep) =? STEP_COUNT - 1) && canContinue s then Some NEXT else None
  end.

(** The search is the type step's own: it is emptied when another category is
    chosen, and gone when the step is left. *)
Definition builder_event (p : BuilderPage) (e : BuilderEvent) : BuilderPage :=
  let typing := (p.(bp_state).(activeStep) =? 0) && match p.(bp_state).(category) with None | Some "" => false | _ => true end in
  let state := match dispatched p e with Some a => reducer p.(bp_state) a | None => p.(bp_state) end in
  let q := match e with BpSearch q => if typing then q else p.(bp_q) | _ => p.(bp_q) end in
  {| bp_state := state;
     bp_q := if (state.(activeStep) =? 0) && bool_decide (state.(category) = p.(bp_state).(category)) then q else [] |}.
Definition builder_run (es : list BuilderEvent) : BuilderPage := fold_left builder_event es opened_builder.

(** ** What holds on every step *)

Record on_page (s : ComponentBuilderState) : Prop := {
  pg_ok : state_ok s;
  pg_last : s.(activeStep) <= 3;
  pg_schema : 1 <= s.(activeStep) -> is_Some s.(schema);
  pg_catalog : forall sc, s.(schema) = Some sc -> sc ∈ schemas /\ s.(version) = sc.(sc_version);
  pg_ready : s.(activeStep) = 3 -> ready s
}.

Lemma byType_listed : forall c l, map_get c (byType schemas) = Some l -> Forall (fun s => s ∈ schemas) l.
Proof.
  unfold byType. apply (fold_left_inv (fun m : JsMap string (list ComponentMetadataSchema) =>
    forall c l, map_get c m = Some l -> Forall (fun s => s ∈ schemas) l)); [|done].
  intros m s Hs IH c l. destruct (decide (c = sc_type s)) as [->|Hne];
    [rewrite map_get_set_eq|rewrite map_get_set_ne by done; apply IH].
  intros [= <-]. apply Forall_app. split; [|by repeat constructor].
  destruct (map_get (sc_type s) m) as [l|] eqn:E; [by eapply IH|constructor].
Qed.

Lemma listed_in_catalog c q n x : listed_schemas c q !! n = Some x -> x ∈ schemas.
Proof.
  intros H%list_elem_of_lookup_2. unfold listed_schemas in H. apply list_elem_of_In, filter_In in H as [H _].
  destruct (map_get c (byType schemas)) as [l|] eqn:E; [|done]. apply byType_listed in E.
  rewrite Forall_forall in E. by apply E, list_elem_of_In.
Qed.

(** An action of the configuration step keeps the step and the schema. *)
Definition configures (a : Action) : bool :=
  match a with SELECT_SCHEMA _ _ | SELECT_CATEGORY _ | NEXT | BACK => false | _ => true end.
Lemma configures_keeps s a : configures a = true ->
  (reducer s a).(activeStep) = s.(activeStep) /\ (reducer s a).(schema) = s.(schema) /\ (reducer s a).(version) = s.(version).
Proof. destruct a; try done. intros _. cbn. by case_bool_decide. Qed.

Lemma on_page_configure s a : configures a = true -> s.(activeStep) < 3 -> on_page s -> on_page (reducer s a).
Proof.
  intros Ha Hl [H1 H2 H3 H4 H5]. destruct (configures_keeps s a Ha) as (E1 & E2 & E3).
  split; rewrite ?E1, ?E2, ?E3; try done; [by apply reducer_ok|lia].
Qed.

Lemma builder_event_ok p e : on_page p.(bp_state) -> on_page (builder_event p e).(bp_state).
Proof.
  intros Hp. unfold builder_event. cbn [bp_state]. destruct (dispatched p e) as [a|] eqn:D; [|exact Hp].
  set (s := bp_state p) in *. assert (Step : forall n (b : bool) x, (if (s.(activeStep) =? n) && b then Some x else None) = Some a ->
    s.(activeStep) = n /\ x = a).
  { intros n b x. destruct (Z.eqb_spec (activeStep s) n), b; try done. by intros [= ->]. }
  assert (Conf : forall n (b : bool) x, n < 3 -> configures x = true ->
    (if (s.(activeStep) =? n) && b then Some x else None) = Some a -> on_page (reducer s a)).
  { intros n b x Hn Hx [Hs <-]%Step. apply on_page_configure; [done|lia|done]. }
  destruct e; cbn [dispatched] in D; fold s in D.
  - apply Step in D as [Hs <-]. destruct Hp as [H1 H2 H3 H4 H5].
    split; [by apply reducer_ok|..]; cbn; destruct (same_text _ _) eqn:E; cbn; try done; lia.
  - done.
  - destruct (category s) as [[|ch c]|]; try done. destruct (listed_schemas _ _ !! n) as [x|] eqn:L; [|done].
    apply listed_in_catalog in L. apply Step in D as [Hs <-]. destruct Hp as [H1 H2 H3 H4 H5].
    split; [by apply reducer_ok|..]; cbn; destruct (_ && _); cbn; try lia; try done; try (by eexists); by intros sc [= <-].
  - by eapply Conf; [..|exact D].
  - by eapply Conf; [..|exact D].
  - by eapply Conf; [..|exact D].
  - by eapply Conf; [..|exact D].
  - by eapply Conf; [..|exact D].
  - by eapply Conf; [..|exact D].
  - by eapply Conf; [..|exact D].
  - by eapply Conf; [..|exact D].
  - by eapply Conf; [..|exact D].
  - destruct (Z.ltb_spec 0 (activeStep s)); [|done]. injection D as <-. destruct Hp as [H1 H2 H3 H4 H5].
    split; [by apply reducer_ok|..]; cbn; try lia; try done. intros ?. apply H3. lia.
  - destruct (Z.eqb_spec (activeStep s) (STEP_COUNT - 1)) as [|Hn]; [done|]. cbn [negb andb] in D.
    destruct (canContinue s) eqn:C; [|done]. injection D as <-. destruct Hp as [H1 H2 H3 H4 H5]. unfold STEP_COUNT in Hn.
    split; [by apply reducer_ok|..]; cbn; try done; try lia.
    + intros _. pose proof (ok_step _ H1). destruct (Z.eq_dec (activeStep s) 0) as [E|E]; [|apply H3; lia].
      unfold canContinue in C. rewrite E in C. cbn in C. destruct (schema s); [by eexists|done].
    + intros E. apply (canContinue_ready s); [lia|done].
Qed.
End Builder.

(** ** Properties *)

(** C21: What is previewed is complete.  Whatever is clicked and typed on the page,
    in whatever order the steps are gone through: when the preview shows, the
    component is one of the catalog, in its version, and the document has a
    valid name, an item for every required field of the component and the
    chosen profile, no item twice, and no item without a value. *)
Theorem preview_is_complete (lowercase : text -> text) schemas Number (es : list BuilderEvent) :
  let state := (builder_run lowercase schemas es).(bp_state) in
  state.(activeStep) = 3 ->
  let spec := assembleComponentSpec Number state in
  (exists sc, sc ∈ schemas /\ state.(schema) = Some sc
     /\ spec.(cs_type) = sc.(sc_type) ++ "." ++ sc.(sc_name) /\ spec.(cs_version) = sc.(sc_version))
  /\ validateResourceName (u spec.(cs_name)) = None
  /\ NoDup (it_name <$> spec.(cs_metadata))
  /\ (forall f, f ∈ configureFields state -> is_required f = true -> f.(mf_name) ∈ it_name <$> spec.(cs_metadata))
  /\ (forall it, it ∈ spec.(cs_metadata) -> it.(it_name) ∈ mf_name <$> configureFields state /\ item_filled it).
Proof.
  cbv zeta. set (state := bp_state _). intros H3.
  assert (I : on_page schemas state).
  { unfold state, builder_run. apply (fold_left_inv (fun p => on_page schemas p.(bp_state))).
    - intros p e _. apply builder_event_ok.
    - split; cbn; try done; try lia. split; cbn; try done; constructor. }
  destruct I as [_ _ Hs Hc Hr]. destruct (Hs ltac:(lia)) as [sc Hsc]. destruct (Hc sc Hsc) as [Hin Hv].
  split; [|exact (ready_assembles Number state (Hr H3))].
  exists sc. split_and!; [done|done| |done]. cbn. by rewrite Hsc.
Qed.

(** ** Witness *)

Definition builder_events : list BuilderEvent :=
  [BpCategory "state"; BpSearch (u "red"); BpPick 0; BpContinue; BpName "store"; BpValue (plain_field "redisHost" true) "localhost:6379";
   BpUseSecret (plain_field "redisPassword" true) true; BpSecretName (plain_field "redisPassword" true) "vault";
   BpSecretKey (plain_field "redisPassword" true) "pw"; BpContinue].

Lemma builder_previews : (builder_run (fun t => t) [redis_schema] builder_events).(bp_state).(activeStep) = 3.
Proof. vm_compute. reflexivity. Qed.

Lemma preview_is_complete_witness :
  let spec := assembleComponentSpec (fun _ => 0%float) (builder_run (fun t => t) [redis_schema] builder_events).(bp_state) in
  validateResourceName (u spec.(cs_name)) = None /\ NoDup (it_name <$> spec.(cs_metadata)).
Proof.
  destruct (preview_is_complete (fun t => t) [redis_schema] (fun _ => 0%float) builder_events builder_previews)
    as (_ & H1 & H2 & _).
  split; [exact H1|exact H2].
Defined.
