(* ===== verification/Listings.v ===== *)
(** * Lists of actors, subscriptions and resources

    [pages/Actors.tsx], [pages/Subscriptions.tsx] with its publish dialog,
    [pages/ResourceList.tsx] and [ResourceDetail.tsx], the secret panels
    ([components/SecretRefsPanel.tsx], [SecretStatusPill.tsx],
    [SecretStorePanel.tsx]), and the hooks they share: [lib/api.ts],
    [hooks/useResources.ts], [hooks/useApps.ts], [lib/useDocumentTitle.ts],
    [hooks/useAppTelemetry.ts].

    The publish dialog ([components/PublishMessageDialog.tsx] with
    [hooks/usePublishMessage.ts]) is a form over a request to a broker.  The
    caching library's mutation shows what became of the last request it was
    given; [reset] forgets it, and the answer of a request it does not wait for
    shows nowhere.  Requests are numbered in the order they are sent; their
    answers come in any order. *)

From stdpp Require Import pretty.
From S2P Require Import Prelude JsMap JsNum Text ApiTypes Apps AppPages Reveal.
#[local] Open Scope string_scope.
#[local] Open Scope Z_scope.

(** ** The publish dialog *)

(** *** Data *)

Record PublishPayload := {
  pb_pubsubName : string;
  pb_topic : string;
  pb_data : text;
  pb_contentType : string;
  pb_metadata : option (list (string * text))
}.

Inductive PublishMutation := PmIdle | PmPending (n : nat) | PmSuccess (n : nat) | PmError (n : nat) (message : string).

Record PublishForm := {
  pf_open : bool;
  pf_data : text;
  pf_contentType : string;
  pf_showAdvanced : bool;
  pf_ttl : text;
  pf_rawPayload : bool;
  pf_jsonError : string;
  pf_pub : PublishMutation;
  pf_sent : list PublishPayload;     (* every request sent, in order *)
  pf_waiting : list nat              (* the requests without an answer *)
}.

Definition CONTENT_TYPES : list string := ["application/json"; "text/plain"; "application/octet-stream"].
Definition isJSONType (ct : string) : bool := includes (u ct) (u "json").

(** The form as it is opened; [sent] and [waiting] are the world's. *)
Definition opened_publish (sent : list PublishPayload) (waiting : list nat) : PublishForm := {|
  pf_open := true; pf_data := u "{}"; pf_contentType := "application/json"; pf_showAdvanced := false; pf_ttl := [];
  pf_rawPayload := false; pf_jsonError := ""; pf_pub := PmIdle; pf_sent := sent; pf_waiting := waiting |}.

(** The dialog before it was ever open. *)
Definition closed_publish : PublishForm := {| (opened_publish [] []) with pf_open := false |}.

Section Publish.
(** [json_text]: the texts [JSON.parse] accepts; [number_text]: [String] of a status. *)
Context (json_text : text -> bool) (number_text : Z -> string) (pubsubName topic : string).

(** *** Operations *)

Definition publish_metadata (f : PublishForm) : option (list (string * text)) :=
  let metadata :=
    ((if negb (text_eqb (trim f.(pf_ttl)) []) then [("ttlInSeconds", trim f.(pf_ttl))] else [])
     ++ (if f.(pf_rawPayload) then [("rawPayload", u "true")] else []))%list in
  match metadata with [] => None | _ => Some metadata end.

Definition publish_payload (f : PublishForm) : PublishPayload := {|
  pb_pubsubName := pubsubName; pb_topic := topic; pb_data := f.(pf_data); pb_contentType := f.(pf_contentType);
  pb_metadata := publish_metadata f |}.

Definition publish_submit (f : PublishForm) : PublishForm :=
  if isJSONType f.(pf_contentType) && negb (text_eqb (trim f.(pf_data)) []) && negb (json_text f.(pf_data))
  then {| f with pf_jsonError := "Invalid JSON payload" |}
  else {| f with pf_jsonError := ""; pf_pub := PmPending (length f.(pf_sent));
                 pf_sent := (f.(pf_sent) ++ [publish_payload f])%list;
                 pf_waiting := (f.(pf_waiting) ++ [length f.(pf_sent)])%list |}.

Inductive PublishEvent :=
  | PbOpen | PbClose
  | PbData (v : text) | PbContentType (v : string) | PbAdvanced | PbTtl (v : text) | PbRaw (v : bool)
  | PbSubmit
  | PbAnswer (n : nat) (a : AppPages.Answer).

(** What is shown of the form can be used: nothing of it after a success, the
    advanced fields when they are shown, the button when nothing is under way. *)
Definition publish_event (f : PublishForm) (e : PublishEvent) : PublishForm :=
  let fields := f.(pf_open) && match f.(pf_pub) with PmSuccess _ => false | _ => true end in
  match e with
  | PbOpen => if f.(pf_open) then f else opened_publish f.(pf_sent) f.(pf_waiting)
  | PbClose => {| f with pf_open := false |}
  | PbData v => if fields then {| f with pf_data := v |} else f
  | PbContentType v => if fields && bool_decide (v ∈ CONTENT_TYPES) then {| f with pf_contentType := v |} else f
  | PbAdvanced => if fields then {| f with pf_showAdvanced := negb f.(pf_showAdvanced) |} else f
  | PbTtl v => if fields && f.(pf_showAdvanced) then {| f with pf_ttl := v |} else f
  | PbRaw v => if fields && f.(pf_showAdvanced) then {| f with pf_rawPayload := v |} else f
  | PbSubmit => if fields && match f.(pf_pub) with PmPending _ => false | _ => true end then publish_submit f else f
  | PbAnswer n a =>
      if negb (bool_decide (n ∈ f.(pf_waiting))) then f
      else
        let f := {| f with pf_waiting := filter (fun m => m <> n) f.(pf_waiting) |} in
        match f.(pf_pub) with
        | PmPending m =>
            if (m =? n)%nat
            then {| f with pf_pub := match failure number_text a with None => PmSuccess n | Some msg => PmError n msg end |}
            else f
        | _ => f
        end
  end.
Definition publish_run (es : list PublishEvent) : PublishForm := fold_left publish_event es closed_publish.

(** *** What is sent and what is shown *)

Definition payload_ok (p : PublishPayload) : Prop :=
  p.(pb_pubsubName) = pubsubName /\ p.(pb_topic) = topic /\ p.(pb_contentType) ∈ CONTENT_TYPES
  /\ (isJSONType p.(pb_contentType) = true -> trim p.(pb_data) = [] \/ json_text p.(pb_data) = true)
  /\ match p.(pb_metadata) with
     | None => True
     | Some m => m <> [] /\ Forall (fun kv => (exists ttl, kv = ("ttlInSeconds", trim ttl) /\ trim ttl <> []) \/ kv = ("rawPayload", u "true")) m
     end.

(** The request the form is about. *)
Definition about (m : PublishMutation) : option nat :=
  match m with PmIdle => None | PmPending n | PmSuccess n | PmError n _ => Some n end.

Record publish_ok (f : PublishForm) : Prop := {
  pok_type : f.(pf_contentType) ∈ CONTENT_TYPES;
  pok_sent : Forall payload_ok f.(pf_sent);
  pok_about : forall n, about f.(pf_pub) = Some n -> S n = length f.(pf_sent);
  pok_pending : forall n, f.(pf_pub) = PmPending n -> n ∈ f.(pf_waiting);
  pok_waiting : Forall (fun n => n < length f.(pf_sent))%nat f.(pf_waiting)
}.

Lemma publish_payload_ok f :
  f.(pf_contentType) ∈ CONTENT_TYPES ->
  isJSONType f.(pf_contentType) && negb (text_eqb (trim f.(pf_data)) []) && negb (json_text f.(pf_data)) = false ->
  payload_ok (publish_payload f).
Proof.
  intros Hc Hj. unfold payload_ok. split_and!; try done.
  - intros Ht. change (isJSONType (pf_contentType f) = true) in Ht. rewrite Ht in Hj. unfold text_eqb in Hj.
    change (trim (pf_data f) = [] \/ json_text (pf_data f) = true).
    case_bool_decide; [by left|]. right. cbn [negb andb] in Hj. by destruct (json_text _).
  - cbn [publish_payload pb_metadata]. unfold publish_metadata, text_eqb.
    case_bool_decide as E; destruct (pf_rawPayload f); cbn [negb app]; try done;
      (split; [done|]); repeat (apply Forall_cons; split); try apply Forall_nil; try done; try (by right);
      left; by exists (pf_ttl f).
Qed.

Lemma publish_event_ok f e : publish_ok f -> publish_ok (publish_event f e).
Proof.
  intros [Ht Hs Ha Hp Hw]. destruct e as [| |v|v| |v|v| |n a]; cbn.
  - destruct (pf_open f); [by split|]. split; cbn; try done. by left.
  - by split.
  - destruct (_ && _); by split.
  - destruct (_ && _) eqn:E; [|by split]. apply andb_true_iff in E as [_ E%bool_decide_eq_true]. by split.
  - destruct (_ && _); by split.
  - destruct (_ && _); by split.
  - destruct (_ && _); by split.
  - destruct (_ && _); [|by split]. unfold publish_submit. destruct (_ && _) eqn:E; [by split|].
    split; cbn; rewrite ?length_app; cbn; try done.
    + apply Forall_app. split; [done|]. constructor; [by apply publish_payload_ok|constructor].
    + intros n [= <-]. lia.
    + intros n [= <-]. apply elem_of_app. right. by left.
    + apply Forall_app. split; [|repeat constructor; lia]. eapply Forall_impl; [exact Hw|]. cbn. lia.
  - case_bool_decide as Hn; cbn; [|by split].
    assert (Hw' : Forall (fun n => n < length (pf_sent f))%nat (filter (fun m => m <> n) (pf_waiting f)))
      by (apply Forall_forall; intros k [_ Hk]%list_elem_of_filter; rewrite Forall_forall in Hw; by apply Hw).
    destruct (pf_pub f) as [|m|m|m msg] eqn:E; [by split; cbn; rewrite ?E| |by split; cbn; rewrite ?E|by split; cbn; rewrite ?E].
    destruct (Nat.eqb_spec m n) as [->|Hne].
    + split; cbn; try done; destruct (failure _ _); try done; intros k [= <-]; apply Ha; by rewrite E.
    + split; cbn; try done.
      intros k [= <-]. apply list_elem_of_filter. split; [done|by apply Hp].
Qed.

Lemma publish_run_ok es : publish_ok (publish_run es).
Proof.
  unfold publish_run. apply (fold_left_inv publish_ok); [by intros; apply publish_event_ok|].
  split; cbn; try done. by left.
Qed.

(** Where a result that is shown comes from. *)
Definition came_from (es : list PublishEvent) (n : nat) (result : option string) : Prop :=
  exists es1 a es2, es = (es1 ++ PbAnswer n a :: es2)%list /\ failure number_text a = result
  /\ S n = length (publish_run es1).(pf_sent) /\ (publish_run es).(pf_sent) = (publish_run es1).(pf_sent).

Definition result_of (m : PublishMutation) : option (nat * option string) :=
  match m with PmSuccess n => Some (n, None) | PmError n msg => Some (n, Some msg) | _ => None end.

Lemma publish_event_result f e n r :
  result_of (publish_event f e).(pf_pub) = Some (n, r) ->
  (result_of f.(pf_pub) = Some (n, r) /\ (publish_event f e).(pf_sent) = f.(pf_sent))
  \/ (exists a, e = PbAnswer n a /\ failure number_text a = r /\ f.(pf_pub) = PmPending n
       /\ (publish_event f e).(pf_sent) = f.(pf_sent)).
Proof.
  destruct e as [| |v|v| |v|v| |m a]; cbn; try (destruct (_ && _); by left); try by left.
  - destruct (pf_open f); [by left|done].
  - destruct (_ && _); [|by left]. unfold publish_submit. destruct (_ && _); [by left|done].
  - case_bool_decide; cbn; [|by left]. destruct (pf_pub f) as [|k|k|k msg] eqn:E; cbn; rewrite ?E; try by left.
    destruct (Nat.eqb_spec k m) as [->|]; cbn; [|done].
    destruct (failure number_text a) as [msg|] eqn:Ef; cbn; intros [= <- <-]; right; by exists a.
Qed.
End Publish.

(** *** Properties *)

(** The publish dialog sends what it says and tells what became of it.  Whatever
    is clicked and typed, and however late answers come: every request is for
    the dialog's topic, its payload is valid JSON when it is sent as JSON, and
    its metadata hold no blank value; and a success or an error that is shown is
    the answer the server gave to the very last request that was sent. *)
Theorem publish_dialog_is_truthful json_text number_text pubsubName topic (es : list PublishEvent) :
  let f := publish_run json_text number_text pubsubName topic es in
  Forall (payload_ok json_text pubsubName topic) f.(pf_sent)
  /\ (forall n, f.(pf_pub) = PmSuccess n -> came_from json_text number_text pubsubName topic es n None)
  /\ (forall n msg, f.(pf_pub) = PmError n msg -> came_from json_text number_text pubsubName topic es n (Some msg)).
Proof.
  cbv zeta. split; [apply publish_run_ok with (number_text := number_text)|].
  set (run := publish_run json_text number_text pubsubName topic).
  assert (R : forall n r, result_of (run es).(pf_pub) = Some (n, r) ->
    came_from json_text number_text pubsubName topic es n r).
  { induction es as [|e es IH] using rev_ind; [done|]. intros n r. unfold run, publish_run. rewrite fold_left_app. cbn [fold_left].
    fold (publish_run json_text number_text pubsubName topic es). fold run. intros H.
    assert (Er : run (es ++ [e])%list = publish_event json_text number_text pubsubName topic (run es) e)
      by (unfold run, publish_run; by rewrite fold_left_app).
    apply publish_event_result in H as [[H Es]|(a & -> & Ha & Hp & Es)].
    - destruct (IH _ _ H) as (es1 & a & es2 & -> & Ha & Hn & Hs). exists es1, a, (es2 ++ [e])%list.
      split_and!; [by rewrite <- app_assoc|done|done|]. fold run in Hn, Hs |- *. by rewrite Er, Es.
    - exists es, a, []. split_and!; [done|done| |fold run; by rewrite Er].
      pose proof (publish_run_ok json_text number_text pubsubName topic es) as Hok. apply (pok_about _ _ _ _ Hok).
      fold run. by rewrite Hp. }
  split; intros; apply R; fold run in H; by rewrite H.
Qed.

Example publish_late_answer :
  let run := publish_run (fun _ => true) (fun _ => "500") "pubsub" "orders" in
  (run [PbOpen; PbSubmit; PbClose; PbOpen; PbAnswer 0 (Response 500 None)]).(pf_pub) = PmIdle
  /\ (run [PbOpen; PbSubmit; PbClose; PbOpen; PbSubmit; PbAnswer 0 (Response 500 None); PbAnswer 1 (Response 204 None)]).(pf_pub)
     = PmSuccess 1.
Proof. vm_compute. done. Qed.

(** ** lib/api.ts and the queries *)

Section Api.
(** [base]: the build's base URL with "api"; [encode]: [encodeURIComponent]. *)
Context (base : string) (encode : string -> string).

Definition apiUrl (path : string) : string := base +:+ path.

(** The message of the error [fetchJSON] throws for a status that is no success;
    [error] is the text of the body's [error], if there is one. *)
Definition fetchJSON_error (number_text : Z -> string) (path : string) (status : Z) (error : option string) : option string :=
  if (200 <=? status) && (status <=? 299) then None
  else Some ("API error " +:+ number_text status +:+ match error with Some e => ": " +:+ e | None => "" end
             +:+ " for " +:+ path).

Definition by_app (path : string) (appId : option string) : string :=
  path +:+ match appId with None | Some "" => "" | Some a => "?appId=" +:+ encode a end.
Definition actors_path : option string -> string := by_app "/actors".
Definition subscriptions_path : option string -> string := by_app "/subscriptions".
Definition resources_path (kind : string) : string := "/resources?kind=" +:+ encode kind.
Definition resource_path (kind name : string) : string := "/resources/" +:+ encode kind +:+ "/" +:+ encode name.
Definition resource_enabled (kind name : string) : bool := negb (String.eqb kind "") && negb (String.eqb name "").
Definition app_path (appId : string) : string := "/apps/" +:+ appId.
End Api.

(** ** lib/useDocumentTitle.ts *)

Definition TITLE_SUFFIX : string := " | Diagrid Dev Dashboard".

(** The document's title, with the title each mounted hook found and the one its
    effect ran for. *)
Record TitleHook := { th_prev : string; th_title : option string }.
Definition title_mount (doc : string) : TitleHook := {| th_prev := doc; th_title := None |}.
(** The effect, with the cleanup of the one before, when the title changes. *)
Definition title_effect (title : string) (h : TitleHook) (doc : string) : TitleHook * string :=
  if bool_decide (h.(th_title) = Some title) then (h, doc)
  else ({| h with th_title := Some title |}, title +:+ TITLE_SUFFIX).
Definition title_unmount (h : TitleHook) (doc : string) : string :=
  match h.(th_title) with Some _ => h.(th_prev) | None => doc end.

(** A page that shows titles one after the other. *)
Definition titled (titles : list string) (h : TitleHook) (doc : string) : TitleHook * string :=
  fold_left (fun hd title => title_effect title hd.1 hd.2) titles (h, doc).

(** ** hooks/useAppTelemetry.ts *)

(** One of its two effects: the calls it makes when the token changes from
    [old] (nothing before the hook is mounted) to [new] (nothing once it is
    unmounted).  A token that is empty sets nothing. *)
Inductive ContextCall := SetContext (key value : string) | RemoveContext (key : string).
Definition token_effect (key : string) (old new : option (option string)) : list ContextCall :=
  if bool_decide (old = new) then []
  else
    ((match old with Some _ => [RemoveContext key] | None => [] end)
     ++ match new with Some (Some v) => if String.eqb v "" then [] else [SetContext key v] | _ => [] end)%list.
Definition in_context (key : string) (v : option string) (c : ContextCall) : option string :=
  match c with
  | SetContext k x => if String.eqb k key then Some x else v
  | RemoveContext k => if String.eqb k key then None else v
  end.

(** ** pages/Actors.tsx *)

Record Actor := {
  ac_appId : string;
  ac_instanceKey : option string;
  ac_type : text;
  ac_count : option Z;
  ac_placement : option string
}.

Definition INTERNAL_PREFIX : text := u "dapr.internal".
Definition actor_key (a : Actor) : string := default a.(ac_appId) a.(ac_instanceKey).

(** A [Set]'s members. *)
Definition distinct_of {A} `{EqDecision A} (l : list A) : list A :=
  fold_left (fun s x => if bool_decide (x ∈ s) then s else (s ++ [x])%list) l [].

Definition activeActors (actors : list Actor) : Z :=
  fold_left (fun sum a => sum + default 0 a.(ac_count)) actors 0.
Definition actorTypes (actors : list Actor) : nat := length (distinct_of (map ac_type actors)).
Definition hostingApps (actors : list Actor) : nat := length (distinct_of (map actor_key actors)).

(** [isInternal]; [lowercase] is [toLowerCase]. *)
Definition isInternal (lowercase : text -> text) (a : Actor) : bool := includes (lowercase a.(ac_type)) INTERNAL_PREFIX.
Definition row_link (key appId : string) : string * option string :=
  ("/apps/" +:+ key, if String.eqb key appId then None else Some ("(" +:+ key +:+ ")")).
Definition has_placement (a : Actor) : bool := match a.(ac_placement) with None | Some "" => false | _ => true end.

(** ** pages/Subscriptions.tsx *)

Record SubRule := { ru_match : option string; ru_path : option string }.
Record Subscription := {
  su_appId : string;
  su_instanceKey : option string;
  su_pubsubName : string;
  su_topic : string;
  su_rules : option (list SubRule);
  su_deadLetterTopic : option string;
  su_type : option string;
  su_reachable : option bool
}.

Definition sub_key (s : Subscription) : string := default s.(su_appId) s.(su_instanceKey).
Definition firstPath (s : Subscription) : option string :=
  match default [] s.(su_rules) with r :: _ => r.(ru_path) | [] => None end.
(** The badge with the number of rules. *)
Definition rules_badge (s : Subscription) : option nat :=
  let n := length (default [] s.(su_rules)) in if (1 <? n)%nat then Some n else None.
Definition rule_text (r : SubRule) : string * option string :=
  (match r.(ru_match) with None | Some "" => "(default)" | Some m => m end, r.(ru_path)).
Definition can_publish (s : Subscription) : bool := negb (bool_decide (s.(su_reachable) = Some false)).

(** The page, with the dialog of its target.  [sp_posted] is every request
    sent: the instance it goes to and the payload. *)
Record SubscriptionsPage := {
  sp_subscriptions : option (list Subscription);
  sp_target : option Subscription;
  sp_form : PublishForm;
  sp_posted : list (string * PublishPayload)
}.
Definition no_subscriptions : SubscriptionsPage := {|
  sp_subscriptions := None; sp_target := None; sp_form := closed_publish; sp_posted := [] |}.

Inductive SubscriptionsEvent :=
  | SuData (subs : list Subscription)
  | SuPublish (row : nat)
  | SuForm (e : PublishEvent)          (* in the dialog *)
  | SuClose.

Section SubscriptionsPage.
Context (json_text : text -> bool) (number_text : Z -> string).

Definition subscriptions_event (p : SubscriptionsPage) (e : SubscriptionsEvent) : SubscriptionsPage :=
  match e with
  | SuData subs => {| p with sp_subscriptions := Some subs |}
  | SuPublish row =>
      match p.(sp_target), default [] p.(sp_subscriptions) !! row with
      | None, Some s =>
          if can_publish s then {| p with sp_target := Some s; sp_form := opened_publish [] [] |} else p
      | _, _ => p
      end
  | SuForm e =>
      match p.(sp_target), e with
      | None, _ | _, (PbOpen | PbClose) => p
      | Some s, _ =>
          let f := publish_event json_text number_text s.(su_pubsubName) s.(su_topic) p.(sp_form) e in
          {| p with sp_form := f;
                    sp_posted := (p.(sp_posted) ++ map (pair (sub_key s)) (drop (length p.(sp_form).(pf_sent)) f.(pf_sent)))%list |}
      end
  | SuClose => {| p with sp_target := None |}
  end.
Definition subscriptions_run (es : list SubscriptionsEvent) : SubscriptionsPage :=
  fold_left subscriptions_event es no_subscriptions.
End SubscriptionsPage.

(** ** The secret panels *)

Record SecretRefRow := {
  sf_field : string;
  sf_envRef : bool;                       (* [kind] *)
  sf_store : option string;
  sf_name : string;
  sf_key : option string;
  sf_status : string;
  sf_detail : option string
}.

(** SecretStatusPill.tsx: class and text, none for a reference that is not
    checked. *)
Definition STATUS_CLASS : JsMap string string := [
  ("resolved", "secref-ok"); ("store-not-specified", "secref-err"); ("store-not-found", "secref-err");
  ("store-unsupported", "secref-warn"); ("store-unreadable", "secref-err"); ("key-not-found", "secref-err");
  ("empty-value", "secref-warn"); ("forbidden", "secref-warn")].
Definition status_pill (status : string) : option (string * text) :=
  if String.eqb status "not-checked" then None
  else Some ("pill " +:+ default "secref-warn" (map_get status STATUS_CLASS),
             map (fun c => let c := if c =? 45 then 32 else c in if is_lower c then c - 32 else c) (u status)).

Definition secret_source (r : SecretRefRow) : string :=
  if r.(sf_envRef) then "env " +:+ r.(sf_name)
  else default "—" r.(sf_store) +:+ " → " +:+ match r.(sf_key) with None | Some "" => r.(sf_name) | Some k => k end.

(** The link in the header. *)
Definition header_store (refs : list SecretRefRow) : option string :=
  head (omap (fun r => match r.(sf_store) with Some "" => None | s => s end) refs).

(** What a row shows of its secret: the value or bullets, the button's label and
    the error; only a resolved reference has these. *)
Record SecretCell := { cl_value : string; cl_pressed : bool; cl_error : option string }.
Definition BULLETS : string := "••••••••".
Definition truthy (v : option string) : bool := match v with None | Some "" => false | _ => true end.
Definition secret_cell (p : Pane) (r : SecretRefRow) : option SecretCell :=
  if String.eqb r.(sf_status) "resolved" then
    let shown := map_get r.(sf_field) p.(pn_values) in
    Some {| cl_value := default BULLETS shown; cl_pressed := truthy shown;
            cl_error := match map_get r.(sf_field) p.(pn_errors) with Some "" => None | e => e end |}
  else None.
Definition detail_shown (r : SecretRefRow) : option string :=
  if String.eqb r.(sf_status) "resolved" then None else match r.(sf_detail) with Some "" => None | d => d end.

(** [revealAllowed], and the button: [None] when there is none to click. *)
Definition revealAllowed (caps : Capabilities) : bool := negb (bool_decide (caps.(cap_secretReveal) = Some false)).
Definition click_reveal (caps : Capabilities) (r : SecretRefRow) (p : Pane) : option Pane :=
  match secret_cell p r with
  | Some c => if revealAllowed caps then Some (if c.(cl_pressed) then hide r.(sf_field) p else reveal r.(sf_field) p) else None
  | None => None
  end.

(** SecretStorePanel.tsx: the keys. *)
Inductive KeysView := SetAPrefix | Keys (keys : list string) (capped : bool) | NoKeys.
Definition keys_view (type prefix : string) (keys : list string) (capped : bool) : KeysView :=
  let isEnv := String.eqb type "secretstores.local.env" in
  if isEnv && String.eqb prefix "" then SetAPrefix
  else match keys with [] => NoKeys | _ => Keys keys capped end.

(** ** ResourceList.tsx, ResourceDetail.tsx *)

Inductive ListKind := KComponent | KConfiguration.
Definition kindPath (k : ListKind) : string := match k with KComponent => "components" | KConfiguration => "configurations" end.
Definition joined (l : list (option string)) : string :=
  String.concat " · " (omap (fun s => match s with Some "" => None | s => s end) l).
(** The caption of a row. *)
Definition row_caption (k : ListKind) (type version : option string) : string :=
  match k with KComponent => joined [type; version] | KConfiguration => default "" type end.
Definition metaStr (k : ListKind) (type version : option string) : string :=
  match k with KComponent => joined [type; version] +:+ " · loaded by" | KConfiguration => "Configuration · used by" end.
Definition resource_link (k : ListKind) (id : string) : string := "/" +:+ kindPath k +:+ "/" +:+ id.
(** [copyYaml]: what is copied, and the toast. *)
Definition copyYaml (raw : option string) : option (string * string) :=
  match default "" raw with "" => None | y => Some (y, "YAML copied") end.

(** ** Titles and contexts *)

Lemma title_effect_title title h doc :
  (title_effect title h doc).1.(th_title) = Some title /\ (title_effect title h doc).1.(th_prev) = h.(th_prev).
Proof. unfold title_effect. by case_bool_decide. Qed.

(** While a page is mounted the document has its latest title, and when it is
    unmounted the document has the title it had before. *)
Lemma titles_come_back (doc t : string) (titles : list string) :
  let (h, d) := titled (titles ++ [t])%list (title_mount doc) doc in
  d = t +:+ TITLE_SUFFIX /\ title_unmount h d = doc.
Proof.
  assert (I : forall titles h d, (forall t, h.(th_title) = Some t -> d = t +:+ TITLE_SUFFIX) -> h.(th_prev) = doc ->
    let hd := titled titles h d in
    (forall t, hd.1.(th_title) = Some t -> hd.2 = t +:+ TITLE_SUFFIX) /\ hd.1.(th_prev) = doc).
  { clear. induction titles as [|x titles IH]; intros h d Hd Hp; [done|]. unfold titled. cbn [fold_left fst snd].
    destruct (title_effect x h d) as [h' d'] eqn:E. apply IH.
    - unfold title_effect in E. case_bool_decide as Ex; injection E as <- <-; [exact Hd|]. cbn. by intros t [= <-].
    - unfold title_effect in E. by case_bool_decide; injection E as <- <-. }
  destruct (titled (titles ++ [t])%list (title_mount doc) doc) as [h d] eqn:E.
  destruct (I (titles ++ [t])%list (title_mount doc) doc ltac:(done) eq_refl) as [Hd Hp]. rewrite E in Hd, Hp. cbn in Hd, Hp.
  assert (Ht : th_title h = Some t).
  { unfold titled in E. rewrite fold_left_app in E. cbn [fold_left] in E.
    destruct (title_effect_title t (fold_left (fun hd title => title_effect title hd.1 hd.2) titles (title_mount doc, doc)).1
      (fold_left (fun hd title => title_effect title hd.1 hd.2) titles (title_mount doc, doc)).2) as [H _]. by rewrite E in H. }
  split; [by apply Hd|]. unfold title_unmount. by rewrite Ht.
Qed.

(** The context of a per-app property is that of the app in focus: from one
    token to the next, and to none when the page is left. *)
Lemma token_effect_context key old new v :
  v = match old with Some (Some x) => if String.eqb x "" then None else Some x | _ => None end ->
  fold_left (in_context key) (token_effect key old new) v
  = match new with Some (Some x) => if String.eqb x "" then None else Some x | _ => None end.
Proof.
  intros ->. unfold token_effect. case_bool_decide as E; [by subst|]. rewrite fold_left_app.
  assert (F : fold_left (in_context key) (match old with Some _ => [RemoveContext key] | None => [] end)
    (match old with Some (Some x) => if String.eqb x "" then None else Some x | _ => None end) = None).
  { destruct old as [o|]; [|done]. cbn. by rewrite String.eqb_refl. }
  rewrite F. destruct new as [[x|]|]; try done. destruct (String.eqb x ""); [done|]. cbn. by rewrite String.eqb_refl.
Qed.

(** A secret that is not resolved shows no value and cannot be revealed. *)
Lemma unresolved_shows_nothing caps p r :
  r.(sf_status) <> "resolved" -> secret_cell p r = None /\ click_reveal caps r p = None.
Proof.
  intros H. assert (E : secret_cell p r = None).
  { unfold secret_cell. by destruct (String.eqb_spec (sf_status r) "resolved"). }
  split; [exact E|]. unfold click_reveal. by rewrite E.
Qed.

(** ** What the subscriptions page publishes *)

Section Published.
Context (json_text : text -> bool) (number_text : Z -> string).
Abbreviation run := (subscriptions_run json_text number_text).

(** [s] was listed, and its Publish clicked, among the events. *)
Definition offered_subscription (es : list SubscriptionsEvent) (s : Subscription) : Prop :=
  exists es1 row es2, es = (es1 ++ SuPublish row :: es2)%list
    /\ default [] (run es1).(sp_subscriptions) !! row = Some s /\ can_publish s = true.

Definition posted_ok (es : list SubscriptionsEvent) (x : string * PublishPayload) : Prop :=
  exists s, offered_subscription es s /\ x.1 = sub_key s
    /\ payload_ok json_text s.(su_pubsubName) s.(su_topic) x.2.

Record page_ok (es : list SubscriptionsEvent) (p : SubscriptionsPage) : Prop := {
  sub_target : forall s, p.(sp_target) = Some s -> offered_subscription es s
    /\ publish_ok json_text s.(su_pubsubName) s.(su_topic) p.(sp_form);
  sub_posted : Forall (posted_ok es) p.(sp_posted)
}.

Lemma offered_snoc es e s : offered_subscription es s -> offered_subscription (es ++ [e])%list s.
Proof.
  intros (es1 & row & es2 & -> & H). exists es1, row, (es2 ++ [e])%list. split; [by rewrite <- app_assoc|done].
Qed.

Lemma page_ok_snoc es e p : page_ok es p -> page_ok (es ++ [e])%list p.
Proof.
  intros [Ht Hp]. split.
  - intros s Hs. destruct (Ht s Hs). split; [by apply offered_snoc|done].
  - eapply Forall_impl; [exact Hp|]. intros x (s & Hs & H). exists s. split; [by apply offered_snoc|done].
Qed.

Lemma fresh_publish_ok pubsub topic : publish_ok json_text pubsub topic (opened_publish [] []).
Proof. split; cbn; try done. by left. Qed.

Lemma subscriptions_event_ok es e : page_ok es (run es) -> page_ok (es ++ [e])%list (run (es ++ [e])%list).
Proof.
  intros Hok. assert (Er : run (es ++ [e])%list = subscriptions_event json_text number_text (run es) e)
    by (unfold run; by rewrite fold_left_app).
  rewrite Er. pose proof (page_ok_snoc es e _ Hok) as Keep. destruct e as [subs|row|e|]; cbn [subscriptions_event].
  - by destruct Keep.
  - destruct (sp_target (run es)); [done|]. destruct (_ !! row) as [s|] eqn:Hs; [|done].
    destruct (can_publish s) eqn:Hc; [|done]. split; cbn; [|by destruct Keep].
    intros s' [= <-]. split; [by exists es, row, []|apply fresh_publish_ok].
  - destruct (sp_target (run es)) as [s|] eqn:Ht; [|done].
    assert (Form : page_ok (es ++ [SuForm e])%list
      {| (run es) with
         sp_form := publish_event json_text number_text (su_pubsubName s) (su_topic s) (run es).(sp_form) e;
         sp_posted := ((run es).(sp_posted) ++ map (pair (sub_key s)) (drop (length (run es).(sp_form).(pf_sent))
           (publish_event json_text number_text (su_pubsubName s) (su_topic s) (run es).(sp_form) e).(pf_sent)))%list |}).
    { destruct Keep as [K1 K2]. destruct (K1 s Ht) as [Ho Hf].
      pose proof (publish_event_ok json_text number_text _ _ _ e Hf) as Hf'. split; cbn.
      - intros s' Hs'. rewrite Ht in Hs'. injection Hs' as <-. by split.
      - apply Forall_app. split; [exact K2|]. apply Forall_map, Forall_drop. eapply Forall_impl; [exact (pok_sent _ _ _ _ Hf')|].
        intros x Hx. by exists s. }
    rewrite Ht in Form. destruct e; first [exact Keep|exact Form].
  - split; [done|by destruct Keep].
Qed.
End Published.

(** ** Properties *)

(** C25: Messages go where the page said.  Whatever is clicked and typed on the
    subscriptions page, while its list changes and answers are late: every
    message sent goes to the instance, the broker and the topic of a
    subscription that was listed, and reachable, when its Publish was clicked,
    and its payload is valid. *)
Theorem publishes_to_listed_topics json_text number_text (es : list SubscriptionsEvent) :
  Forall (posted_ok json_text number_text es) (subscriptions_run json_text number_text es).(sp_posted).
Proof.
  assert (I : page_ok json_text number_text es (subscriptions_run json_text number_text es)); [|by destruct I].
  induction es as [|e es IH] using rev_ind; [|by apply subscriptions_event_ok]. by split; cbn.
Qed.

Example a_message_is_published :
  let sub := {| su_appId := "orders"; su_instanceKey := None; su_pubsubName := "pubsub"; su_topic := "new"; su_rules := None;
                su_deadLetterTopic := None; su_type := None; su_reachable := Some true |} in
  map (fun x => (x.1, x.2.(pb_topic)))
    (subscriptions_run (fun _ => true) (fun _ => "500") [SuData [sub]; SuPublish 0; SuForm PbSubmit; SuClose]).(sp_posted)
  = [("orders", "new")].
Proof. vm_compute. reflexivity. Qed.
