(* ===== verification/WorkflowView.v ===== *)
(** * The workflow detail page as a whole

    The rest of [pages/WorkflowDetail.tsx], beside [DetailPage]: the rows of the
    timeline with what they show and copy, the grid and the panels, and the page
    as an event machine, with [components/ConfirmRemoveDialog.tsx] and the
    request of [hooks/useWorkflowRemoval.ts].  The router keeps the page when
    only the workflow of the address changes, and so does the machine.  The
    pulse of a row that was jumped to is left out. *)

From stdpp Require Import pretty.
From S2P Require Import Prelude JsNum Decimal JsMap JsSort Text ApiTypes Rng Clock History Persistence Prefs.
From S2P Require Import DetailPage WorkflowsPage Widgets.
#[local] Open Scope string_scope.
#[local] Open Scope Z_scope.

(** ** lib/wallclock.ts: dates *)

(** A string that is not empty. *)
Definition nonempty (o : option string) : option string := match o with Some "" => None | _ => o end.

Section Rows.
(** [locale]: the local date and time of a time value; [encode]:
    [encodeURIComponent]. *)
Context (Date_parse : string -> option Z) (locale : Z -> string * string) (encode : string -> string).

Definition formatDateTimeParts (ts : option string) : option (string * string) :=
  t ← nonempty ts; locale <$> Date_parse t.
Definition formatDateTime (ts : option string) : option string :=
  (fun parts => parts.1 +:+ " - " +:+ parts.2) <$> formatDateTimeParts ts.

Definition store_query (store : option string) : string :=
  match nonempty store with Some s => "?store=" +:+ encode s | None => "" end.

(** ** EventRow *)

Inductive BodyPart :=
  | BodyFailure (errorType : string) (message stackTrace : option string)
  | BodyPayload (label value : string).

Inductive TagCell := TagChip (c : Chip) | TagId (tag : string).

Record RowView := {
  rv_anchor : string;
  rv_class : string;
  rv_offset : string;
  rv_dateTime : string;
  rv_node : string;
  rv_type : string;
  rv_name : option string;
  rv_tag : option TagCell;
  rv_selectable : bool;
  rv_details : bool;               (* a <details>, or a static row *)
  rv_open : option bool;           (* whether it is held open; [None]: the browser's own *)
  rv_child : option string;        (* the link to a child workflow *)
  rv_body : list BodyPart
}.

Definition row_body (event : WorkflowHistoryEvent) : list BodyPart :=
  (match event.(ev_failureDetails) with
   | Some f => [BodyFailure (default "Error" (nonempty f.(fd_errorType))) (nonempty f.(fd_message)) (nonempty f.(fd_stackTrace))]
   | None => []
   end
   ++ match nonempty event.(ev_input) with Some v => [BodyPayload "Input" v] | None => [] end
   ++ match nonempty event.(ev_output) with Some v => [BodyPayload "Output" v] | None => [] end)%list.

Definition hasDetails (event : WorkflowHistoryEvent) : bool :=
  bool_decide (is_Some (nonempty event.(ev_input))) || bool_decide (is_Some (nonempty event.(ev_output)))
  || bool_decide (is_Some event.(ev_failureDetails)).

Definition child_link (appId : string) (store : option string) (event : WorkflowHistoryEvent) : option string :=
  if String.eqb event.(ev_type) "SubOrchestrationCreated"
  then (fun i => "/workflows/" +:+ appId +:+ "/" +:+ i +:+ store_query store) <$> nonempty event.(ev_instanceId)
  else None.

Definition row_class (isNewest pairHovered pairSelected : bool) : string :=
  "ev" +:+ (if isNewest then " reveal" else "") +:+ (if pairHovered then " pair-hover" else "")
       +:+ (if pairSelected then " pair-selected" else "").

Definition EventRow (appId : string) (store createdAt : option string) (event : WorkflowHistoryEvent) (anchorId : string)
    (pair : option PairInfo) (isNewest pairHovered pairSelected isActive : bool) : RowView :=
  let details := hasDetails event in
  let selectable := bool_decide (is_Some pair) in {|
  rv_anchor := anchorId;
  rv_class := row_class isNewest pairHovered pairSelected;
  rv_offset := formatOffset Date_parse createdAt (Some event.(ev_timestamp));
  rv_dateTime := default "" (formatDateTime (Some event.(ev_timestamp)));
  rv_node := nodeClass event.(ev_type);
  rv_type := event.(ev_type);
  rv_name := nonempty event.(ev_name);
  rv_tag := match pair with
            | Some p => Some (TagChip (pair_chip (fun ms => formatDuration (of_Z ms)) p))
            | None => TagId <$> event_id_tag event
            end;
  rv_selectable := selectable;
  rv_details := details;
  rv_open := if details && selectable then Some isActive else None;
  rv_child := if details then None else child_link appId store event;
  rv_body := if details then row_body event else [] |}.

(** ** The grid and the panels *)

(** The application: whether it is a link, and its lamp, once the applications
    are known. *)
Definition runningAppIds (apps : list AppSummary) : list string := map ap_appId apps.
Definition app_shown (apps : option (list AppSummary)) (appId : string) : bool * option bool :=
  match apps with
  | None => (true, None)
  | Some apps => let running := bool_decide (appId ∈ runningAppIds apps) in (running, Some running)
  end.

Record MetaGrid := {
  mg_instanceId : string;
  mg_appId : string;
  mg_app : bool * option bool;
  mg_created : option string;
  mg_ended : option string;
  mg_duration : option string;
  mg_updated : option string;
  mg_replays : Z;
  mg_events : nat;
  mg_lastEvent : option (text * string)      (* its label and the anchor of its row *)
}.

Definition last_event (history : list WorkflowHistoryEvent) : option WorkflowHistoryEvent :=
  last (sortHistoryForDisplay Date_parse history).

Definition meta_grid (apps : option (list AppSummary)) (now : Z) (x : WorkflowExecution) : MetaGrid :=
  let s := x.(we_summary) in {|
  mg_instanceId := s.(wf_instanceId);
  mg_appId := s.(wf_appId);
  mg_app := app_shown apps s.(wf_appId);
  mg_created := formatDateTime s.(wf_createdAt);
  mg_ended := if isTerminal s.(wf_status) then formatDateTime s.(wf_lastUpdatedAt) else None;
  mg_duration := run_duration Date_parse x now;
  mg_updated := formatDateTime s.(wf_lastUpdatedAt);
  mg_replays := x.(we_replayCount);
  mg_events := length x.(we_history);
  mg_lastEvent :=
    match lastEventLabel <$> last_event x.(we_history) with
    | None | Some [] => None
    | Some label => Some (label, "#" +:+ eventAnchorId (length x.(we_history) - 1))
    end |}.

Inductive IoView := IoPayload (value : string) | IoPending | IoNone.
Definition input_panel (x : WorkflowExecution) : IoView :=
  match nonempty x.(we_input) with Some v => IoPayload v | None => IoNone end.
Definition output_panel (x : WorkflowExecution) : IoView :=
  match nonempty x.(we_output) with
  | Some v => IoPayload v
  | None => if isTerminal x.(we_summary).(wf_status) then IoNone else IoPending
  end.

(** The banner of a failed run: its title, whether it has a button for the
    stack trace, and what is shown. *)
Definition failure_banner (showStack : bool) (f : WorkflowFailureDetails) : string * option string * option string * option string :=
  let stack := nonempty f.(fd_stackTrace) in
  (default "Workflow failed" (nonempty f.(fd_errorType)),
   (fun _ => if showStack then "Hide stack trace" else "Show stack trace") <$> stack,
   nonempty f.(fd_message),
   if showStack then stack else None).
End Rows.

(** ** hooks/useWorkflowRemoval.ts *)

(** The path and the body of a removal; the store goes into the query. *)
Definition purge_path (encode : string -> string) (r : RemovalRequest) : string * (list (string * option string) * bool) :=
  ("/workflows/purge" +:+ store_query encode r.(rr_store), (r.(rr_ids), r.(rr_force))).
Definition purge_error (number_text : Z -> string) (status : Z) : option string :=
  if (200 <=? status) && (status <=? 299) then None else Some ("purge failed: " +:+ number_text status).

(** The queries that are asked for anew after a removal. *)
Definition removal_invalidates : list string := ["workflows"; "workflow"; "workflow-stats"; "workflow-appids"].

(** ** ConfirmRemoveDialog.tsx: its texts *)

Definition mechanismSummary (statuses : list (option WorkflowStatus)) (force : bool) : text :=
  let counts := mechanism_counts statuses force in
  match counts with
  | _ :: _ :: _ =>
      concat (List.tl (concat (map (fun c => [u ", "; u (pretty c.2) ++ u " will be " ++ toLowerCase (u c.1)]%list) counts)))
  | _ =>
      let mechanism := match counts with c :: _ => toLowerCase (u c.1) | [] => [] end in
      match statuses with
      | [_] => u "This workflow will be " ++ mechanism
      | _ => u "All " ++ u (pretty (length statuses)) ++ u " will be " ++ mechanism
      end
  end%list.
Definition removal_title (n : nat) : string :=
  "Remove " +:+ pretty n +:+ " workflow" +:+ (if (n =? 1)%nat then "" else "s") +:+ "?".

Example mixed_summary :
  mechanismSummary [Some Completed; Some Running; Some Failed] false = u "2 will be purge, 1 will be terminate + purge".
Proof. vm_compute. reflexivity. Qed.

(** ** The page *)

(** The address: its parameters and its [store]. *)
Record Route := { rt_appId : string; rt_instanceId : string; rt_store : option string }.
#[export] Instance Route_eq_dec : EqDecision Route.
Proof. solve_decision. Defined.

(** What [useWorkflow] shows. *)
Record WfQuery := { wq_isLoading : bool; wq_isError : bool; wq_data : option WorkflowExecution }.

#[export] Instance WorkflowFailureDetails_eq_dec : EqDecision WorkflowFailureDetails.
Proof. solve_decision. Defined.
#[export] Instance WorkflowHistoryEvent_eq_dec : EqDecision WorkflowHistoryEvent.
Proof. solve_decision. Defined.

(** The page is drawn in full only with the data of a query that went well. *)
Definition shown_execution (q : WfQuery) : option WorkflowExecution :=
  if q.(wq_isLoading) || q.(wq_isError) then None else q.(wq_data).
Definition history_of (q : WfQuery) : list WorkflowHistoryEvent :=
  match q.(wq_data) with Some x => x.(we_history) | None => [] end.

Record WfView (St : Type) := {
  wv_route : Route;
  wv_hash : string;
  wv_query : WfQuery;
  wv_apps : option (list AppSummary);
  wv_open : bool;                           (* removeDialogOpen *)
  wv_initialForce : bool;                   (* removeForce *)
  wv_force : option bool;                   (* the dialog's own box, while it is mounted *)
  wv_pending : option RemovalRequest;       (* the mutation under way *)
  wv_sent : list RemovalRequest;            (* every removal sent *)
  wv_order : HistoryOrder;
  wv_storage : St;
  wv_hovered : option Z;
  wv_detail : Detail;
  wv_showStack : bool;
  wv_toast : ToastState;
  wv_copied : list string;
  wv_left : option (option string)          (* the page was left, to a path it chose itself *)
}.
Arguments wv_route {St}. Arguments wv_hash {St}. Arguments wv_query {St}. Arguments wv_apps {St}.
Arguments wv_open {St}. Arguments wv_initialForce {St}. Arguments wv_force {St}. Arguments wv_pending {St}.
Arguments wv_sent {St}. Arguments wv_order {St}. Arguments wv_storage {St}. Arguments wv_hovered {St}.
Arguments wv_detail {St}. Arguments wv_showStack {St}. Arguments wv_toast {St}. Arguments wv_copied {St}.
Arguments wv_left {St}. Arguments Build_WfView {St}.

Inductive CopyButton :=
  | CpLink | CpInstance | CpInput | CpOutput | CpCustom | CpStack
  | CpAnchor (i : nat)                      (* the row's link *)
  | CpPart (i part : nat).                  (* a part of the row's body *)

Inductive WvEvent :=
  | WvQuery (q : WfQuery)                   (* the query shows something else *)
  | WvApps (apps : list AppSummary)
  | WvNavigate (r : Route) (hash : string) (q : WfQuery)   (* to another workflow, with what its query shows *)
  | WvHash (hash : string)                  (* an anchor was followed *)
  | WvRow (i : nat)                         (* a click on the header of a row *)
  | WvHover (i : option nat)                (* the pointer is on the chip of a row *)
  | WvOrder
  | WvOpen (force : bool)                   (* Force delete, or Purge *)
  | WvCheck (force : bool)                  (* the dialog's box *)
  | WvDialog (e : ConfirmEvent)
  | WvAnswer (ok : bool)                    (* the removal is answered *)
  | WvCopy (b : CopyButton)
  | WvStack
  | WvElapse (ms : Z)
  | WvLeave.

Section View.
Context {St : Type} `{Storage St}.
Context (Date_parse : string -> option Z) (locale : Z -> string * string) (encode : string -> string).
(** [location]: origin and path of the page; [elsewhere]: the ids of elements
    that are not rows. *)
Context (location : Route -> string) (elsewhere : string -> bool).
Abbreviation View := (WfView St).

(** The rows, in the order they are shown; [row] is an event with its canonical
    index. *)
Definition row_view (r : Route) (x : WorkflowExecution) (hovered : option Z) (d : Detail)
    (row : WorkflowHistoryEvent * nat) : RowView :=
  let (event, ci) := row in
  let pair := map_get ci (pair_index Date_parse x.(we_history)) in
  EventRow Date_parse locale encode r.(rt_appId) r.(rt_store) x.(we_summary).(wf_createdAt) event (eventAnchorId ci) pair
    (S ci =? length x.(we_history))%nat
    (match pair, hovered with Some p, Some h => p.(pairId) =? h | _, _ => false end)
    (pair_selected d pair) (is_active d ci).
Definition timeline_of (r : Route) (x : WorkflowExecution) (order : HistoryOrder) (hovered : option Z) (d : Detail) : list RowView :=
  map (row_view r x hovered d) (display_rows Date_parse x.(we_history) order).
Definition timeline (v : View) : list RowView :=
  match shown_execution v.(wv_query) with
  | Some x => timeline_of v.(wv_route) x v.(wv_order) v.(wv_hovered) v.(wv_detail)
  | None => []
  end.

(** Whether the document has an element of this id. *)
Definition element_exists (v : View) (id : string) : bool :=
  elsewhere id || existsb (fun r => String.eqb (rv_anchor r) id) (timeline v).

Definition page_pairs (v : View) : JsMap nat PairInfo := pair_index Date_parse (history_of v.(wv_query)).
Definition jump (v : View) : View :=
  {| v with wv_detail := jumpToHash v.(wv_hash) (element_exists v) (page_pairs v) v.(wv_detail) |}.

(** The props of the dialog, while it is mounted; and of the banner. *)
Definition dialog_props (v : View) : option (bool * bool) :=
  (fun _ => (v.(wv_open), v.(wv_initialForce))) <$> shown_execution v.(wv_query).
Definition banner_of (v : View) : option WorkflowFailureDetails := shown_execution v.(wv_query) ≫= we_failureDetails.

(** The dialog's box after a render: it starts anew with the dialog, and its
    effect sets it when the dialog is opened or its start changes. *)
Definition dialog_box (before v : View) : option bool :=
  match dialog_props v, dialog_props before with
  | None, _ => None
  | Some (_, init), None => Some init
  | Some (open, init), Some props =>
      if bool_decide (props = (open, init)) || negb open then v.(wv_force) else Some init
  end.

(** After a render: a component that is mounted anew has its initial state; the
    pair index is built anew when the history is another one ([undefined] is
    another one every time), and its effect jumps to the hash. *)
Definition rendered (navigated : bool) (before v : View) : View :=
  let force := dialog_box before v in
  let v := {| v with wv_force := force;
                     wv_showStack := v.(wv_showStack) && bool_decide (is_Some (banner_of v)) |} in
  if navigated || bool_decide (history_of v.(wv_query) = []) || bool_decide (history_of v.(wv_query) <> history_of before.(wv_query))
  then jump v else v.

(** Mounting: the order is read, and stored again by its effect. *)
Definition opened_view (r : Route) (hash : string) (q : WfQuery) (storage : St) (now : Z) : View :=
  let order := getHistoryOrder storage in
  jump {|
    wv_route := r; wv_hash := hash; wv_query := q; wv_apps := None; wv_open := false; wv_initialForce := false;
    wv_force := (fun _ => false) <$> shown_execution q; wv_pending := None; wv_sent := []; wv_order := order;
    wv_storage := setHistoryOrder order storage; wv_hovered := None;
    wv_detail := {| dt_selection := None; dt_lastHash := "" |}; wv_showStack := false; wv_toast := no_toast now;
    wv_copied := []; wv_left := None |}.

(** [openPurge] and [openForceDelete]; the first one's button is disabled until
    the workflow is terminal. *)
Definition open_removal (force : bool) (v : View) : View :=
  match shown_execution v.(wv_query) with
  | Some x =>
      if force || isTerminal x.(we_summary).(wf_status)
      then {| v with wv_initialForce := force; wv_open := true |} else v
  | None => v
  end.

Definition removal_request (force : bool) (r : Route) : RemovalRequest :=
  {| rr_ids := [(r.(rt_appId), Some r.(rt_instanceId))]; rr_force := force; rr_store := r.(rt_store) |}.

Definition send_removal (v : View) : View :=
  match v.(wv_force) with
  | Some force =>
      let req := removal_request force v.(wv_route) in
      {| v with wv_pending := Some req; wv_sent := (v.(wv_sent) ++ [req])%list |}
  | None => v
  end.

Definition close_removal (v : View) : View := {| v with wv_open := false |}.

Definition dialog_busy (v : View) : bool := bool_decide (is_Some v.(wv_pending)).
Definition dialog_event (e : ConfirmEvent) (v : View) : View :=
  match v.(wv_force) with
  | None => v
  | Some _ =>
      fold_left (fun v call => match call with OnConfirm => send_removal v | OnCancel => close_removal v end)
        (confirm_calls v.(wv_open) (dialog_busy v) e) v
  end.

(** The callbacks of the removal: a page that was left has none. *)
Definition removal_answered (ok : bool) (v : View) : View :=
  match v.(wv_pending) with
  | None => v
  | Some req =>
      {| v with wv_pending := None; wv_open := false;
                wv_left := if ok then Some (Some ("/workflows" +:+ store_query encode req.(rr_store))) else v.(wv_left) |}
  end.

(** What a copy button copies, and the toast it shows. *)
Definition row_at (v : View) (i : nat) : option RowView :=
  List.find (fun r => String.eqb (rv_anchor r) (eventAnchorId i)) (timeline v).
Definition part_copied (p : BodyPart) : option (string * string) :=
  match p with
  | BodyFailure _ _ stack => (fun s => (s, "Stack trace copied")) <$> stack
  | BodyPayload label v => Some (v, label +:+ " copied")
  end.
Definition copied (v : View) (x : WorkflowExecution) (b : CopyButton) : option (string * string) :=
  match b with
  | CpLink => Some (location v.(wv_route) +:+ store_query encode v.(wv_route).(rt_store), "Link copied")
  | CpInstance => Some (x.(we_summary).(wf_instanceId), "Instance ID copied")
  | CpInput => Some (default "" x.(we_input), "Input copied")
  | CpOutput => Some (default "" x.(we_output), "Output copied")
  | CpCustom => (fun s => (s, "Custom status copied")) <$> nonempty x.(we_customStatus)
  | CpStack =>
      f ← banner_of v; s ← nonempty f.(fd_stackTrace);
      if v.(wv_showStack) then Some (s, "Stack trace copied") else None
  | CpAnchor i => (fun r => (location v.(wv_route) +:+ "#" +:+ rv_anchor r, "Link copied")) <$> row_at v i
  | CpPart i part => r ← row_at v i; p ← rv_body r !! part; part_copied p
  end.
Definition copy (b : CopyButton) (v : View) : View :=
  match shown_execution v.(wv_query) ≫= (fun x => copied v x b) with
  | Some (text, message) =>
      {| v with wv_copied := (v.(wv_copied) ++ [text])%list; wv_toast := toast_show message v.(wv_toast) |}
  | None => v
  end.

Definition other_order (o : HistoryOrder) : HistoryOrder := match o with Asc => Desc | Desc => Asc end.

(** One event, before the render it causes. *)
Definition view_handler (v : View) (e : WvEvent) : View :=
  match e with
  | WvQuery q => {| v with wv_query := q |}
  | WvApps apps => {| v with wv_apps := Some apps |}
  | WvNavigate r hash q => {| v with wv_route := r; wv_hash := hash; wv_query := q |}
  | WvHash hash => jump {| v with wv_hash := hash |}
  | WvRow i =>
      match row_at v i, map_get i (page_pairs v) with
      | Some _, Some p => {| v with wv_detail := togglePairSelection p.(pairId) i v.(wv_detail) |}
      | _, _ => v
      end
  | WvHover i =>
      match i with
      | None => {| v with wv_hovered := None |}
      | Some i =>
          match row_at v i, map_get i (page_pairs v) with
          | Some _, Some p => {| v with wv_hovered := Some p.(pairId) |}
          | _, _ => v
          end
      end
  | WvOrder =>
      match shown_execution v.(wv_query) with
      | Some x =>
          if bool_decide (x.(we_history) = []) then v
          else let order := other_order v.(wv_order) in
               {| v with wv_order := order; wv_storage := setHistoryOrder order v.(wv_storage) |}
      | None => v
      end
  | WvOpen force => open_removal force v
  | WvCheck force =>
      if v.(wv_open) && negb (dialog_busy v)
      then {| v with wv_force := (fun _ => force) <$> v.(wv_force) |} else v
  | WvDialog e => dialog_event e v
  | WvAnswer ok => removal_answered ok v
  | WvCopy b => copy b v
  | WvStack =>
      match banner_of v ≫= (fun f => nonempty f.(fd_stackTrace)) with
      | Some _ => {| v with wv_showStack := negb v.(wv_showStack) |}
      | None => v
      end
  | WvElapse ms => {| v with wv_toast := toast_elapse ms v.(wv_toast) |}
  | WvLeave => {| v with wv_left := Some None |}
  end.

Definition view_event (v : View) (e : WvEvent) : View :=
  match v.(wv_left) with
  | Some _ => v
  | None => rendered (match e with WvNavigate _ _ _ => true | _ => false end) v (view_handler v e)
  end.
Definition view_run (v : View) (es : list WvEvent) : View := fold_left view_event es v.
End View.

(** ** Anchors *)

Lemma digits_go (x : N) (s : string) :
  digits_value (u (pretty_N_go x s)) = fold_left (fun n c => n * 10 + (c - 48)) (u s) (Z.of_N x)
  /\ forallb is_digit_unit (u (pretty_N_go x s)) = forallb is_digit_unit (u s).
Proof.
  revert s. induction (N.lt_wf_0 x) as [x _ IH]; intros s.
  destruct (N.eq_0_gt_0_cases x) as [->|Hx]; [by rewrite pretty_N_go_0|].
  rewrite pretty_N_go_step by done. destruct (IH (x `div` 10)%N ltac:(apply N.div_lt; lia)
    (String (pretty_N_char (x `mod` 10)) s)) as [-> ->].
  assert (C : Z.of_N (Ascii.N_of_ascii (pretty_N_char (x `mod` 10))) = 48 + Z.of_N (x `mod` 10)%N).
  { pose proof (N.mod_lt x 10 ltac:(lia)) as Hm. generalize dependent (x `mod` 10)%N. intros d Hd.
    destruct (decide (d < 10)%N); [|lia].
    assert (d = 0 \/ d = 1 \/ d = 2 \/ d = 3 \/ d = 4 \/ d = 5 \/ d = 6 \/ d = 7 \/ d = 8 \/ d = 9)%N as H by lia.
    by repeat destruct H as [->|H]; subst. }
  pose proof (N.mod_lt x 10 ltac:(lia)) as Hm. pose proof (N.div_mod x 10 ltac:(lia)) as Hd.
  split; cbn [u String.list_ascii_of_string map fold_left forallb].
  - f_equal. rewrite C. lia.
  - rewrite C. replace (is_digit_unit _) with true; [done|]. symmetry. unfold is_digit_unit.
    clear -Hm. generalize dependent (x `mod` 10)%N. intros d Hd. apply andb_true_iff. split; apply Z.leb_le; lia.
Qed.

(** The number in an anchor is the row's. *)
Lemma anchor_index_of i : anchor_index (eventAnchorId i) = Some i.
Proof.
  unfold anchor_index, eventAnchorId.
  assert (E : u ("event-" ++ pretty i) = (u "event-" ++ u (pretty i))%list) by done. rewrite E, starts_with_app.
  change (drop 6 (u "event-" ++ u (pretty i))%list) with (u (pretty i)).
  assert (G : u (pretty i) <> [] /\ forallb is_digit_unit (u (pretty i)) = true /\ digits_value (u (pretty i)) = Z.of_nat i).
  { unfold pretty, pretty_nat, pretty, pretty_N. destruct (decide (N.of_nat i = 0)%N) as [Hz|Hz].
    - by replace i with 0%nat by lia.
    - destruct (digits_go (N.of_nat i) "") as [-> ->]. split_and!; [|done|cbn; lia].
      intros H. destruct (digits_go (N.of_nat i) "") as [Hv _].
      rewrite H in Hv. cbn in Hv. lia. }
  destruct G as (H1 & -> & ->). destruct (u (pretty i)); [done|]. by rewrite Nat2Z.id.
Qed.

Lemma eventAnchorId_inj i j : eventAnchorId i = eventAnchorId j -> i = j.
Proof. intros H. pose proof (anchor_index_of i) as E. rewrite H, anchor_index_of in E. congruence. Qed.

(** ** The rows of the timeline *)

Section Timeline.
Context (Date_parse : string -> option Z) (locale : Z -> string * string) (encode : string -> string).
Implicit Types (x : WorkflowExecution) (d : Detail).
Abbreviation sorted x := (sortHistoryForDisplay Date_parse (we_history x)).
Abbreviation index x := (pair_index Date_parse (we_history x)).

Lemma sorted_history_perm history : sortHistoryForDisplay Date_parse history ≡ₚ history.
Proof.
  unfold sortHistoryForDisplay. rewrite <- (indexed_fst history) at 2. apply fmap_Permutation, js_sort_perm.
Qed.

Lemma display_rows_perm history order : display_rows Date_parse history order ≡ₚ indexed (sortHistoryForDisplay Date_parse history).
Proof. unfold display_rows. destruct order; [done|]. symmetry. apply Permutation_rev. Qed.

Lemma display_rows_in history order e i :
  (e, i) ∈ display_rows Date_parse history order <-> sortHistoryForDisplay Date_parse history !! i = Some e.
Proof.
  rewrite (display_rows_perm history order). unfold indexed. rewrite elem_of_lookup_imap. split.
  - by intros (j & y & [= -> ->] & H).
  - intros H. by exists i, e.
Qed.

Lemma row_anchor r x hovered d row : rv_anchor (row_view Date_parse locale encode r x hovered d row) = eventAnchorId row.2.
Proof. by destruct row. Qed.

(** A row of the page, by its anchor. *)
Lemma timeline_row r x order hovered d v :
  v ∈ timeline_of Date_parse locale encode r x order hovered d <->
  exists e i, sorted x !! i = Some e /\ v = row_view Date_parse locale encode r x hovered d (e, i).
Proof.
  unfold timeline_of. rewrite list_elem_of_In, in_map_iff. split.
  - intros ([e i] & <- & H). exists e, i. split; [|done]. by apply display_rows_in with order, list_elem_of_In.
  - intros (e & i & H & ->). exists (e, i). split; [done|]. by apply list_elem_of_In, display_rows_in.
Qed.

Lemma timeline_anchors r x order hovered d : NoDup (map rv_anchor (timeline_of Date_parse locale encode r x order hovered d)).
Proof.
  unfold timeline_of. rewrite map_map, (map_ext _ (fun row => eventAnchorId row.2)) by apply row_anchor.
  rewrite (Permutation_map _ (display_rows_perm _ _)). rewrite <- (map_map snd eventAnchorId).
  apply NoDup_fmap_2_strong with (f := eventAnchorId); [by intros ???? H; apply eventAnchorId_inj|].
  change (map snd) with (fmap (M := list) (A := WorkflowHistoryEvent * nat) snd). rewrite indexed_snd. apply NoDup_seq.
Qed.

Lemma timeline_types r x order hovered d :
  map rv_type (timeline_of Date_parse locale encode r x order hovered d) ≡ₚ map ev_type x.(we_history).
Proof.
  unfold timeline_of. rewrite map_map, (map_ext _ (fun row => ev_type row.1)) by (by intros []).
  rewrite (Permutation_map _ (display_rows_perm _ _)). rewrite <- (map_map fst ev_type).
  change (map fst) with (fmap (M := list) (A := WorkflowHistoryEvent * nat) fst). rewrite indexed_fst.
  by rewrite (Permutation_map _ (sorted_history_perm _)).
Qed.

(** A chip that leads somewhere leads to its partner, which leads back. *)
Lemma pair_partner x i p j :
  map_get i (index x) = Some p -> p.(partnerIndex) = Some j ->
  i <> j /\ is_Some (sorted x !! j)
  /\ exists q, map_get j (index x) = Some q /\ q.(partnerIndex) = Some i /\ q.(pairId) = p.(pairId).
Proof.
  intros Hi Hj. destruct (built_paired _ _ _ _ Hi) as [(k & j' & H1 & -> & H2 & (e & He & _) & H3)
    |[(k & _ & ->)|[(k & _ & ->)|(k & j' & H1 & -> & H2 & (e & He & _) & H3)]]];
    try discriminate Hj; injection Hj as <-.
  all: split; [lia|]; split; [by eexists|]; eexists; split; [exact H3|by split].
Qed.

Lemma chip_href f p : ch_href (pair_chip f p) = (fun j => "#" +:+ eventAnchorId j) <$> p.(partnerIndex).
Proof. unfold pair_chip. by destruct (partnerIndex p), (role p). Qed.
End Timeline.

(** What the classes of a row, and its body, show of the selection. *)
Definition highlighted (r : RowView) : Prop := exists isNewest hovered, r.(rv_class) = row_class isNewest hovered true.
Definition expanded (r : RowView) : Prop := r.(rv_details) = true -> r.(rv_open) = Some true.

Section Jump.
Context {St : Type} `{Storage St}.
Context (Date_parse : string -> option Z) (locale : Z -> string * string) (encode : string -> string).
Context (location : Route -> string) (elsewhere : string -> bool).
Abbreviation event := (view_event Date_parse locale encode location elsewhere).
Abbreviation rows v := (timeline Date_parse locale encode v).
Implicit Types (v : WfView St) (x : WorkflowExecution).

Lemma shown_history q x : shown_execution q = Some x -> history_of q = x.(we_history).
Proof. unfold shown_execution, history_of. destruct (_ || _); [done|]. by intros ->. Qed.

Lemma timeline_shown v x : shown_execution v.(wv_query) = Some x ->
  rows v = timeline_of Date_parse locale encode v.(wv_route) x v.(wv_order) v.(wv_hovered) v.(wv_detail).
Proof. unfold timeline. by intros ->. Qed.

(** A render that does not jump leaves the rows as they are. *)
Lemma timeline_rendered v w :
  history_of w.(wv_query) = history_of v.(wv_query) -> history_of w.(wv_query) <> [] ->
  rows (rendered Date_parse locale encode elsewhere false v w) = rows w.
Proof.
  intros E Hn. unfold rendered. cbn. rewrite E, !bool_decide_false by congruence. reflexivity.
Qed.

Lemma anchor_nonempty i : String.eqb (eventAnchorId i) "" = false.
Proof. done. Qed.

(** Following the anchor of a row with a pair selects it. *)
Lemma follow_anchor v x j q :
  v.(wv_left) = None -> shown_execution v.(wv_query) = Some x ->
  is_Some (sortHistoryForDisplay Date_parse x.(we_history) !! j) ->
  map_get j (pair_index Date_parse x.(we_history)) = Some q ->
  v.(wv_detail).(dt_lastHash) <> eventAnchorId j ->
  rows (event v (WvHash (eventAnchorId j)))
  = timeline_of Date_parse locale encode v.(wv_route) x v.(wv_order) v.(wv_hovered)
      {| dt_selection := Some {| sl_pairId := q.(pairId); sl_index := j |}; dt_lastHash := eventAnchorId j |}.
Proof.
  intros Hl Hs [e He] Hq Hh. unfold view_event. rewrite Hl. cbn [view_handler].
  assert (Hn : x.(we_history) <> []).
  { intros E. apply list_elem_of_lookup_2 in He. rewrite (sorted_history_perm Date_parse) in He. rewrite E in He.
    by apply elem_of_nil in He. }
  rewrite timeline_rendered; [|done|cbn; by rewrite (shown_history _ x Hs)].
  rewrite (timeline_shown _ x) by exact Hs. cbn. f_equal.
  unfold jumpToHash. cbn [wv_hash]. rewrite anchor_nonempty, (proj2 (String.eqb_neq _ _)) by congruence.
  assert (Ex : element_exists Date_parse locale encode elsewhere {| v with wv_hash := eventAnchorId j |} (eventAnchorId j) = true).
  { unfold element_exists. rewrite (timeline_shown _ x) by exact Hs. apply orb_true_iff. right. apply existsb_exists.
    eexists. split; [apply list_elem_of_In, timeline_row; by exists e, j|]. rewrite row_anchor. apply String.eqb_refl. }
  cbn in Ex |- *. rewrite Ex. cbn [negb]. rewrite anchor_index_of. cbn.
  unfold page_pairs. cbn. rewrite (shown_history _ x Hs). cbn in Hq. by rewrite Hq.
Qed.
End Jump.

(** ** Property: the chips of the timeline *)

Section Chips.
Context {St : Type} `{Storage St}.
Context (Date_parse : string -> option Z) (locale : Z -> string * string) (encode : string -> string).
Context (location : Route -> string) (elsewhere : string -> bool).
Abbreviation event := (view_event Date_parse locale encode location elsewhere).
Abbreviation rows v := (timeline Date_parse locale encode v).

(** A row drawn with a selection of its own pair's id is highlighted; the one
    selected is expanded. *)
Lemma selected_row r x hovered e i p s hash :
  map_get i (pair_index Date_parse (we_history x)) = Some p -> p.(pairId) = s.(sl_pairId) ->
  let row := row_view Date_parse locale encode r x hovered {| dt_selection := Some s; dt_lastHash := hash |} (e, i) in
  highlighted row /\ (sl_index s = i -> expanded row).
Proof.
  intros Hp E. cbn. rewrite Hp. split.
  - eexists _, _. cbn. by rewrite E, Z.eqb_refl.
  - intros <-. unfold expanded. cbn. intros ->. cbn. unfold is_active. cbn. by rewrite Nat.eqb_refl.
Qed.

(** C23: The chips of the timeline lead to each other.  Whatever the history and
    in either order, every event has one row, and no two rows an anchor; a chip
    that is a link leads to another row of the page, whose chip leads back; and
    following it, unless the page has just jumped there, highlights both rows
    and expands the one it leads to. *)
Theorem chips_lead_to_each_other (v : WfView St) (x : WorkflowExecution) :
  shown_execution v.(wv_query) = Some x ->
  NoDup (map rv_anchor (rows v)) /\ map rv_type (rows v) ≡ₚ map ev_type x.(we_history)
  /\ forall r chip href, r ∈ rows v -> rv_tag r = Some (TagChip chip) -> ch_href chip = Some href ->
     exists r' chip', r' ∈ rows v /\ rv_anchor r' <> rv_anchor r
       /\ href = "#" +:+ rv_anchor r' /\ rv_tag r' = Some (TagChip chip') /\ ch_href chip' = Some ("#" +:+ rv_anchor r)
       /\ (v.(wv_left) = None -> v.(wv_detail).(dt_lastHash) <> rv_anchor r' ->
           let v' := event v (WvHash (rv_anchor r')) in
           (exists a, a ∈ rows v' /\ rv_anchor a = rv_anchor r /\ highlighted a)
           /\ (exists b, b ∈ rows v' /\ rv_anchor b = rv_anchor r' /\ highlighted b /\ expanded b)).
Proof.
  intros Hs. rewrite (timeline_shown _ _ _ v x Hs). split; [apply timeline_anchors|]. split; [apply timeline_types|].
  intros r chip href Hr Htag Hhref. apply timeline_row in Hr as (e & i & He & ->). cbn in Htag.
  destruct (map_get i _) as [p|] eqn:Hp; [|by destruct (event_id_tag e)]. injection Htag as <-.
  rewrite chip_href in Hhref. destruct (partnerIndex p) as [j|] eqn:Hj; [|done]. injection Hhref as <-.
  destruct (pair_partner Date_parse x i p j Hp Hj) as (Hij & [e' He'] & q & Hq & Hback & Eid).
  eexists (row_view Date_parse locale encode _ x _ _ (e', j)), _. rewrite !row_anchor. split_and!.
  - apply timeline_row. by exists e', j.
  - cbn. intros E. by apply eventAnchorId_inj in E.
  - done.
  - cbn. by rewrite Hq.
  - by rewrite chip_href, Hback.
  - intros Hl Hh. cbn [snd] in *. rewrite (follow_anchor _ _ _ _ _ v x j q Hl Hs ltac:(by eexists) Hq Hh). split.
    + eexists. split; [apply timeline_row; exists e, i; by split|]. rewrite row_anchor. split; [done|].
      by eapply selected_row.
    + eexists. split; [apply timeline_row; exists e', j; by split|]. rewrite row_anchor. split; [done|].
      split; [|eapply (selected_row _ _ _ _ _ q); [exact Hq|done|done]]. by eapply (selected_row _ _ _ _ _ q).
Qed.
End Chips.

(** ** Property: removals *)

Section Removals.
Context {St : Type} `{Storage St}.
Context (Date_parse : string -> option Z) (locale : Z -> string * string) (encode : string -> string).
Context (location : Route -> string) (elsewhere : string -> bool).
Context (start : WfView St).
Abbreviation event := (view_event Date_parse locale encode location elsewhere).
Abbreviation handler := (view_handler Date_parse locale encode location elsewhere).
Abbreviation redraw := (rendered Date_parse locale encode elsewhere).
Abbreviation run := (view_run Date_parse locale encode location elsewhere start).
Implicit Types (v w : WfView St) (e : WvEvent) (es : list WvEvent).

(** The dialog was opened by the button of [b] after [es1], Purge only for a
    workflow that had ended, and is open ever since, on the same address unless
    the user navigated. *)
Definition opening es es1 (b : bool) es2 : Prop :=
  es = (es1 ++ WvOpen b :: es2)%list
  /\ (exists x, shown_execution (run es1).(wv_query) = Some x /\ (b = false -> isTerminal x.(we_summary).(wf_status) = true))
  /\ (forall es2' rest, es2 = (es2' ++ rest)%list -> (run (es1 ++ WvOpen b :: es2')%list).(wv_open) = true)
  /\ ((forall r h q, WvNavigate r h q ∉ es2) -> (run es1).(wv_route) = (run es).(wv_route)).

(** The box says [f]: as it was opened, or as it was set since. *)
Definition asked es (f : bool) : Prop :=
  exists es1 b es2, opening es es1 b es2 /\ (f = b \/ WvCheck f ∈ es2).

(** A request that was confirmed: sent while no other one was under way, for the
    address and with the box of that moment, the workflow shown. *)
Definition confirmed es (req : RemovalRequest) : Prop :=
  exists es1 es2 f, es = (es1 ++ WvDialog CfConfirm :: es2)%list
    /\ (run es1).(wv_left) = None /\ (run es1).(wv_pending) = None /\ is_Some (shown_execution (run es1).(wv_query))
    /\ req = removal_request f (run es1).(wv_route) /\ asked es1 f.

Lemma view_confirmed_snoc es e req : confirmed es req -> confirmed (es ++ [e])%list req.
Proof. intros (es1 & es2 & f & -> & H'). exists es1, (es2 ++ [e])%list, f. split; [|done]. by rewrite <- app_assoc. Qed.

Lemma run_snoc es e : run (es ++ [e])%list = event (run es) e.
Proof. unfold view_run. by rewrite fold_left_app. Qed.

Lemma view_opening_snoc es es1 b es2 e :
  opening es es1 b es2 -> (run (es ++ [e])%list).(wv_open) = true ->
  ((forall r h q, e <> WvNavigate r h q) -> (run (es ++ [e])%list).(wv_route) = (run es).(wv_route)) ->
  opening (es ++ [e])%list es1 b (es2 ++ [e])%list.
Proof.
  intros (-> & Hx & Hopen & Hr) Ho Hroute. split; [by rewrite <- app_assoc|]. split; [done|]. split.
  - intros es2' rest E. destruct rest as [|z rest] using rev_ind.
    + rewrite app_nil_r in E. subst es2'. by rewrite <- app_assoc in Ho.
    + rewrite app_assoc in E. apply app_inj_tail in E as [E _]. by eapply Hopen.
  - intros Hn. rewrite Hroute; [apply Hr|].
    + intros r h q Hin. apply (Hn r h q), elem_of_app. by left.
    + intros r h q ->. apply (Hn r h q), elem_of_app. right. by left.
Qed.

(** What a render leaves alone. *)
Lemma rendered_same nav v w :
  let w' := redraw nav v w in
  wv_open w' = wv_open w /\ wv_initialForce w' = wv_initialForce w /\ wv_pending w' = wv_pending w
  /\ wv_sent w' = wv_sent w /\ wv_route w' = wv_route w /\ wv_query w' = wv_query w /\ wv_left w' = wv_left w
  /\ wv_force w' = dialog_box v w.
Proof. unfold rendered. cbn zeta. destruct (_ || _); done. Qed.

(** The events the removal does not depend on. *)
Definition quiet e : bool :=
  match e with
  | WvQuery _ | WvNavigate _ _ _ | WvOpen _ | WvCheck _ | WvDialog _ | WvAnswer _ | WvLeave => false
  | _ => true
  end.
Lemma quiet_same v e : quiet e = true ->
  let w := handler v e in
  wv_open w = wv_open v /\ wv_initialForce w = wv_initialForce v /\ wv_pending w = wv_pending v
  /\ wv_sent w = wv_sent v /\ wv_route w = wv_route v /\ wv_query w = wv_query v /\ wv_left w = wv_left v
  /\ wv_force w = wv_force v.
Proof.
  destruct e as [q|apps|r h q|h|i|[i|]| |b|b|c|ok|b| |ms|]; try done; intros _; cbn [view_handler].
  - by repeat case_match.
  - by repeat case_match.
  - by repeat case_match.
  - unfold copy. by repeat case_match.
  - by repeat case_match.
Qed.

Record removal_inv es : Prop := {
  ri_mounted : is_Some (run es).(wv_force) <-> is_Some (shown_execution (run es).(wv_query));
  ri_open : (run es).(wv_left) = None -> (run es).(wv_open) = true ->
    exists es1 b es2, opening es es1 b es2 /\ (run es).(wv_initialForce) = b
      /\ forall f, (run es).(wv_force) = Some f -> f = b \/ WvCheck f ∈ es2;
  ri_sent : Forall (confirmed es) (run es).(wv_sent);
  ri_pending : forall req, (run es).(wv_pending) = Some req -> last (run es).(wv_sent) = Some req
}.

Lemma dialog_box_mounted v w :
  (is_Some (wv_force v) <-> is_Some (shown_execution (wv_query v))) -> (is_Some (wv_force v) -> is_Some (wv_force w)) ->
  (is_Some (dialog_box v w) <-> is_Some (shown_execution (wv_query w))).
Proof.
  intros M Hf. unfold dialog_box, dialog_props. destruct (shown_execution (wv_query w)) as [x|]; cbn; [|done].
  split; [by intros _|intros _]. destruct (shown_execution (wv_query v)) as [x'|]; cbn; [|by eexists].
  case_match; [|by eexists]. apply Hf, M. by eexists.
Qed.

Lemma dialog_box_kept v w :
  (is_Some (wv_force v) <-> is_Some (shown_execution (wv_query v))) ->
  wv_query w = wv_query v -> wv_open w = wv_open v -> wv_initialForce w = wv_initialForce v ->
  wv_force w = wv_force v -> dialog_box v w = wv_force v.
Proof.
  intros M Eq Eo Ei Ef. unfold dialog_box, dialog_props. rewrite Eq, Eo, Ei.
  destruct (shown_execution (wv_query v)) eqn:E; cbn.
  - by rewrite bool_decide_true.
  - destruct (wv_force v) eqn:F; [|done]. destruct (proj1 M) as [? ?]; [by eexists|done].
Qed.

Lemma dialog_box_cases v w f : dialog_box v w = Some f -> f = wv_initialForce w \/ wv_force w = Some f.
Proof.
  unfold dialog_box, dialog_props. destruct (shown_execution (wv_query w)), (shown_execution (wv_query v)); cbn; try done.
  - case_match; [by right|by left; congruence].
  - left. congruence.
Qed.

(** Events that do not open the dialog. *)
Lemma view_inv_keep es e (v := run es) (w := handler v e) :
  removal_inv es -> v.(wv_left) = None ->
  (is_Some v.(wv_force) -> is_Some w.(wv_force)) ->
  (w.(wv_open) = true -> v.(wv_open) = true /\ w.(wv_initialForce) = v.(wv_initialForce)) ->
  ((forall r h q, e <> WvNavigate r h q) -> w.(wv_route) = v.(wv_route)) ->
  (forall f, w.(wv_force) = Some f -> v.(wv_force) = Some f \/ e = WvCheck f) ->
  Forall (confirmed (es ++ [e])%list) w.(wv_sent) -> (forall req, w.(wv_pending) = Some req -> last w.(wv_sent) = Some req) ->
  removal_inv (es ++ [e])%list.
Proof.
  intros [M O S P] Hl Hf Ho Hr Hb Hs Hp.
  assert (Ev : exists nav, run (es ++ [e])%list = redraw nav v w).
  { rewrite run_snoc. unfold view_event. fold v. rewrite Hl. by eexists. }
  destruct Ev as [nav Ev]. pose proof (rendered_same nav v w) as R. cbn zeta in R. rewrite <- Ev in R.
  destruct R as (Eo & Ei & Ep & Es & Er & Eq & El & Eb). split.
  - rewrite Eb, Eq. by apply dialog_box_mounted.
  - intros _ Hopen. pose proof Hopen as Hopen'. rewrite Eo in Hopen. destruct (Ho Hopen) as [Hv Hi].
    destruct (O Hl Hv) as (es1 & b & es2 & Hop & Hinit & Hbox). exists es1, b, (es2 ++ [e])%list. split_and!.
    + apply view_opening_snoc; [done|done|]. intros Hn. rewrite Er. by apply Hr.
    + fold v in Hinit. congruence.
    + intros f Hfv. rewrite Eb in Hfv. apply dialog_box_cases in Hfv as [->|Hfw]; [left; fold v in Hinit; congruence|].
      destruct (Hb f Hfw) as [Hold| ->]; [|right; apply elem_of_app; right; by left].
      destruct (Hbox f Hold) as [?|?]; [by left|right; apply elem_of_app; by left].
  - by rewrite Es.
  - intros req. rewrite Ep, Es. apply Hp.
Qed.

Lemma sent_later es e : Forall (confirmed es) (run es).(wv_sent) -> Forall (confirmed (es ++ [e])%list) (run es).(wv_sent).
Proof. intros Hs. eapply Forall_impl; [exact Hs|]. intros req. apply view_confirmed_snoc. Qed.

Lemma view_inv_open es b :
  removal_inv es -> (run es).(wv_left) = None -> removal_inv (es ++ [WvOpen b])%list.
Proof.
  intros I Hl. pose proof I as [M O S P].
  assert (Keep : handler (run es) (WvOpen b) = run es \/ ((run es).(wv_open) = true /\ (run es).(wv_initialForce) = b) ->
                 removal_inv (es ++ [WvOpen b])%list).
  { intros Hc. apply view_inv_keep; [done|done|..]; cbn [view_handler] in *; unfold open_removal in *.
    all: destruct (shown_execution (wv_query (run es))) as [x|]; [destruct (b || _)|]; cbn; try done; try (by apply sent_later); try (by left);
      try (intros; by left).
    intros _. destruct Hc as [Hc|[? ?]]; [|split; congruence].
    apply (f_equal (fun v => (wv_open v, wv_initialForce v))) in Hc. cbn in Hc. split; congruence. }
  destruct (shown_execution (wv_query (run es))) as [x|] eqn:Hx;
    [|apply Keep; left; cbn [view_handler]; unfold open_removal; by rewrite Hx].
  destruct (b || isTerminal x.(we_summary).(wf_status)) eqn:Hb;
    [|apply Keep; left; cbn [view_handler]; unfold open_removal; by rewrite Hx, Hb].
  destruct (decide ((run es).(wv_open) = true /\ (run es).(wv_initialForce) = b)) as [Hc|Hc]; [apply Keep; by right|]. clear Keep.
  set (w := {| (run es) with wv_initialForce := b; wv_open := true |}).
  assert (Ev : run (es ++ [WvOpen b])%list = redraw false (run es) w).
  { rewrite run_snoc. unfold view_event. rewrite Hl. cbn [view_handler]. unfold open_removal. by rewrite Hx, Hb. }
  pose proof (rendered_same false (run es) w) as R. cbn zeta in R. rewrite <- Ev in R.
  destruct R as (Eo & Ei & Ep & Es & Er & Eq & El & Eb). split.
  - rewrite Eb, Eq. apply dialog_box_mounted; [by rewrite Hx|done].
  - intros _ _. exists es, b, []. split_and!.
    + split; [done|]. split; [exists x; split; [done|by intros ->]|]. split; [|done].
      intros es2' rest [-> _]%eq_sym%app_nil. by rewrite Eo.
    + by rewrite Ei.
    + intros f Hf. left. rewrite Eb in Hf. unfold dialog_box, dialog_props in Hf. cbn in Hf. rewrite Hx in Hf. cbn in Hf.
      rewrite bool_decide_false in Hf; [cbn in Hf; congruence|]. intros [= ? ?]. by apply Hc.
  - rewrite Es. by apply sent_later.
  - intros req. rewrite Ep, Es. apply P.
Qed.

Lemma view_inv_dialog es c :
  removal_inv es -> (run es).(wv_left) = None -> removal_inv (es ++ [WvDialog c])%list.
Proof.
  intros I Hl. pose proof I as [M O S P].
  assert (Hw : handler (run es) (WvDialog c) = run es
    \/ handler (run es) (WvDialog c) = close_removal (run es)
    \/ (c = CfConfirm /\ (run es).(wv_open) = true /\ (run es).(wv_pending) = None
        /\ exists f, (run es).(wv_force) = Some f
        /\ handler (run es) (WvDialog c) = send_removal (run es))).
  { cbn [view_handler]. unfold dialog_event. destruct (wv_force (run es)) as [f|] eqn:Hf; [|by left].
    unfold confirm_calls, dialog_busy. destruct (wv_open (run es)) eqn:Ho; cbn [negb]; [|by left].
    destruct (wv_pending (run es)) eqn:Hp; [destruct c as [|[]| |]; by left|].
    rewrite bool_decide_false by (by intros [? [=]]).
    destruct c as [|[]| |]; cbn; [by (right; left)|by (right; left)|by left|by (right; left)|].
    right; right. split_and!; try done. by exists f. }
  destruct Hw as [E|[E|(-> & Ho & Hp & f & Hf & E)]].
  1, 2: apply view_inv_keep; try done; rewrite E; cbn; try done; try (by (intros; left)); by apply sent_later.
  unfold send_removal in E. rewrite Hf in E.
  apply view_inv_keep; try done; rewrite E; cbn; try done; try (by (intros; left)).
  - intros f' [= <-]. by left.
  - apply Forall_app. split; [by apply sent_later|]. constructor; [|done].
    destruct (O Hl Ho) as (es1 & b & es2 & Hop & _ & Hbox). exists es, [], f. split_and!; try done.
    + apply M. by eexists.
    + exists es1, b, es2. split; [done|]. by apply Hbox.
  - intros req [= <-]. by rewrite last_snoc.
Qed.

Lemma removal_inv_run es :
  start.(wv_open) = false -> start.(wv_sent) = [] -> start.(wv_pending) = None ->
  (is_Some start.(wv_force) <-> is_Some (shown_execution start.(wv_query))) -> removal_inv es.
Proof.
  intros Ho Hs Hp Hm. induction es as [|e es IH] using rev_ind.
  { split; cbn; [done|..]; [congruence|by rewrite Hs|congruence]. }
  destruct (wv_left (run es)) as [l|] eqn:Hl.
  { assert (E : run (es ++ [e])%list = run es) by (rewrite run_snoc; unfold view_event; by rewrite Hl).
    destruct IH as [M _ S P]. split; rewrite ?E; [done|congruence|by apply sent_later|done]. }
  destruct (quiet e) eqn:Hq.
  { destruct (quiet_same (run es) e Hq) as (Eo & Ei & Ep & Es & Er & Eq & El & Ef). pose proof IH as [M O S P].
    apply view_inv_keep; try done; rewrite ?Eo, ?Ei, ?Ep, ?Es, ?Er, ?Ef; try done; [by left|by apply sent_later]. }
  pose proof IH as [M O S P].
  destruct e as [q|apps|r h q|h|i|i| |b|b|c|ok|b| |ms|]; try done; [| |by apply view_inv_open| |by apply view_inv_dialog| |].
  all: apply view_inv_keep; try done; cbn [view_handler].
  all: try (by apply sent_later); try (by left); try (by (intros; left)).
  - intros Hn. by destruct (Hn r h q).
  - case_match; cbn; [|done]. by intros [? ->].
  - by case_match.
  - by case_match.
  - case_match; cbn; [|by left]. destruct (wv_force (run es)); [|done]. intros f [= <-]. by right.
  - case_match; by apply sent_later.
  - case_match; by apply P.
  - unfold removal_answered. by case_match.
  - unfold removal_answered. by case_match.
  - unfold removal_answered. by case_match.
  - unfold removal_answered. case_match; by left.
  - unfold removal_answered. case_match; by apply sent_later.
  - unfold removal_answered. case_match; cbn; congruence.
Qed.

End Removals.

(** C22: Removals are asked for and confirmed.  On a page opened at any address,
    whatever is clicked, answered and navigated: every removal that is sent was
    confirmed in the dialog while a workflow was shown and no other removal was
    under way; it is for the workflow and the store of the address of that
    moment, and forced exactly as the dialog's box said.  The dialog had been
    open since one of the two buttons opened it, Purge only where the workflow
    shown at that click had ended, and the box says what that button means
    unless it was set since.  The workflow removed is the one of the address at
    that click, unless the user navigated while the dialog was open: then it is
    the one navigated to, whatever its status. *)
Theorem removals_are_confirmed {St : Type} `{Storage St} Date_parse locale encode location elsewhere
    r hash q (storage : St) now (es : list WvEvent) :
  let start := opened_view Date_parse locale encode elsewhere r hash q storage now in
  let v := view_run Date_parse locale encode location elsewhere start es in
  Forall (confirmed Date_parse locale encode location elsewhere start es) v.(wv_sent)
  /\ (forall req, v.(wv_pending) = Some req -> last v.(wv_sent) = Some req).
Proof.
  intros start v. destruct (removal_inv_run Date_parse locale encode location elsewhere start es) as [_ _ Hs Hp]; try done.
  cbn. destruct (shown_execution q); cbn; split; intros [? [=]]; by eexists.
Qed.

(** ** The order of the history *)

Lemma getHistoryOrder_set o (s : gmap string string) : getHistoryOrder (setHistoryOrder o s) = o.
Proof.
  unfold getHistoryOrder, setHistoryOrder, safeGet, safeSet. cbn. rewrite lookup_insert_eq. by destruct o.
Qed.

(** With a storage that works, the order a page is opened with is the one shown
    last. *)
Lemma order_is_kept Date_parse locale encode location elsewhere r hash q (storage : gmap string string) now es :
  let v := view_run Date_parse locale encode location elsewhere
             (opened_view Date_parse locale encode elsewhere r hash q storage now) es in
  getHistoryOrder v.(wv_storage) = v.(wv_order).
Proof.
  cbn zeta. unfold view_run. apply fold_left_inv with (I := fun v : WfView _ => getHistoryOrder v.(wv_storage) = v.(wv_order)).
  - intros v e _ Hv. unfold view_event. destruct (wv_left v); [done|].
    assert (R : forall nav w, wv_storage (rendered Date_parse locale encode elsewhere nav v w) = wv_storage w
                              /\ wv_order (rendered Date_parse locale encode elsewhere nav v w) = wv_order w)
      by (intros nav w; unfold rendered; cbn zeta; by destruct (_ || _)).
    destruct (R (match e with WvNavigate _ _ _ => true | _ => false end)
                (view_handler Date_parse locale encode location elsewhere v e)) as [-> ->].
    destruct e as [q'|apps|r' h q'|h|i|[i|]| |b|b|c|ok|b| |ms|]; cbn [view_handler]; try done.
    + cbn. by repeat case_match.
    + by repeat case_match.
    + repeat case_match; try done. by apply getHistoryOrder_set.
    + unfold open_removal. by repeat case_match.
    + by case_match.
    + unfold dialog_event, confirm_calls. destruct (wv_force v) eqn:F; [|done].
      destruct (wv_open v), (dialog_busy v), c as [|[]| |]; cbn; try done. unfold send_removal. by rewrite F.
    + unfold removal_answered. by case_match.
    + unfold copy. by repeat case_match.
    + by repeat case_match.
  - apply getHistoryOrder_set.
Qed.

(** ** Examples *)

Definition sample_event type sequenceId scheduledId : WorkflowHistoryEvent := {|
  ev_sequenceId := sequenceId; ev_timestamp := ""; ev_type := type; ev_name := Some "charge"; ev_instanceId := None;
  ev_scheduledId := scheduledId; ev_input := None; ev_output := Some "42"; ev_failureDetails := None |}.
Definition sample_execution instanceId status : WorkflowExecution := {|
  we_summary := {| wf_appId := "shop"; wf_instanceId := instanceId; wf_name := "order"; wf_status := status;
                   wf_parentInstanceId := None; wf_createdAt := None; wf_lastUpdatedAt := None |};
  we_input := None; we_output := None; we_customStatus := None; we_replayCount := 0; we_failureDetails := None;
  we_history := [sample_event "TaskScheduled" 0 None; sample_event "TaskCompleted" (-1) (Some 0)] |}.
Definition sample_query instanceId status : WfQuery :=
  {| wq_isLoading := false; wq_isError := false; wq_data := Some (sample_execution instanceId status) |}.
Definition sample_route instanceId : Route := {| rt_appId := "shop"; rt_instanceId := instanceId; rt_store := None |}.

Abbreviation no_parse := (fun _ : string => @None Z).
Abbreviation no_locale := (fun _ : Z => ("", "")).
Abbreviation same_text := (fun s : string => s).
Abbreviation no_location := (fun _ : Route => "").
Abbreviation no_element := (fun _ : string => false).
Definition sample_view : WfView (gmap string string) :=
  opened_view no_parse no_locale same_text no_element (sample_route "i1") "" (sample_query "i1" Completed) ∅ 0.

Lemma chips_lead_to_each_other_witness :
  shown_execution sample_view.(wv_query) = Some (sample_execution "i1" Completed)
  /\ exists r', r' ∈ timeline no_parse no_locale same_text sample_view /\ "#event-1" = "#" +:+ rv_anchor r'.
Proof.
  split; [reflexivity|].
  destruct (chips_lead_to_each_other no_parse no_locale same_text no_location no_element sample_view
              (sample_execution "i1" Completed) eq_refl) as (_ & _ & F).
  destruct (timeline no_parse no_locale same_text sample_view !! 0%nat) as [r|] eqn:Hr; [|vm_compute in Hr; discriminate].
  pose proof (list_elem_of_lookup_2 _ _ _ Hr) as Hin. vm_compute in Hr. injection Hr as <-.
  destruct (F _ _ _ Hin eq_refl eq_refl) as (r' & chip' & H1 & _ & H2 & _). exists r'. split; [exact H1|exact H2].
Defined.

(** The dialog does not name the workflow, and stays open when the user goes
    back to another one: Remove then removes that one, which may still run. *)
Lemma navigated_dialog_removes_another :
  let es := [WvOpen false; WvNavigate (sample_route "i2") "" (sample_query "i2" Running); WvDialog CfConfirm] in
  (view_run no_parse no_locale same_text no_location no_element sample_view es).(wv_sent)
  = [removal_request false (sample_route "i2")].
Proof. vm_compute. reflexivity. Qed.
