(* ===== verification/StateView.v ===== *)
(** * What the state page shows, and its deletions

    The rest of [pages/State.tsx], beside [StatePage]: the texts of its rows and
    panels, the panel of an expanded record, the requests of
    [hooks/useStateRecords.ts], and the page together with the deletions under
    way, which are answered late.  Only the callbacks of the last deletion are
    called. *)

From stdpp Require Import pretty.
From S2P Require Import Prelude JsNum JsMap Text Base64 ApiTypes Dedupe Paging WorkflowsPage StatePage WorkflowView Widgets.
#[local] Open Scope string_scope.
#[local] Open Scope Z_scope.

(** ** types/state.ts *)

Record StateRecord := {
  rc_key : string;
  rc_appId : string;
  rc_logicalKey : string;
  rc_kind : StateKind;
  rc_value : text;
  rc_encoding : StateEncoding;
  rc_size : Z;
  rc_truncated : bool;
  rc_etag : option string;
  rc_ttlExpiresAt : option string;
  rc_contentType : option string
}.

(** ** hooks/useStateRecords.ts: the other requests *)

Definition record_query (key : string) (store : option string) : JsMap string string :=
  set_param "store" store (map_set "key" key []).
Definition record_enabled (key : string) : bool := negb (String.eqb key "").
Definition appids_query (store : option string) (includeInternal : bool) : JsMap string string :=
  let q := set_param "store" store [] in
  if includeInternal then map_set "includeInternal" "true" q else q.
Definition delete_path (encode : string -> string) (store : option string) : string := "/state/delete" +:+ store_query encode store.
Definition delete_error (number_text : Z -> string) (status : Z) : option string :=
  if (200 <=? status) && (status <=? 299) then None else Some ("delete failed: " +:+ number_text status).
Definition invalidateKeyspace : list string := ["state-records"; "state-record"; "state-appids"].

(** ** RecordPanel *)

Definition encoding_name (e : StateEncoding) : string := match e with EncText => "text" | EncBase64 => "base64" end.
Definition kind_name (k : StateKind) : string := match k with KApp => "app" | KWorkflow => "workflow" | KActor => "actor" end.

Definition em_dash : text := [8212].
Definition dotted (t : text) : text := ([32; 183; 32] ++ t)%list.
Definition opt_text (o : option string) : text := match nonempty o with Some s => u s | None => em_dash end.

(** [decoded]: [None] where the raw value is shown. *)
Definition decoded_value (decode : bool) (r : StateRecord) : option text :=
  if decode && bool_decide (r.(rc_encoding) = EncBase64) then decodeBase64Preview r.(rc_value) else None.
(** An empty text is as good as none where the page tests it. *)
Definition is_decoded (decode : bool) (r : StateRecord) : bool :=
  match decoded_value decode r with Some (_ :: _) => true | _ => false end.

Record RecordPanel := {
  rp_title : string;
  rp_button : text;
  rp_copied : text;                 (* what the button copies *)
  rp_toast : string;
  rp_body : text;
  rp_meta : text
}.

Definition record_meta (decode : bool) (r : StateRecord) : text :=
  (u (formatSize r.(rc_size)) ++ dotted (u "version " ++ opt_text r.(rc_etag)) ++ dotted (u (encoding_name r.(rc_encoding)))
   ++ (if is_decoded decode r then dotted (u "decoded, unprintable bytes shown as " ++ [183]) else [])
   ++ match nonempty r.(rc_contentType) with Some c => dotted (u c) | None => [] end
   ++ (if r.(rc_truncated) then dotted (u "truncated at 1 MB") else []))%list.

Definition record_panel (decode : bool) (r : StateRecord) : RecordPanel :=
  let decoded := is_decoded decode r in {|
  rp_title := r.(rc_key);
  rp_button := ([10697; 32] ++ u (if decoded then "Copy raw" else "Copy"))%list;
  rp_copied := r.(rc_value);
  rp_toast := if decoded then "Raw value copied" else "Value copied";
  rp_body := default r.(rc_value) (decoded_value decode r);
  rp_meta := record_meta decode r |}.

Inductive PanelView := PanelLoading | PanelFailed | PanelShown (p : RecordPanel).
Definition panel_view (decode isLoading isError : bool) (data : option StateRecord) : PanelView :=
  if isLoading then PanelLoading
  else match isError, data with false, Some r => PanelShown (record_panel decode r) | _, _ => PanelFailed end.

(** ** The table *)

Record StateRow := {
  sr_key : string;
  sr_selected : bool;
  sr_expanded : bool;
  sr_logicalKey : string;
  sr_kind : option string;         (* a chip, but for application keys *)
  sr_appId : text;
  sr_value : text;
  sr_base64 : bool;
  sr_size : string;
  sr_version : text;
  sr_ttl : option (string * string)
}.

Section Table.
Context (Date_parse : string -> option Z) (locale : Z -> string * string).

Definition state_row (st : StatePage) (rec : StateItem) : StateRow := {|
  sr_key := rec.(si_key);
  sr_selected := bool_decide (rec.(si_key) ∈ st.(sp_paging).(pg_selected));
  sr_expanded := bool_decide (st.(sp_expandedKey) = Some rec.(si_key));
  sr_logicalKey := rec.(si_logicalKey);
  sr_kind := match rec.(si_kind) with KApp => None | k => Some (kind_name k) end;
  sr_appId := opt_text (Some rec.(si_appId));
  sr_value := cellValue rec st.(sp_decodeBase64);
  sr_base64 := bool_decide (rec.(si_encoding) = EncBase64);
  sr_size := formatSize rec.(si_size);
  sr_version := opt_text rec.(si_etag);
  sr_ttl := formatDateTimeParts Date_parse locale rec.(si_ttlExpiresAt) |}.

Inductive TableView := TableLoading | TableFailed | TableEmpty | TableRows (allSelected : bool) (rows : list StateRow).
Definition table_view (isLoading : bool) (v : RecordsView) (st : StatePage) : TableView :=
  if isLoading || negb (bool_decide (is_Some st.(sp_selectedStore))) then TableLoading
  else if v.(vw_isError) then TableFailed
  else match records v with
       | [] => TableEmpty
       | rows => TableRows (length st.(sp_paging).(pg_selected) =? length rows)%nat (map (state_row st) rows)
       end.
End Table.

(** ** The texts around it *)

Definition plural (n : Z) (one many : string) : string := if n =? 1 then one else many.
Definition state_sub (appIds : list string) : string :=
  match appIds with
  | [] => "Browse, add and delete records"
  | _ => "Across " +:+ pretty (length appIds) +:+ " prefix" +:+ plural (Z.of_nat (length appIds)) "" "es"
  end.
(** The filter's options: the chosen application stays one of them. *)
Definition app_options (selectedApp : string) (appIds : list string) : list string :=
  ("" :: (if String.eqb selectedApp "" || existsb (String.eqb selectedApp) appIds then [] else [selectedApp]) ++ appIds)%list.
Definition new_record_disabled (v : RecordsView) (st : StatePage) : bool :=
  negb (bool_decide (is_Some st.(sp_selectedStore))) || v.(vw_isError).
Definition selection_bar (v : RecordsView) (st : StatePage) : option nat :=
  match st.(sp_paging).(pg_selected) with [] => None | keys => if v.(vw_isError) then None else Some (length keys) end.

(** The banner of a deletion: whether it warns, and its text. *)
Definition delete_banner (status : Z * Z) : bool * string :=
  let (ok, failed) := status in
  (0 <? failed,
   "Deleted " +:+ pretty ok +:+ " record" +:+ plural ok "" "s" +:+ (if 0 <? failed then ", " +:+ pretty failed +:+ " failed" else "") +:+ ".").

Definition pager_text (v : RecordsView) (st : StatePage) : text :=
  match records v with
  | [] => u "No results"
  | rows =>
      let offset := st.(sp_paging).(pg_pageOffset) in
      (u (pretty (offset + 1)) ++ [8211] ++ u (pretty (offset + Z.of_nat (length rows))) ++ u " loaded")%list
  end.

(** The confirmation: its title, the keys it lists, and how many more. *)
Definition delete_title (st : StatePage) : string :=
  let n := Z.of_nat (length st.(sp_paging).(pg_selected)) in "Delete " +:+ pretty n +:+ " record" +:+ plural n "" "s" +:+ "?".
Definition delete_listed (st : StatePage) : list string := take 5 st.(sp_paging).(pg_selected).
Definition delete_more (st : StatePage) : option nat :=
  let n := length st.(sp_paging).(pg_selected) in if (5 <? n)%nat then Some (n - 5)%nat else None.

(** ** The page with its deletions *)

Record StateView := {
  sv_page : StatePage;
  sv_sent : list (list string * option string);    (* the deletions sent *)
  sv_waiting : list nat                            (* those without an answer *)
}.

Inductive StateViewEvent :=
  | SvEvent (v : RecordsView) (e : StateEvent)      (* the page's own handlers, with what its query shows *)
  | SvDialog (e : ConfirmEvent)
  | SvAnswer (n : nat) (results : option (list bool)).   (* [None]: the deletion failed *)

Definition close_confirm (st : StatePage) : StatePage := panel_event PCancelDelete st.

Definition send_deletion (s : StateView) : StateView := {|
  sv_page := s.(sv_page);
  sv_sent := (s.(sv_sent) ++ [delete_request s.(sv_page)])%list;
  sv_waiting := (s.(sv_waiting) ++ [length s.(sv_sent)])%list |}.

(** The panel's button opens the confirmation, whose own buttons and the
    deletion's callbacks are events below. *)
Definition page_event_allowed (v : RecordsView) (st : StatePage) (e : StateEvent) : bool :=
  match e with
  | SDeleted _ | SPanel PCancelDelete => false
  | SPanel POpenDelete => bool_decide (is_Some (selection_bar v st))
  | SPanel POpenCreate => negb (new_record_disabled v st)
  | SPanel (PDecode _) => hasBase64 v
  | _ => true
  end.

Definition state_view_event (s : StateView) (e : StateViewEvent) : StateView :=
  match e with
  | SvEvent v e =>
      if page_event_allowed v s.(sv_page) e
      then {| sv_page := state_event v s.(sv_page) e; sv_sent := s.(sv_sent); sv_waiting := s.(sv_waiting) |} else s
  | SvDialog c =>
      fold_left (fun s call =>
        match call with
        | OnConfirm => send_deletion s
        | OnCancel => {| sv_page := close_confirm s.(sv_page); sv_sent := s.(sv_sent); sv_waiting := s.(sv_waiting) |}
        end) (confirm_calls s.(sv_page).(sp_confirmOpen) false c) s
  | SvAnswer n results =>
      if bool_decide (n ∈ s.(sv_waiting)) then
        {| sv_page :=
             if (S n =? length s.(sv_sent))%nat
             then match results with Some r => deleted r s.(sv_page) | None => close_confirm s.(sv_page) end
             else s.(sv_page);
           sv_sent := s.(sv_sent); sv_waiting := filter (fun m => m <> n) s.(sv_waiting) |}
      else s
  end.
Definition state_view_opened (urlApp urlSearch : string) (urlPage : option string) : StateView := {|
  sv_page := initial_state_page urlApp urlSearch urlPage; sv_sent := []; sv_waiting := [] |}.
Definition state_view_run (s : StateView) (es : list StateViewEvent) : StateView := fold_left state_view_event es s.

(** ** Deletions are confirmed and reported *)

Section Deletions.
Context (start : StateView).
Abbreviation run := (state_view_run start).
Implicit Types (es : list StateViewEvent).

(** The deletion of number [n] was confirmed in the open dialog, for the
    selection and the store of that moment. *)
Definition deletion_confirmed es (n : nat) (req : list string * option string) : Prop :=
  exists es1 es2, es = (es1 ++ SvDialog CfConfirm :: es2)%list
    /\ (run es1).(sv_page).(sp_confirmOpen) = true
    /\ n = length (run es1).(sv_sent) /\ req = delete_request (run es1).(sv_page).

(** A report was an answer: to the last deletion sent at that time. *)
Definition deletion_reported es (status : Z * Z) : Prop :=
  exists es1 n results es2, es = (es1 ++ SvAnswer n (Some results) :: es2)%list
    /\ n ∈ (run es1).(sv_waiting) /\ S n = length (run es1).(sv_sent)
    /\ status = (Z.of_nat (count_occ bool_dec results true), Z.of_nat (count_occ bool_dec results false)).

Record deletions_inv es : Prop := {
  di_sent : forall n req, (run es).(sv_sent) !! n = Some req -> deletion_confirmed es n req;
  di_status : forall status, (run es).(sv_page).(sp_deleteStatus) = Some status -> deletion_reported es status
}.

Lemma deletion_confirmed_snoc es e n req : deletion_confirmed es n req -> deletion_confirmed (es ++ [e])%list n req.
Proof. intros (es1 & es2 & -> & Hc). exists es1, (es2 ++ [e])%list. split; [|done]. by rewrite <- app_assoc. Qed.
Lemma deletion_reported_snoc es e status : deletion_reported es status -> deletion_reported (es ++ [e])%list status.
Proof. intros (es1 & n & r & es2 & -> & Hc). exists es1, n, r, (es2 ++ [e])%list. split; [|done]. by rewrite <- app_assoc. Qed.

Lemma state_view_snoc es e : run (es ++ [e])%list = state_view_event (run es) e.
Proof. unfold state_view_run. by rewrite fold_left_app. Qed.

(** Handlers of the page report nothing. *)
Lemma page_status v st e status :
  page_event_allowed v st e = true -> (state_event v st e).(sp_deleteStatus) = Some status -> st.(sp_deleteStatus) = Some status.
Proof.
  destruct e as [app|value| |checked|id|stores persisted| | |key|key| |panel|results]; cbn; try done.
  - unfold choose_store. by repeat case_match.
  - unfold prev_click. by case_match.
  - unfold next_click. by case_match.
  - by destruct panel.
Qed.

Lemma counted (results : list bool) :
  (Z.of_nat (length (List.filter id results)), Z.of_nat (length (List.filter negb results)))
  = (Z.of_nat (count_occ bool_dec results true), Z.of_nat (count_occ bool_dec results false)).
Proof.
  assert (E : length (List.filter id results) = count_occ bool_dec results true
              /\ length (List.filter negb results) = count_occ bool_dec results false); [|by destruct E as [-> ->]].
  induction results as [|[] l [IH1 IH2]]; cbn; [done|by rewrite IH1, IH2|by rewrite IH1, IH2].
Qed.

(** Steps that send nothing and report nothing. *)
Lemma deletions_keep es e :
  deletions_inv es -> (run (es ++ [e])%list).(sv_sent) = (run es).(sv_sent) ->
  (forall status, (run (es ++ [e])%list).(sv_page).(sp_deleteStatus) = Some status ->
     (run es).(sv_page).(sp_deleteStatus) = Some status \/ deletion_reported (es ++ [e])%list status) ->
  deletions_inv (es ++ [e])%list.
Proof.
  intros [Hs Hr] Es Er. split.
  - intros n req. rewrite Es. intros Hn. by apply deletion_confirmed_snoc, Hs.
  - intros status Hst. destruct (Er status Hst) as [H|H]; [by apply deletion_reported_snoc, Hr|done].
Qed.

Lemma deletions_step es e : deletions_inv es -> deletions_inv (es ++ [e])%list.
Proof.
  intros I. pose proof (state_view_snoc es e) as E. destruct e as [v e|c|n results]; cbn [state_view_event] in E.
  - apply deletions_keep; rewrite ?E; [done|by case_match|]. intros status. case_match; cbn; [|by left].
    intros Hst. left. by eapply page_status.
  - assert (Hw : (run (es ++ [SvDialog c])%list).(sv_sent) = (run es).(sv_sent)
                 /\ (run (es ++ [SvDialog c])%list).(sv_page).(sp_deleteStatus) = (run es).(sv_page).(sp_deleteStatus)
               \/ c = CfConfirm /\ (run es).(sv_page).(sp_confirmOpen) = true
                  /\ run (es ++ [SvDialog c])%list = send_deletion (run es)).
    { rewrite E. unfold confirm_calls. destruct (sp_confirmOpen (sv_page (run es))); cbn; [|by left].
      destruct c as [|[]| |]; cbn; [by left..|by right]. }
    destruct Hw as [[Es Er]|(-> & Ho & Es)].
    + apply deletions_keep; [done|done|]. intros status. rewrite Er. by left.
    + destruct I as [Hs Hr]. split; rewrite Es; cbn.
      * intros n req [Hn|[Hn Hreq]]%lookup_app_Some; [by apply deletion_confirmed_snoc, Hs|].
        apply list_lookup_singleton_Some in Hreq as [H0 <-]. exists es, []. split_and!; [done|done|lia|done].
      * intros status Hst. by apply deletion_reported_snoc, Hr.
  - apply deletions_keep; rewrite ?E; [done|by case_match|]. intros status.
    destruct (bool_decide (n ∈ sv_waiting (run es))) eqn:Hin; cbn [sv_page]; [|by left].
    apply bool_decide_eq_true in Hin.
    destruct (Nat.eqb_spec (S n) (length (sv_sent (run es)))) as [Hlast|]; cbn; [|by left].
    destruct results as [r|]; [|by left]. unfold deleted. cbn. rewrite counted. intros [= <-]. right.
    exists es, n, r, []. by split_and!.
Qed.
End Deletions.

(** What is deleted was confirmed, and what is reported was answered.  Whatever
    happens on the page, and however late answers come: every deletion sent is
    the selection, in the store, that the open dialog was confirmed for; and a
    banner counts the results of an answer to what was then the last deletion. *)
Theorem deletions_are_confirmed urlApp urlSearch urlPage (es : list StateViewEvent) :
  let start := state_view_opened urlApp urlSearch urlPage in
  let s := state_view_run start es in
  (forall n req, s.(sv_sent) !! n = Some req -> deletion_confirmed start es n req)
  /\ (forall status, s.(sv_page).(sp_deleteStatus) = Some status -> deletion_reported start es status).
Proof.
  intros start s. assert (I : deletions_inv start es); [|by destruct I].
  induction es as [|e es IH] using rev_ind; [by split|by apply deletions_step].
Qed.

(** The dialog is not busy while a deletion is under way: it can be cancelled,
    and another selection made, which the late answer then clears. *)
Lemma late_answer_clears_selection :
  let v := shown (Some sample_answer) in
  let es := [SvEvent v SCheckAll; SvEvent v (SPanel POpenDelete); SvDialog CfConfirm; SvDialog CfCancel;
             SvEvent v SCheckAll; SvEvent v (SCheck "shop||c"); SvEvent v (SPanel POpenDelete)] in
  let s := {| sv_page := sample_loaded; sv_sent := []; sv_waiting := [] |} in
  delete_listed (state_view_run s es).(sv_page) = ["shop||c"]
  /\ (state_view_run s (es ++ [SvAnswer 0 (Some [true; true])])%list).(sv_page).(sp_confirmOpen) = false
  /\ delete_listed (state_view_run s (es ++ [SvAnswer 0 (Some [true; true])])%list).(sv_page) = [].
Proof. vm_compute. done. Qed.
