(* ===== verification/AppView.v ===== *)
(** * What the application pages show

    The rest of [pages/AppDetail.tsx] and [pages/Applications.tsx], beside
    [AppPages]: the panels and hints of an instance, the texts of its
    confirmations, the requests of [hooks/useAppAction.ts], and the list with
    the dialogs of its rows as an event machine.  A row's state lives as long as
    its key is listed. *)

From stdpp Require Import pretty.
From S2P Require Import Prelude JsNum Text ApiTypes Apps Clock AppPages WorkflowView Widgets.
#[local] Open Scope string_scope.
#[local] Open Scope Z_scope.

(** ** hooks/useAppAction.ts: the requests *)

Definition target_name (t : AppTarget) : string := match t with TargetApp => "app" | TargetDaprd => "daprd" | TargetAll => "all" end.
Definition action_name (a : AppLifecycleAction) : string :=
  match a with ActStart => "start" | ActStop => "stop" | ActRestart => "restart" end.
(** Method and path; [encode] is [encodeURIComponent]. *)
Definition request_path (encode : string -> string) (key : string) (r : Request) : string * string :=
  match r with
  | Lifecycle t a => ("POST", "/apps/" +:+ encode key +:+ "/" +:+ encode (target_name t) +:+ "/" +:+ encode (action_name a))
  | Forget => ("DELETE", "/apps/" +:+ encode key)
  end.
Definition clear_path : string * string := ("POST", "/apps/clear-inactive").

(** ** The detail page *)

(** A value, or the dash. *)
Inductive Cell := Dash | Value (t : string).
Definition cell (o : option string) : Cell := match nonempty o with Some t => Value t | None => Dash end.
Definition number_cell (n : Z) : Cell := if n =? 0 then Dash else Value (pretty n).

Definition status_text (s : ProcStatus) : string := match s with ProcRunning => "running" | ProcStopped => "stopped" end.
(** The lamp and the text of a status. *)
Definition statusCell (status : option ProcStatus) : option (string * string) :=
  (fun s => (ledClass (if bool_decide (s = ProcRunning) then Healthy else UnknownHealth), status_text s)) <$> status.

Section Panels.
Context (Date_parse : string -> option Z).

Definition uptimeCell (running : bool) (startedAt : option string) (now : Z) : Cell :=
  if running then cell (nonempty startedAt ≫= (fun t => formatUptime Date_parse t now)) else Dash.

Inductive PanelValue := PCell (c : Cell) | PStatus (s : option (string * string)) | PText (t : text) | PConnected (b : bool).

Definition app_panel (now : Z) (d : AppDetail) : list (string * PanelValue) :=
  let a := d.(ad_summary) in
  ([("Status", PStatus (statusCell a.(ap_appStatus)));
    ("Uptime", PCell (uptimeCell (running a.(ap_appStatus)) a.(ap_appStartedAt) now));
    ("Runtime", PCell (cell (Some a.(ap_runtime))));
    ("Mode", PText (u (modeLabel a)));
    ("App port", PCell (number_cell a.(ap_appPort)));
    ("App protocol", PCell (cell a.(ap_appProtocol)))]
   ++ (if is_compose a then
         [("Container", PCell (cell d.(ad_appContainerName)));
          ("Container ID", PCell (cell (String.substring 0 12 <$> nonempty d.(ad_appContainerId))));
          ("Compose project", PCell (cell a.(ap_composeProject)))]
       else
         [("App PID", PText (u (appPidDisplay (fun n => pretty n) d)));
          if is_testcontainers a
          then ("Session", PCell (cell (String.substring 0 8 <$> nonempty a.(ap_testcontainersSession))))
          else ("CLI PID", PCell (number_cell a.(ap_cliPid)))])
   ++ [("Command", PCell (cell (Some d.(ad_command))))])%list.

Definition daprd_panel (now : Z) (d : AppDetail) : list (string * PanelValue) :=
  let a := d.(ad_summary) in
  [("Status", PStatus (statusCell a.(ap_daprdStatus)));
   ("Uptime", PCell (uptimeCell (running a.(ap_daprdStatus)) a.(ap_daprdStartedAt) now));
   ("Runtime ver.", PCell (cell (Some d.(ad_runtimeVersion))));
   ("HTTP port", PCell (number_cell a.(ap_httpPort)));
   ("gRPC port", PCell (number_cell a.(ap_grpcPort)));
   ("Metrics port", PCell Dash);
   if is_compose a || is_testcontainers a
   then ("Container", PCell (cell d.(ad_daprdContainerName)))
   else ("daprd PID", PCell (number_cell a.(ap_daprdPid)));
   ("Placement", PConnected (bool_decide (is_Some (nonempty d.(ad_placement)))))].
End Panels.

(** The paths, each of which is copied by a click. *)
Definition paths_panel (d : AppDetail) : list (string * list string) :=
  let one p := match nonempty (Some p) with Some p => [p] | None => [] end in
  [("Resources", d.(ad_resourcePaths)); ("Config", one d.(ad_configPath));
   ("App log", one d.(ad_appLogPath)); ("daprd log", one d.(ad_daprdLogPath))].

Inductive Hint := HintUnreachable | HintNoMetadata | HintAspire | HintOrphaned | HintDaprRun.
Definition hints (caps : Capabilities) (d : AppDetail) : list Hint :=
  let a := d.(ad_summary) in
  ((if unreachable a then [HintUnreachable] else when (negb d.(ad_metadataOk)) [HintNoMetadata])
   ++ when (aspire a && (stopped a.(ap_appStatus) || stopped a.(ap_daprdStatus))) [HintAspire]
   ++ when (orphaned a) [HintOrphaned]
   ++ when (caps.(cap_lifecycle) && source_is a SrcStandalone && negb (aspire a) && negb (orphaned a) && anyRunning a) [HintDaprRun])%list.

Definition features (d : AppDetail) : option string :=
  match default [] d.(ad_enabledFeatures) with [] => None | l => Some (String.concat ", " l) end.
Definition component_chips (d : AppDetail) : list (string * string * string) :=
  map (fun c => (cr_name c, cr_type c, "/components/" +:+ cr_name c)) (default [] d.(ad_summary).(ap_components)).
Definition endpoint_chips (encode : string -> string) (d : AppDetail) : list (string * string) :=
  map (fun e => (e, "/http-endpoints/" +:+ encode e)) (default [] d.(ad_summary).(ap_httpEndpoints)).
Definition logs_link (caps : Capabilities) (a : AppSummary) : option string :=
  if caps.(cap_logs) then Some ("/logs?app=" +:+ appKey a +:+ "&source=daprd") else None.

(** The confirmation of a request: title, button, whether it is dangerous, and
    what it says. *)
Definition quoted (s : string) : string := String (Ascii.ascii_of_nat 34) (s +:+ String (Ascii.ascii_of_nat 34) EmptyString).
Definition capital (a : AppLifecycleAction) : string :=
  match a with ActStart => "Start" | ActStop => "Stop" | ActRestart => "Restart" end.
(** Where the button is: in the header, or on the panel of a half. *)
Inductive Place := OnHeader | OnAppPanel | OnDaprdPanel.
Definition what (a : AppSummary) (p : Place) : string :=
  match p with
  | OnHeader => quoted a.(ap_appId) +:+ " (app + sidecar)"
  | OnAppPanel => "application " +:+ quoted a.(ap_appId)
  | OnDaprdPanel =>
      if is_compose a || aspire a then "sidecar of " +:+ quoted a.(ap_appId)
      else quoted a.(ap_appId) +:+ " (dapr run manages app + sidecar together)"
  end.
Record Confirmation := { cn_title : string; cn_label : string; cn_danger : bool; cn_body : option string }.
Definition confirmation (a : AppSummary) (p : Place) (r : Request) : Confirmation :=
  match r with
  | Lifecycle _ act =>
      {| cn_title := capital act +:+ " " +:+ what a p +:+ "?"; cn_label := capital act;
         cn_danger := bool_decide (act = ActStop); cn_body := None |}
  | Forget =>
      {| cn_title := "Remove " +:+ quoted a.(ap_appId) +:+ " from the list?"; cn_label := "Remove"; cn_danger := true;
         cn_body := Some "It will be hidden until it runs again or the dashboard restarts. Nothing is deleted from Docker." |}
  end.

Inductive DetailView := DetailLoading | DetailMissing | DetailShown (d : AppDetail).
Definition detail_view (isLoading isError : bool) (data : option AppDetail) : DetailView :=
  if isLoading then DetailLoading
  else match isError, data with false, Some d => DetailShown d | _, _ => DetailMissing end.

(** ** The list *)

Record AppRowView := {
  ar_title : option string;
  ar_led : string;
  ar_label : string;
  ar_unreachable : bool;
  ar_link : string;
  ar_secondary : option string;
  ar_swatch : string;
  ar_numbers : list Cell;          (* app, HTTP and gRPC port, the PIDs of daprd and of the app *)
  ar_modeTitle : option string;
  ar_mode : string
}.
Definition app_row (a : AppSummary) : AppRowView :=
  let state := appDisplayState a in {|
  ar_title := match state.(ds_hint) with
              | Some h => Some h
              | None => if unreachable a then Some "publish the daprd HTTP port (e.g. 3500:3500) to enable health & metadata" else None
              end;
  ar_led := "led " +:+ state.(ds_led);
  ar_label := state.(ds_label);
  ar_unreachable := unreachable a;
  ar_link := "/apps/" +:+ appKey a;
  ar_secondary := secondary a;
  ar_swatch := runtimeSwatch a.(ap_runtime);
  ar_numbers := map number_cell [a.(ap_appPort); a.(ap_httpPort); a.(ap_grpcPort); a.(ap_daprdPid); a.(ap_appPid)];
  ar_modeTitle := match nonempty (Some a.(ap_runTemplate)) with
                  | Some t => Some ("run template: " +:+ t)
                  | None => (fun p => "compose project: " +:+ p) <$> nonempty a.(ap_composeProject)
                  end;
  ar_mode := modeLabel a |}.

Definition clear_title (n : nat) : string :=
  "Remove " +:+ pretty n +:+ " stopped application" +:+ (if (n =? 1)%nat then "" else "s") +:+ " from the dashboard?".

Inductive ListRequest := RemoveApp (key : string) | ClearInactive.
#[export] Instance ListRequest_eq_dec : EqDecision ListRequest.
Proof. solve_decision. Defined.

(** A row's own dialog and removal. *)
Record RowState := { rs_confirm : bool; rs_removing : bool }.
Definition new_row : RowState := {| rs_confirm := false; rs_removing := false |}.

Record AppList := {
  al_apps : option (list AppSummary);
  al_rows : gmap string RowState;
  al_confirmClear : bool;
  al_clearing : bool;
  al_toast : option string;
  al_sent : list ListRequest
}.
Definition no_list : AppList := {|
  al_apps := None; al_rows := ∅; al_confirmClear := false; al_clearing := false; al_toast := None; al_sent := [] |}.

Inductive ListEvent :=
  | LPoll (apps : list AppSummary)
  | LRemove (key : string)
  | LRowDialog (key : string) (e : ConfirmEvent)
  | LRemoved (key : string)                       (* a row's removal is answered *)
  | LClear
  | LClearDialog (e : ConfirmEvent)
  | LCleared (error : option string).

Section List.
Context (caps : Capabilities).

Definition listed_keys (l : AppList) : list string := map appKey (default [] l.(al_apps)).
(** The rows of a new list: those that stay keep their state. *)
Definition keep_rows (apps : list AppSummary) (rows : gmap string RowState) : gmap string RowState :=
  list_to_map (map (fun a => (appKey a, default new_row (rows !! appKey a))) apps).

Definition set_row (key : string) (r : RowState) (l : AppList) : AppList := {| l with al_rows := <[key := r]> l.(al_rows) |}.
Definition send (r : ListRequest) (l : AppList) : AppList := {| l with al_sent := (l.(al_sent) ++ [r])%list |}.

Definition row_dialog (key : string) (l : AppList) (call : ConfirmCall) : AppList :=
  match l.(al_rows) !! key, call with
  | Some r, OnCancel => set_row key {| rs_confirm := false; rs_removing := r.(rs_removing) |} l
  | Some _, OnConfirm => send (RemoveApp key) (set_row key {| rs_confirm := false; rs_removing := true |} l)
  | None, _ => l
  end.
Definition clear_dialog (l : AppList) (call : ConfirmCall) : AppList :=
  match call with
  | OnCancel => {| l with al_confirmClear := false |}
  | OnConfirm => send ClearInactive {| l with al_confirmClear := false; al_clearing := true |}
  end.

Definition list_event (l : AppList) (e : ListEvent) : AppList :=
  match e with
  | LPoll apps => {| l with al_apps := Some apps; al_rows := keep_rows apps l.(al_rows) |}
  | LRemove key =>
      match l.(al_rows) !! key with
      | Some r =>
          if existsb (fun a => String.eqb (appKey a) key && row_removable caps a) (default [] l.(al_apps)) && negb r.(rs_removing)
          then set_row key {| rs_confirm := true; rs_removing := false |} l else l
      | None => l
      end
  | LRowDialog key e =>
      fold_left (row_dialog key) (confirm_calls (match l.(al_rows) !! key with Some r => r.(rs_confirm) | None => false end) false e) l
  | LRemoved key =>
      match l.(al_rows) !! key with Some r => set_row key {| rs_confirm := r.(rs_confirm); rs_removing := false |} l | None => l end
  | LClear =>
      if clear_inactive_offered caps (default [] l.(al_apps)) && negb l.(al_clearing)
      then {| l with al_confirmClear := true |} else l
  | LClearDialog e =>
      fold_left clear_dialog
        (confirm_calls (l.(al_confirmClear) && negb (bool_decide (default [] l.(al_apps) = []))) false e) l
  | LCleared error =>
      if l.(al_clearing)
      then {| l with al_clearing := false; al_toast := match error with Some m => Some m | None => l.(al_toast) end |} else l
  end.
Definition list_run (es : list ListEvent) : AppList := fold_left list_event es no_list.
End List.

(** ** Removals from the list *)

Section Removals.
Context (caps : Capabilities).
Abbreviation run := (list_run caps).
Implicit Types (es : list ListEvent).

(** Remove was clicked in the row of [key], which offered it, and the row is
    listed ever since. *)
Definition row_asked es (key : string) : Prop :=
  exists es1 es2, es = (es1 ++ LRemove key :: es2)%list
    /\ (exists a, a ∈ default [] (run es1).(al_apps) /\ appKey a = key /\ row_removable caps a = true)
    /\ (forall es2' rest, es2 = (es2' ++ rest)%list -> key ∈ listed_keys (run (es1 ++ LRemove key :: es2')%list)).
(** Clear inactive was clicked where it was offered. *)
Definition clear_asked es : Prop :=
  exists es1 es2, es = (es1 ++ LClear :: es2)%list /\ clear_inactive_offered caps (default [] (run es1).(al_apps)) = true.

Definition list_confirmed es (r : ListRequest) : Prop :=
  exists es1 e es2, es = (es1 ++ e :: es2)%list
    /\ match r with
       | RemoveApp key => e = LRowDialog key CfConfirm /\ row_asked es1 key
       | ClearInactive => e = LClearDialog CfConfirm /\ clear_asked es1
       end.

Record list_inv es : Prop := {
  li_listed : forall key r, (run es).(al_rows) !! key = Some r -> key ∈ listed_keys (run es);
  li_rows : forall key r, (run es).(al_rows) !! key = Some r -> rs_confirm r = true -> row_asked es key;
  li_clear : (run es).(al_confirmClear) = true -> clear_asked es;
  li_sent : Forall (list_confirmed es) (run es).(al_sent)
}.

Lemma list_run_snoc es e : run (es ++ [e])%list = list_event caps (run es) e.
Proof. unfold list_run. by rewrite fold_left_app. Qed.

Lemma row_asked_snoc es e key : row_asked es key -> key ∈ listed_keys (run (es ++ [e])%list) -> row_asked (es ++ [e])%list key.
Proof.
  intros (es1 & es2 & -> & Ha & Hl) Hk. exists es1, (es2 ++ [e])%list. split; [by rewrite <- app_assoc|]. split; [done|].
  intros es2' rest E. destruct rest as [|z rest] using rev_ind.
  - rewrite app_nil_r in E. subst es2'. by rewrite <- app_assoc in Hk.
  - rewrite app_assoc in E. apply app_inj_tail in E as [E _]. by eapply Hl.
Qed.
Lemma clear_asked_snoc es e : clear_asked es -> clear_asked (es ++ [e])%list.
Proof. intros (es1 & es2 & -> & Ha). exists es1, (es2 ++ [e])%list. split; [|done]. by rewrite <- app_assoc. Qed.
Lemma list_confirmed_snoc es e r : list_confirmed es r -> list_confirmed (es ++ [e])%list r.
Proof. intros (es1 & e' & es2 & -> & Ha). exists es1, e', (es2 ++ [e])%list. split; [|done]. by rewrite <- app_assoc. Qed.

Lemma keep_rows_lookup apps rows key r : keep_rows apps rows !! key = Some r ->
  key ∈ map appKey apps /\ r = default new_row (rows !! key).
Proof.
  unfold keep_rows. intros (a & [= -> ->] & Ha)%elem_of_list_to_map_2%list_elem_of_fmap. split; [|done].
  apply list_elem_of_fmap. by exists a.
Qed.

(** A step that keeps what the invariant is about, up to rows that stay. *)
Lemma list_keep es e :
  list_inv es ->
  (forall key r, (run (es ++ [e])%list).(al_rows) !! key = Some r ->
     key ∈ listed_keys (run (es ++ [e])%list)
     /\ (rs_confirm r = true -> row_asked (es ++ [e])%list key
         \/ exists r', (run es).(al_rows) !! key = Some r' /\ rs_confirm r' = true)) ->
  ((run (es ++ [e])%list).(al_confirmClear) = true -> (run es).(al_confirmClear) = true \/ clear_asked (es ++ [e])%list) ->
  (forall r, r ∈ (run (es ++ [e])%list).(al_sent) -> r ∈ (run es).(al_sent) \/ list_confirmed (es ++ [e])%list r) ->
  list_inv (es ++ [e])%list.
Proof.
  intros [L R C S] Hr Hc Hs. split.
  - intros key r Hk. by apply (Hr key r Hk).
  - intros key r Hk Ho. destruct (Hr key r Hk) as [Hl [Ha|(r' & Hr' & Ho')]%(fun f => f Ho)]; [done|].
    apply row_asked_snoc; [by eapply R|done].
  - intros Ho. destruct (Hc Ho) as [H|H]; [by apply clear_asked_snoc, C|done].
  - apply Forall_forall. intros r Hin. destruct (Hs r Hin) as [H|H]; [|done].
    apply list_confirmed_snoc. rewrite Forall_forall in S. by apply S.
Qed.

(** A change of one listed row. *)
Lemma set_row_keep es e key r0 r l :
  list_inv es -> (run es).(al_rows) !! key = Some r0 ->
  run (es ++ [e])%list = l -> l.(al_rows) = <[key := r]> (run es).(al_rows) -> l.(al_apps) = (run es).(al_apps) ->
  l.(al_confirmClear) = (run es).(al_confirmClear) ->
  (rs_confirm r = true -> rs_confirm r0 = true \/ row_asked (es ++ [e])%list key) ->
  (forall q, q ∈ l.(al_sent) -> q ∈ (run es).(al_sent) \/ list_confirmed (es ++ [e])%list q) ->
  list_inv (es ++ [e])%list.
Proof.
  intros I H0 El Er Ea Ec Ho Hs. pose proof I as [L R C S]. apply list_keep; [done|..]; rewrite El.
  - intros k r'. rewrite Er. unfold listed_keys. rewrite Ea. intros [[<- <-]|[Hne Hk]]%lookup_insert_Some.
    + split; [by eapply L|]. intros Hr. destruct (Ho Hr) as [H|H]; [right; by exists r0|by left].
    + split; [by eapply L|]. intros Hr. right. by exists r'.
  - rewrite Ec. by left.
  - done.
Qed.

Lemma remove_offered es key a :
  a ∈ default [] (run es).(al_apps) -> appKey a = key -> row_removable caps a = true ->
  key ∈ listed_keys (run (es ++ [LRemove key])%list) -> row_asked (es ++ [LRemove key])%list key.
Proof.
  intros Ha Hk Hr Hl. exists es, []. split_and!; [done|by exists a|].
  by intros es2' rest [-> _]%eq_sym%app_nil.
Qed.

Lemma list_step es e : list_inv es -> list_inv (es ++ [e])%list.
Proof.
  intros I. pose proof I as [L R C S]. pose proof (list_run_snoc es e) as E.
  assert (Stay : run (es ++ [e])%list = run es -> list_inv (es ++ [e])%list).
  { intros Er. apply list_keep; [done|..]; rewrite Er.
    - intros key r Hk. split; [by eapply L|]. intros Ho. right. by exists r.
    - by left.
    - by left. }
  destruct e as [apps|key|key c|key| |c|error]; cbn [list_event] in E.
  - apply list_keep; [done|..]; rewrite E; cbn; [|by left|by left].
    intros key r [Hk ->]%keep_rows_lookup. split; [done|]. intros Ho. right.
    destruct (al_rows (run es) !! key) as [r'|]; [by exists r'|done].
  - destruct (al_rows (run es) !! key) as [r|] eqn:Hk; [|by apply Stay].
    destruct (_ && _) eqn:Hg; [|by apply Stay]. apply andb_true_iff in Hg as [Hg _].
    apply existsb_exists in Hg as (a & Ha%list_elem_of_In & [Hak%String.eqb_eq Hr]%andb_true_iff).
    eapply (set_row_keep es _ key r _ _ I Hk E); try done; [|by left].
    intros _. right. apply (remove_offered _ _ a); [done..|]. rewrite E. by eapply L.
  - destruct (al_rows (run es) !! key) as [r|] eqn:Hk; [|by apply Stay].
    assert (Hc : run (es ++ [LRowDialog key c])%list = run es
      \/ run (es ++ [LRowDialog key c])%list = row_dialog key (run es) OnCancel
      \/ c = CfConfirm /\ rs_confirm r = true /\ run (es ++ [LRowDialog key c])%list = row_dialog key (run es) OnConfirm).
    { rewrite E. unfold confirm_calls. destruct (rs_confirm r); cbn [negb]; [|by left].
      destruct c as [|[]| |]; cbn [fold_left]; [by (right; left)|by (right; left)|by left|by (right; left)|by (right; right)]. }
    destruct Hc as [Hc|[Hc|(-> & Ho & Hc)]]; [by apply Stay|..]; unfold row_dialog in Hc; rewrite Hk in Hc.
    + by eapply (set_row_keep es _ key r _ _ I Hk Hc); try done; left.
    + eapply (set_row_keep es _ key r _ _ I Hk Hc); try done. intros q. cbn.
      intros [Hq|Hq]%elem_of_app; [by left|]. apply list_elem_of_singleton in Hq as ->. right.
      exists es, (LRowDialog key CfConfirm), []. split_and!; [done|done|by eapply R].
  - destruct (al_rows (run es) !! key) as [r|] eqn:Hk; [|by apply Stay].
    eapply (set_row_keep es _ key r _ _ I Hk E); try done; by left.
  - destruct (_ && _) eqn:Hg; [|by apply Stay]. apply andb_true_iff in Hg as [Hg _].
    apply list_keep; [done|..]; rewrite E; cbn; [|right; by exists es, []|by left].
    intros key r Hk. split; [by eapply L|]. intros Ho. right. by exists r.
  - assert (Hc : run (es ++ [LClearDialog c])%list = run es
      \/ run (es ++ [LClearDialog c])%list = clear_dialog (run es) OnCancel
      \/ c = CfConfirm /\ al_confirmClear (run es) = true /\ run (es ++ [LClearDialog c])%list = clear_dialog (run es) OnConfirm).
    { rewrite E. unfold confirm_calls. destruct (al_confirmClear (run es)) eqn:Ho; cbn [andb negb]; [|by left].
      destruct (negb (bool_decide _)); cbn [negb]; [|by left].
      destruct c as [|[]| |]; cbn [fold_left]; [by (right; left)|by (right; left)|by left|by (right; left)|by (right; right)]. }
    destruct Hc as [Hc|[Hc|(-> & Ho & Hc)]]; [by apply Stay|..]; (apply list_keep; [done|..]; rewrite Hc; cbn).
    1, 4: intros key r Hk; split; [by eapply L|]; intros Ho'; right; by exists r.
    + done.
    + by left.
    + done.
    + intros q [Hq|Hq]%elem_of_app; [by left|]. apply list_elem_of_singleton in Hq as ->. right.
      exists es, (LClearDialog CfConfirm), []. split_and!; [done|done|by apply C].
  - destruct (al_clearing (run es)); [|by apply Stay]. apply list_keep; [done|..]; rewrite E; cbn; [|by left|by left].
    intros key r Hk. split; [by eapply L|]. intros Ho. right. by exists r.
Qed.

(** Instances are removed on request only.  Whatever is clicked in the list,
    while it is polled and answers are late: a removal that is sent was
    confirmed in the dialog of a row whose Remove was clicked while the instance
    was stopped, and whose key has been listed ever since; and the stopped
    instances are cleared only after that was offered, clicked and confirmed. *)
Theorem list_requests_confirmed es : Forall (list_confirmed es) (run es).(al_sent).
Proof.
  apply li_sent. induction es as [|e es IH] using rev_ind; [|by apply list_step].
  split; cbn; [by intros key r ?%lookup_empty_Some|by intros key r ?%lookup_empty_Some|done|constructor].
Qed.
End Removals.

(** A row's dialog stays open when its instance runs again. *)
Lemma running_instance_removed :
  let stopped_app := sample_app SrcCompose ProcStopped ProcStopped in
  let running_app := sample_app SrcCompose ProcRunning ProcRunning in
  (list_run FULL [LPoll [stopped_app]; LRemove "orders"; LPoll [running_app]; LRowDialog "orders" CfConfirm]).(al_sent)
  = [RemoveApp "orders"].
Proof. vm_compute. reflexivity. Qed.

(** Compose instances are shown by container, others by process. *)
Lemma panels_by_source Date_parse now (d : AppDetail) :
  let labels := map fst (app_panel Date_parse now d ++ daprd_panel Date_parse now d)%list in
  if is_compose d.(ad_summary) then ("App PID" ∉ labels) /\ ("daprd PID" ∉ labels) /\ ("Container ID" ∈ labels)
  else ("App PID" ∈ labels) /\ ("Container ID" ∉ labels)
       /\ ("daprd PID" ∈ labels <-> is_testcontainers d.(ad_summary) = false).
Proof.
  cbn. unfold app_panel, daprd_panel. destruct (is_compose _), (is_testcontainers _); cbn; rewrite !list_elem_of_In; cbn; intuition congruence.
Qed.
