(* ===== verification/Routes.v ===== *)
(** * Links and routes

    [router.tsx] with [components/RouteError.tsx]: which page a path leads to,
    given the server's capabilities, and where the links of the navigation and of
    the pages lead.  The router's choice among the routes that match is a
    parameter with its documented law: a route that matches, if there is one, and
    none with more static segments besides.  It decodes a path's segments, drops
    slashes at its end and compares static segments without regard to case. *)

From Stdlib Require Import Ascii.
From S2P Require Import Prelude JsNum Decimal Text ApiTypes Apps AppPages WorkflowsPage History Shell Listings WorkflowView AppView.
#[local] Open Scope string_scope.
#[local] Open Scope Z_scope.

(** ** Paths *)

(** [encodeURIComponent] and [decodeURIComponent], on the bytes of a text. *)
Definition unreserved (c : ascii) : bool :=
  let n := Z.of_N (N_of_ascii c) in
  ((48 <=? n) && (n <=? 57)) || ((65 <=? n) && (n <=? 90)) || ((97 <=? n) && (n <=? 122))
  || existsb (Ascii.eqb c) ["-"; "_"; "."; "!"; "~"; "*"; "'"; "("; ")"]%char.
Definition hex_digit (n : N) : ascii := ascii_of_N (if (n <? 10)%N then 48 + n else 55 + n).
Definition encode_char (c : ascii) : string :=
  if unreserved c then String c EmptyString
  else let n := N_of_ascii c in String "%" (String (hex_digit (n / 16)) (String (hex_digit (n mod 16)) EmptyString)).
Fixpoint encodeURIComponent (s : string) : string :=
  match s with EmptyString => EmptyString | String c s => encode_char c +:+ encodeURIComponent s end.

Definition hex_of (c : ascii) : option N :=
  let n := N_of_ascii c in
  if ((48 <=? n) && (n <=? 57))%N then Some (n - 48)%N
  else if ((65 <=? n) && (n <=? 70))%N then Some (n - 55)%N
  else if ((97 <=? n) && (n <=? 102))%N then Some (n - 87)%N else None.
(** [None]: the error a [%] without two digits raises. *)
Fixpoint decodeURIComponent (s : string) : option string :=
  match s with
  | EmptyString => Some EmptyString
  | String c t =>
      if Ascii.eqb c "%" then
        match t with
        | String a (String b t) =>
            x ← hex_of a; y ← hex_of b; String (ascii_of_N (16 * x + y)) <$> decodeURIComponent t
        | _ => None
        end
      else String c <$> decodeURIComponent t
  end.

(** The path of a link, without its query and its fragment. *)
Fixpoint pathname (link : string) : string :=
  match link with
  | EmptyString => EmptyString
  | String c s => if Ascii.eqb c "?" || Ascii.eqb c "#" then EmptyString else String c (pathname s)
  end.
(** The router keeps a segment it cannot decode. *)
Definition decoded_segment (s : string) : string := default s (decodeURIComponent s).
Fixpoint drop_empty_end (l : list string) : list string :=
  match l with
  | [] => []
  | s :: l => match drop_empty_end l with
              | [] => if String.eqb s "" then [] else [s]
              | l => s :: l
              end
  end.
(** The segments of a path that begins with a slash. *)
Definition segments (link : string) : list string :=
  map decoded_segment (drop_empty_end (drop 1 (split_slash (pathname link)))).

(** ** router.tsx *)

Inductive Element :=
  | Applications | AppDetailPage | WorkflowsPage | WorkflowDetailPage | StateRecords | Actors | Subscriptions
  | ComponentBuilder | ResourceList (kind : string) | ResiliencyPage | ResiliencyBuilder | HttpEndpoints
  | ControlPlanePage | LogsPage | ReplayPage.
#[export] Instance Element_eq_dec : EqDecision Element.
Proof. solve_decision. Defined.

Inductive Segment := Static (s : string) | Param (name : string).
Record RouteObject := { ro_path : list Segment; ro_element : Element; ro_rumView : string }.

Definition route (path : list Segment) (element : Element) (rumView : string) : RouteObject :=
  {| ro_path := path; ro_element := element; ro_rumView := rumView |}.

Definition gatedChildren (caps : Capabilities) : list RouteObject :=
  ([route [] Applications "Applications"; route [Static "apps"; Param "appId"] AppDetailPage "AppDetail"]
   ++ when caps.(cap_workflows)
        [route [Static "workflows"] WorkflowsPage "Workflows";
         route [Static "workflows"; Param "appId"; Param "instanceId"] WorkflowDetailPage "WorkflowDetail"]
   ++ when (default false caps.(cap_state)) [route [Static "state"] StateRecords "State"]
   ++ [route [Static "actors"] Actors "Actors";
       route [Static "subscriptions"] Subscriptions "Subscriptions";
       route [Static "components"; Static "new"] ComponentBuilder "ComponentBuilder";
       route [Static "components"] (ResourceList "component") "Components";
       route [Static "components"; Param "name"] (ResourceList "component") "Components";
       route [Static "configurations"] (ResourceList "configuration") "Configurations";
       route [Static "configurations"; Param "name"] (ResourceList "configuration") "Configurations";
       route [Static "resiliency"] ResiliencyPage "Resiliency";
       route [Static "resiliency"; Static "new"] ResiliencyBuilder "ResiliencyBuilder";
       route [Static "resiliency"; Param "name"] ResiliencyPage "Resiliency";
       route [Static "http-endpoints"] HttpEndpoints "HttpEndpoints";
       route [Static "http-endpoints"; Param "name"] HttpEndpoints "HttpEndpoints"]
   ++ when caps.(cap_controlPlane) [route [Static "control-plane"] ControlPlanePage "ControlPlane"]
   ++ when caps.(cap_logs) [route [Static "logs"] LogsPage "Logs"]
   ++ [route [Static "replay"] ReplayPage "Replay"])%list.

(** A static segment is matched in any case. *)
Definition lower_ascii (c : ascii) : ascii :=
  let n := N_of_ascii c in if ((65 <=? n) && (n <=? 90))%N then ascii_of_N (n + 32) else c.
Fixpoint lower_text (s : string) : string :=
  match s with EmptyString => EmptyString | String c s => String (lower_ascii c) (lower_text s) end.
Definition same_name (s t : string) : bool := String.eqb (lower_text s) (lower_text t).

Fixpoint matches_path (path : list Segment) (segs : list string) : bool :=
  match path, segs with
  | [], [] => true
  | Static s :: path, t :: segs => same_name s t && matches_path path segs
  | Param _ :: path, t :: segs => negb (String.eqb t "") && matches_path path segs
  | _, _ => false
  end.
Definition params (path : list Segment) : nat := length (List.filter (fun s => match s with Param _ => true | _ => false end) path).

Definition matching (caps : Capabilities) (segs : list string) : list RouteObject :=
  List.filter (fun r => matches_path (ro_path r) segs) (gatedChildren caps).

(** What the router promises. *)
Record router_law (choose : list RouteObject -> list string -> option RouteObject) : Prop := {
  rl_none : forall routes segs, choose routes segs = None -> List.filter (fun r => matches_path (ro_path r) segs) routes = [];
  rl_some : forall routes segs r, choose routes segs = Some r ->
    r ∈ List.filter (fun r => matches_path (ro_path r) segs) routes
    /\ forall r', r' ∈ List.filter (fun r => matches_path (ro_path r) segs) routes -> (params (ro_path r) <= params (ro_path r'))%nat
}.

(** The error page: its message. *)
Inductive RouteFailure := RouteResponse (status : string) (statusText : string) | ThrownError (message : string) | ThrownValue (text : string).
Definition route_error_message (e : RouteFailure) : string :=
  match e with
  | RouteResponse status statusText => status +:+ " " +:+ statusText
  | ThrownError message => message
  | ThrownValue text => text
  end.

Section Routes.
Context (choose : list RouteObject -> list string -> option RouteObject) (caps : Capabilities).

Definition page_of (segs : list string) : option Element := ro_element <$> choose (gatedChildren caps) segs.
(** The page a link leads to. *)
Definition page (link : string) : option Element := page_of (segments link).

(** The page an item of the navigation names. *)
Definition NAV_PAGES : list (string * Element) := [
  ("Applications", Applications); ("Components", ResourceList "component"); ("Workflows", WorkflowsPage); ("State", StateRecords);
  ("Actors", Actors); ("Subscriptions", Subscriptions); ("Resiliency", ResiliencyPage); ("HTTP Endpoints", HttpEndpoints);
  ("Configurations", ResourceList "configuration"); ("Control Plane", ControlPlanePage); ("Logs", LogsPage)].

(** The capability a page needs. *)
Definition needed (e : Element) : option CapabilityName :=
  match e with
  | WorkflowsPage | WorkflowDetailPage => Some CapWorkflows
  | StateRecords => Some CapState
  | ControlPlanePage => Some CapControlPlane
  | LogsPage => Some CapLogs
  | _ => None
  end.

(** *** What the router's law gives *)

Hypothesis law : router_law choose.

Lemma page_none segs : matching caps segs = [] -> page_of segs = None.
Proof.
  intros E. unfold page_of. destruct (choose _ segs) as [r|] eqn:H; [|done].
  apply (rl_some _ law) in H as [H _]. unfold matching in E. rewrite E in H. by apply elem_of_nil in H.
Qed.

(** The route with the fewest parameters. *)
Lemma page_least segs r rest :
  matching caps segs ≡ₚ r :: rest -> Forall (fun r' => (params (ro_path r) < params (ro_path r'))%nat) rest ->
  page_of segs = Some (ro_element r).
Proof.
  intros E F. unfold page_of. destruct (choose _ segs) as [r'|] eqn:H.
  - apply (rl_some _ law) in H as [H1 H2]. change (r' ∈ matching caps segs) in H1. rewrite E in H1.
    apply elem_of_cons in H1 as [->|H1]; [done|]. rewrite Forall_forall in F. specialize (F r' H1).
    assert (Hr : r ∈ matching caps segs) by (rewrite E; left). specialize (H2 r Hr). lia.
  - apply (rl_none _ law) in H. change (matching caps segs = []) in H. rewrite H in E. by apply Permutation_nil_cons in E.
Qed.

Lemma page_only segs r : matching caps segs = [r] -> page_of segs = Some (ro_element r).
Proof. intros E. apply (page_least segs r []); [by rewrite E|constructor]. Qed.

(** The routes that match all lead to one page. *)
Lemma page_unique segs r :
  r ∈ gatedChildren caps -> matches_path (ro_path r) segs = true ->
  Forall (fun r' => matches_path (ro_path r') segs = true -> ro_element r' = ro_element r) (gatedChildren caps) ->
  page_of segs = Some (ro_element r).
Proof.
  intros Hr Hm F. rewrite Forall_forall in F. unfold page_of. destruct (choose _ segs) as [r'|] eqn:H.
  - apply (rl_some _ law) in H as [H _]. apply list_elem_of_In, filter_In in H as [H1%list_elem_of_In H2]. cbn. by rewrite (F r' H1 H2).
  - apply (rl_none _ law) in H. exfalso. assert (Hin : r ∈ @nil RouteObject); [|by apply elem_of_nil in Hin].
    rewrite <- H. apply list_elem_of_In, filter_In. split; [by apply list_elem_of_In|done].
Qed.
End Routes.

(** A goal about a path of which all but some parameters is known. *)
Ltac which_route law :=
  first [ etrans; [eapply (page_only _ _ law); vm_compute; reflexivity|reflexivity]
        | etrans; [apply (page_none _ _ law); vm_compute; reflexivity|reflexivity] ].

(** Every combination of the capabilities. *)
Ltac each_capability caps :=
  destruct caps as [? [] [] [] [[]|] ? ?].

Lemma Forall_when {A} (P : A -> Prop) (b : bool) (l : list A) : Forall P l -> Forall P (when b l).
Proof. by destruct b. Qed.

(** ** Encoded texts *)

Lemma decode_encode_char c s :
  decodeURIComponent (encode_char c +:+ s) = String c <$> decodeURIComponent s.
Proof. destruct c as [[] [] [] [] [] [] [] []]; reflexivity. Qed.

Lemma decode_encode s : decodeURIComponent (encodeURIComponent s) = Some s.
Proof. induction s as [|c s IH]; [done|]. cbn [encodeURIComponent]. by rewrite decode_encode_char, IH. Qed.

(** A text without characters that mean something in a link. *)
Definition special (c : ascii) : bool := existsb (Ascii.eqb c) ["/"; "?"; "#"; "%"]%char.
Fixpoint plain (s : string) : bool := match s with EmptyString => true | String c s => negb (special c) && plain s end.
Definition delimiter (c : ascii) : bool := existsb (Ascii.eqb c) ["/"; "?"; "#"]%char.
Fixpoint one_segment (s : string) : bool :=
  match s with EmptyString => true | String c s => negb (delimiter c) && one_segment s end.

Lemma cons_app c a b : String c a +:+ b = String c (a +:+ b).
Proof. done. Qed.
Lemma string_app_nil_r s : s +:+ "" = s.
Proof. induction s as [|c s IH]; [done|]. by rewrite cons_app, IH. Qed.

Lemma one_segment_app a b : one_segment (a +:+ b) = one_segment a && one_segment b.
Proof. induction a as [|c a IH]; [done|]. rewrite cons_app. cbn [one_segment]. by rewrite IH, andb_assoc. Qed.
Lemma encode_char_segment c : one_segment (encode_char c) = true.
Proof. by destruct c as [[] [] [] [] [] [] [] []]. Qed.
Lemma encode_segment s : one_segment (encodeURIComponent s) = true.
Proof. induction s as [|c s IH]; [done|]. cbn [encodeURIComponent]. by rewrite one_segment_app, encode_char_segment. Qed.
Lemma plain_segment s : plain s = true -> one_segment s = true.
Proof.
  induction s as [|c s IH]; [done|]. cbn. intros [Hc H]%andb_true_iff. rewrite IH, andb_true_r by done.
  unfold special, delimiter in *. cbn in *. rewrite !negb_orb in *. by repeat destruct (Ascii.eqb c _).
Qed.
Lemma plain_decoded s : plain s = true -> decoded_segment s = s.
Proof.
  intros H. unfold decoded_segment. assert (E : decodeURIComponent s = Some s); [|by rewrite E].
  induction s as [|c s IH]; [done|]. cbn in *. apply andb_true_iff in H as [Hc H]. rewrite (IH H).
  destruct (Ascii.eqb_spec c "%") as [->|_]; [by vm_compute in Hc|done].
Qed.
Lemma encode_decoded s : decoded_segment (encodeURIComponent s) = s.
Proof. unfold decoded_segment. by rewrite decode_encode. Qed.
Lemma encode_nonempty s : s <> "" -> encodeURIComponent s <> "".
Proof. intros H E. pose proof (decode_encode s) as D. rewrite E in D. by injection D as <-. Qed.

(** ** The segments of the links *)

Lemma delimiter_slash c : delimiter c = false -> Ascii.eqb c "/" = false /\ Ascii.eqb c "?" || Ascii.eqb c "#" = false.
Proof. unfold delimiter. cbn. rewrite orb_false_r. by intros [? ?]%orb_false_iff. Qed.

Lemma pathname_segment s t : one_segment s = true -> pathname (s +:+ t) = s +:+ pathname t.
Proof.
  induction s as [|c s IH]; [done|]. rewrite !cons_app. cbn [one_segment pathname].
  intros [Hc%negb_true_iff H]%andb_true_iff. destruct (delimiter_slash c Hc) as [_ ->]. by rewrite IH.
Qed.
Lemma segment_no_slash s : one_segment s = true -> no_slash s = true.
Proof.
  induction s as [|c s IH]; [done|]. cbn. intros [Hc%negb_true_iff H]%andb_true_iff.
  destruct (delimiter_slash c Hc) as [-> _]. by apply IH.
Qed.

(** A query ends the path. *)
Definition query_like (q : string) : Prop := pathname q = "".

Lemma segments_one a x q : one_segment a = true -> one_segment x = true -> x <> "" -> query_like q ->
  segments ("/" +:+ a +:+ "/" +:+ x +:+ q) = [decoded_segment a; decoded_segment x].
Proof.
  intros Ha Hx Hn Hq. unfold segments.
  assert (E : pathname ("/" +:+ a +:+ "/" +:+ x +:+ q) = "/" +:+ (a +:+ "/" +:+ x)).
  { change ("/" +:+ a +:+ "/" +:+ x +:+ q) with (String "/" (a +:+ String "/" (x +:+ q))). cbn [pathname Ascii.eqb orb].
    cbn. rewrite pathname_segment by done. cbn. rewrite pathname_segment by done. rewrite Hq.
    by rewrite string_app_nil_r. }
  rewrite E. change ("/" +:+ (a +:+ "/" +:+ x)) with ("" +:+ "/" +:+ (a +:+ "/" +:+ x)).
  rewrite (split_slash_app "") by done. rewrite split_slash_app by by apply segment_no_slash.
  rewrite split_slash_plain by by apply segment_no_slash.
  cbn. rewrite (proj2 (String.eqb_neq x "")) by done. done.
Qed.

Lemma segments_two a x y q :
  one_segment a = true -> one_segment x = true -> one_segment y = true -> y <> "" -> query_like q ->
  segments ("/" +:+ a +:+ "/" +:+ x +:+ "/" +:+ y +:+ q) = [decoded_segment a; decoded_segment x; decoded_segment y].
Proof.
  intros Ha Hx Hy Hn Hq. unfold segments.
  assert (E : pathname ("/" +:+ a +:+ "/" +:+ x +:+ "/" +:+ y +:+ q) = "/" +:+ (a +:+ "/" +:+ (x +:+ "/" +:+ y))).
  { change ("/" +:+ a +:+ "/" +:+ x +:+ "/" +:+ y +:+ q) with (String "/" (a +:+ String "/" (x +:+ String "/" (y +:+ q)))).
    cbn. rewrite pathname_segment by done. cbn. rewrite pathname_segment by done. cbn.
    rewrite pathname_segment by done. rewrite Hq. by rewrite string_app_nil_r. }
  rewrite E. change ("/" +:+ (a +:+ "/" +:+ (x +:+ "/" +:+ y))) with ("" +:+ "/" +:+ (a +:+ "/" +:+ (x +:+ "/" +:+ y))).
  rewrite (split_slash_app "") by done. rewrite !split_slash_app by by apply segment_no_slash.
  rewrite split_slash_plain by by apply segment_no_slash.
  cbn. rewrite (proj2 (String.eqb_neq y "")) by done. done.
Qed.

Lemma segments_plain a x q : one_segment a = true -> plain a = true -> plain x = true -> x <> "" -> query_like q ->
  segments ("/" +:+ a +:+ "/" +:+ x +:+ q) = [a; x].
Proof.
  intros Ha Pa Hx Hn Hq. rewrite segments_one, !plain_decoded; [done|done|done|done|by apply plain_segment|done|done].
Qed.
Lemma segments_pair a x y q : plain a = true -> plain x = true -> plain y = true -> y <> "" -> query_like q ->
  segments ("/" +:+ a +:+ "/" +:+ x +:+ "/" +:+ y +:+ q) = [a; x; y].
Proof.
  intros Ha Hx Hy Hn Hq.
  rewrite segments_two by (done || by apply plain_segment). by rewrite !plain_decoded.
Qed.
Lemma segments_link a x : plain a = true -> plain x = true -> x <> "" -> segments ("/" +:+ a +:+ "/" +:+ x) = [a; x].
Proof.
  intros Ha Hx Hn. pose proof (segments_plain a x "" (plain_segment _ Ha) Ha Hx Hn eq_refl) as E.
  by rewrite string_app_nil_r in E.
Qed.
Lemma segments_encoded a x : plain a = true -> x <> "" -> segments ("/" +:+ a +:+ "/" +:+ encodeURIComponent x) = [a; x].
Proof.
  intros Ha Hn. pose proof (segments_one a (encodeURIComponent x) "" (plain_segment _ Ha) (encode_segment x)
    (encode_nonempty x Hn) eq_refl) as E.
  by rewrite string_app_nil_r, encode_decoded, plain_decoded in E.
Qed.
Lemma segments_detail a i st : plain a = true -> plain i = true -> i <> "" ->
  segments (detailPath a i encodeURIComponent st) = ["workflows"; a; i].
Proof.
  intros Ha Hi Hn. unfold detailPath.
  assert (E : forall q, query_like q -> segments ("/workflows/" +:+ a +:+ "/" +:+ i +:+ q) = ["workflows"; a; i]).
  { intros q Hq. by apply (segments_pair "workflows"). }
  destruct (wp_selectedStore st) as [[|c s]|].
  - pose proof (E "" eq_refl) as E'. by rewrite string_app_nil_r in E'.
  - rewrite <- (E ("?store=" +:+ encodeURIComponent (String c s))) by done. f_equal. by rewrite !string_app_assoc.
  - pose proof (E "" eq_refl) as E'. by rewrite string_app_nil_r in E'.
Qed.
Lemma segments_logs q : segments ("/logs?" +:+ q) = ["logs"].
Proof. reflexivity. Qed.
Lemma segments_workflows store : segments ("/workflows" +:+ store_query encodeURIComponent store) = ["workflows"].
Proof. unfold store_query. by destruct (nonempty store). Qed.
Lemma store_query_like enc store : query_like (store_query enc store).
Proof. unfold query_like, store_query. by destruct (nonempty store). Qed.

(** ** The pages of the links *)

Section Pages.
Context (choose : list RouteObject -> list string -> option RouteObject) (caps : Capabilities).
Hypothesis law : router_law choose.
Abbreviation page_of := (page_of choose caps).
Abbreviation page := (page choose caps).

Lemma page_app key : key <> "" -> page_of ["apps"; key] = Some AppDetailPage.
Proof. intros Hk. destruct key as [|c k]; [done|]. each_capability caps; which_route law. Qed.
Lemma page_workflow a i : a <> "" -> i <> "" ->
  page_of ["workflows"; a; i] = if caps.(cap_workflows) then Some WorkflowDetailPage else None.
Proof. intros Ha Hi. destruct a as [|c a], i as [|c' i]; try done. each_capability caps; which_route law. Qed.
Lemma page_endpoint e : e <> "" -> page_of ["http-endpoints"; e] = Some HttpEndpoints.
Proof. intros He. destruct e as [|c e]; [done|]. each_capability caps; which_route law. Qed.
Lemma page_configuration n : n <> "" -> page_of ["configurations"; n] = Some (ResourceList "configuration").
Proof. intros He. destruct n as [|c n]; [done|]. each_capability caps; which_route law. Qed.

(** The names the builder's route takes. *)
Lemma lower_is c d : d ∈ ["n"; "e"; "w"]%char -> lower_ascii c = d -> c = d \/ c = ascii_of_N (N_of_ascii d - 32).
Proof.
  rewrite !elem_of_cons, elem_of_nil. intros Hd H.
  destruct c as [[] [] [] [] [] [] [] []]; destruct Hd as [->|[->|[->|[]]]]; vm_compute in H; try discriminate H;
    first [by left|by right].
Qed.
Lemma new_names name : same_name "new" name = true ->
  name ∈ ["new"; "neW"; "nEw"; "nEW"; "New"; "NeW"; "NEw"; "NEW"].
Proof.
  unfold same_name. intros H%String.eqb_eq. destruct name as [|a [|b [|c [|d name]]]]; try discriminate H.
  cbn [lower_text] in H. injection H as Ha Hb Hc. symmetry in Ha, Hb, Hc.
  apply lower_is in Ha as [->| ->]; [| |by repeat constructor].
  all: apply lower_is in Hb as [->| ->]; [| |by repeat constructor].
  all: apply lower_is in Hc as [->| ->]; [| |by repeat constructor].
  all: apply list_elem_of_In; cbn; auto 10.
Qed.

(** A component called new, in any case, is the builder's. *)
Lemma page_component name : name <> "" ->
  page_of ["components"; name] = Some (if same_name "new" name then ComponentBuilder else ResourceList "component").
Proof.
  intros Hn. destruct (same_name "new" name) eqn:E.
  - apply (page_least _ _ law _ (route [Static "components"; Static "new"] ComponentBuilder "ComponentBuilder")
             [route [Static "components"; Param "name"] (ResourceList "component") "Components"]); [|by repeat constructor].
    apply new_names in E. each_capability caps; repeat (apply elem_of_cons in E as [->|E]; [reflexivity|]);
      by apply elem_of_nil in E.
  - apply (page_unique _ _ law _ (route [Static "components"; Param "name"] (ResourceList "component") "Components")).
    + unfold gatedChildren. rewrite !elem_of_app. do 3 right. left. do 4 right. left.
    + cbn -[same_name]. by rewrite (proj2 (String.eqb_neq _ _) Hn).
    + unfold gatedChildren. repeat apply Forall_app_2; try apply Forall_when; repeat apply Forall_cons_2; try apply Forall_nil_2;
        intros H; first [discriminate H | reflexivity | idtac].
      cbn [ro_path route matches_path] in H. rewrite E in H. discriminate H.
Qed.

(** A page that is reached is one the server can serve. *)
Lemma reached_is_served segs e c : page_of segs = Some e -> needed e = Some c -> has_capability caps c = true.
Proof.
  unfold Routes.page_of. destruct (choose _ segs) as [r|] eqn:H; [|done]. intros [= <-].
  apply (rl_some _ law) in H as [H _]. apply list_elem_of_In, filter_In in H as [H _].
  assert (F : forallb (fun r => match needed (ro_element r) with Some c => has_capability caps c | None => true end)
    (gatedChildren caps) = true) by (each_capability caps; reflexivity).
  rewrite forallb_forall in F. specialize (F r H). intros E. by rewrite E in F.
Qed.
End Pages.

(** The navigation: each item's path has one route, to the page it names. *)
Definition nav_item_ok (caps : Capabilities) (i : NavItem) : bool :=
  match matching caps (segments i.(nv_to)) with
  | [r] => existsb (fun p => String.eqb p.1 i.(nv_label) && bool_decide (p.2 = ro_element r)) NAV_PAGES
  | _ => false
  end.
Lemma nav_items_ok caps : forallb (nav_item_ok caps) (nav_items caps) = true.
Proof. each_capability caps; vm_compute; reflexivity. Qed.

(** ** Properties *)

(** What a browser takes for a step in the path. *)
Definition dots (n : string) : bool := String.eqb n "." || String.eqb n "..".


(** *** A router *)

(** The first of the matching routes with the fewest parameters. *)
Definition least_params (routes : list RouteObject) (segs : list string) : option RouteObject :=
  let m := List.filter (fun r => matches_path (ro_path r) segs) routes in
  List.find (fun r => forallb (fun r' => (params (ro_path r) <=? params (ro_path r'))%nat) m) m.

Lemma least_exists (m : list RouteObject) : m <> [] ->
  exists r, r ∈ m /\ forall r', r' ∈ m -> (params (ro_path r) <= params (ro_path r'))%nat.
Proof.
  induction m as [|r m IH]; [done|]. intros _. destruct (decide (m = [])) as [->|Hm].
  - exists r. split; [left|]. by intros r' ->%list_elem_of_singleton.
  - destruct (IH Hm) as (s & Hs & Hl). destruct (le_lt_dec (params (ro_path r)) (params (ro_path s))).
    + exists r. split; [left|]. intros r' [->|H]%elem_of_cons; [done|]. specialize (Hl r' H). lia.
    + exists s. split; [by right|]. intros r' [->|H]%elem_of_cons; [lia|by apply Hl].
Qed.

Lemma least_params_law : router_law least_params.
Proof.
  split; unfold least_params; intros routes segs.
  - set (m := List.filter _ routes). intros H. destruct (decide (m = [])) as [|Hm]; [done|].
    destruct (least_exists m Hm) as (r & Hr & Hl). pose proof (List.find_none _ _ H r (proj1 (list_elem_of_In _ _) Hr)) as F.
    apply not_true_iff_false in F. exfalso. apply F, forallb_forall. intros r' Hr'. by apply Nat.leb_le, Hl, list_elem_of_In.
  - intros r [Hin Hf]%List.find_some. split; [by apply list_elem_of_In|]. intros r' Hr'.
    rewrite forallb_forall in Hf. by apply Nat.leb_le, Hf, list_elem_of_In.
Qed.

(** ** Witness *)

(** The workflows page with a store of that name chosen. *)
Definition my_store_page : WfPage :=
  let st := initial_page "" "" None "" in with_store (Some "my store") "" st.(wp_paging) st.

